(** * QUIC loss recovery and congestion control: njt_event_quic_ack.c

    A shallow embedding of the ACK receiver, the RTT sampler, the loss
    detector, the NewReno congestion hooks and the loss/PTO timer of
    [src/event/quic/njt_event_quic_ack.c], and the properties of the
    specification that concern them.

    Conventions.
    - [njt_msec_t], [njt_uint_t], [size_t] and [uint64_t] are 64-bit
      unsigned integers (LP64); they are carried in [Z] and every
      operation that can leave the range is wrapped with [wrap].
      The cast [(njt_msec_int_t) x] is [msec_int x].
    - [njt_current_msec] does not change during a call; every function
      takes it as the argument [now].
    - an intrusive [njt_queue_t] of frames is a [list]; the head of the
      queue is the head of the list.
    - collaborators that live in other files (path MTU discovery, stream
      acknowledgment, the frame allocator, the sender) are variables of
      the section. *)

From Stdlib Require Import ZArith List Bool Lia String.
Import ListNotations.
Open Scope Z_scope.

(** ** Machine integers *)

Definition wrap (x : Z) : Z := x mod 2 ^ 64.

Definition msec_int (x : Z) : Z :=
  if wrap x <? 2 ^ 63 then wrap x else wrap x - 2 ^ 64.

(** Modelled from the spec: the sentinels "no sample" and [UNSET_PN], the
    status codes and the error codes are macros of headers that are not
    among the sources at hand.  The sentinels are the all-ones value of
    their unsigned type ([(njt_msec_t) -1], [(uint64_t) -1]); the error
    codes have the numbers of RFC 9000. *)
Definition NJT_TIMER_INFINITE : Z := 2 ^ 64 - 1.
Definition NJT_QUIC_UNSET_PN : Z := 2 ^ 64 - 1.

Definition NJT_OK : Z := 0.
Definition NJT_ERROR : Z := -1.

Definition NJT_QUIC_MAX_ACK_GAP : Z := 2.
Definition NJT_QUIC_PKT_THR : Z := 3.
Definition NJT_QUIC_TIME_GRANULARITY : Z := 1.
Definition NJT_QUIC_PERSISTENT_CONGESTION_THR : Z := 3.

Definition NJT_QUIC_ERR_FRAME_ENCODING_ERROR : Z := 7.
Definition NJT_QUIC_ERR_PROTOCOL_VIOLATION : Z := 10.
Definition NJT_QUIC_FT_ACK : Z := 2.

(** ** Data model *)

(** Modelled from the spec: the structures ([njt_quic_frame_t],
    [njt_quic_send_ctx_t], [njt_quic_congestion_t], [njt_quic_connection_t],
    [njt_event_t]) are declared in headers that are not among the sources
    at hand.  The records below have the fields that the code of
    [njt_event_quic_ack.c] reads and writes, under the names it uses, with
    the types of section 3 of the specification. *)

Inductive ssl_encryption_level_t :=
| ssl_encryption_initial
| ssl_encryption_early_data
| ssl_encryption_handshake
| ssl_encryption_application.

Definition is_application (l : ssl_encryption_level_t) : bool :=
  match l with ssl_encryption_application => true | _ => false end.

(** The frame type together with the member of the union [u] that the
    code of this file reads for that type. *)
Inductive njt_quic_frame_kind :=
| FT_ACK (largest : Z)
| FT_ACK_ECN (largest : Z)
| FT_STREAM (stream_id : Z)
| FT_RESET_STREAM
| FT_PING
| FT_PATH_CHALLENGE
| FT_PATH_RESPONSE
| FT_CONNECTION_CLOSE
| FT_MAX_DATA (max_data : Z)
| FT_MAX_STREAMS (bidi : bool) (limit : Z)
| FT_MAX_STREAMS2 (bidi : bool) (limit : Z)
| FT_MAX_STREAM_DATA (id : Z) (limit : Z)
| FT_OTHER (code : Z).

Record njt_quic_frame_t := mkFrame {
  level : ssl_encryption_level_t;
  kind : njt_quic_frame_kind;
  pnum : Z;
  send_time : Z;
  plen : Z;
  ignore_congestion : bool
}.

Definition set_plen (v : Z) (f : njt_quic_frame_t) : njt_quic_frame_t :=
  mkFrame (level f) (kind f) (pnum f) (send_time f) v (ignore_congestion f).

Definition set_kind (k : njt_quic_frame_kind) (f : njt_quic_frame_t) :=
  mkFrame (level f) k (pnum f) (send_time f) (plen f) (ignore_congestion f).

(** [njt_quic_ack_stat_t]: send times of the frames acknowledged. *)
Record njt_quic_ack_stat_t := mkStat {
  max_pn : Z;
  oldest : Z;
  newest : Z
}.

Record njt_quic_ack_range_t := mkRange { gap : Z; range : Z }.

Record njt_quic_send_ctx_t := mkCtx {
  ctx_level : ssl_encryption_level_t;
  ctx_pnum : Z;
  largest_ack : Z;
  largest_range : Z;
  first_range : Z;
  nranges : Z;
  ranges : list njt_quic_ack_range_t;
  pending_ack : Z;
  send_ack : Z;
  sent : list njt_quic_frame_t;
  frames : list njt_quic_frame_t
}.

Definition set_sent (q : list njt_quic_frame_t) (x : njt_quic_send_ctx_t) :=
  mkCtx (ctx_level x) (ctx_pnum x) (largest_ack x) (largest_range x)
        (first_range x) (nranges x) (ranges x) (pending_ack x) (send_ack x)
        q (frames x).

Definition set_frames (q : list njt_quic_frame_t) (x : njt_quic_send_ctx_t) :=
  mkCtx (ctx_level x) (ctx_pnum x) (largest_ack x) (largest_range x)
        (first_range x) (nranges x) (ranges x) (pending_ack x) (send_ack x)
        (sent x) q.

Definition set_largest_ack (v : Z) (x : njt_quic_send_ctx_t) :=
  mkCtx (ctx_level x) (ctx_pnum x) v (largest_range x)
        (first_range x) (nranges x) (ranges x) (pending_ack x) (send_ack x)
        (sent x) (frames x).

Definition set_send_ack (v : Z) (x : njt_quic_send_ctx_t) :=
  mkCtx (ctx_level x) (ctx_pnum x) (largest_ack x) (largest_range x)
        (first_range x) (nranges x) (ranges x) (pending_ack x) v
        (sent x) (frames x).

(** The receiver-side range database of a context, rewritten as a whole
    by [njt_quic_drop_ack_ranges]. *)
Definition set_range_db (lr fr nr : Z) (rs : list njt_quic_ack_range_t)
    (pa : Z) (x : njt_quic_send_ctx_t) :=
  mkCtx (ctx_level x) (ctx_pnum x) (largest_ack x) lr fr nr rs pa
        (send_ack x) (sent x) (frames x).

Record njt_quic_congestion_t := mkCg {
  window : Z;
  ssthresh : Z;
  in_flight : Z;
  recovery_start : Z
}.

(** The part of [njt_event_t] this file touches. *)
Inductive timer_handler := h_none | h_lost | h_pto.

Record njt_event_t := mkEvent {
  timer_set : bool;
  posted : bool;
  handler : timer_handler;
  timer_key : Z
}.

Record rtt_t := mkRtt {
  latest_rtt : Z;
  min_rtt : Z;
  avg_rtt : Z;
  rttvar : Z;
  first_rtt : Z
}.

(** Transport parameters and flags that this file only reads:
    [qc->ctp], [qc->tp], [qc->rst_pnum], [qc->closing] and
    [c->ssl->handshaked]. *)
Record params_t := mkParams {
  ctp_ack_delay_exponent : Z;
  ctp_max_ack_delay : Z;
  tp_max_udp_payload_size : Z;
  tp_max_idle_timeout : Z;
  rst_pnum : Z;
  closing : bool;
  handshaked : bool
}.

Record error_t := mkError {
  error : Z;
  error_ftype : Z;
  error_reason : string
}.

Inductive njt_quic_stream_send_state :=
| NJT_QUIC_STREAM_SEND_READY
| NJT_QUIC_STREAM_SEND_SEND
| NJT_QUIC_STREAM_SEND_DATA_SENT
| NJT_QUIC_STREAM_SEND_DATA_RECVD
| NJT_QUIC_STREAM_SEND_RESET_SENT
| NJT_QUIC_STREAM_SEND_RESET_RECVD.

Record njt_quic_stream_t := mkStream {
  send_state : njt_quic_stream_send_state;
  qs_recv_max_data : Z
}.

Inductive ctx_ix := Ix0 | Ix1 | Ix2.

Record send_ctx_array := mkCtxs {
  ctx0 : njt_quic_send_ctx_t;
  ctx1 : njt_quic_send_ctx_t;
  ctx2 : njt_quic_send_ctx_t
}.

Definition get_ctx (a : send_ctx_array) (i : ctx_ix) : njt_quic_send_ctx_t :=
  match i with Ix0 => ctx0 a | Ix1 => ctx1 a | Ix2 => ctx2 a end.

Definition put_ctx (i : ctx_ix) (x : njt_quic_send_ctx_t)
    (a : send_ctx_array) : send_ctx_array :=
  match i with
  | Ix0 => mkCtxs x (ctx1 a) (ctx2 a)
  | Ix1 => mkCtxs (ctx0 a) x (ctx2 a)
  | Ix2 => mkCtxs (ctx0 a) (ctx1 a) x
  end.

(** Modelled from the spec: the macro [njt_quic_get_send_ctx] of the
    connection header maps an encryption level to one of the three send
    contexts; early data shares the context of the application level. *)
Definition njt_quic_get_send_ctx (l : ssl_encryption_level_t) : ctx_ix :=
  match l with
  | ssl_encryption_initial => Ix0
  | ssl_encryption_handshake => Ix1
  | _ => Ix2
  end.

Definition ctx_ix_eqb (i j : ctx_ix) : bool :=
  match i, j with
  | Ix0, Ix0 | Ix1, Ix1 | Ix2, Ix2 => true
  | _, _ => false
  end.

Section Core.

(** The stream tree, the network path and the undecoded tail of an ACK frame
    belong to other files. *)
Context {Tree Path Buf : Type}.

Record njt_quic_streams_t := mkStreams {
  tree : Tree;
  recv_max_data : Z;
  client_max_streams_bidi : Z;
  client_max_streams_uni : Z
}.

Record njt_quic_connection_t := mkConn {
  send_ctx : send_ctx_array;
  rtt : rtt_t;
  congestion : njt_quic_congestion_t;
  pto_count : Z;
  qerr : error_t;
  push : njt_event_t;
  pto : njt_event_t;
  streams : njt_quic_streams_t;
  path : Path;
  params : params_t
}.

Definition set_send_ctx v (qc : njt_quic_connection_t) :=
  mkConn v (rtt qc) (congestion qc) (pto_count qc) (qerr qc) (push qc)
         (pto qc) (streams qc) (path qc) (params qc).
Definition set_rtt v (qc : njt_quic_connection_t) :=
  mkConn (send_ctx qc) v (congestion qc) (pto_count qc) (qerr qc) (push qc)
         (pto qc) (streams qc) (path qc) (params qc).
Definition set_congestion v (qc : njt_quic_connection_t) :=
  mkConn (send_ctx qc) (rtt qc) v (pto_count qc) (qerr qc) (push qc)
         (pto qc) (streams qc) (path qc) (params qc).
Definition set_pto_count v (qc : njt_quic_connection_t) :=
  mkConn (send_ctx qc) (rtt qc) (congestion qc) v (qerr qc) (push qc)
         (pto qc) (streams qc) (path qc) (params qc).
Definition set_qerr v (qc : njt_quic_connection_t) :=
  mkConn (send_ctx qc) (rtt qc) (congestion qc) (pto_count qc) v (push qc)
         (pto qc) (streams qc) (path qc) (params qc).
Definition set_push v (qc : njt_quic_connection_t) :=
  mkConn (send_ctx qc) (rtt qc) (congestion qc) (pto_count qc) (qerr qc) v
         (pto qc) (streams qc) (path qc) (params qc).
Definition set_pto v (qc : njt_quic_connection_t) :=
  mkConn (send_ctx qc) (rtt qc) (congestion qc) (pto_count qc) (qerr qc)
         (push qc) v (streams qc) (path qc) (params qc).
Definition set_streams v (qc : njt_quic_connection_t) :=
  mkConn (send_ctx qc) (rtt qc) (congestion qc) (pto_count qc) (qerr qc)
         (push qc) (pto qc) v (path qc) (params qc).
Definition set_path v (qc : njt_quic_connection_t) :=
  mkConn (send_ctx qc) (rtt qc) (congestion qc) (pto_count qc) (qerr qc)
         (push qc) (pto qc) (streams qc) v (params qc).

Definition ctx_of (qc : njt_quic_connection_t) (i : ctx_ix) :=
  get_ctx (send_ctx qc) i.

Definition set_ctx (i : ctx_ix) (x : njt_quic_send_ctx_t)
    (qc : njt_quic_connection_t) :=
  set_send_ctx (put_ctx i x (send_ctx qc)) qc.

(** Modelled from the spec: [njt_post_event] is a scheduling primitive of
    the event loop; the event is marked posted (and linked into the posted
    queue, which this file never reads). *)
Definition njt_post_event (ev : njt_event_t) : njt_event_t :=
  mkEvent (timer_set ev) true (handler ev) (timer_key ev).

Definition post_push (qc : njt_quic_connection_t) :=
  set_push (njt_post_event (push qc)) qc.

(** ** Loss threshold (lines 51-60) *)

Definition njt_quic_lost_threshold (qc : njt_quic_connection_t) : Z :=
  let thr := Z.max (latest_rtt (rtt qc)) (avg_rtt (rtt qc)) in
  let thr := wrap (thr + Z.shiftr thr 3) in
  Z.max thr NJT_QUIC_TIME_GRANULARITY.

(** ** RTT sampling (lines 178-219) *)

Definition njt_quic_rtt_sample (now : Z) (qc : njt_quic_connection_t)
    (ack_delay_field : Z) (send_time : Z) : njt_quic_connection_t :=
  let r := rtt qc in
  let latest := wrap (now - send_time) in
  if min_rtt r =? NJT_TIMER_INFINITE then
    set_rtt (mkRtt latest latest latest (latest / 2) now) qc
  else
    let min' := Z.min (min_rtt r) latest in
    let ack_delay :=
      wrap (Z.shiftl ack_delay_field (ctp_ack_delay_exponent (params qc)))
      / 1000 in
    let ack_delay :=
      if handshaked (params qc)
      then Z.min ack_delay (ctp_max_ack_delay (params qc))
      else ack_delay in
    let adjusted_rtt :=
      if wrap (min' + ack_delay) <? latest
      then wrap (latest - ack_delay) else latest in
    let rttvar_sample := Z.abs (msec_int (avg_rtt r - adjusted_rtt)) in
    let rttvar' :=
      wrap (rttvar r
            + wrap (Z.shiftr rttvar_sample 2 - Z.shiftr (rttvar r) 2)) in
    let avg' :=
      wrap (avg_rtt r
            + wrap (Z.shiftr adjusted_rtt 3 - Z.shiftr (avg_rtt r) 3)) in
    set_rtt (mkRtt latest min' avg' rttvar' (first_rtt r)) qc.

(** ** NewReno hooks (lines 314-375 and 660-712) *)

Definition set_window v (cg : njt_quic_congestion_t) :=
  mkCg v (ssthresh cg) (in_flight cg) (recovery_start cg).
Definition set_in_flight v (cg : njt_quic_congestion_t) :=
  mkCg (window cg) (ssthresh cg) v (recovery_start cg).
Definition set_recovery_start v (cg : njt_quic_congestion_t) :=
  mkCg (window cg) (ssthresh cg) (in_flight cg) v.

(** The tail shared by both hooks, label [done]. *)
Definition congestion_done (blocked : bool) (qc : njt_quic_connection_t) :=
  if blocked && (in_flight (congestion qc) <? window (congestion qc))
  then post_push qc else qc.

(** In congestion avoidance the code divides by [cg->window]; a window of
    zero is undefined behaviour in C and gives 0 with [Z.div]. *)
Definition njt_quic_congestion_ack (now : Z) (qc : njt_quic_connection_t)
    (f : njt_quic_frame_t) : njt_quic_connection_t :=
  if plen f =? 0 then qc
  else if pnum f <? rst_pnum (params qc) then qc
  else
    let cg := congestion qc in
    let blocked := window cg <=? in_flight cg in
    let cg := set_in_flight (wrap (in_flight cg - plen f)) cg in
    let timer := wrap (send_time f - recovery_start cg) in
    if msec_int timer <=? 0 then
      congestion_done blocked (set_congestion cg qc)
    else
      let cg :=
        if window cg <? ssthresh cg
        then set_window (wrap (window cg + plen f)) cg
        else set_window
               (wrap (window cg
                      + wrap (tp_max_udp_payload_size (params qc) * plen f)
                        / window cg)) cg in
      let idle2 := wrap (tp_max_idle_timeout (params qc) * 2) in
      let timer := wrap (wrap (recovery_start cg - now) + idle2) in
      let cg :=
        if msec_int timer <? 0
        then set_recovery_start (wrap (now - idle2)) cg
        else cg in
      congestion_done blocked (set_congestion cg qc).

(** [njt_quic_congestion_lost] writes [f->plen = 0]; the frame as it is
    after the call is returned with the connection. *)
Definition njt_quic_congestion_lost (now : Z) (qc : njt_quic_connection_t)
    (f : njt_quic_frame_t) : njt_quic_connection_t * njt_quic_frame_t :=
  if plen f =? 0 then (qc, f)
  else if pnum f <? rst_pnum (params qc) then (qc, f)
  else
    let cg := congestion qc in
    let blocked := window cg <=? in_flight cg in
    let cg := set_in_flight (wrap (in_flight cg - plen f)) cg in
    let f' := set_plen 0 f in
    let timer := wrap (send_time f - recovery_start cg) in
    if msec_int timer <=? 0 then
      (congestion_done blocked (set_congestion cg qc), f')
    else
      let cg := set_recovery_start now cg in
      let cg := set_window (window cg / 2) cg in
      let mups2 := wrap (tp_max_udp_payload_size (params qc) * 2) in
      let cg := if window cg <? mups2 then set_window mups2 cg else cg in
      let cg := mkCg (window cg) (window cg) (in_flight cg)
                     (recovery_start cg) in
      (congestion_done blocked (set_congestion cg qc), f').

(** ** Dropping receiver-side ranges (lines 378-433) *)

(** The [for] loop over [ctx->ranges]: [i] is the index of the head of
    [rs], [todo] the number of entries up to [nranges].  [Some (n, rs')]
    is an early [return] with the new [nranges] and the entries as they
    are then; [None] is the loop running to its end. *)
Fixpoint drop_ranges_loop (pn smallest i : Z) (todo : nat)
    (rs : list njt_quic_ack_range_t)
    : option (Z * list njt_quic_ack_range_t) :=
  match todo, rs with
  | S todo', r :: rs' =>
      let largest := wrap (wrap (smallest - gap r) - 2) in
      let smallest := wrap (largest - range r) in
      if largest <=? pn then Some (i, r :: rs')
      else if smallest <=? pn then
        Some (i + 1, mkRange (gap r) (wrap (wrap (largest - pn) - 1)) :: rs')
      else
        match drop_ranges_loop pn smallest (i + 1) todo' rs' with
        | Some (n, t) => Some (n, r :: t)
        | None => None
        end
  | _, _ => None
  end.

Definition njt_quic_drop_ack_ranges (ctx : njt_quic_send_ctx_t) (pn : Z)
    : njt_quic_send_ctx_t :=
  let base := largest_range ctx in
  if base =? NJT_QUIC_UNSET_PN then ctx
  else
    let pa :=
      if negb (pending_ack ctx =? NJT_QUIC_UNSET_PN)
         && (pending_ack ctx <=? pn)
      then NJT_QUIC_UNSET_PN else pending_ack ctx in
    let largest := base in
    let smallest := wrap (largest - first_range ctx) in
    if largest <=? pn then
      set_range_db NJT_QUIC_UNSET_PN 0 0 (ranges ctx) pa ctx
    else if smallest <=? pn then
      set_range_db base (wrap (wrap (largest - pn) - 1)) 0 (ranges ctx) pa ctx
    else
      match drop_ranges_loop pn smallest 0 (Z.to_nat (nranges ctx))
                             (ranges ctx) with
      | Some (n, rs) => set_range_db base (first_range ctx) n rs pa ctx
      | None =>
          set_range_db base (first_range ctx) (nranges ctx) (ranges ctx) pa ctx
      end.

(** ** One ACK range (lines 222-311) *)

(** [njt_quic_handle_path_mtu] (path MTU discovery) and
    [njt_quic_handle_stream_ack] (stream credit) are defined elsewhere. *)
Variable njt_quic_handle_path_mtu : Path -> Z -> Z -> Z * Path.
Variable njt_quic_handle_stream_ack :
  njt_quic_streams_t -> njt_quic_frame_t -> njt_quic_streams_t.

Definition set_error (e : Z) (qc : njt_quic_connection_t) :=
  set_qerr (mkError e (error_ftype (qerr qc)) (error_reason (qerr qc))) qc.

(** What the walk over [ctx->sent] carries: the connection, the
    statistics [st] and the flag [found]. *)
Record ack_walk_t := mkWalk {
  w_qc : njt_quic_connection_t;
  w_st : njt_quic_ack_stat_t;
  w_found : bool
}.

(** The body of [if (f->pnum >= min)], up to the unlinking of [f]. *)
Definition ack_one (now : Z) (i : ctx_ix) (max : Z) (f : njt_quic_frame_t)
    (w : ack_walk_t) : ack_walk_t :=
  let qc := njt_quic_congestion_ack now (w_qc w) f in
  let qc :=
    match kind f with
    | FT_ACK l | FT_ACK_ECN l =>
        set_ctx i (njt_quic_drop_ack_ranges (ctx_of qc i) l) qc
    | FT_STREAM _ | FT_RESET_STREAM =>
        set_streams (njt_quic_handle_stream_ack (streams qc) f) qc
    | _ => qc
    end in
  let st := w_st w in
  let st :=
    if pnum f =? max then mkStat (send_time f) (oldest st) (newest st)
    else st in
  let st :=
    if (oldest st =? NJT_TIMER_INFINITE) || (send_time f <? oldest st)
    then mkStat (max_pn st) (send_time f) (newest st) else st in
  let st :=
    if (newest st =? NJT_TIMER_INFINITE) || (newest st <? send_time f)
    then mkStat (max_pn st) (oldest st) (send_time f) else st in
  mkWalk qc st true.

(** The [while] loop over [ctx->sent]: the frames left in the queue and
    the state after the walk. *)
Fixpoint ack_walk (now : Z) (i : ctx_ix) (min max : Z)
    (q : list njt_quic_frame_t) (w : ack_walk_t)
    : list njt_quic_frame_t * ack_walk_t :=
  match q with
  | [] => ([], w)
  | f :: q' =>
      if max <? pnum f then (q, w)
      else if min <=? pnum f then ack_walk now i min max q' (ack_one now i max f w)
      else
        let '(kept, w') := ack_walk now i min max q' w in
        (f :: kept, w')
  end.

Definition njt_quic_handle_ack_frame_range (now : Z)
    (qc : njt_quic_connection_t) (i : ctx_ix) (min max : Z)
    (st : njt_quic_ack_stat_t)
    : Z * njt_quic_connection_t * njt_quic_ack_stat_t :=
  let '(rc, p) :=
    if is_application (ctx_level (ctx_of qc i))
    then njt_quic_handle_path_mtu (path qc) min max
    else (NJT_OK, path qc) in
  let qc := set_path p qc in
  if negb (rc =? NJT_OK) then (NJT_ERROR, qc, st)
  else
    let st := mkStat NJT_TIMER_INFINITE (oldest st) (newest st) in
    let '(kept, w) :=
      ack_walk now i min max (sent (ctx_of qc i)) (mkWalk qc st false) in
    let qc := set_ctx i (set_sent kept (ctx_of (w_qc w) i)) (w_qc w) in
    if negb (w_found w) then
      if max <? ctx_pnum (ctx_of qc i) then (NJT_OK, qc, w_st w)
      else
        (NJT_ERROR,
         set_qerr (mkError NJT_QUIC_ERR_PROTOCOL_VIOLATION NJT_QUIC_FT_ACK
                           "unknown packet number") qc,
         w_st w)
    else
      let qc := if negb (timer_set (push qc)) then post_push qc else qc in
      (NJT_OK, set_pto_count 0 qc, w_st w).

(** ** Resending a lost packet (lines 559-657) *)

Variable njt_quic_find_stream : Tree -> Z -> option njt_quic_stream_t.

Definition queue_insert_tail (i : ctx_ix) (f : njt_quic_frame_t)
    (qc : njt_quic_connection_t) :=
  set_ctx i (set_frames (frames (ctx_of qc i) ++ [f]) (ctx_of qc i)) qc.

(** Modelled from the spec: [njt_quic_queue_frame] is the sender's
    enqueue, defined in another file; a frame is re-queued at the tail of
    the [frames] of the context of its level. *)
Definition njt_quic_queue_frame (qc : njt_quic_connection_t)
    (f : njt_quic_frame_t) :=
  queue_insert_tail (njt_quic_get_send_ctx (level f)) f qc.

(** The [switch] of the resend loop, on a frame just unlinked. *)
Definition resend_one (i : ctx_ix) (f : njt_quic_frame_t)
    (qc : njt_quic_connection_t) : njt_quic_connection_t :=
  match kind f with
  | FT_ACK _ | FT_ACK_ECN _ =>
      if is_application (ctx_level (ctx_of qc i))
      then set_ctx i (set_send_ack NJT_QUIC_MAX_ACK_GAP (ctx_of qc i)) qc
      else qc
  | FT_PING | FT_PATH_CHALLENGE | FT_PATH_RESPONSE | FT_CONNECTION_CLOSE => qc
  | FT_MAX_DATA _ =>
      njt_quic_queue_frame qc
        (set_kind (FT_MAX_DATA (recv_max_data (streams qc))) f)
  | FT_MAX_STREAMS b _ =>
      njt_quic_queue_frame qc
        (set_kind (FT_MAX_STREAMS b
                     (if b then client_max_streams_bidi (streams qc)
                      else client_max_streams_uni (streams qc))) f)
  | FT_MAX_STREAMS2 b _ =>
      njt_quic_queue_frame qc
        (set_kind (FT_MAX_STREAMS2 b
                     (if b then client_max_streams_bidi (streams qc)
                      else client_max_streams_uni (streams qc))) f)
  | FT_MAX_STREAM_DATA id _ =>
      match njt_quic_find_stream (tree (streams qc)) id with
      | None => qc
      | Some qs =>
          njt_quic_queue_frame qc
            (set_kind (FT_MAX_STREAM_DATA id (qs_recv_max_data qs)) f)
      end
  | FT_STREAM sid =>
      match njt_quic_find_stream (tree (streams qc)) sid with
      | Some qs =>
          match send_state qs with
          | NJT_QUIC_STREAM_SEND_RESET_SENT
          | NJT_QUIC_STREAM_SEND_RESET_RECVD => qc
          | _ => queue_insert_tail i f qc
          end
      | None => queue_insert_tail i f qc
      end
  | _ => queue_insert_tail i f qc
  end.

(** The [do ... while] loop: the frames left in [sent] and the
    connection after the frames of packet [pn] have been dispatched. *)
Fixpoint resend_walk (i : ctx_ix) (pn : Z) (q : list njt_quic_frame_t)
    (qc : njt_quic_connection_t)
    : list njt_quic_frame_t * njt_quic_connection_t :=
  match q with
  | [] => ([], qc)
  | f :: q' =>
      if pnum f =? pn then resend_walk i pn q' (resend_one i f qc)
      else (q, qc)
  end.

(** [njt_quic_resend_frames] is called on a non-empty [sent] only. *)
Definition njt_quic_resend_frames (now : Z) (qc : njt_quic_connection_t)
    (i : ctx_ix) : njt_quic_connection_t :=
  match sent (ctx_of qc i) with
  | [] => qc
  | start :: rest =>
      let pn := pnum start in
      let '(qc, start') := njt_quic_congestion_lost now qc start in
      let '(kept, qc) := resend_walk i pn (start' :: rest) qc in
      let qc := set_ctx i (set_sent kept (ctx_of qc i)) qc in
      if closing (params qc) then qc else post_push qc
  end.

(** ** Timers (lines 715-814) *)

Definition njt_quic_pto (qc : njt_quic_connection_t) (i : ctx_ix) : Z :=
  let duration := avg_rtt (rtt qc) in
  let duration :=
    wrap (duration
          + Z.max (wrap (4 * rttvar (rtt qc))) NJT_QUIC_TIME_GRANULARITY) in
  if is_application (ctx_level (ctx_of qc i)) && handshaked (params qc)
  then wrap (duration + ctp_max_ack_delay (params qc))
  else duration.

(** Modelled from the spec: [njt_del_timer] and [njt_add_timer] are the
    scheduling primitives of the event loop, defined in another file.
    Deleting clears [timer_set]; adding to a timer that is not set arms
    it to expire [ms] milliseconds from now. *)
Definition njt_del_timer (ev : njt_event_t) : njt_event_t :=
  mkEvent false (posted ev) (handler ev) (timer_key ev).

Definition njt_add_timer (now : Z) (ev : njt_event_t) (ms : Z) : njt_event_t :=
  mkEvent true (posted ev) (handler ev) (wrap (now + ms)).

Definition set_handler (h : timer_handler) (ev : njt_event_t) : njt_event_t :=
  mkEvent (timer_set ev) (posted ev) h (timer_key ev).

(** The deadline of the probe timeout of a context, as a signed wait:
    the expression shared by the timer and by its handler.  The shift by
    [pto_count] is the C shift for [pto_count < 64]. *)
Definition pto_wait (now : Z) (qc : njt_quic_connection_t) (i : ctx_ix)
    (f : njt_quic_frame_t) : Z :=
  msec_int (wrap (send_time f
                  + wrap (Z.shiftl (njt_quic_pto qc i) (pto_count qc)))
            - now).

(** One turn of the [for] loop of [njt_quic_set_lost_timer]; the
    accumulator is the pair of the locals [lost] and [pto]. *)
Definition lost_timer_ctx (now : Z) (qc : njt_quic_connection_t)
    (acc : Z * Z) (i : ctx_ix) : Z * Z :=
  let '(lost, pto) := acc in
  let ctx := ctx_of qc i in
  match sent ctx with
  | [] => acc
  | f :: _ =>
      let lost :=
        if negb (largest_ack ctx =? NJT_QUIC_UNSET_PN) then
          let w := msec_int (wrap (send_time f + njt_quic_lost_threshold qc)
                             - now) in
          if pnum f <=? largest_ack ctx then
            let w :=
              if (w <? 0)
                 || (NJT_QUIC_PKT_THR <=? wrap (largest_ack ctx - pnum f))
              then 0 else w in
            if (lost =? -1) || (w <? lost) then w else lost
          else lost
        else lost in
      let w := pto_wait now qc i (last (sent ctx) f) in
      let w := if w <? 0 then 0 else w in
      let pto := if (pto =? -1) || (w <? pto) then w else pto in
      (lost, pto)
  end.

Definition njt_quic_set_lost_timer (now : Z) (qc : njt_quic_connection_t)
    : njt_quic_connection_t :=
  let '(lost, pto_w) :=
    fold_left (lost_timer_ctx now qc) [Ix0; Ix1; Ix2] (-1, -1) in
  let qc := if timer_set (pto qc) then set_pto (njt_del_timer (pto qc)) qc
            else qc in
  if negb (lost =? -1) then
    set_pto (njt_add_timer now (set_handler h_lost (pto qc)) lost) qc
  else if negb (pto_w =? -1) then
    set_pto (njt_add_timer now (set_handler h_pto (pto qc)) pto_w) qc
  else qc.

(** ** Loss detection (lines 436-556) *)

Definition njt_quic_pcg_duration (qc : njt_quic_connection_t) : Z :=
  let duration := avg_rtt (rtt qc) in
  let duration :=
    wrap (duration
          + Z.max (wrap (4 * rttvar (rtt qc))) NJT_QUIC_TIME_GRANULARITY) in
  let duration := wrap (duration + ctp_max_ack_delay (params qc)) in
  wrap (duration * NJT_QUIC_PERSISTENT_CONGESTION_THR).

Definition njt_quic_persistent_congestion (now : Z)
    (qc : njt_quic_connection_t) : njt_quic_connection_t :=
  let cg := set_recovery_start now (congestion qc) in
  let cg := set_window (wrap (tp_max_udp_payload_size (params qc) * 2)) cg in
  set_congestion cg qc.

(** The locals of [njt_quic_detect_lost] that the scan updates. *)
Record lost_scan_t := mkScan {
  s_qc : njt_quic_connection_t;
  s_oldest : Z;
  s_newest : Z;
  s_nlost : Z
}.

(** The test at the head of [sent]: [true] when the scan declares the
    packet of [start] lost, [false] when it leaves the loop. *)
Definition head_lost (now thr largest_ack : Z)
    (start : njt_quic_frame_t) : bool :=
  if largest_ack <? pnum start then false
  else
    let wait := wrap (wrap (send_time start + thr) - now) in
    if (0 <? msec_int wait)
       && (wrap (largest_ack - pnum start) <? NJT_QUIC_PKT_THR)
    then false else true.

(** The bookkeeping of one lost packet, before the resend. *)
Definition count_lost (start : njt_quic_frame_t) (a : lost_scan_t)
    : lost_scan_t :=
  if first_rtt (rtt (s_qc a)) <? send_time start then
    let o :=
      if (s_oldest a =? NJT_TIMER_INFINITE) || (send_time start <? s_oldest a)
      then send_time start else s_oldest a in
    let n :=
      if (s_newest a =? NJT_TIMER_INFINITE) || (s_newest a <? send_time start)
      then send_time start else s_newest a in
    mkScan (s_qc a) o n (wrap (s_nlost a + 1))
  else a.

(** The [while (!njt_queue_empty(&ctx->sent))] loop of context [i]; every
    turn unlinks at least one frame, so [length sent] turns are enough
    (lemmas [lost_keep_settles] and [detect_lost_ctx_frame]). *)
Fixpoint detect_lost_ctx (fuel : nat) (now thr : Z) (i : ctx_ix)
    (a : lost_scan_t) : lost_scan_t :=
  match fuel with
  | O => a
  | S fuel' =>
      let ctx := ctx_of (s_qc a) i in
      match sent ctx with
      | [] => a
      | start :: _ =>
          if head_lost now thr (largest_ack ctx) start then
            let a := count_lost start a in
            detect_lost_ctx fuel' now thr i
              (mkScan (njt_quic_resend_frames now (s_qc a) i)
                      (s_oldest a) (s_newest a) (s_nlost a))
          else a
      end
  end.

(** One turn of the [for] loop over the send contexts. *)
Definition detect_lost_turn (now thr : Z) (a : lost_scan_t) (i : ctx_ix)
    : lost_scan_t :=
  let ctx := ctx_of (s_qc a) i in
  if largest_ack ctx =? NJT_QUIC_UNSET_PN then a
  else detect_lost_ctx (List.length (sent ctx)) now thr i a.

Definition lost_scan (now : Z) (qc : njt_quic_connection_t) : lost_scan_t :=
  fold_left (detect_lost_turn now (njt_quic_lost_threshold qc))
            [Ix0; Ix1; Ix2]
            (mkScan qc NJT_TIMER_INFINITE NJT_TIMER_INFINITE 0).

(** The condition under which persistent congestion is established. *)
Definition pcg_established (st : option njt_quic_ack_stat_t)
    (a : lost_scan_t) : bool :=
  match st with
  | None => false
  | Some st =>
      (2 <=? s_nlost a)
      && ((newest st <? s_oldest a) || (s_newest a <? oldest st))
      && (njt_quic_pcg_duration (s_qc a) <? wrap (s_newest a - s_oldest a))
  end.

Definition njt_quic_detect_lost (now : Z) (qc : njt_quic_connection_t)
    (st : option njt_quic_ack_stat_t) : Z * njt_quic_connection_t :=
  let a := lost_scan now qc in
  let qc :=
    if pcg_established st a
    then njt_quic_persistent_congestion now (s_qc a)
    else s_qc a in
  (NJT_OK, njt_quic_set_lost_timer now qc).

(** ** The ACK frame (lines 63-175) *)

(** [njt_quic_parse_ack_range] decodes one (gap, range) pair from the
    bytes that follow the fixed part of the frame and returns what is left;
    [None] is [NJT_ERROR]. *)
Variable njt_quic_parse_ack_range : Buf -> option (Z * Z * Buf).

(** The fixed part of a decoded ACK frame and the bytes between [pos]
    and [end] ([f->data], empty when it is [NULL]). *)
Record njt_quic_ack_frame_t := mkAck {
  ack_largest : Z;
  ack_delay : Z;
  ack_range_count : Z;
  ack_first_range : Z;
  ack_data : Buf
}.

(** The [for] loop over the [range_count] additional ranges. *)
Fixpoint ack_ranges_loop (n : nat) (now : Z) (i : ctx_ix) (pos : Buf)
    (min : Z) (qc : njt_quic_connection_t) (st : njt_quic_ack_stat_t)
    : Z * njt_quic_connection_t * njt_quic_ack_stat_t :=
  match n with
  | O => (NJT_OK, qc, st)
  | S n' =>
      match njt_quic_parse_ack_range pos with
      | None => (NJT_ERROR, qc, st)
      | Some (gap, range, pos') =>
          if min <? wrap (gap + 2) then
            (NJT_ERROR, set_error NJT_QUIC_ERR_FRAME_ENCODING_ERROR qc, st)
          else
            let max := wrap (wrap (min - gap) - 2) in
            if max <? range then
              (NJT_ERROR, set_error NJT_QUIC_ERR_FRAME_ENCODING_ERROR qc, st)
            else
              let min := wrap (max - range) in
              let '(rc, qc, st) :=
                njt_quic_handle_ack_frame_range now qc i min max st in
              if negb (rc =? NJT_OK) then (NJT_ERROR, qc, st)
              else ack_ranges_loop n' now i pos' min qc st
      end
  end.

(** The local [send_time] is not initialised in full: [max_pn] is written
    by [njt_quic_handle_ack_frame_range] before it is read. *)
Definition njt_quic_handle_ack_frame (now : Z) (qc : njt_quic_connection_t)
    (lvl : ssl_encryption_level_t) (ack : njt_quic_ack_frame_t)
    : Z * njt_quic_connection_t :=
  let i := njt_quic_get_send_ctx lvl in
  if ack_largest ack <? ack_first_range ack then
    (NJT_ERROR, set_error NJT_QUIC_ERR_FRAME_ENCODING_ERROR qc)
  else
    let min := wrap (ack_largest ack - ack_first_range ack) in
    let max := ack_largest ack in
    let st := mkStat NJT_TIMER_INFINITE NJT_TIMER_INFINITE NJT_TIMER_INFINITE in
    let '(rc, qc, st) := njt_quic_handle_ack_frame_range now qc i min max st in
    if negb (rc =? NJT_OK) then (NJT_ERROR, qc)
    else
      let ctx := ctx_of qc i in
      let qc :=
        if (largest_ack ctx <? max) || (largest_ack ctx =? NJT_QUIC_UNSET_PN)
        then
          let qc := set_ctx i (set_largest_ack max ctx) qc in
          if negb (max_pn st =? NJT_TIMER_INFINITE)
          then njt_quic_rtt_sample now qc (ack_delay ack) (max_pn st)
          else qc
        else qc in
      let '(rc, qc, st) :=
        ack_ranges_loop (Z.to_nat (ack_range_count ack)) now i (ack_data ack)
                        min qc st in
      if rc =? NJT_OK then njt_quic_detect_lost now qc (Some st)
      else (NJT_ERROR, qc).

(** ** Timer handlers (lines 817-909) *)

(** [njt_quic_alloc_frame] returns a frame or [NULL]; [njt_quic_frame_sendto]
    hands a frame to the sender and returns its status and the connection
    as the sender leaves it.  Both are defined in other files. *)
Variable njt_quic_alloc_frame : njt_quic_connection_t -> option njt_quic_frame_t.
Variable njt_quic_frame_sendto :
  njt_quic_connection_t -> njt_quic_frame_t -> Z * njt_quic_connection_t.

(** The outcome of a timer handler: it returns normally, or it has called
    [njt_quic_close_connection]. *)
Inductive handler_result :=
| Returned (qc : njt_quic_connection_t)
| Closed (qc : njt_quic_connection_t).

Definition njt_quic_lost_handler (now : Z) (qc : njt_quic_connection_t)
    : handler_result :=
  let '(rc, qc) := njt_quic_detect_lost now qc None in
  if negb (rc =? NJT_OK) then Closed qc else Returned qc.

(** The state of the probe loop: the connection and the frames handed to
    [njt_quic_frame_sendto] so far, oldest first. *)
Definition probe_state : Type :=
  (njt_quic_connection_t * list njt_quic_frame_t)%type.

(** One turn of [for (n = 0; n < 2; n++)]; [inr] is [goto failed]. *)
Definition pto_probe (i : ctx_ix) (s : probe_state)
    : probe_state + probe_state :=
  let '(qc, out) := s in
  match njt_quic_alloc_frame qc with
  | None => inr s
  | Some f =>
      let f := mkFrame (ctx_level (ctx_of qc i)) FT_PING (pnum f)
                       (send_time f) (plen f) true in
      let '(rc, qc') := njt_quic_frame_sendto qc f in
      if rc =? NJT_ERROR then inr (qc', out ++ [f])
      else inl (qc', out ++ [f])
  end.

(** Whether the handler probes context [i]. *)
Definition pto_due (now : Z) (qc : njt_quic_connection_t) (i : ctx_ix)
    : bool :=
  let ctx := ctx_of qc i in
  match sent ctx with
  | [] => false
  | f0 :: _ =>
      let f := last (sent ctx) f0 in
      let w := pto_wait now qc i f in
      if (pnum f <=? largest_ack ctx)
         && negb (largest_ack ctx =? NJT_QUIC_UNSET_PN)
      then false
      else if 0 <? w then false
      else true
  end.

(** One turn of the [for] loop over the send contexts. *)
Definition pto_turn (now : Z) (i : ctx_ix) (s : probe_state)
    : probe_state + probe_state :=
  if pto_due now (fst s) i then
    match pto_probe i s with
    | inl s1 => pto_probe i s1
    | inr s1 => inr s1
    end
  else inl s.

(** The handler returns the outcome and the frames handed to the sender. *)
Definition njt_quic_pto_handler (now : Z) (qc : njt_quic_connection_t)
    : handler_result * list njt_quic_frame_t :=
  let run :=
    match pto_turn now Ix0 (qc, []) with
    | inl s0 =>
        match pto_turn now Ix1 s0 with
        | inl s1 => pto_turn now Ix2 s1
        | inr e => inr e
        end
    | inr e => inr e
    end in
  match run with
  | inl (qc, out) =>
      let qc := set_pto_count (wrap (pto_count qc + 1)) qc in
      (Returned (njt_quic_set_lost_timer now qc), out)
  | inr (qc, out) => (Closed qc, out)
  end.

End Core.

Arguments njt_quic_streams_t : clear implicits.
Arguments njt_quic_connection_t : clear implicits.
Arguments njt_quic_ack_frame_t : clear implicits.
Arguments ack_walk_t : clear implicits.
Arguments lost_scan_t : clear implicits.
Arguments handler_result : clear implicits.
Arguments probe_state : clear implicits.

(** * Specification-side definitions *)

(** ** Ranges of the machine types *)

(** A millisecond value or a byte count far from the wrap-around of the
    64-bit types. *)
Definition small (x : Z) : Prop := 0 <= x < 2 ^ 62.

Definition u64 (x : Z) : Prop := 0 <= x < 2 ^ 64.

(** ** The estimator updates as the specification words them *)

Definition spec_rttvar_update (rttvar avg adjusted : Z) : Z :=
  rttvar + (Z.abs (avg - adjusted) - rttvar) / 4.

Definition spec_rttvar_update_trunc (rttvar avg adjusted : Z) : Z :=
  rttvar + Z.quot (Z.abs (avg - adjusted) - rttvar) 4.

(** ** Sample data *)

Definition sample_params : params_t :=
  mkParams 3 25 1200 30000 0 false true.

Definition sample_event : njt_event_t := mkEvent false false h_none 0.

Definition sample_ctx (l : ssl_encryption_level_t) (next la : Z)
    (q : list njt_quic_frame_t) : njt_quic_send_ctx_t :=
  mkCtx l next la NJT_QUIC_UNSET_PN 0 0 [] NJT_QUIC_UNSET_PN 0 q [].

Definition sample_conn (c0 c1 c2 : njt_quic_send_ctx_t) (r : rtt_t)
    (cg : njt_quic_congestion_t) (pc : Z) (ev : njt_event_t)
    : njt_quic_connection_t unit unit :=
  mkConn (mkCtxs c0 c1 c2) r cg pc (mkError 0 0 EmptyString) ev sample_event
         (mkStreams tt 0 0 0) tt sample_params.

(** A connection just created at millisecond 1000: ten datagrams of
    window, no slow-start threshold yet, one packet of 1200 bytes sent in
    that same millisecond. *)
Definition fresh_conn : njt_quic_connection_t unit unit :=
  sample_conn
    (sample_ctx ssl_encryption_initial 1 NJT_QUIC_UNSET_PN
       [mkFrame ssl_encryption_initial FT_PING 0 1000 1200 false])
    (sample_ctx ssl_encryption_handshake 0 NJT_QUIC_UNSET_PN [])
    (sample_ctx ssl_encryption_application 0 NJT_QUIC_UNSET_PN [])
    (mkRtt 0 NJT_TIMER_INFINITE 333 166 0)
    (mkCg 12000 (2 ^ 64 - 1) 1200 1000) 0 sample_event.

(** A connection whose estimators have seen samples already. *)
Definition warm_conn : njt_quic_connection_t unit unit :=
  sample_conn
    (sample_ctx ssl_encryption_initial 0 NJT_QUIC_UNSET_PN [])
    (sample_ctx ssl_encryption_handshake 0 NJT_QUIC_UNSET_PN [])
    (sample_ctx ssl_encryption_application 0 NJT_QUIC_UNSET_PN [])
    (mkRtt 90 10 104 1 500)
    (mkCg 12000 (2 ^ 64 - 1) 0 0) 0 sample_event.

(** ** Queues as lists: what the walks leave and what they take *)

(** The frames that the walk of one ACK range leaves in [sent], and the
    frames that it unlinks. *)
Fixpoint ack_keep (min max : Z) (q : list njt_quic_frame_t)
    : list njt_quic_frame_t :=
  match q with
  | [] => []
  | f :: q' =>
      if max <? pnum f then q
      else if min <=? pnum f then ack_keep min max q'
      else f :: ack_keep min max q'
  end.

Fixpoint ack_taken (min max : Z) (q : list njt_quic_frame_t)
    : list njt_quic_frame_t :=
  match q with
  | [] => []
  | f :: q' =>
      if max <? pnum f then []
      else if min <=? pnum f then f :: ack_taken min max q'
      else ack_taken min max q'
  end.

(** The frames left when the packet [pn] is unlinked from the head. *)
Fixpoint skip_packet (pn : Z) (q : list njt_quic_frame_t)
    : list njt_quic_frame_t :=
  match q with
  | [] => []
  | f :: q' => if pnum f =? pn then skip_packet pn q' else q
  end.

(** The frames left by the loss scan of one context. *)
Fixpoint lost_keep (fuel : nat) (now thr largest_ack : Z)
    (q : list njt_quic_frame_t) : list njt_quic_frame_t :=
  match fuel with
  | O => q
  | S fuel' =>
      match q with
      | [] => []
      | start :: rest =>
          if head_lost now thr largest_ack start
          then lost_keep fuel' now thr largest_ack
                 (skip_packet (pnum start) rest)
          else q
      end
  end.

Definition in_range (min max : Z) (f : njt_quic_frame_t) : Prop :=
  min <= pnum f <= max.

(** No frame of the queue has its packet number in the range [r]. *)
Definition clear_of (q : list njt_quic_frame_t) (r : Z * Z) : Prop :=
  forall f, In f q -> ~ in_range (fst r) (snd r) f.

(** The loss scan has nothing to do at the head of the queue. *)
Definition settled (now thr : Z) (c : njt_quic_send_ctx_t) : Prop :=
  largest_ack c = NJT_QUIC_UNSET_PN
  \/ match sent c with
     | [] => True
     | f :: _ => head_lost now thr (largest_ack c) f = false
     end.

(** The frames of one packet carry the send time of the packet. *)
Definition packet_times (q : list njt_quic_frame_t) : Prop :=
  forall f g, In f q -> In g q -> pnum f = pnum g ->
    send_time f = send_time g.

(** [sent] is ordered by packet number (invariant I1). *)
Fixpoint pn_sorted (q : list njt_quic_frame_t) : Prop :=
  match q with
  | [] => True
  | f :: q' => Forall (fun g => pnum f <= pnum g) q' /\ pn_sorted q'
  end.

(** ** Bytes in flight (invariant I2) *)

(** What a frame counts for in [in_flight]. *)
Definition counted (rst : Z) (f : njt_quic_frame_t) : Z :=
  if pnum f <? rst then 0 else plen f.

Fixpoint queue_bytes (rst : Z) (q : list njt_quic_frame_t) : Z :=
  match q with
  | [] => 0
  | f :: q' => counted rst f + queue_bytes rst q'
  end.

(** Only the first frame of a packet carries the length of the packet. *)
Fixpoint plen_on_first (q : list njt_quic_frame_t) : Prop :=
  match q with
  | [] => True
  | f :: q' =>
      Forall (fun g => pnum g = pnum f -> plen g = 0) q' /\ plen_on_first q'
  end.

(** ** What the walks leave alone *)

Section Frames.
Context {Tree Path : Type}.

(** The fields of a context that neither an acknowledgment nor a resend
    of a single frame writes. *)
Definition ctx_frame (c : njt_quic_send_ctx_t) :=
  (ctx_level c, ctx_pnum c, largest_ack c, sent c).

Definition conn_frame (qc : njt_quic_connection_t Tree Path) :=
  (rtt qc, params qc, pto qc, qerr qc,
   ctx_frame (ctx_of qc Ix0), ctx_frame (ctx_of qc Ix1),
   ctx_frame (ctx_of qc Ix2)).

Definition with_sent (i : ctx_ix) (q : list njt_quic_frame_t)
    (qc : njt_quic_connection_t Tree Path) :=
  set_ctx i (set_sent q (ctx_of qc i)) qc.

(** What the loss scan leaves in the [sent] of a context. *)
Definition scan_keep (now thr largest_ack : Z) (q : list njt_quic_frame_t)
    : list njt_quic_frame_t :=
  if largest_ack =? NJT_QUIC_UNSET_PN then q
  else lost_keep (List.length q) now thr largest_ack q.

Definition scan_keep_ctx (now : Z) (qc : njt_quic_connection_t Tree Path)
    (i : ctx_ix) : list njt_quic_frame_t :=
  scan_keep now (njt_quic_lost_threshold qc) (largest_ack (ctx_of qc i))
            (sent (ctx_of qc i)).

Definition scanned (now : Z) (qc : njt_quic_connection_t Tree Path) :=
  with_sent Ix2 (scan_keep_ctx now qc Ix2)
    (with_sent Ix1 (scan_keep_ctx now qc Ix1)
       (with_sent Ix0 (scan_keep_ctx now qc Ix0) qc)).

(** The sum of [plen] over the frames of the three [sent] queues whose
    packet number is at least [rst_pnum], and the invariant. *)
Definition bytes_in_flight (qc : njt_quic_connection_t Tree Path) : Z :=
  queue_bytes (rst_pnum (params qc)) (sent (ctx_of qc Ix0))
  + queue_bytes (rst_pnum (params qc)) (sent (ctx_of qc Ix1))
  + queue_bytes (rst_pnum (params qc)) (sent (ctx_of qc Ix2)).

Definition in_flight_inv (qc : njt_quic_connection_t Tree Path) : Prop :=
  in_flight (congestion qc) = bytes_in_flight qc.

Definition plens_ok (qc : njt_quic_connection_t Tree Path) : Prop :=
  forall j, Forall (fun f => 0 <= plen f) (sent (ctx_of qc j)).

(** The event [pto] as [njt_quic_set_lost_timer] leaves it. *)
Definition lost_timer_event (now : Z) (qc : njt_quic_connection_t Tree Path)
    : njt_event_t :=
  let '(lost, pto_w) :=
    fold_left (lost_timer_ctx now qc) [Ix0; Ix1; Ix2] (-1, -1) in
  let ev := if timer_set (pto qc) then njt_del_timer (pto qc) else pto qc in
  if negb (lost =? -1) then njt_add_timer now (set_handler h_lost ev) lost
  else if negb (pto_w =? -1) then njt_add_timer now (set_handler h_pto ev) pto_w
  else ev.

(** The loss threshold and the loss condition of the specification. *)
Definition spec_threshold (qc : njt_quic_connection_t Tree Path) : Z :=
  Z.max (Z.max (latest_rtt (rtt qc)) (avg_rtt (rtt qc)) * 9 / 8) 1.

(** The duration of persistent congestion of the specification. *)
Definition spec_pcg_duration (qc : njt_quic_connection_t Tree Path) : Z :=
  (avg_rtt (rtt qc) + Z.max (4 * rttvar (rtt qc)) 1
   + ctp_max_ack_delay (params qc)) * 3.

Definition spec_lost (now thr largest_ack : Z) (f : njt_quic_frame_t) : Prop :=
  pnum f <= largest_ack
  /\ (largest_ack - pnum f >= 3 \/ send_time f + thr <= now).

End Frames.

(** ** The ACK frame as the specification words it *)

Section AckSpec.
Context {Buf : Type}.
Variable parse : Buf -> option (Z * Z * Buf).

(** Every decoded value is a variable-length integer of at most 62 bits. *)
Definition parse_bounded : Prop :=
  forall pos g r pos', parse pos = Some (g, r, pos') ->
    0 <= g < 2 ^ 62 /\ 0 <= r < 2 ^ 62.

(** Some pair among the next [n] violates [gap + 2 <= min] or
    [range <= min - gap - 2] for the running minimum. *)
Fixpoint bad_pair (n : nat) (pos : Buf) (min : Z) : bool :=
  match n with
  | O => false
  | S n' =>
      match parse pos with
      | None => false
      | Some (g, r, pos') =>
          if (min <? g + 2) || (min - g - 2 <? r) then true
          else bad_pair n' pos' (min - g - 2 - r)
      end
  end.

Definition ack_malformed (ack : njt_quic_ack_frame_t Buf) : Prop :=
  ack_largest ack < ack_first_range ack
  \/ bad_pair (Z.to_nat (ack_range_count ack)) (ack_data ack)
              (ack_largest ack - ack_first_range ack) = true.

(** The additional ranges [(min, max)] of a well-formed frame, in the
    order of the frame. *)
Fixpoint ack_range_list (n : nat) (pos : Buf) (min : Z)
    : option (list (Z * Z)) :=
  match n with
  | O => Some []
  | S n' =>
      match parse pos with
      | None => None
      | Some (g, r, pos') =>
          if (min <? g + 2) || (min - g - 2 <? r) then None
          else
            match ack_range_list n' pos' (min - g - 2 - r) with
            | Some l => Some ((min - g - 2 - r, min - g - 2) :: l)
            | None => None
            end
      end
  end.

End AckSpec.

(** ** The probe timeout as the specification words it *)

Section ProbeSpec.
Context {Tree Path : Type}.

Definition pto_base (qc : njt_quic_connection_t Tree Path) (i : ctx_ix) : Z :=
  avg_rtt (rtt qc) + Z.max (4 * rttvar (rtt qc)) 1
  + (if is_application (ctx_level (ctx_of qc i)) && handshaked (params qc)
     then ctp_max_ack_delay (params qc) else 0).

(** A context is due when [sent] is not empty, its last packet is not
    acknowledged and the deadline of that packet has passed. *)
Definition due_spec (now : Z) (qc : njt_quic_connection_t Tree Path)
    (i : ctx_ix) : Prop :=
  let ctx := ctx_of qc i in
  match sent ctx with
  | [] => False
  | f0 :: _ =>
      let f := last (sent ctx) f0 in
      ~ (largest_ack ctx <> NJT_QUIC_UNSET_PN /\ pnum f <= largest_ack ctx)
      /\ send_time f + pto_base qc i * 2 ^ pto_count qc <= now
  end.

(** The ranges in which the deadline of context [i] does not wrap. *)
Definition pto_in_range (now : Z) (qc : njt_quic_connection_t Tree Path)
    (i : ctx_ix) : Prop :=
  small now /\ small (avg_rtt (rtt qc)) /\ small (rttvar (rtt qc))
  /\ small (ctp_max_ack_delay (params qc)) /\ 0 <= pto_count qc
  /\ pto_base qc i * 2 ^ pto_count qc < 2 ^ 62
  /\ Forall (fun f => small (send_time f)) (sent (ctx_of qc i)).

Definition due_count (now : Z) (qc : njt_quic_connection_t Tree Path) : nat :=
  List.length (filter (pto_due now qc) [Ix0; Ix1; Ix2]).

Definition is_probe (f : njt_quic_frame_t) : Prop :=
  kind f = FT_PING /\ ignore_congestion f = true.

(** What the handler needs of the allocator and of the sender to run to
    its end: frames are available, no send fails, and the sender does not
    write [pto_count]. *)
Definition sender_ok
    (alloc : njt_quic_connection_t Tree Path -> option njt_quic_frame_t)
    (sendto : njt_quic_connection_t Tree Path -> njt_quic_frame_t
              -> Z * njt_quic_connection_t Tree Path) : Prop :=
  (forall q, alloc q <> None)
  /\ (forall q f, fst (sendto q f) <> NJT_ERROR)
  /\ (forall q f, pto_count (snd (sendto q f)) = pto_count q).

(** Sending at one level does not change whether another context is due. *)
Definition sender_local (now : Z)
    (sendto : njt_quic_connection_t Tree Path -> njt_quic_frame_t
              -> Z * njt_quic_connection_t Tree Path) : Prop :=
  forall q f i j, level f = ctx_level (ctx_of q i) -> i <> j ->
    pto_due now (snd (sendto q f)) j = pto_due now q j.

End ProbeSpec.

(** A frame allocator that never fails and a sender that accepts every
    frame and leaves the connection as it is. *)
Definition alloc_zero (qc : njt_quic_connection_t unit unit)
    : option njt_quic_frame_t :=
  Some (mkFrame ssl_encryption_initial (FT_OTHER 0) 0 0 0 false).

Definition sendto_ok (qc : njt_quic_connection_t unit unit)
    (f : njt_quic_frame_t) : Z * njt_quic_connection_t unit unit :=
  (NJT_OK, qc).

(** Two contexts with an unacknowledged packet sent at millisecond 0;
    [avg_rtt = 100], [rttvar = 25]. *)
Definition two_due_conn : njt_quic_connection_t unit unit :=
  sample_conn
    (sample_ctx ssl_encryption_initial 1 NJT_QUIC_UNSET_PN
       [mkFrame ssl_encryption_initial (FT_OTHER 6) 0 0 1200 false])
    (sample_ctx ssl_encryption_handshake 1 NJT_QUIC_UNSET_PN
       [mkFrame ssl_encryption_handshake (FT_OTHER 6) 0 0 1200 false])
    (sample_ctx ssl_encryption_application 0 NJT_QUIC_UNSET_PN [])
    (mkRtt 100 100 100 25 0)
    (mkCg 12000 (2 ^ 64 - 1) 2400 0) 0 sample_event.

(** The same connection with nothing in flight. *)
Definition idle_conn : njt_quic_connection_t unit unit :=
  sample_conn
    (sample_ctx ssl_encryption_initial 1 0 [])
    (sample_ctx ssl_encryption_handshake 1 0 [])
    (sample_ctx ssl_encryption_application 0 NJT_QUIC_UNSET_PN [])
    (mkRtt 100 100 100 25 0)
    (mkCg 12000 (2 ^ 64 - 1) 0 0) 3 sample_event.

(** A path MTU hook that always succeeds and a stream hook that does
    nothing, for the sample runs. *)
Definition mtu_ok (p : unit) (min max : Z) : Z * unit := (NJT_OK, p).

Definition sack_id (s : njt_quic_streams_t unit) (f : njt_quic_frame_t)
    : njt_quic_streams_t unit := s.

Definition find_none (t : unit) (id : Z) : option njt_quic_stream_t := None.

(** An ACK frame whose additional ranges are already decoded: the decoder
    takes the next pair off the list. *)
Definition parse_list (b : list (Z * Z)) : option (Z * Z * list (Z * Z)) :=
  match b with
  | [] => None
  | (g, r) :: b' =>
      if (0 <=? g) && (g <? 2 ^ 62) && (0 <=? r) && (r <? 2 ^ 62)
      then Some (g, r, b') else None
  end.

(** Packets 0 to 4 of the initial level were sent and are acknowledged. *)
Definition acked_conn : njt_quic_connection_t unit unit :=
  sample_conn
    (sample_ctx ssl_encryption_initial 5 4 [])
    (sample_ctx ssl_encryption_handshake 0 NJT_QUIC_UNSET_PN [])
    (sample_ctx ssl_encryption_application 0 NJT_QUIC_UNSET_PN [])
    (mkRtt 100 100 100 25 0)
    (mkCg 12000 (2 ^ 64 - 1) 0 0) 0 sample_event.

(** An ACK of packet 10 alone, followed by a pair whose gap reaches below
    packet number 0. *)
Definition overlong_gap_ack : njt_quic_ack_frame_t (list (Z * Z)) :=
  mkAck 10 0 1 0 [(100, 0)].

(** An ACK whose first range reaches below packet number 0. *)
Definition overlong_first_ack : njt_quic_ack_frame_t (list (Z * Z)) :=
  mkAck 1 0 0 2 [].

(** One packet of 1200 bytes in flight at the initial level while the
    [push] timer is armed (a delayed acknowledgment is pending). *)
Definition push_armed_conn : njt_quic_connection_t unit unit :=
  sample_conn
    (sample_ctx ssl_encryption_initial 1 NJT_QUIC_UNSET_PN
       [mkFrame ssl_encryption_initial (FT_OTHER 6) 0 1000 1200 false])
    (sample_ctx ssl_encryption_handshake 0 NJT_QUIC_UNSET_PN [])
    (sample_ctx ssl_encryption_application 0 NJT_QUIC_UNSET_PN [])
    (mkRtt 100 100 100 25 0)
    (mkCg 12000 (2 ^ 64 - 1) 1200 0) 2 (mkEvent true false h_none 1020).

Definition no_stat : njt_quic_ack_stat_t :=
  mkStat NJT_TIMER_INFINITE NJT_TIMER_INFINITE NJT_TIMER_INFINITE.

(** Packets 5, 6 and 8 of the initial level are in flight and packet 9
    is acknowledged; packets 5 and 6 were sent at millisecond 1000, packet
    8 at millisecond 1005. *)
Definition gap_conn : njt_quic_connection_t unit unit :=
  sample_conn
    (sample_ctx ssl_encryption_initial 10 9
       [mkFrame ssl_encryption_initial (FT_OTHER 6) 5 1000 1200 false;
        mkFrame ssl_encryption_initial (FT_OTHER 6) 6 1000 1200 false;
        mkFrame ssl_encryption_initial (FT_OTHER 6) 8 1005 1200 false])
    (sample_ctx ssl_encryption_handshake 0 NJT_QUIC_UNSET_PN [])
    (sample_ctx ssl_encryption_application 0 NJT_QUIC_UNSET_PN [])
    (mkRtt 100 100 100 25 500)
    (mkCg 12000 (2 ^ 64 - 1) 3600 0) 0 sample_event.

(** Packets 1 and 2 were sent 800 ms apart and packet 5 is acknowledged;
    the frames acknowledged by the ACK at hand were sent at millisecond
    2950. *)
Definition congested_conn : njt_quic_connection_t unit unit :=
  sample_conn
    (sample_ctx ssl_encryption_initial 6 5
       [mkFrame ssl_encryption_initial (FT_OTHER 6) 1 1000 1200 false;
        mkFrame ssl_encryption_initial (FT_OTHER 6) 2 1800 1200 false])
    (sample_ctx ssl_encryption_handshake 0 NJT_QUIC_UNSET_PN [])
    (sample_ctx ssl_encryption_application 0 NJT_QUIC_UNSET_PN [])
    (mkRtt 100 100 100 25 500)
    (mkCg 12000 (2 ^ 64 - 1) 2400 0) 0 sample_event.

Definition late_stat : njt_quic_ack_stat_t := mkStat 2950 2950 2950.

(** One packet of two frames in flight, each frame carrying a length. *)
Definition split_len_conn : njt_quic_connection_t unit unit :=
  sample_conn
    (sample_ctx ssl_encryption_initial 1 NJT_QUIC_UNSET_PN
       [mkFrame ssl_encryption_initial (FT_OTHER 6) 0 1000 700 false;
        mkFrame ssl_encryption_initial (FT_OTHER 6) 0 1000 500 false])
    (sample_ctx ssl_encryption_handshake 0 NJT_QUIC_UNSET_PN [])
    (sample_ctx ssl_encryption_application 0 NJT_QUIC_UNSET_PN [])
    (mkRtt 100 100 100 25 500)
    (mkCg 12000 (2 ^ 64 - 1) 1200 0) 0 sample_event.

(** Packet 3 of the initial level is in flight and the next packet number
    is 4; an ACK that acknowledges packets 3 to 10. *)
Definition one_sent_conn : njt_quic_connection_t unit unit :=
  sample_conn
    (sample_ctx ssl_encryption_initial 4 2
       [mkFrame ssl_encryption_initial (FT_OTHER 6) 3 1000 1200 false])
    (sample_ctx ssl_encryption_handshake 0 NJT_QUIC_UNSET_PN [])
    (sample_ctx ssl_encryption_application 0 NJT_QUIC_UNSET_PN [])
    (mkRtt 100 100 100 25 500)
    (mkCg 12000 (2 ^ 64 - 1) 1200 0) 0 sample_event.

Definition beyond_ack : njt_quic_ack_frame_t (list (Z * Z)) :=
  mkAck 10 0 0 7 [].

(** An ACK of packet 3 alone. *)
Definition exact_ack : njt_quic_ack_frame_t (list (Z * Z)) :=
  mkAck 3 0 0 0 [].

(** The scenarios of section 8 of the specification: packets of one
    STREAM frame of 1200 bytes, sent at millisecond 10 on a connection
    created at millisecond 0. *)
Definition pkt (pn : Z) : njt_quic_frame_t :=
  mkFrame ssl_encryption_initial (FT_STREAM 0) pn 10 1200 false.

Definition scenario_conn (q : list njt_quic_frame_t)
    : njt_quic_connection_t unit unit :=
  sample_conn
    (sample_ctx ssl_encryption_initial (Z.of_nat (List.length q))
       NJT_QUIC_UNSET_PN q)
    (sample_ctx ssl_encryption_handshake 0 NJT_QUIC_UNSET_PN [])
    (sample_ctx ssl_encryption_application 0 NJT_QUIC_UNSET_PN [])
    (mkRtt 0 NJT_TIMER_INFINITE 333 166 0)
    (mkCg 12000 (2 ^ 64 - 1) (1200 * Z.of_nat (List.length q)) 0)
    0 sample_event.

(** ** The packets declared lost, as the specification words them *)

(** The loss condition of the specification, as a test. *)
Definition spec_lostb (now thr largest_ack : Z) (f : njt_quic_frame_t)
    : bool :=
  (pnum f <=? largest_ack)
  && ((3 <=? largest_ack - pnum f) || (send_time f + thr <=? now)).

(** The packets at the head of the queue [q] that satisfy the loss
    condition, each by its first frame.  [prev] is the number of the
    packet whose further frames are passed over; the first packet that
    does not satisfy the condition ends the list. *)
Fixpoint lost_heads (now thr largest_ack : Z) (prev : option Z)
    (q : list njt_quic_frame_t) : list njt_quic_frame_t :=
  match q with
  | [] => []
  | f :: q' =>
      if match prev with Some pn => pnum f =? pn | None => false end
      then lost_heads now thr largest_ack prev q'
      else if spec_lostb now thr largest_ack f
      then f :: lost_heads now thr largest_ack (Some (pnum f)) q'
      else []
  end.

(** The least and the greatest send time of the frames [l]; no sample
    and zero when there is none. *)
Definition oldest_time (l : list njt_quic_frame_t) : Z :=
  fold_right (fun f m => Z.min (send_time f) m) NJT_TIMER_INFINITE l.

Definition newest_time (l : list njt_quic_frame_t) : Z :=
  fold_right (fun f m => Z.max (send_time f) m) 0 l.

Section LostSpec.
Context {Tree Path : Type}.

(** The packets of context [i] that a run of the loss detector at [now]
    declares lost: none when [largest_ack] is not set. *)
Definition lost_packets (now : Z) (qc : njt_quic_connection_t Tree Path)
    (i : ctx_ix) : list njt_quic_frame_t :=
  let ctx := ctx_of qc i in
  if largest_ack ctx =? NJT_QUIC_UNSET_PN then []
  else lost_heads now (spec_threshold qc) (largest_ack ctx) None (sent ctx).

(** The packets declared lost, of the three contexts, that were sent
    after [first_rtt]. *)
Definition late_lost (now : Z) (qc : njt_quic_connection_t Tree Path)
    : list njt_quic_frame_t :=
  filter (fun f => first_rtt (rtt qc) <? send_time f)
         (lost_packets now qc Ix0 ++ lost_packets now qc Ix1
          ++ lost_packets now qc Ix2).

(** The ranges in which the loss scan does not wrap: times and packet
    numbers of at most 62 bits, and queues of fewer than 2^62 frames. *)
Definition scan_in_range (now : Z) (qc : njt_quic_connection_t Tree Path)
    : Prop :=
  small now
  /\ 0 <= latest_rtt (rtt qc) < 2 ^ 61 /\ 0 <= avg_rtt (rtt qc) < 2 ^ 61
  /\ forall j,
       u64 (largest_ack (ctx_of qc j))
       /\ Z.of_nat (List.length (sent (ctx_of qc j))) < 2 ^ 62
       /\ Forall (fun f => 0 <= pnum f /\ small (send_time f))
                 (sent (ctx_of qc j)).

(** What the scan has counted when the packets [l] are those sent after
    [first_rtt] among the packets declared lost so far. *)
Definition scan_counts (a : lost_scan_t Tree Path)
    (l : list njt_quic_frame_t) : Prop :=
  s_nlost a = Z.of_nat (List.length l)
  /\ s_oldest a = oldest_time l
  /\ s_newest a = match l with
                  | [] => NJT_TIMER_INFINITE
                  | _ :: _ => newest_time l
                  end
  /\ Forall (fun f => small (send_time f)) l.

End LostSpec.

(** ** The end of an ACK frame, as the specification words it *)

(** How the processing of an ACK frame ends. *)
Inductive ack_verdict :=
| AckAccepted      (** every range was taken *)
| AckMalformed     (** FRAME_ENCODING_ERROR *)
| AckUnknown       (** PROTOCOL_VIOLATION, unknown packet number *)
| AckMtuFailed     (** the path MTU hook failed *)
| AckTruncated.    (** a pair could not be decoded *)

(** A range that acknowledges no frame of the queue [q] and reaches the
    packet number [next], which was not sent yet. *)
Definition range_unknown (next : Z) (q : list njt_quic_frame_t)
    (min max : Z) : bool :=
  match ack_taken min max q with
  | [] => next <=? max
  | _ :: _ => false
  end.

Section AckVerdict.
Context {Path Buf : Type}.
Variable mtu : Path -> Z -> Z -> Z * Path.
Variable parse : Buf -> option (Z * Z * Buf).

(** One range [min .. max] on the queue [q] and the path [p] of a
    context whose next packet number is [next]: at the application level
    ([app]) the path MTU hook runs first; an accepted range leaves the
    queue without the frames it acknowledges. *)
Definition range_verdict (app : bool) (next min max : Z)
    (q : list njt_quic_frame_t) (p : Path)
    : ack_verdict * list njt_quic_frame_t * Path :=
  let hook := if app then mtu p min max else (NJT_OK, p) in
  if negb (fst hook =? NJT_OK) then (AckMtuFailed, q, snd hook)
  else if range_unknown next q min max then (AckUnknown, q, snd hook)
  else (AckAccepted, ack_keep min max q, snd hook).

(** The additional ranges, in the order of the frame: each pair is
    validated against the running minimum and then taken; the first pair
    that cannot be decoded, is malformed or fails ends the frame. *)
Fixpoint ranges_verdict (app : bool) (next : Z) (n : nat) (pos : Buf)
    (min : Z) (q : list njt_quic_frame_t) (p : Path) : ack_verdict :=
  match n with
  | O => AckAccepted
  | S n' =>
      match parse pos with
      | None => AckTruncated
      | Some (g, r, pos') =>
          if (min <? g + 2) || (min - g - 2 <? r) then AckMalformed
          else
            match range_verdict app next (min - g - 2 - r) (min - g - 2)
                                q p with
            | (AckAccepted, q', p') =>
                ranges_verdict app next n' pos' (min - g - 2 - r) q' p'
            | (v, _, _) => v
            end
      end
  end.

(** The whole frame: the first range, then the additional ranges. *)
Definition frame_verdict (app : bool) (next : Z)
    (ack : njt_quic_ack_frame_t Buf) (q : list njt_quic_frame_t) (p : Path)
    : ack_verdict :=
  if ack_largest ack <? ack_first_range ack then AckMalformed
  else
    let min := ack_largest ack - ack_first_range ack in
    match range_verdict app next min (ack_largest ack) q p with
    | (AckAccepted, q', p') =>
        ranges_verdict app next (Z.to_nat (ack_range_count ack))
                       (ack_data ack) min q' p'
    | (v, _, _) => v
    end.

End AckVerdict.

(** What a verdict says of the status and of the error recorded: [rc]
    and [e'] are the status and the error after the call, [e] the error
    before it. *)
Definition verdict_outcome (v : ack_verdict) (rc : Z)
    (e e' : error_t) : Prop :=
  match v with
  | AckAccepted => rc = NJT_OK
  | AckMalformed =>
      rc = NJT_ERROR /\ error e' = NJT_QUIC_ERR_FRAME_ENCODING_ERROR
  | AckUnknown =>
      rc = NJT_ERROR /\ error e' = NJT_QUIC_ERR_PROTOCOL_VIOLATION
  | AckMtuFailed | AckTruncated => rc = NJT_ERROR /\ e' = e
  end.

(** An ACK of packet 3 alone, followed by a pair whose gap reaches below
    packet number 0. *)
Definition late_gap_ack : njt_quic_ack_frame_t (list (Z * Z)) :=
  mkAck 3 0 1 0 [(100, 0)].

(** ** The probes as the specification words them *)

Section ProbePlan.
Context {Tree Path : Type}.

(** The contexts that the handler probes, in the order of the probes:
    every context that is due, twice. *)
Definition probe_plan (now : Z) (qc : njt_quic_connection_t Tree Path)
    : list ctx_ix :=
  flat_map (fun i => if pto_due now qc i then [i; i] else [])
           [Ix0; Ix1; Ix2].

(** The probe of context [i] made of the allocated frame [f0]: a PING
    frame at the level of the context, with [ignore_congestion] set. *)
Definition ping_of (qc : njt_quic_connection_t Tree Path) (i : ctx_ix)
    (f0 : njt_quic_frame_t) : njt_quic_frame_t :=
  mkFrame (ctx_level (ctx_of qc i)) FT_PING (pnum f0) (send_time f0)
          (plen f0) true.

(** How a run of probes ends. *)
Inductive probes_end := AllSent | NoFrame | SendFailed.

(** The probes of the contexts [plan], one after the other: a frame is
    allocated, made a PING and handed to the sender.  The run ends at the
    first allocation that yields no frame and at the first send that
    returns [NJT_ERROR]; the result is how the run ended, the connection
    as the last call left it, and the frames handed to the sender. *)
Fixpoint spec_probes
    (alloc : njt_quic_connection_t Tree Path -> option njt_quic_frame_t)
    (sendto : njt_quic_connection_t Tree Path -> njt_quic_frame_t
              -> Z * njt_quic_connection_t Tree Path)
    (plan : list ctx_ix) (q : njt_quic_connection_t Tree Path)
    (out : list njt_quic_frame_t)
    : probes_end * njt_quic_connection_t Tree Path * list njt_quic_frame_t :=
  match plan with
  | [] => (AllSent, q, out)
  | i :: plan' =>
      match alloc q with
      | None => (NoFrame, q, out)
      | Some f0 =>
          let f := ping_of q i f0 in
          if fst (sendto q f) =? NJT_ERROR
          then (SendFailed, snd (sendto q f), out ++ [f])
          else spec_probes alloc sendto plan' (snd (sendto q f)) (out ++ [f])
      end
  end.

(** The outcome of the handler after a run of probes: with all probes
    sent it adds one to [pto_count] and sets the timer; otherwise it
    closes the connection. *)
Definition probes_outcome (now : Z)
    (r : probes_end * njt_quic_connection_t Tree Path
         * list njt_quic_frame_t)
    : handler_result Tree Path * list njt_quic_frame_t :=
  match r with
  | (AllSent, q, out) =>
      (Returned (njt_quic_set_lost_timer now
                   (set_pto_count (wrap (pto_count q + 1)) q)), out)
  | (_, q, out) => (Closed q, out)
  end.

(** The sender leaves the levels of the contexts as they are. *)
Definition sender_levels
    (sendto : njt_quic_connection_t Tree Path -> njt_quic_frame_t
              -> Z * njt_quic_connection_t Tree Path) : Prop :=
  forall q f j,
    ctx_level (ctx_of (snd (sendto q f)) j) = ctx_level (ctx_of q j).

End ProbePlan.

(** A sender that accepts every frame and posts the push event, and an
    allocator that has no frame left once the push event is posted: the
    second allocation of a run fails. *)
Definition sendto_post (qc : njt_quic_connection_t unit unit)
    (f : njt_quic_frame_t) : Z * njt_quic_connection_t unit unit :=
  (NJT_OK, post_push qc).

Definition alloc_unposted (qc : njt_quic_connection_t unit unit)
    : option njt_quic_frame_t :=
  if posted (push qc) then None
  else Some (mkFrame ssl_encryption_initial (FT_OTHER 0) 0 0 0 false).

(** ** What the timer and the loss scan are armed on *)

Section TimerSpec.
Context {Tree Path : Type}.

(** A packet of context [i] is in flight below the largest acknowledged
    packet number of the context: the loss detector has work pending. *)
Definition loss_pending (qc : njt_quic_connection_t Tree Path) (i : ctx_ix)
    : Prop :=
  match sent (ctx_of qc i) with
  | [] => False
  | f :: _ =>
      largest_ack (ctx_of qc i) <> NJT_QUIC_UNSET_PN
      /\ pnum f <= largest_ack (ctx_of qc i)
  end.

(** Every frame in flight satisfies [P]. *)
Definition all_sent (P : njt_quic_frame_t -> Prop)
    (qc : njt_quic_connection_t Tree Path) : Prop :=
  forall j, Forall P (sent (ctx_of qc j)).

(** A frame sent by [now], at a time that fits a varint. *)
Definition sent_by (now : Z) (f : njt_quic_frame_t) : Prop :=
  small (send_time f) /\ send_time f <= now.

End TimerSpec.

(** The two shapes of the congestion state during a loss scan: as it was,
    or reduced once with recovery started now. *)
Definition scan_window (now : Z) (cg0 : njt_quic_congestion_t) (m : Z)
    (cg : njt_quic_congestion_t) : Prop :=
  (window cg = window cg0 /\ ssthresh cg = ssthresh cg0
   /\ recovery_start cg = recovery_start cg0)
  \/ (window cg = Z.max (window cg0 / 2) m
      /\ ssthresh cg = window cg /\ recovery_start cg = now).

(** ** The estimators within the range of the samples *)

(** The state of the estimators after at least one sample, when no
    sample was above [bound]. *)
Definition rtt_within (bound : Z) (r : rtt_t) : Prop :=
  0 <= min_rtt r /\ min_rtt r <= latest_rtt r /\ latest_rtt r <= bound
  /\ min_rtt r <= avg_rtt r /\ avg_rtt r <= bound
  /\ 0 <= rttvar r /\ rttvar r <= bound.

(** ** What an ACK frame leaves in the queues *)

Section AckTrace.
Context {Tree Path : Type}.

(** From [qc] to [qc'] no frame was added to a queue [sent], the only
    frames unlinked were frames of context [i] numbered up to [top], and
    no [largest_ack] was written. *)
Definition ack_trace (qc qc' : njt_quic_connection_t Tree Path)
    (i : ctx_ix) (top : Z) : Prop :=
  (forall j f, In f (sent (ctx_of qc' j)) -> In f (sent (ctx_of qc j)))
  /\ (forall j f, In f (sent (ctx_of qc j)) -> j <> i \/ top < pnum f ->
        In f (sent (ctx_of qc' j)))
  /\ (forall j, largest_ack (ctx_of qc' j) = largest_ack (ctx_of qc j)).

End AckTrace.

(** * The receiving side (lines 912-1189) *)

(** The fields of [njt_quic_header_t] that [njt_quic_ack_packet] reads. *)
Record njt_quic_header_t := mkHeader {
  pkt_level : ssl_encryption_level_t;
  pkt_pn : Z;
  need_ack : bool;
  received : Z
}.

(** The fields of [njt_quic_send_ctx_t] that only the receiving side
    uses. *)
Record njt_quic_recv_ctx_t := mkRecvCtx {
  ack_delay_start : Z;
  largest_received : Z
}.

Definition set_ack_delay_start (v : Z) (x : njt_quic_recv_ctx_t) :=
  mkRecvCtx v (largest_received x).
Definition set_largest_received (v : Z) (x : njt_quic_recv_ctx_t) :=
  mkRecvCtx (ack_delay_start x) v.

Definition set_largest_range (v : Z) (x : njt_quic_send_ctx_t) :=
  set_range_db v (first_range x) (nranges x) (ranges x) (pending_ack x) x.
Definition set_first_range (v : Z) (x : njt_quic_send_ctx_t) :=
  set_range_db (largest_range x) v (nranges x) (ranges x) (pending_ack x) x.
Definition set_nranges (v : Z) (x : njt_quic_send_ctx_t) :=
  set_range_db (largest_range x) (first_range x) v (ranges x) (pending_ack x) x.
Definition set_ranges (v : list njt_quic_ack_range_t)
    (x : njt_quic_send_ctx_t) :=
  set_range_db (largest_range x) (first_range x) (nranges x) v (pending_ack x) x.
Definition set_pending_ack (v : Z) (x : njt_quic_send_ctx_t) :=
  set_range_db (largest_range x) (first_range x) (nranges x) (ranges x) v x.

(** ** The array [ranges]

    [ctx->ranges] is an array of [NJT_QUIC_MAX_RANGES] entries, held as a
    list of that length.  The code reads and writes it only at indices
    below [nranges <= NJT_QUIC_MAX_RANGES]; an index beyond the list reads
    as a zero entry and a write there is lost. *)

Definition range_at (rs : list njt_quic_ack_range_t) (i : Z)
    : njt_quic_ack_range_t :=
  nth (Z.to_nat i) rs (mkRange 0 0).

Fixpoint list_upd {A : Type} (n : nat) (v : A) (l : list A) : list A :=
  match l, n with
  | [], _ => []
  | _ :: t, O => v :: t
  | h :: t, S n' => h :: list_upd n' v t
  end.

Definition range_upd (rs : list njt_quic_ack_range_t) (i : Z)
    (r : njt_quic_ack_range_t) : list njt_quic_ack_range_t :=
  list_upd (Z.to_nat i) r rs.

(** Modelled from the spec: the macro [njt_memmove] is defined in another
    file; it is the [memmove] of the C library, here in units of one
    entry of the array: the [n] entries from index [src] are copied to
    index [dst], the other entries keep their values. *)
Definition njt_memmove (rs : list njt_quic_ack_range_t) (dst src n : Z)
    : list njt_quic_ack_range_t :=
  firstn (Z.to_nat dst) rs
  ++ firstn (Z.to_nat n) (skipn (Z.to_nat src) rs)
  ++ skipn (Z.to_nat (dst + n)) rs.

Section Receiver.

(** The key material [qc->keys] belongs to another file. *)
Context {Tree Path Keys : Type}.

(** The connection as the receiving side uses it: the connection of the
    sending side, with [qc->keys], [qc->tp.max_ack_delay] and the two
    receiving fields of each of the three contexts. *)
Record njt_quic_recv_t := mkRecv {
  r_qc : njt_quic_connection_t Tree Path;
  r_keys : Keys;
  tp_max_ack_delay : Z;
  r_ack0 : njt_quic_recv_ctx_t;
  r_ack1 : njt_quic_recv_ctx_t;
  r_ack2 : njt_quic_recv_ctx_t
}.

Definition set_r_qc v (s : njt_quic_recv_t) :=
  mkRecv v (r_keys s) (tp_max_ack_delay s) (r_ack0 s) (r_ack1 s) (r_ack2 s).

Definition ack_of (s : njt_quic_recv_t) (i : ctx_ix) : njt_quic_recv_ctx_t :=
  match i with Ix0 => r_ack0 s | Ix1 => r_ack1 s | Ix2 => r_ack2 s end.

Definition set_ack (i : ctx_ix) (x : njt_quic_recv_ctx_t)
    (s : njt_quic_recv_t) :=
  match i with
  | Ix0 => mkRecv (r_qc s) (r_keys s) (tp_max_ack_delay s)
                  x (r_ack1 s) (r_ack2 s)
  | Ix1 => mkRecv (r_qc s) (r_keys s) (tp_max_ack_delay s)
                  (r_ack0 s) x (r_ack2 s)
  | Ix2 => mkRecv (r_qc s) (r_keys s) (tp_max_ack_delay s)
                  (r_ack0 s) (r_ack1 s) x
  end.

Definition rctx (s : njt_quic_recv_t) (i : ctx_ix) : njt_quic_send_ctx_t :=
  ctx_of (r_qc s) i.

Definition set_rctx (i : ctx_ix) (x : njt_quic_send_ctx_t)
    (s : njt_quic_recv_t) :=
  set_r_qc (set_ctx i x (r_qc s)) s.

(** [NJT_QUIC_MAX_RANGES] is defined in the connection header;
    [njt_quic_keys_available] belongs to the protection code, and
    [njt_quic_send_ack] and [njt_quic_send_ack_range] to the sender: they
    take the time, the connection and the context and return their status
    and the connection as they leave it. *)
Variable NJT_QUIC_MAX_RANGES : Z.
Variable njt_quic_keys_available : Keys -> ssl_encryption_level_t -> Z -> bool.
Variable njt_quic_send_ack :
  Z -> njt_quic_recv_t -> ctx_ix -> Z * njt_quic_recv_t.
Variable njt_quic_send_ack_range :
  Z -> njt_quic_recv_t -> ctx_ix -> Z -> Z -> Z * njt_quic_recv_t.

(** The body of [if (pkt->need_ack)] at the head of
    [njt_quic_ack_packet]. *)
Definition ack_needed (now : Z) (ci : ctx_ix) (pn : Z)
    (s : njt_quic_recv_t) : njt_quic_recv_t :=
  let s := set_r_qc (post_push (r_qc s)) s in
  let s :=
    if send_ack (rctx s ci) =? 0
    then set_ack ci (set_ack_delay_start now (ack_of s ci)) s else s in
  let ctx := rctx s ci in
  let ctx := set_send_ack (wrap (send_ack ctx + 1)) ctx in
  let ctx :=
    if (pending_ack ctx =? NJT_QUIC_UNSET_PN) || (pending_ack ctx <? pn)
    then set_pending_ack pn ctx else ctx in
  set_rctx ci ctx s.

(** The block [if (ctx->nranges == NJT_QUIC_MAX_RANGES)] that comes before
    an insertion: its status ([NJT_ERROR] is the [return NJT_ERROR]) and
    the connection. *)
Definition ack_full (now : Z) (ci : ctx_ix) (prev_pending : Z)
    (need : bool) (s : njt_quic_recv_t) : Z * njt_quic_recv_t :=
  if nranges (rctx s ci) =? NJT_QUIC_MAX_RANGES then
    let '(rc, s) :=
      if negb (prev_pending =? NJT_QUIC_UNSET_PN)
      then njt_quic_send_ack now s ci else (NJT_OK, s) in
    if negb (rc =? NJT_OK) then (NJT_ERROR, s)
    else
      let ctx := rctx s ci in
      if (prev_pending =? pending_ack ctx) || negb need
      then (NJT_OK, set_rctx ci (set_pending_ack NJT_QUIC_UNSET_PN ctx) s)
      else (NJT_OK, s)
  else (NJT_OK, s).

(** The label [insert]: a new entry at index [i]. *)
Definition ack_insert (ci : ctx_ix) (i gap range : Z)
    (s : njt_quic_recv_t) : njt_quic_recv_t :=
  let ctx := rctx s ci in
  let ctx :=
    if nranges ctx <? NJT_QUIC_MAX_RANGES
    then set_nranges (wrap (nranges ctx + 1)) ctx else ctx in
  let rs := njt_memmove (ranges ctx) (i + 1) i
                        (wrap (wrap (nranges ctx - i) - 1)) in
  let rs := range_upd rs i (mkRange gap range) in
  set_rctx ci (set_ranges rs ctx) s.

(** [ctx->first_range += v] for [i = 0], [ctx->ranges[i - 1].range += v]
    otherwise: the range above the gap of entry [i] grows downwards.  At
    the end of the loop over the entries [ctx->ranges[i - 1]] is the entry
    that [r] is left on. *)
Definition grow_above (i v : Z) (ctx : njt_quic_send_ctx_t)
    : njt_quic_send_ctx_t :=
  if i =? 0 then set_first_range (wrap (first_range ctx + v)) ctx
  else
    let p := range_at (ranges ctx) (i - 1) in
    set_ranges (range_upd (ranges ctx) (i - 1)
                          (mkRange (gap p) (wrap (range p + v)))) ctx.

(** The three ways in which a packet number at an end of the gap in
    front of entry [i] is taken in; [r] is [&ctx->ranges[i]].  The gap is
    one packet, now filled: entry [i] joins the range above it and is
    removed. *)
Definition gap_filled (i : Z) (r : njt_quic_ack_range_t)
    (ctx : njt_quic_send_ctx_t) : njt_quic_send_ctx_t :=
  let ctx := grow_above i (wrap (range r + 2)) ctx in
  let nr := wrap (wrap (nranges ctx - i) - 1) in
  let ctx :=
    if negb (nr =? 0)
    then set_ranges (njt_memmove (ranges ctx) i (i + 1) nr) ctx
    else ctx in
  set_nranges (wrap (nranges ctx - 1)) ctx.

(** The gap shrinks from its tail: entry [i] grows upwards. *)
Definition gap_tail (i : Z) (r : njt_quic_ack_range_t)
    (ctx : njt_quic_send_ctx_t) : njt_quic_send_ctx_t :=
  set_ranges (range_upd (ranges ctx) i
                (mkRange (wrap (gap r - 1)) (wrap (range r + 1)))) ctx.

(** The gap shrinks from its head: the range above grows downwards. *)
Definition gap_head (i : Z) (r : njt_quic_ack_range_t)
    (ctx : njt_quic_send_ctx_t) : njt_quic_send_ctx_t :=
  let ctx :=
    set_ranges (range_upd (ranges ctx) i
                  (mkRange (wrap (gap r - 1)) (range r))) ctx in
  grow_above i 1 ctx.

(** How the [for] loop over the ranges ends. *)
Inductive ack_lookup_t :=
| Found (s : njt_quic_recv_t)
    (** [return NJT_OK] from inside the loop *)
| Split (i gs ge : Z)
    (** the gap [gs .. ge] in front of entry [i] is split *)
| Below (i smallest : Z).
    (** the loop ran to its end *)

Fixpoint ack_lookup (todo : nat) (ci : ctx_ix) (pn i smallest : Z)
    (s : njt_quic_recv_t) : ack_lookup_t :=
  match todo with
  | O => Below i smallest
  | S todo' =>
      let ctx := rctx s ci in
      let r := range_at (ranges ctx) i in
      let ge := wrap (smallest - 1) in
      let gs := wrap (ge - gap r) in
      if (gs <=? pn) && (pn <=? ge) then
        if gs =? ge then Found (set_rctx ci (gap_filled i r ctx) s)
        else if pn =? gs then Found (set_rctx ci (gap_tail i r ctx) s)
        else if pn =? ge then Found (set_rctx ci (gap_head i r ctx) s)
        else Split i gs ge
      else
        let largest := wrap (wrap (smallest - gap r) - 2) in
        let smallest := wrap (largest - range r) in
        if (smallest <=? pn) && (pn <=? largest) then Found s
        else ack_lookup todo' ci pn (i + 1) smallest s
  end.

(** The packet number is more than one above the largest (lines
    981-1013): the first range becomes entry 0 behind a new gap, and the
    packet number a first range of its own. *)
Definition ack_front (now : Z) (ci : ctx_ix) (pkt : njt_quic_header_t)
    (prev_pending base : Z) (s : njt_quic_recv_t) : Z * njt_quic_recv_t :=
  let pn := pkt_pn pkt in
  let '(rc, s) := ack_full now ci prev_pending (need_ack pkt) s in
  if negb (rc =? NJT_OK) then (NJT_ERROR, s)
  else
    let ctx := rctx s ci in
    let gap := wrap (wrap (pn - base) - 2) in
    let range := first_range ctx in
    let ctx := set_largest_range pn (set_first_range 0 ctx) in
    let s := set_ack ci (set_largest_received (received pkt) (ack_of s ci)) s in
    let ctx :=
      if need_ack pkt then set_send_ack NJT_QUIC_MAX_ACK_GAP ctx else ctx in
    (NJT_OK, ack_insert ci 0 gap range (set_rctx ci ctx s)).

(** The packet number is below the first range (lines 1031-1150): the
    loop over the entries and what follows it. *)
Definition ack_behind (now : Z) (ci : ctx_ix) (pkt : njt_quic_header_t)
    (prev_pending smallest : Z) (s : njt_quic_recv_t)
    : Z * njt_quic_recv_t :=
  let pn := pkt_pn pkt in
  match ack_lookup (Z.to_nat (nranges (rctx s ci))) ci pn 0 smallest s with
  | Found s => (NJT_OK, s)
  | Split i gs ge =>
      let gap := wrap (wrap (ge - pn) - 1) in
      let '(rc, s) := ack_full now ci prev_pending (need_ack pkt) s in
      if negb (rc =? NJT_OK) then (NJT_ERROR, s)
      else
        let ctx := rctx s ci in
        let r := range_at (ranges ctx) i in
        let ctx :=
          set_ranges
            (range_upd (ranges ctx) i
               (mkRange (wrap (wrap (pn - gs) - 1)) (range r))) ctx in
        (NJT_OK, ack_insert ci i gap 0 (set_rctx ci ctx s))
  | Below i smallest =>
      let ctx := rctx s ci in
      if pn =? wrap (smallest - 1) then
        (NJT_OK, set_rctx ci (grow_above i 1 ctx) s)
      else if nranges ctx =? NJT_QUIC_MAX_RANGES then
        if need_ack pkt then njt_quic_send_ack_range now s ci pn pn
        else (NJT_OK, s)
      else
        (NJT_OK, ack_insert ci i (wrap (wrap (smallest - 2) - pn)) 0 s)
  end.

Definition njt_quic_ack_packet (now : Z) (s : njt_quic_recv_t)
    (pkt : njt_quic_header_t) : Z * njt_quic_recv_t :=
  let ci := njt_quic_get_send_ctx (pkt_level pkt) in
  if negb (njt_quic_keys_available (r_keys s) (ctx_level (rctx s ci)) 1)
  then (NJT_OK, s)
  else
    let prev_pending := pending_ack (rctx s ci) in
    let pn := pkt_pn pkt in
    let s := if need_ack pkt then ack_needed now ci pn s else s in
    let ctx := rctx s ci in
    let base := largest_range ctx in
    let arrived x := set_largest_received (received pkt) x in
    if base =? NJT_QUIC_UNSET_PN then
      (NJT_OK,
       set_ack ci (arrived (ack_of s ci))
               (set_rctx ci (set_largest_range pn ctx) s))
    else if base =? pn then (NJT_OK, s)
    else
      let largest := base in
      let smallest := wrap (largest - first_range ctx) in
      if base <? pn then
        if wrap (pn - base) =? 1 then
          (NJT_OK,
           set_ack ci (arrived (ack_of s ci))
             (set_rctx ci
                (set_largest_range pn
                   (set_first_range (wrap (first_range ctx + 1)) ctx)) s))
        else ack_front now ci pkt prev_pending base s
      else
        let s :=
          if need_ack pkt
          then set_rctx ci (set_send_ack NJT_QUIC_MAX_ACK_GAP ctx) s
          else s in
        if (smallest <=? pn) && (pn <=? largest) then (NJT_OK, s)
        else ack_behind now ci pkt prev_pending smallest s.

(** [njt_quic_generate_ack] takes the context; here, its index. *)
Definition njt_quic_generate_ack (now : Z) (s : njt_quic_recv_t)
    (ci : ctx_ix) : Z * njt_quic_recv_t :=
  let ctx := rctx s ci in
  if send_ack ctx =? 0 then (NJT_OK, s)
  else
    let delayed :=
      if is_application (ctx_level ctx) then
        let delay := wrap (now - ack_delay_start (ack_of s ci)) in
        if match frames ctx with [] => true | _ :: _ => false end
           && (send_ack ctx <? NJT_QUIC_MAX_ACK_GAP)
           && (delay <? tp_max_ack_delay s)
        then Some delay else None
      else None in
    match delayed with
    | Some delay =>
        let qc := r_qc s in
        if negb (timer_set (push qc)) && negb (closing (params qc)) then
          (NJT_OK,
           set_r_qc
             (set_push (njt_add_timer now (push qc)
                          (wrap (tp_max_ack_delay s - delay))) qc) s)
        else (NJT_OK, s)
    | None =>
        let '(rc, s) := njt_quic_send_ack now s ci in
        if negb (rc =? NJT_OK) then (NJT_ERROR, s)
        else (NJT_OK, set_rctx ci (set_send_ack 0 (rctx s ci)) s)
    end.

End Receiver.

Arguments njt_quic_recv_t : clear implicits.
Arguments ack_lookup_t : clear implicits.

(** ** What the range database stands for *)

(** The packet numbers of the entries [rs], which lie below a range with
    smallest number [smallest]. *)
Fixpoint in_ranges (smallest : Z) (rs : list njt_quic_ack_range_t) (x : Z)
    : Prop :=
  match rs with
  | [] => False
  | r :: rs' =>
      smallest - gap r - 2 - range r <= x <= smallest - gap r - 2
      \/ in_ranges (smallest - gap r - 2 - range r) rs' x
  end.

(** The smallest number of the last of the entries [rs]. *)
Fixpoint low (smallest : Z) (rs : list njt_quic_ack_range_t) : Z :=
  match rs with
  | [] => smallest
  | r :: rs' => low (smallest - gap r - 2 - range r) rs'
  end.

(** No entry reaches below zero. *)
Fixpoint ranges_wf (smallest : Z) (rs : list njt_quic_ack_range_t) : Prop :=
  match rs with
  | [] => True
  | r :: rs' =>
      0 <= gap r /\ 0 <= range r /\ 0 <= smallest - gap r - 2 - range r
      /\ ranges_wf (smallest - gap r - 2 - range r) rs'
  end.

(** The entries in use. *)
Definition db_ranges (c : njt_quic_send_ctx_t) : list njt_quic_ack_range_t :=
  firstn (Z.to_nat (nranges c)) (ranges c).

(** [x] is one of the packet numbers that the database of [c] holds. *)
Definition db_mem (c : njt_quic_send_ctx_t) (x : Z) : Prop :=
  largest_range c <> NJT_QUIC_UNSET_PN
  /\ (largest_range c - first_range c <= x <= largest_range c
      \/ in_ranges (largest_range c - first_range c) (db_ranges c) x).

(** The database is empty, or it holds packet numbers of at most 62 bits
    with no entry reaching below zero. *)
Definition db_sound (c : njt_quic_send_ctx_t) : Prop :=
  0 <= nranges c
  /\ ((largest_range c = NJT_QUIC_UNSET_PN
       /\ first_range c = 0 /\ nranges c = 0)
      \/ (largest_range c < 2 ^ 62
          /\ 0 <= first_range c <= largest_range c
          /\ ranges_wf (largest_range c - first_range c) (db_ranges c))).

(** A sound database in an array of [maxr] entries. *)
Definition db_wf (maxr : Z) (c : njt_quic_send_ctx_t) : Prop :=
  Z.of_nat (List.length (ranges c)) = maxr
  /\ nranges c <= maxr
  /\ db_sound c.

(** A context of the application level whose database holds packet 9,
    packets 5 and 6 and packet 2, in an array of four entries; packet 6
    waits for an ACK. *)
Definition db_ctx : njt_quic_send_ctx_t :=
  mkCtx ssl_encryption_application 0 NJT_QUIC_UNSET_PN 9 0 2
        [mkRange 1 1; mkRange 1 0; mkRange 0 0; mkRange 0 0] 6 1 [] [].

(** ** A packet number recorded *)

Section Recorded.
Context {Tree Path Keys : Type}.

(** From [c] to [c'] only the four fields of the database were written. *)
Definition db_fields_only (c c' : njt_quic_send_ctx_t) : Prop :=
  c' = set_range_db (largest_range c') (first_range c') (nranges c')
                    (ranges c') (pending_ack c) c.

(** Two contexts with the same database. *)
Definition db_eq (c c' : njt_quic_send_ctx_t) : Prop :=
  largest_range c' = largest_range c /\ first_range c' = first_range c
  /\ nranges c' = nranges c /\ ranges c' = ranges c.

(** A call into the sender that leaves the database of the context it is
    given as it is. *)
Definition keeps_db
    (f : njt_quic_recv_t Tree Path Keys -> ctx_ix
         -> Z * njt_quic_recv_t Tree Path Keys) : Prop :=
  forall s i, db_eq (rctx s i) (rctx (snd (f s i)) i).

(** [s'] is [s] with [pn] added to the database of context [ci]. *)
Definition recorded (maxr : Z) (s : njt_quic_recv_t Tree Path Keys)
    (ci : ctx_ix) (pn : Z) (s' : njt_quic_recv_t Tree Path Keys) : Prop :=
  s' = set_rctx ci (rctx s' ci) s
  /\ db_fields_only (rctx s ci) (rctx s' ci)
  /\ db_wf maxr (rctx s' ci)
  /\ forall x, db_mem (rctx s' ci) x <-> db_mem (rctx s ci) x \/ x = pn.

(** What [njt_quic_ack_packet] does to the database [c] of context [ci]
    on a packet numbered [pn], [r] being its result: the database stays
    well formed, it gains no number but [pn] and at most one entry, and
    with room in the array the call succeeds and the database holds [pn]
    and what it held. *)
Definition packet_taken (maxr : Z) (ci : ctx_ix) (pn : Z)
    (c : njt_quic_send_ctx_t) (r : Z * njt_quic_recv_t Tree Path Keys)
    : Prop :=
  db_wf maxr (rctx (snd r) ci)
  /\ nranges (rctx (snd r) ci) <= nranges c + 1
  /\ (forall x, db_mem (rctx (snd r) ci) x -> db_mem c x \/ x = pn)
  /\ (nranges c < maxr ->
      fst r = NJT_OK
      /\ forall x, db_mem c x \/ x = pn -> db_mem (rctx (snd r) ci) x).

End Recorded.


(** ** Sample data for the receiving side *)

(** A connection whose application context has the database [db_ctx];
    the first packet that waits for an ACK arrived at millisecond 90, and
    [max_ack_delay] is 25 ms. *)
Definition recv_conn : njt_quic_recv_t unit unit unit :=
  mkRecv
    (sample_conn
       (sample_ctx ssl_encryption_initial 0 NJT_QUIC_UNSET_PN [])
       (sample_ctx ssl_encryption_handshake 0 NJT_QUIC_UNSET_PN [])
       db_ctx (mkRtt 100 100 100 25 0) (mkCg 12000 (2 ^ 64 - 1) 0 0) 0
       sample_event)
    tt 25 (mkRecvCtx 0 0) (mkRecvCtx 0 0) (mkRecvCtx 90 95).

(** Keys that are always there and a sender that takes every ACK. *)
Definition keys_ok (k : unit) (l : ssl_encryption_level_t) (w : Z) : bool :=
  true.

Definition ack_sent (now : Z) (s : njt_quic_recv_t unit unit unit)
    (i : ctx_ix) : Z * njt_quic_recv_t unit unit unit :=
  (NJT_OK, s).

Definition range_sent (now : Z) (s : njt_quic_recv_t unit unit unit)
    (i : ctx_ix) (a b : Z) : Z * njt_quic_recv_t unit unit unit :=
  (NJT_OK, s).

(** Packet 4 of the application level, which asks for an ACK. *)
Definition late_pkt : njt_quic_header_t :=
  mkHeader ssl_encryption_application 4 true 100.

(** ** The send time that an ACK range reports *)

(** The send time of the last of the frames [q] that has packet number
    [max], [d] when there is none: what a walk leaves in [st->max_pn]. *)
Definition sent_at (max : Z) (q : list njt_quic_frame_t) (d : Z) : Z :=
  fold_left (fun acc f => if pnum f =? max then send_time f else acc) q d.

(** ** What a resend puts back in the queue *)

(** The frame types that [njt_quic_resend_frames] hands back to the
    sender. *)
Definition requeued (k : njt_quic_frame_kind) : Prop :=
  match k with
  | FT_ACK _ | FT_ACK_ECN _ | FT_PING | FT_PATH_CHALLENGE
  | FT_PATH_RESPONSE | FT_CONNECTION_CLOSE => False
  | _ => True
  end.

(** ** Calls in a row *)

Section Keys.
Context {Tree Path Keys : Type}.

(** From [s] to [s'] the keys of the connection and the level of context
    [ci] are the same. *)
Definition same_keys (ci : ctx_ix) (s s' : njt_quic_recv_t Tree Path Keys)
    : Prop :=
  r_keys s' = r_keys s /\ ctx_level (rctx s' ci) = ctx_level (rctx s ci).

End Keys.

(** * Properties *)

(** ** Arithmetic of the machine types *)

#[local] Arguments Z.mul : simpl never.
#[local] Arguments Z.add : simpl never.
#[local] Arguments Z.sub : simpl never.
#[local] Arguments Z.div : simpl never.
#[local] Arguments Z.modulo : simpl never.
#[local] Arguments Z.pow : simpl never.
#[local] Arguments Z.shiftl : simpl never.
#[local] Arguments Z.shiftr : simpl never.
#[local] Arguments Z.max : simpl never.
#[local] Arguments Z.min : simpl never.
#[local] Arguments Z.abs : simpl never.
#[local] Arguments Z.ltb : simpl never.
#[local] Arguments Z.leb : simpl never.
#[local] Arguments Z.eqb : simpl never.
#[local] Arguments wrap : simpl never.
#[local] Arguments msec_int : simpl never.

Lemma wrap_small x : 0 <= x < 2 ^ 64 -> wrap x = x.
Proof. intros H. unfold wrap. apply Z.mod_small. exact H. Qed.

Lemma wrap_range x : 0 <= wrap x < 2 ^ 64.
Proof. unfold wrap. apply Z.mod_pos_bound. reflexivity. Qed.

Lemma wrap_add_r x y : wrap (x + wrap y) = wrap (x + y).
Proof. unfold wrap. apply Zplus_mod_idemp_r. Qed.

Lemma msec_int_small x : - 2 ^ 63 <= x < 2 ^ 63 -> msec_int x = x.
Proof.
  intros H. unfold msec_int.
  destruct (Z_lt_le_dec x 0) as [Hneg | Hpos].
  - assert (Hw : wrap x = x + 2 ^ 64).
    { unfold wrap. symmetry. apply Z.mod_unique with (q := -1); lia. }
    rewrite Hw. destruct (Z.ltb_spec (x + 2 ^ 64) (2 ^ 63)); lia.
  - rewrite wrap_small by lia.
    destruct (Z.ltb_spec x (2 ^ 63)); lia.
Qed.

Lemma msec_int_wrap x : msec_int (wrap x) = msec_int x.
Proof.
  unfold msec_int. assert (H : wrap (wrap x) = wrap x).
  { apply wrap_small. apply wrap_range. }
  rewrite H. reflexivity.
Qed.

Lemma shiftr_div x n : 0 <= n -> Z.shiftr x n = x / 2 ^ n.
Proof. intros H. apply Z.shiftr_div_pow2. exact H. Qed.

(** ** The NewReno loss hook *)

Section Congestion.
Context {Tree Path : Type}.
Implicit Types (qc : njt_quic_connection_t Tree Path) (f : njt_quic_frame_t).

Lemma congestion_done_congestion b qc :
  congestion (congestion_done b qc) = congestion qc.
Proof. unfold congestion_done. destruct (_ && _); reflexivity. Qed.

Lemma recovery_test (t r : Z) :
  small t -> small r -> (msec_int (wrap (t - r)) <=? 0) = (t <=? r).
Proof.
  unfold small. intros Ht Hr. rewrite msec_int_wrap.
  rewrite msec_int_small by lia.
  destruct (Z.leb_spec (t - r) 0), (Z.leb_spec t r); lia || reflexivity.
Qed.

(** C2 (amended).  In the reducing branch of [njt_quic_congestion_lost]
    (the frame has [plen > 0], [pnum >= rst_pnum] and was sent after
    [recovery_start]) the new values are [recovery_start = now],
    [window = max (window / 2, 2 * max_udp_payload_size)] and
    [ssthresh = window], so the window is at least two datagrams.  In
    every other case the window, the threshold and the start of recovery
    are left as they were; the lower bound on the window is therefore
    preserved by every call. *)
Theorem congestion_lost_newreno now qc f :
  small (tp_max_udp_payload_size (params qc)) ->
  small (send_time f) ->
  small (recovery_start (congestion qc)) ->
  let cg := congestion qc in
  let cg' := congestion (fst (njt_quic_congestion_lost now qc f)) in
  let mups2 := 2 * tp_max_udp_payload_size (params qc) in
  (plen f <> 0 -> rst_pnum (params qc) <= pnum f ->
   recovery_start cg < send_time f ->
   recovery_start cg' = now
   /\ window cg' = Z.max (window cg / 2) mups2
   /\ ssthresh cg' = window cg'
   /\ mups2 <= window cg')
  /\ (~ (plen f <> 0 /\ rst_pnum (params qc) <= pnum f
         /\ recovery_start cg < send_time f) ->
      window cg' = window cg /\ ssthresh cg' = ssthresh cg
      /\ recovery_start cg' = recovery_start cg)
  /\ (mups2 <= window cg -> mups2 <= window cg').
Proof.
  intros Hm Ht Hr cg cg' mups2. subst cg cg' mups2.
  unfold njt_quic_congestion_lost.
  destruct (Z.eqb_spec (plen f) 0) as [Hp | Hp]; cbn [fst].
  { repeat split; intros; try lia; tauto. }
  destruct (Z.ltb_spec (pnum f) (rst_pnum (params qc))) as [Hn | Hn];
    cbn [fst].
  { repeat split; intros; try lia. }
  cbn [recovery_start set_in_flight].
  rewrite recovery_test by assumption.
  destruct (Z.leb_spec (send_time f) (recovery_start (congestion qc)))
    as [Hs | Hs]; cbn [fst]; rewrite congestion_done_congestion; cbn.
  { repeat split; intros; try lia. }
  assert (Hw : wrap (tp_max_udp_payload_size (params qc) * 2)
               = 2 * tp_max_udp_payload_size (params qc)).
  { unfold small in Hm. rewrite wrap_small by lia. lia. }
  rewrite Hw.
  destruct (Z.ltb_spec (window (congestion qc) / 2)
                       (2 * tp_max_udp_payload_size (params qc)));
    cbn; repeat split; intros; try lia.
Qed.

End Congestion.

(** The hypotheses of [congestion_lost_newreno] hold of a loss on the
    sample connection. *)
Lemma congestion_lost_newreno_witness :
  window (congestion (fst (njt_quic_congestion_lost 1500 fresh_conn
            (mkFrame ssl_encryption_initial FT_PING 0 1200 1200 false))))
  = 6000.
Proof.
  pose proof (congestion_lost_newreno 1500 fresh_conn
                (mkFrame ssl_encryption_initial FT_PING 0 1200 1200 false))
    as H.
  cbv zeta in H.
  destruct H as [H _]; [unfold small; cbn; lia ..|].
  destruct H as (_ & H & _); [cbn; lia ..|].
  rewrite H. reflexivity.
Defined.

(** C2, as stated, fails: a packet sent in the millisecond in which the
    connection was created is not sent after [recovery_start]; its loss
    leaves the infinite initial threshold next to a window of ten
    datagrams. *)
Lemma congestion_lost_keeps_threshold :
  let cg' := congestion (fst (njt_quic_congestion_lost 1500 fresh_conn
               (mkFrame ssl_encryption_initial FT_PING 0 1000 1200 false))) in
  window cg' = 12000 /\ ssthresh cg' = 2 ^ 64 - 1
  /\ ssthresh cg' <> window cg'.
Proof. cbv zeta. repeat split. discriminate. Qed.

(** ** RTT sampling *)

Section Rtt.
Context {Tree Path : Type}.
Implicit Types (qc : njt_quic_connection_t Tree Path).

Lemma shiftl_mul x n : 0 <= n -> Z.shiftl x n = x * 2 ^ n.
Proof. intros H. apply Z.shiftl_mul_pow2. exact H. Qed.

(** C4 (amended).  A sample taken at [now] for a packet sent at [t0]
    sets [latest_rtt = now - t0].  The first sample ([min_rtt] unset)
    sets [min_rtt = avg_rtt = latest_rtt], [rttvar = latest_rtt / 2] and
    [first_rtt = now].  A later sample sets
    [min_rtt = min (min_rtt, latest_rtt)], computes
    [ack_delay = (delay << ack_delay_exponent) / 1000], capped to
    [max_ack_delay] once the handshake is done, subtracts it from the
    sample exactly when [min_rtt + ack_delay < latest_rtt], and moves the
    estimators by the difference of the shifted terms:
    [rttvar += (|avg_rtt - adjusted| >> 2) - (rttvar >> 2)] and
    [avg_rtt += (adjusted >> 3) - (avg_rtt >> 3)]. *)
Theorem rtt_sample_update now qc delay t0 :
  small now -> small t0 -> t0 <= now ->
  let r := rtt qc in
  let r' := rtt (njt_quic_rtt_sample now qc delay t0) in
  let latest := now - t0 in
  latest_rtt r' = latest
  /\ (min_rtt r = NJT_TIMER_INFINITE ->
      min_rtt r' = latest /\ avg_rtt r' = latest
      /\ rttvar r' = latest / 2 /\ first_rtt r' = now)
  /\ (min_rtt r <> NJT_TIMER_INFINITE ->
      small (min_rtt r) -> small (avg_rtt r) -> small (rttvar r) ->
      0 <= delay -> 0 <= ctp_ack_delay_exponent (params qc) ->
      delay * 2 ^ ctp_ack_delay_exponent (params qc) < 2 ^ 64 ->
      small (ctp_max_ack_delay (params qc)) ->
      let ack_delay0 :=
        delay * 2 ^ ctp_ack_delay_exponent (params qc) / 1000 in
      let ack_delay :=
        if handshaked (params qc)
        then Z.min ack_delay0 (ctp_max_ack_delay (params qc))
        else ack_delay0 in
      let adjusted :=
        if min_rtt r' + ack_delay <? latest then latest - ack_delay
        else latest in
      min_rtt r' = Z.min (min_rtt r) latest
      /\ rttvar r'
         = rttvar r + Z.abs (avg_rtt r - adjusted) / 4 - rttvar r / 4
      /\ avg_rtt r' = avg_rtt r + adjusted / 8 - avg_rtt r / 8
      /\ first_rtt r' = first_rtt r).
Proof.
  unfold small. intros Hn Ht Hle.
  unfold njt_quic_rtt_sample.
  assert (Hl : wrap (now - t0) = now - t0) by (apply wrap_small; lia).
  rewrite Hl.
  destruct (Z.eqb_spec (min_rtt (rtt qc)) NJT_TIMER_INFINITE) as [He | He];
    cbn [rtt set_rtt latest_rtt min_rtt avg_rtt rttvar first_rtt].
  { repeat split; intros; try reflexivity; contradiction. }
  split; [reflexivity|]. split; [intros; contradiction|].
  intros _ Hm Ha Hv Hd He0 Hsh Hmad.
  rewrite shiftl_mul by assumption.
  set (e := ctp_ack_delay_exponent (params qc)) in *.
  assert (Hq : 0 <= delay * 2 ^ e / 1000 < 2 ^ 55).
  { assert (0 <= delay * 2 ^ e).
    { apply Z.mul_nonneg_nonneg; [lia | apply Z.pow_nonneg; lia]. }
    split; [apply Z.div_pos; lia |].
    apply Z.div_lt_upper_bound; lia. }
  rewrite (wrap_small (delay * 2 ^ e)) by lia.
  set (ad := if handshaked (params qc)
             then Z.min (delay * 2 ^ e / 1000) (ctp_max_ack_delay (params qc))
             else delay * 2 ^ e / 1000).
  assert (Had : 0 <= ad < 2 ^ 62).
  { subst ad. destruct (handshaked (params qc)); lia. }
  set (mn := Z.min (min_rtt (rtt qc)) (now - t0)).
  assert (Hmn : 0 <= mn <= now - t0) by (subst mn; lia).
  rewrite (wrap_small (mn + ad)) by lia.
  set (adj := if mn + ad <? now - t0 then wrap (now - t0 - ad)
              else now - t0).
  assert (Hadj : adj = (if mn + ad <? now - t0 then now - t0 - ad
                        else now - t0) /\ 0 <= adj < 2 ^ 62).
  { subst adj. destruct (Z.ltb_spec (mn + ad) (now - t0)).
    - rewrite wrap_small by lia. lia.
    - lia. }
  destruct Hadj as [Hadj Hb]. rewrite <- Hadj.
  rewrite msec_int_small by lia.
  rewrite !shiftr_div by lia.
  change (2 ^ 2) with 4. change (2 ^ 3) with 8.
  rewrite !wrap_add_r.
  assert (0 <= Z.abs (avg_rtt (rtt qc) - adj) / 4 < 2 ^ 62).
  { split; [apply Z.div_pos; lia |].
    apply Z.div_lt_upper_bound; lia. }
  assert (0 <= rttvar (rtt qc) / 4 <= rttvar (rtt qc)).
  { split; [apply Z.div_pos; lia |]. apply Z.div_le_upper_bound; lia. }
  assert (0 <= avg_rtt (rtt qc) / 8 <= avg_rtt (rtt qc)).
  { split; [apply Z.div_pos; lia |]. apply Z.div_le_upper_bound; lia. }
  assert (0 <= adj / 8 < 2 ^ 62).
  { split; [apply Z.div_pos; lia |]. apply Z.div_lt_upper_bound; lia. }
  rewrite !wrap_small by lia.
  repeat split; lia.
Qed.

End Rtt.

(** The hypotheses of [rtt_sample_update] hold of a second sample of
    100 ms on the sample connection. *)
Lemma rtt_sample_update_witness :
  avg_rtt (rtt (njt_quic_rtt_sample 1100 warm_conn 0 1000)) = 103.
Proof.
  pose proof (rtt_sample_update 1100 warm_conn 0 1000) as H.
  cbv zeta in H.
  destruct H as (_ & _ & H); [unfold small; lia ..|].
  destruct H as (_ & _ & H & _);
    [try (unfold small; cbn; lia); try discriminate ..|].
  rewrite H. reflexivity.
Defined.

(** C4, as stated, fails: with [avg_rtt = 104], [rttvar = 1] and an
    adjusted sample of 100 the code moves [rttvar] to 2, while a quarter
    of the difference [|104 - 100| - 1 = 3] is less than one, whether the
    division rounds down, rounds towards zero or is exact. *)
Lemma rtt_sample_shifts_terms :
  let r := rtt warm_conn in
  let r' := rtt (njt_quic_rtt_sample 1100 warm_conn 0 1000) in
  rttvar r' = 2
  /\ rttvar r' <> spec_rttvar_update (rttvar r) (avg_rtt r) 100
  /\ rttvar r' <> spec_rttvar_update_trunc (rttvar r) (avg_rtt r) 100
  /\ 4 * (rttvar r' - rttvar r) <> Z.abs (avg_rtt r - 100) - rttvar r.
Proof. cbv zeta. repeat split; discriminate. Qed.

(** ** The loss/PTO timer *)

Section Timer.
Context {Tree Path : Type}.
Implicit Types (qc : njt_quic_connection_t Tree Path).

Lemma set_pto_self qc : set_pto (pto qc) qc = qc.
Proof. destruct qc; reflexivity. Qed.

(** [njt_quic_set_lost_timer] writes the event [pto] and nothing else. *)
Lemma set_lost_timer_shape now qc :
  exists ev, njt_quic_set_lost_timer now qc = set_pto ev qc.
Proof.
  unfold njt_quic_set_lost_timer.
  destruct (fold_left _ _ _) as [lost pto_w].
  destruct (timer_set (pto qc)); destruct (lost =? -1);
    destruct (pto_w =? -1); cbn [negb];
    try (eexists; reflexivity).
  exists (pto qc). symmetry. apply set_pto_self.
Qed.

Lemma set_lost_timer_pto_count now qc :
  pto_count (njt_quic_set_lost_timer now qc) = pto_count qc.
Proof.
  destruct (set_lost_timer_shape now qc) as [ev ->]. reflexivity.
Qed.

Lemma list_eq_dec_nil {A} (l : list A) : {l = []} + {l <> []}.
Proof. destruct l; [left; reflexivity | right; discriminate]. Qed.

Lemma last_in {A} (l : list A) (d : A) : l <> [] -> In (last l d) l.
Proof.
  induction l as [| a l IH]; [congruence |]. intros _.
  destruct l as [| b l]; [left; reflexivity |].
  right. apply IH. discriminate.
Qed.

Lemma pto_base_pos qc i :
  small (avg_rtt (rtt qc)) -> small (rttvar (rtt qc)) ->
  small (ctp_max_ack_delay (params qc)) -> 1 <= pto_base qc i.
Proof.
  unfold small, pto_base. intros Ha Hv Hm.
  destruct (_ && _); lia.
Qed.

Lemma njt_quic_pto_base qc i :
  small (avg_rtt (rtt qc)) -> small (rttvar (rtt qc)) ->
  small (ctp_max_ack_delay (params qc)) ->
  pto_base qc i < 2 ^ 62 ->
  njt_quic_pto qc i = pto_base qc i.
Proof.
  unfold small, pto_base, njt_quic_pto, NJT_QUIC_TIME_GRANULARITY.
  intros Ha Hv Hm Hb.
  rewrite (wrap_small (4 * _)) by lia.
  destruct (_ && _).
  - rewrite (wrap_small (avg_rtt _ + _)) by lia. rewrite wrap_small; lia.
  - rewrite wrap_small; lia.
Qed.

(** The test of the handler is the deadline of the specification. *)
Lemma pto_due_spec now qc i :
  pto_in_range now qc i -> (pto_due now qc i = true <-> due_spec now qc i).
Proof.
  unfold pto_in_range, pto_due, due_spec.
  intros (Hn & Ha & Hv & Hm & Hc & Hb & Hs).
  destruct (sent (ctx_of qc i)) as [| f0 q] eqn:Hq; [split; [discriminate | tauto] |].
  set (f := last (f0 :: q) f0).
  assert (Hf : small (send_time f)).
  { rewrite Forall_forall in Hs. apply Hs. apply last_in. discriminate. }
  pose proof (pto_base_pos qc i Ha Hv Hm) as Hp.
  assert (Hpow : 1 <= 2 ^ pto_count qc).
  { pose proof (Z.pow_pos_nonneg 2 (pto_count qc)). lia. }
  assert (Hlt : pto_base qc i < 2 ^ 62) by nia.
  unfold pto_wait. fold f.
  rewrite njt_quic_pto_base by assumption.
  rewrite shiftl_mul by assumption.
  unfold small in *.
  rewrite (wrap_small (pto_base qc i * _)) by nia.
  rewrite wrap_small by lia.
  rewrite msec_int_small by lia.
  cbv zeta.
  destruct (Z.leb_spec (pnum f) (largest_ack (ctx_of qc i)));
    destruct (Z.eqb_spec (largest_ack (ctx_of qc i)) NJT_QUIC_UNSET_PN);
    cbn [andb negb];
    destruct (Z.ltb_spec 0 (send_time f + pto_base qc i * 2 ^ pto_count qc - now));
    split; intros; try discriminate; try reflexivity; try tauto; try lia.
  all: split; [tauto || lia | lia].
Qed.

End Timer.

(** ** The PTO handler *)

Section PtoHandler.
Context {Tree Path : Type}.
Variable alloc : njt_quic_connection_t Tree Path -> option njt_quic_frame_t.
Variable sendto : njt_quic_connection_t Tree Path -> njt_quic_frame_t
                  -> Z * njt_quic_connection_t Tree Path.
Implicit Types (qc q : njt_quic_connection_t Tree Path).

Lemma pto_probe_ok i q out :
  sender_ok alloc sendto ->
  exists f, is_probe f /\ level f = ctx_level (ctx_of q i)
    /\ pto_probe alloc sendto i (q, out) = inl (snd (sendto q f), out ++ [f]).
Proof.
  intros (Ha & Hs & _). unfold pto_probe.
  destruct (alloc q) as [f0 |] eqn:Hf; [| destruct (Ha q Hf)].
  set (f := mkFrame _ _ _ _ _ _).
  exists f. split; [split; reflexivity |]. split; [reflexivity |].
  specialize (Hs q f). destruct (sendto q f) as [rc q'].
  cbn [fst snd] in *.
  destruct (Z.eqb_spec rc NJT_ERROR); [contradiction | reflexivity].
Qed.

Lemma pto_turn_ok now i q out :
  sender_ok alloc sendto ->
  exists q' extra,
    pto_turn alloc sendto now i (q, out) = inl (q', out ++ extra)
    /\ Forall is_probe extra
    /\ List.length extra = (if pto_due now q i then 2 else 0)%nat
    /\ pto_count q' = pto_count q
    /\ (pto_due now q i = false -> q' = q)
    /\ (sender_local now sendto ->
        forall j, i <> j -> pto_due now q' j = pto_due now q j).
Proof.
  intros Hok. unfold pto_turn. cbn [fst].
  destruct (pto_due now q i) eqn:Hd.
  - destruct (pto_probe_ok i q out Hok) as (f1 & Hp1 & Hl1 & ->).
    destruct (pto_probe_ok i (snd (sendto q f1)) (out ++ [f1]) Hok)
      as (f2 & Hp2 & Hl2 & ->).
    exists (snd (sendto (snd (sendto q f1)) f2)), [f1; f2].
    rewrite <- app_assoc. cbn [app].
    destruct Hok as (_ & _ & Hc).
    repeat split; try (constructor; auto).
    + now rewrite !Hc.
    + discriminate.
    + intros Hloc j Hj. rewrite (Hloc _ _ i j Hl2 Hj).
      apply (Hloc _ _ i j Hl1 Hj).
  - exists q, []. rewrite app_nil_r. repeat split; auto.
Qed.

(** C10.  Whenever the allocator and the sender succeed, a run of the PTO
    handler returns with [pto_count] larger by exactly one, also when no
    send context is due and no probe leaves: the back-off grows once for
    each expiry of the timer. *)
Theorem pto_handler_backoff now qc :
  sender_ok alloc sendto ->
  0 <= pto_count qc -> pto_count qc + 1 < 2 ^ 64 ->
  exists qc' out,
    njt_quic_pto_handler alloc sendto now qc = (Returned qc', out)
    /\ pto_count qc' = pto_count qc + 1
    /\ ((forall i, pto_due now qc i = false) -> out = []).
Proof.
  intros Hok H0 H1. unfold njt_quic_pto_handler.
  destruct (pto_turn_ok now Ix0 qc [] Hok)
    as (q0 & e0 & -> & _ & Hl0 & Hc0 & Hn0 & _).
  destruct (pto_turn_ok now Ix1 q0 ([] ++ e0) Hok)
    as (q1 & e1 & -> & _ & Hl1 & Hc1 & Hn1 & _).
  destruct (pto_turn_ok now Ix2 q1 (([] ++ e0) ++ e1) Hok)
    as (q2 & e2 & -> & _ & Hl2 & Hc2 & Hn2 & _).
  eexists. eexists. split; [reflexivity |]. split.
  - rewrite set_lost_timer_pto_count. cbn [pto_count set_pto_count].
    rewrite Hc2, Hc1, Hc0. apply wrap_small. lia.
  - intros Hnone.
    pose proof (Hnone Ix0) as D0. rewrite D0 in Hl0.
    specialize (Hn0 D0). subst q0.
    pose proof (Hnone Ix1) as D1. rewrite D1 in Hl1.
    specialize (Hn1 D1). subst q1.
    pose proof (Hnone Ix2) as D2. rewrite D2 in Hl2.
    destruct e0; [| discriminate]. destruct e1; [| discriminate].
    destruct e2; [| discriminate]. reflexivity.
Qed.

Lemma spec_probes_app p1 p2 : forall q out,
  spec_probes alloc sendto (p1 ++ p2) q out
  = match spec_probes alloc sendto p1 q out with
    | (AllSent, q', out') => spec_probes alloc sendto p2 q' out'
    | r => r
    end.
Proof.
  induction p1 as [| i p1 IH]; intros q out; cbn [app spec_probes];
    [reflexivity |].
  destruct (alloc q) as [f0 |]; [| reflexivity]. cbv zeta.
  destruct (_ =? NJT_ERROR); [reflexivity | apply IH].
Qed.

(** One turn of the loop over the contexts is the run of the probes of
    its context. *)
Lemma pto_turn_probes now i q out :
  pto_turn alloc sendto now i (q, out)
  = match spec_probes alloc sendto
            (if pto_due now q i then [i; i] else []) q out with
    | (AllSent, q', out') => inl (q', out')
    | (_, q', out') => inr (q', out')
    end.
Proof.
  unfold pto_turn. cbn [fst].
  destruct (pto_due now q i); [| reflexivity].
  cbn [spec_probes]. unfold pto_probe at 1.
  destruct (alloc q) as [f0 |]; [| reflexivity]. cbv zeta.
  fold (ping_of q i f0).
  destruct (sendto q (ping_of q i f0)) as [rc q1]. cbn [fst snd].
  destruct (rc =? NJT_ERROR); [reflexivity |].
  unfold pto_probe.
  destruct (alloc q1) as [f1 |]; [| reflexivity]. cbv zeta.
  fold (ping_of q1 i f1).
  destruct (sendto q1 (ping_of q1 i f1)) as [rc2 q2]. cbn [fst snd].
  destruct (rc2 =? NJT_ERROR); reflexivity.
Qed.

(** Probes of one context leave alone whether another context is due. *)
Lemma spec_probes_due now j : forall plan q out,
  sender_local now sendto -> Forall (fun i => i <> j) plan ->
  fst (fst (spec_probes alloc sendto plan q out)) = AllSent ->
  pto_due now (snd (fst (spec_probes alloc sendto plan q out))) j
  = pto_due now q j.
Proof.
  induction plan as [| i plan IH]; intros q out Hloc Hall;
    cbn [spec_probes]; [reflexivity |].
  inversion Hall as [| i' p' Hi Hrest]; subst i' p'.
  destruct (alloc q) as [f0 |]; [| discriminate]. cbv zeta.
  destruct (_ =? NJT_ERROR); [discriminate |].
  intros H. rewrite (IH _ _ Hloc Hrest H).
  apply (Hloc q (ping_of q i f0) i j); [reflexivity | exact Hi].
Qed.

(** The handler is the run of the probes of the plan. *)
Lemma pto_handler_plan now qc :
  sender_local now sendto ->
  njt_quic_pto_handler alloc sendto now qc
  = probes_outcome now (spec_probes alloc sendto (probe_plan now qc) qc []).
Proof.
  intros Hloc. unfold njt_quic_pto_handler, probe_plan.
  cbn [flat_map]. rewrite app_nil_r.
  rewrite !pto_turn_probes.
  set (p0 := if pto_due now qc Ix0 then [Ix0; Ix0] else []).
  set (p1 := if pto_due now qc Ix1 then [Ix1; Ix1] else []).
  set (p2 := if pto_due now qc Ix2 then [Ix2; Ix2] else []).
  assert (F0 : forall j, j <> Ix0 -> Forall (fun i => i <> j) p0).
  { intros j Hj. subst p0. destruct (pto_due now qc Ix0);
      repeat constructor; congruence. }
  assert (F1 : forall j, j <> Ix1 -> Forall (fun i => i <> j) p1).
  { intros j Hj. subst p1. destruct (pto_due now qc Ix1);
      repeat constructor; congruence. }
  rewrite spec_probes_app.
  pose proof (fun j Hj => spec_probes_due now j p0 qc [] Hloc (F0 j Hj))
    as D0.
  destruct (spec_probes alloc sendto p0 qc []) as [[e0 q0] out0].
  cbn [fst snd] in D0.
  destruct e0; try reflexivity.
  rewrite pto_turn_probes, spec_probes_app.
  rewrite (D0 Ix1) by (discriminate || reflexivity). fold p1.
  pose proof (fun j Hj => spec_probes_due now j p1 q0 out0 Hloc (F1 j Hj))
    as D1.
  destruct (spec_probes alloc sendto p1 q0 out0) as [[e1 q1] out1].
  cbn [fst snd] in D1.
  destruct e1; try reflexivity.
  rewrite pto_turn_probes.
  rewrite (D1 Ix2), (D0 Ix2) by (discriminate || reflexivity). fold p2.
  destruct (spec_probes alloc sendto p2 q1 out1) as [[e2 q2] out2].
  destruct e2; reflexivity.
Qed.

(** With an allocator and a sender that succeed, every probe of a plan
    is sent. *)
Lemma spec_probes_ok : forall plan q out,
  sender_ok alloc sendto ->
  exists q' extra,
    spec_probes alloc sendto plan q out = (AllSent, q', out ++ extra)
    /\ Forall is_probe extra
    /\ List.length extra = List.length plan
    /\ pto_count q' = pto_count q
    /\ (sender_levels sendto ->
        map level extra = map (fun i => ctx_level (ctx_of q i)) plan).
Proof.
  induction plan as [| i plan IH]; intros q out Hok; cbn [spec_probes].
  { exists q, []. rewrite app_nil_r. repeat split; constructor. }
  destruct Hok as (Ha & Hs & Hc).
  destruct (alloc q) as [f0 |] eqn:Hf; [| destruct (Ha q Hf)]. cbv zeta.
  destruct (Z.eqb_spec (fst (sendto q (ping_of q i f0))) NJT_ERROR) as [E | E];
    [destruct (Hs _ _ E) |].
  destruct (IH (snd (sendto q (ping_of q i f0))) (out ++ [ping_of q i f0])
              (conj Ha (conj Hs Hc)))
    as (q' & extra & -> & Hp & Hl & Hcnt & Hlv).
  exists q', (ping_of q i f0 :: extra).
  rewrite <- app_assoc. cbn [app]. split; [reflexivity |].
  split; [constructor; [split; reflexivity | exact Hp] |].
  split; [cbn [List.length]; now rewrite Hl |].
  split; [now rewrite Hcnt, Hc |].
  intros Hlev. cbn [map]. f_equal. rewrite (Hlv Hlev).
  apply map_ext. intros j. apply Hlev.
Qed.

Lemma probe_plan_length now qc :
  List.length (probe_plan now qc) = (2 * due_count now qc)%nat.
Proof.
  unfold probe_plan, due_count. cbn [flat_map filter].
  destruct (pto_due now qc Ix0), (pto_due now qc Ix1),
    (pto_due now qc Ix2); reflexivity.
Qed.

(** C7 (amended).  When the PTO timer fires the handler looks at every
    send context whose [sent] is not empty, skips those whose last packet
    is acknowledged or whose deadline
    [last.send_time + (pto_base << pto_count)] has not passed, and hands
    exactly two PING frames with [ignore_congestion] set, at the level of
    the context, to the sender for every context that is due, not for the
    first one only, in the order of the contexts; it then adds one to
    [pto_count] and sets the timer again.  When no frame can be allocated
    for a probe, or a send returns [NJT_ERROR], at whichever of the
    probes, the handler closes the connection then and there: it sends no
    further probe, leaves [pto_count] and does not set the timer. *)
Theorem pto_handler_probes now qc :
  (forall i, pto_in_range now qc i ->
     (pto_due now qc i = true <-> due_spec now qc i))
  /\ (sender_local now sendto ->
      njt_quic_pto_handler alloc sendto now qc
      = probes_outcome now
          (spec_probes alloc sendto (probe_plan now qc) qc []))
  /\ (sender_ok alloc sendto -> sender_local now sendto ->
      0 <= pto_count qc -> pto_count qc + 1 < 2 ^ 64 ->
      exists q1 out,
        njt_quic_pto_handler alloc sendto now qc
        = (Returned (njt_quic_set_lost_timer now
                       (set_pto_count (pto_count qc + 1) q1)), out)
        /\ Forall is_probe out
        /\ List.length out = (2 * due_count now qc)%nat
        /\ (sender_levels sendto ->
            map level out
            = map (fun i => ctx_level (ctx_of qc i)) (probe_plan now qc)))
  /\ (sender_local now sendto ->
      forall sent_to i rest q1 out1,
        probe_plan now qc = sent_to ++ i :: rest ->
        spec_probes alloc sendto sent_to qc [] = (AllSent, q1, out1) ->
        (alloc q1 = None ->
         njt_quic_pto_handler alloc sendto now qc = (Closed q1, out1))
        /\ (forall f0,
              alloc q1 = Some f0 ->
              fst (sendto q1 (ping_of q1 i f0)) = NJT_ERROR ->
              njt_quic_pto_handler alloc sendto now qc
              = (Closed (snd (sendto q1 (ping_of q1 i f0))),
                 out1 ++ [ping_of q1 i f0])))
  /\ ((forall q, alloc q = None) ->
      (exists i, pto_due now qc i = true) ->
      njt_quic_pto_handler alloc sendto now qc = (Closed qc, [])).
Proof.
  split; [intros i; apply pto_due_spec |].
  split; [apply pto_handler_plan |]. split; [| split].
  - intros Hok Hloc H0 H1. rewrite (pto_handler_plan now qc Hloc).
    destruct (spec_probes_ok (probe_plan now qc) qc [] Hok)
      as (q' & extra & -> & Hp & Hl & Hc & Hlv).
    cbn [app probes_outcome]. exists q', extra.
    rewrite Hc, (wrap_small (pto_count qc + 1)) by lia.
    split; [reflexivity |]. split; [exact Hp |].
    split; [rewrite Hl; apply probe_plan_length | exact Hlv].
  - intros Hloc sent_to i rest q1 out1 Hplan Hrun.
    rewrite (pto_handler_plan now qc Hloc), Hplan.
    rewrite spec_probes_app, Hrun. cbn [spec_probes].
    split.
    + intros ->. reflexivity.
    + intros f0 -> E. cbv zeta. rewrite E.
      change (NJT_ERROR =? NJT_ERROR) with true. reflexivity.
  - intros Hnone [i Hi]. unfold njt_quic_pto_handler, pto_turn, pto_probe.
    cbn [fst].
    destruct (pto_due now qc Ix0) eqn:D0; [now rewrite Hnone |].
    cbn [fst]. destruct (pto_due now qc Ix1) eqn:D1; [now rewrite Hnone |].
    cbn [fst]. destruct (pto_due now qc Ix2) eqn:D2; [now rewrite Hnone |].
    destruct i; congruence.
Qed.

End PtoHandler.

Lemma sender_ok_sample : sender_ok alloc_zero sendto_ok.
Proof.
  split; [intros q; discriminate |].
  split; [intros q f; discriminate | intros q f; reflexivity].
Qed.

(** The hypotheses of [pto_handler_backoff] hold on a connection with
    nothing in flight: no probe leaves and [pto_count] goes from 3 to 4. *)
Lemma pto_handler_backoff_witness :
  exists qc' out,
    njt_quic_pto_handler alloc_zero sendto_ok 1000 idle_conn
    = (Returned qc', out)
    /\ pto_count qc' = pto_count idle_conn + 1
    /\ ((forall i, pto_due 1000 idle_conn i = false) -> out = []).
Proof.
  apply (pto_handler_backoff alloc_zero sendto_ok 1000 idle_conn).
  - exact sender_ok_sample.
  - cbn. lia.
  - cbn. lia.
Defined.

(** The hypotheses of [pto_handler_probes] hold on the connection with two
    contexts due: four probes leave, two at each level; with an allocator
    that has one frame only, the handler closes the connection after the
    first probe. *)
Lemma pto_handler_probes_witness :
  (exists q1 out,
     njt_quic_pto_handler alloc_zero sendto_ok 1000 two_due_conn
     = (Returned (njt_quic_set_lost_timer 1000
                    (set_pto_count (pto_count two_due_conn + 1) q1)), out)
     /\ Forall is_probe out
     /\ List.length out = (2 * due_count 1000 two_due_conn)%nat
     /\ (sender_levels sendto_ok ->
         map level out
         = map (fun i => ctx_level (ctx_of two_due_conn i))
               (probe_plan 1000 two_due_conn)))
  /\ njt_quic_pto_handler alloc_unposted sendto_post 1000 two_due_conn
     = (Closed (post_push two_due_conn),
        [mkFrame ssl_encryption_initial FT_PING 0 0 0 true]).
Proof.
  split.
  - apply (pto_handler_probes alloc_zero sendto_ok 1000 two_due_conn).
    + exact sender_ok_sample.
    + intros q f i j _ _. reflexivity.
    + cbn. lia.
    + cbn. lia.
  - apply (pto_handler_probes alloc_unposted sendto_post 1000 two_due_conn)
      with (sent_to := [Ix0]) (i := Ix0) (rest := [Ix1; Ix1]).
    + intros q f i j _ _. reflexivity.
    + reflexivity.
    + reflexivity.
    + reflexivity.
Defined.

(** C7, as stated, fails: with the initial and the handshake context both
    due the handler does not stop after the first of them; four PING
    frames are handed to the sender, two at each level. *)
Lemma pto_handler_probes_each_due_context :
  let out := snd (njt_quic_pto_handler alloc_zero sendto_ok 1000 two_due_conn) in
  map level out
  = [ssl_encryption_initial; ssl_encryption_initial;
     ssl_encryption_handshake; ssl_encryption_handshake]
  /\ map kind out = [FT_PING; FT_PING; FT_PING; FT_PING]
  /\ List.length out <> 2%nat.
Proof. cbv zeta. repeat split. discriminate. Qed.

(** ** The walk over one ACK range *)

Section AckWalk.
Context {Tree Path : Type}.
Variable mtu : Path -> Z -> Z -> Z * Path.
Variable sack : njt_quic_streams_t Tree -> njt_quic_frame_t
                -> njt_quic_streams_t Tree.
Implicit Types (qc : njt_quic_connection_t Tree Path)
               (w : ack_walk_t Tree Path) (f : njt_quic_frame_t).

Lemma ctx_of_set_ctx i j x qc :
  ctx_of (set_ctx i x qc) j = if ctx_ix_eqb i j then x else ctx_of qc j.
Proof. destruct i, j; reflexivity. Qed.

Lemma ctx_of_set_ctx_same i x qc : ctx_of (set_ctx i x qc) i = x.
Proof. destruct i; reflexivity. Qed.

Lemma ctx_ix_eqb_eq i j : ctx_ix_eqb i j = true <-> i = j.
Proof. destruct i, j; split; intros H; try reflexivity; discriminate H. Qed.

Lemma conn_frame_set_ctx i x qc :
  ctx_frame x = ctx_frame (ctx_of qc i) ->
  conn_frame (set_ctx i x qc) = conn_frame qc.
Proof.
  intros H. unfold conn_frame. destruct i; cbn; cbn in H; rewrite H;
    reflexivity.
Qed.

Lemma conn_frame_post_push qc : conn_frame (post_push qc) = conn_frame qc.
Proof. reflexivity. Qed.

Lemma conn_frame_done b qc : conn_frame (congestion_done b qc) = conn_frame qc.
Proof. unfold congestion_done. destruct (_ && _); reflexivity. Qed.

Lemma conn_frame_congestion_ack now qc f :
  conn_frame (njt_quic_congestion_ack now qc f) = conn_frame qc.
Proof.
  unfold njt_quic_congestion_ack.
  destruct (plen f =? 0); [reflexivity |].
  destruct (pnum f <? _); [reflexivity |].
  cbv zeta. destruct (msec_int _ <=? 0); rewrite conn_frame_done; reflexivity.
Qed.

Lemma ctx_frame_drop_ack_ranges c pn :
  ctx_frame (njt_quic_drop_ack_ranges c pn) = ctx_frame c.
Proof.
  unfold njt_quic_drop_ack_ranges.
  destruct (_ =? _); [reflexivity |]. cbv zeta.
  destruct (_ <=? _); [reflexivity |].
  destruct (_ <=? _); [reflexivity |].
  destruct (drop_ranges_loop _ _ _ _ _) as [[n rs] |]; reflexivity.
Qed.

Lemma conn_frame_ack_one now i max f w :
  conn_frame (w_qc (ack_one sack now i max f w)) = conn_frame (w_qc w).
Proof.
  unfold ack_one. cbn [w_qc].
  rewrite <- (conn_frame_congestion_ack now (w_qc w) f).
  set (q := njt_quic_congestion_ack now (w_qc w) f).
  destruct (kind f); try reflexivity;
    apply conn_frame_set_ctx, ctx_frame_drop_ack_ranges.
Qed.

(** Whatever a single acknowledged frame preserves, the walk preserves. *)
Lemma ack_walk_inv (P : ack_walk_t Tree Path -> Prop) now i min max :
  (forall f w, P w -> P (ack_one sack now i max f w)) ->
  forall q w, P w -> P (snd (ack_walk sack now i min max q w)).
Proof.
  intros Hstep. induction q as [| f q IH]; intros w Hw; cbn [ack_walk].
  - exact Hw.
  - destruct (max <? pnum f); [exact Hw |].
    destruct (min <=? pnum f).
    + apply IH, Hstep, Hw.
    + specialize (IH w Hw).
      destruct (ack_walk sack now i min max q w). exact IH.
Qed.

Lemma ack_walk_kept now i min max q w :
  fst (ack_walk sack now i min max q w) = ack_keep min max q.
Proof.
  revert w. induction q as [| f q IH]; intros w; cbn [ack_walk ack_keep].
  - reflexivity.
  - destruct (max <? pnum f); [reflexivity |].
    destruct (min <=? pnum f); [apply IH |].
    specialize (IH w). destruct (ack_walk sack now i min max q w).
    cbn [fst] in *. now rewrite IH.
Qed.

Lemma ack_walk_conn_frame now i min max q w :
  conn_frame (w_qc (snd (ack_walk sack now i min max q w)))
  = conn_frame (w_qc w).
Proof.
  apply (ack_walk_inv (fun w' => conn_frame (w_qc w') = conn_frame (w_qc w)));
    [| reflexivity].
  intros f w' H. now rewrite conn_frame_ack_one.
Qed.

(** A walk that unlinks nothing changes nothing. *)
Lemma ack_walk_none now i min max q w :
  ack_taken min max q = [] ->
  ack_walk sack now i min max q w = (q, w).
Proof.
  induction q as [| f q IH]; cbn [ack_walk ack_taken]; [reflexivity |].
  destruct (max <? pnum f); [reflexivity |].
  destruct (min <=? pnum f); [discriminate |].
  intros H. now rewrite (IH H).
Qed.

Lemma ack_walk_some now i min max q w :
  ack_taken min max q <> [] ->
  w_found (snd (ack_walk sack now i min max q w)) = true.
Proof.
  revert w. induction q as [| f q IH]; intros w; cbn [ack_walk ack_taken];
    [congruence |].
  destruct (max <? pnum f); [congruence |].
  destruct (min <=? pnum f).
  - intros _.
    apply (ack_walk_inv (fun w' => w_found w' = true)); [| reflexivity].
    reflexivity.
  - intros H. specialize (IH w H).
    destruct (ack_walk sack now i min max q w). exact IH.
Qed.

Lemma ack_taken_none min max q :
  (forall f, In f q -> ~ in_range min max f) -> ack_taken min max q = [].
Proof.
  unfold in_range.
  induction q as [| f q IH]; intros H; cbn [ack_taken]; [reflexivity |].
  destruct (Z.ltb_spec max (pnum f)); [reflexivity |].
  destruct (Z.leb_spec min (pnum f)).
  - exfalso. apply (H f); [left; reflexivity | lia].
  - apply IH. intros g Hg. apply H. right. exact Hg.
Qed.

Lemma ack_keep_none min max q : ack_taken min max q = [] -> ack_keep min max q = q.
Proof.
  induction q as [| f q IH]; cbn [ack_keep ack_taken]; [reflexivity |].
  destruct (max <? pnum f); [reflexivity |].
  destruct (min <=? pnum f); [discriminate |].
  intros H. now rewrite (IH H).
Qed.

End AckWalk.

(** ** One ACK range *)

Section AckRange.
Context {Tree Path : Type}.
Variable mtu : Path -> Z -> Z -> Z * Path.
Variable sack : njt_quic_streams_t Tree -> njt_quic_frame_t
                -> njt_quic_streams_t Tree.
Implicit Types (qc : njt_quic_connection_t Tree Path)
               (w : ack_walk_t Tree Path) (f : njt_quic_frame_t).

Lemma with_sent_self i qc : with_sent i (sent (ctx_of qc i)) qc = qc.
Proof.
  destruct qc as [[c0 c1 c2] ? ? ? ? ? ? ? ? ?].
  destruct i; [destruct c0 | destruct c1 | destruct c2]; reflexivity.
Qed.

Lemma set_path_self qc : set_path (path qc) qc = qc.
Proof. destruct qc; reflexivity. Qed.

Lemma push_timer_set_congestion_ack now qc f :
  timer_set (push (njt_quic_congestion_ack now qc f)) = timer_set (push qc).
Proof.
  unfold njt_quic_congestion_ack, congestion_done.
  destruct (plen f =? 0); [reflexivity |].
  destruct (pnum f <? _); [reflexivity |].
  cbv zeta. destruct (msec_int _ <=? 0); destruct (_ && _); reflexivity.
Qed.

Lemma push_timer_set_ack_one now i max f w :
  timer_set (push (w_qc (ack_one sack now i max f w)))
  = timer_set (push (w_qc w)).
Proof.
  unfold ack_one. cbn [w_qc].
  rewrite <- (push_timer_set_congestion_ack now (w_qc w) f).
  destruct (kind f); reflexivity.
Qed.

(** C6 (amended).  For a call of [njt_quic_handle_ack_frame_range] on
    [min .. max] (at the application level: after the path MTU hook has
    succeeded): when no frame of [sent] has its number in the range and
    [max < ctx->pnum] the call succeeds as a duplicate ACK and leaves the
    connection as it was, the path apart, which the hook owns; when no
    frame is in the range and [max >= ctx->pnum] it fails with
    PROTOCOL_VIOLATION, frame type ACK and reason "unknown packet number";
    and whenever a frame is removed it succeeds, resets [pto_count] to 0
    and posts the [push] event unless the timer of [push] is set. *)
Theorem range_ack_outcome now qc i min max st :
  (is_application (ctx_level (ctx_of qc i)) = true ->
   fst (mtu (path qc) min max) = NJT_OK) ->
  let r := njt_quic_handle_ack_frame_range mtu sack now qc i min max st in
  let rc := fst (fst r) in
  let qc' := snd (fst r) in
  let unacked :=
    forall f, In f (sent (ctx_of qc i)) -> ~ in_range min max f in
  (unacked -> max < ctx_pnum (ctx_of qc i) ->
   rc = NJT_OK /\ qc' = set_path (path qc') qc
   /\ (is_application (ctx_level (ctx_of qc i)) = false -> qc' = qc))
  /\ (unacked -> ctx_pnum (ctx_of qc i) <= max ->
      rc = NJT_ERROR
      /\ qerr qc' = mkError NJT_QUIC_ERR_PROTOCOL_VIOLATION NJT_QUIC_FT_ACK
                            "unknown packet number")
  /\ (sent (ctx_of qc' i) <> sent (ctx_of qc i) ->
      rc = NJT_OK /\ pto_count qc' = 0
      /\ (timer_set (push qc) = false -> posted (push qc') = true)).
Proof.
  intros Hhook. cbv zeta. unfold njt_quic_handle_ack_frame_range.
  set (hook := if is_application (ctx_level (ctx_of qc i))
               then mtu (path qc) min max else (NJT_OK, path qc)).
  assert (Hrc : fst hook = NJT_OK).
  { subst hook. destruct (is_application _); [now apply Hhook | reflexivity]. }
  assert (Hp : is_application (ctx_level (ctx_of qc i)) = false ->
               snd hook = path qc).
  { subst hook. intros ->. reflexivity. }
  destruct hook as [rc0 p]. cbn [fst snd] in Hrc, Hp. subst rc0.
  change (NJT_OK =? NJT_OK) with true; cbn [negb].
  change (ctx_of (set_path p qc) i) with (ctx_of qc i).
  set (w0 := mkWalk (set_path p qc) _ false).
  destruct (list_eq_dec_nil (ack_taken min max (sent (ctx_of qc i))))
    as [Hnone | Hsome].
  - rewrite (ack_walk_none sack now i min max _ w0 Hnone).
    cbn [w_qc w_found w0 negb].
    change (set_ctx i (set_sent (sent (ctx_of qc i))
                         (ctx_of (set_path p qc) i)) (set_path p qc))
      with (with_sent i (sent (ctx_of (set_path p qc) i)) (set_path p qc)).
    rewrite with_sent_self.
    change (ctx_of (set_path p qc) i) with (ctx_of qc i).
    destruct (Z.ltb_spec max (ctx_pnum (ctx_of qc i))); cbn [fst snd].
    + split; [| split].
      * intros _ _. split; [reflexivity |]. split; [reflexivity |].
        intros Ha. rewrite (Hp Ha). apply set_path_self.
      * intros _ Hge. lia.
      * intros Hne. exfalso. apply Hne. reflexivity.
    + split; [| split].
      * intros _ Hlt. lia.
      * intros _ _. split; reflexivity.
      * intros Hne. exfalso. apply Hne. reflexivity.
  - pose proof (ack_walk_some sack now i min max _ w0 Hsome) as Hf.
    pose proof (ack_walk_inv sack
                  (fun w => timer_set (push (w_qc w)) = timer_set (push qc))
                  now i min max
                  (fun f w H => eq_trans (push_timer_set_ack_one now i max f w) H)
                  (sent (ctx_of qc i)) w0 eq_refl) as Ht.
    destruct (ack_walk sack now i min max (sent (ctx_of qc i)) w0)
      as [kept w]. cbn [snd] in Hf, Ht. rewrite Hf. cbn [negb fst snd].
    split; [| split].
    + intros Hun. exfalso. apply Hsome. now apply ack_taken_none.
    + intros Hun. exfalso. apply Hsome. now apply ack_taken_none.
    + intros _. split; [reflexivity |]. split; [reflexivity |].
      intros Hts. cbn [push set_pto_count].
      change (push (set_ctx i (set_sent kept (ctx_of (w_qc w) i)) (w_qc w)))
        with (push (w_qc w)).
      rewrite Ht, Hts. reflexivity.
Qed.

End AckRange.

(** The hypothesis of [range_ack_outcome] holds at the initial level; the
    acknowledgment of packet 0 of the sample connection resets
    [pto_count]. *)
Lemma range_ack_outcome_witness :
  pto_count (snd (fst (njt_quic_handle_ack_frame_range mtu_ok sack_id 1100
                         push_armed_conn Ix0 0 0 no_stat))) = 0.
Proof.
  pose proof (range_ack_outcome mtu_ok sack_id 1100 push_armed_conn Ix0 0 0
                no_stat) as H.
  cbv zeta in H.
  destruct H as (_ & _ & H); [intros _; reflexivity |].
  destruct H as (_ & H & _); [cbn; discriminate |].
  exact H.
Defined.

(** C6, as stated, fails: the acknowledgment of packet 0 removes its frame
    and resets [pto_count], but the [push] event is not posted, because
    its timer is set. *)
Lemma range_ack_push_timer_guard :
  let r := njt_quic_handle_ack_frame_range mtu_ok sack_id 1100
             push_armed_conn Ix0 0 0 no_stat in
  fst (fst r) = NJT_OK
  /\ sent (ctx_of (snd (fst r)) Ix0) = []
  /\ pto_count (snd (fst r)) = 0
  /\ posted (push (snd (fst r))) = false.
Proof. cbv zeta. repeat split. Qed.

(** ** Validation of the ACK frame *)

Section AckFrame.
Context {Tree Path Buf : Type}.
Variable mtu : Path -> Z -> Z -> Z * Path.
Variable sack : njt_quic_streams_t Tree -> njt_quic_frame_t
                -> njt_quic_streams_t Tree.
Variable find : Tree -> Z -> option njt_quic_stream_t.
Variable parse : Buf -> option (Z * Z * Buf).
Implicit Types (qc : njt_quic_connection_t Tree Path)
               (w : ack_walk_t Tree Path) (f : njt_quic_frame_t).

Lemma conn_frame_qerr qc qc' : conn_frame qc' = conn_frame qc -> qerr qc' = qerr qc.
Proof. unfold conn_frame. intros H. congruence. Qed.

(** A sample writes the estimators and nothing else. *)
Lemma rtt_sample_shape now qc d t :
  njt_quic_rtt_sample now qc d t
  = set_rtt (rtt (njt_quic_rtt_sample now qc d t)) qc.
Proof.
  unfold njt_quic_rtt_sample. destruct (_ =? _); reflexivity.
Qed.

Lemma detect_lost_ok now qc st :
  fst (njt_quic_detect_lost find now qc st) = NJT_OK.
Proof. reflexivity. Qed.

Lemma path_congestion_ack now qc f :
  path (njt_quic_congestion_ack now qc f) = path qc.
Proof.
  unfold njt_quic_congestion_ack, congestion_done.
  destruct (plen f =? 0); [reflexivity |].
  destruct (pnum f <? _); [reflexivity |].
  cbv zeta. destruct (msec_int _ <=? 0); destruct (_ && _); reflexivity.
Qed.

Lemma path_ack_one now i max f w :
  path (w_qc (ack_one sack now i max f w)) = path (w_qc w).
Proof.
  unfold ack_one. cbn [w_qc].
  rewrite <- (path_congestion_ack now (w_qc w) f).
  destruct (kind f); reflexivity.
Qed.

Lemma ack_walk_path now i min max q w :
  path (w_qc (snd (ack_walk sack now i min max q w))) = path (w_qc w).
Proof.
  apply (ack_walk_inv sack (fun w' => path (w_qc w') = path (w_qc w)));
    [| reflexivity].
  intros f w' H. now rewrite path_ack_one.
Qed.

Lemma conn_frame_next qc qc' j :
  conn_frame qc' = conn_frame qc ->
  ctx_pnum (ctx_of qc' j) = ctx_pnum (ctx_of qc j)
  /\ ctx_level (ctx_of qc' j) = ctx_level (ctx_of qc j).
Proof.
  unfold conn_frame, ctx_frame. intros H. destruct j; split; congruence.
Qed.

(** One range ends as the specification says. *)
Lemma range_ack_verdict now qc i min max st :
  let r := njt_quic_handle_ack_frame_range mtu sack now qc i min max st in
  let qc' := snd (fst r) in
  let v := range_verdict mtu (is_application (ctx_level (ctx_of qc i)))
             (ctx_pnum (ctx_of qc i)) min max (sent (ctx_of qc i))
             (path qc) in
  verdict_outcome (fst (fst v)) (fst (fst r)) (qerr qc) (qerr qc')
  /\ (fst (fst v) = AckAccepted ->
      qerr qc' = qerr qc
      /\ sent (ctx_of qc' i) = snd (fst v)
      /\ path qc' = snd v
      /\ ctx_pnum (ctx_of qc' i) = ctx_pnum (ctx_of qc i)
      /\ ctx_level (ctx_of qc' i) = ctx_level (ctx_of qc i)).
Proof.
  cbv zeta. unfold njt_quic_handle_ack_frame_range, range_verdict.
  set (hook := if is_application (ctx_level (ctx_of qc i))
               then mtu (path qc) min max else (NJT_OK, path qc)).
  destruct hook as [rc0 p]. cbn [fst snd].
  destruct (negb (rc0 =? NJT_OK)).
  { cbn [fst snd verdict_outcome]. split; [split; reflexivity |].
    discriminate. }
  change (ctx_of (set_path p qc) i) with (ctx_of qc i).
  set (w0 := mkWalk (set_path p qc) _ false).
  unfold range_unknown.
  destruct (ack_taken min max (sent (ctx_of qc i))) as [| t ts] eqn:Ht.
  - rewrite (ack_walk_none sack now i min max _ w0 Ht).
    cbn [w_qc w_found w0 negb].
    change (set_ctx i (set_sent (sent (ctx_of qc i))
                         (ctx_of (set_path p qc) i)) (set_path p qc))
      with (with_sent i (sent (ctx_of (set_path p qc) i)) (set_path p qc)).
    rewrite with_sent_self.
    change (ctx_of (set_path p qc) i) with (ctx_of qc i).
    destruct (Z.ltb_spec max (ctx_pnum (ctx_of qc i)));
      destruct (Z.leb_spec (ctx_pnum (ctx_of qc i)) max); try lia;
      cbn [fst snd verdict_outcome].
    + split; [reflexivity |]. intros _.
      rewrite (ack_keep_none _ _ _ Ht). repeat split.
    + split; [split; reflexivity | discriminate].
  - assert (Hsome : ack_taken min max (sent (ctx_of qc i)) <> [])
      by (rewrite Ht; discriminate).
    pose proof (ack_walk_some sack now i min max _ w0 Hsome) as Hf.
    pose proof (ack_walk_kept sack now i min max (sent (ctx_of qc i)) w0)
      as Hk.
    pose proof (ack_walk_conn_frame sack now i min max
                  (sent (ctx_of qc i)) w0) as Hfr.
    pose proof (ack_walk_path now i min max (sent (ctx_of qc i)) w0) as Hp.
    destruct (ack_walk sack now i min max (sent (ctx_of qc i)) w0)
      as [kept w]. cbn [fst snd] in Hf, Hk, Hfr, Hp. rewrite Hf.
    cbn [negb fst snd verdict_outcome]. split; [reflexivity |]. intros _.
    cbn [w_qc w0] in Hfr, Hp.
    pose proof (conn_frame_qerr _ _ Hfr) as He.
    destruct (conn_frame_next _ _ i Hfr) as (Hn & Hl).
    set (qx := set_ctx i (set_sent kept (ctx_of (w_qc w) i)) (w_qc w)).
    assert (Hx : qerr qx = qerr (w_qc w) /\ path qx = path (w_qc w)
                 /\ sent (ctx_of qx i) = kept
                 /\ ctx_pnum (ctx_of qx i) = ctx_pnum (ctx_of (w_qc w) i)
                 /\ ctx_level (ctx_of qx i) = ctx_level (ctx_of (w_qc w) i)).
    { subst qx. rewrite ctx_of_set_ctx_same.
      repeat split; destruct i; reflexivity. }
    destruct Hx as (X1 & X2 & X3 & X4 & X5).
    assert (Hy : forall q : njt_quic_connection_t Tree Path,
              let q' := set_pto_count 0
                          (if negb (timer_set (push q)) then post_push q
                           else q) in
              qerr q' = qerr q /\ path q' = path q
              /\ ctx_of q' i = ctx_of q i).
    { intros q. cbv zeta. destruct (negb _); repeat split. }
    destruct (Hy qx) as (Y1 & Y2 & Y3).
    rewrite Y1, Y2, Y3, X1, X2, X3, X4, X5, He, Hp, Hn, Hl, Hk.
    repeat split.
Qed.

(** The additional ranges end as the specification says. *)
Lemma ranges_loop_verdict n : forall now i pos min qc st,
  parse_bounded parse -> u64 min ->
  let r := ack_ranges_loop mtu sack parse n now i pos min qc st in
  verdict_outcome
    (ranges_verdict mtu parse (is_application (ctx_level (ctx_of qc i)))
                    (ctx_pnum (ctx_of qc i)) n pos min (sent (ctx_of qc i))
                    (path qc))
    (fst (fst r)) (qerr qc) (qerr (snd (fst r))).
Proof.
  unfold u64.
  induction n as [| n IH]; intros now i pos min qc st Hpb Hmin;
    cbn [ack_ranges_loop ranges_verdict]; cbv zeta.
  { reflexivity. }
  destruct (parse pos) as [[[g r] pos'] |] eqn:Hparse.
  2:{ cbn [fst snd verdict_outcome]. split; reflexivity. }
  destruct (Hpb _ _ _ _ Hparse) as [Hg Hr].
  rewrite (wrap_small (g + 2)) by lia.
  destruct (Z.ltb_spec min (g + 2)) as [Hlt | Hge]; cbn [orb fst snd].
  { split; reflexivity. }
  rewrite (wrap_small (min - g)) by lia.
  rewrite (wrap_small (min - g - 2)) by lia.
  destruct (Z.ltb_spec (min - g - 2) r) as [Hlt2 | Hge2]; cbn [fst snd].
  { split; reflexivity. }
  rewrite (wrap_small (min - g - 2 - r)) by lia.
  pose proof (range_ack_verdict now qc i (min - g - 2 - r) (min - g - 2) st)
    as Hst. cbv zeta in Hst.
  destruct (range_verdict mtu (is_application (ctx_level (ctx_of qc i)))
              (ctx_pnum (ctx_of qc i)) (min - g - 2 - r) (min - g - 2)
              (sent (ctx_of qc i)) (path qc)) as [[v q'] p'] eqn:Hv.
  destruct (njt_quic_handle_ack_frame_range mtu sack now qc i
              (min - g - 2 - r) (min - g - 2) st) as [[rc1 qc1] st1].
  cbn [fst snd] in Hst. destruct Hst as (Ho & Hacc).
  destruct v; cbn [verdict_outcome] in Ho.
  - subst rc1. change (NJT_OK =? NJT_OK) with true; cbn [negb].
    destruct (Hacc eq_refl) as (He & Hs & Hp & Hn & Hl).
    specialize (IH now i pos' (min - g - 2 - r) qc1 st1 Hpb).
    cbv zeta in IH. rewrite Hl, Hn, Hs, Hp, He in IH. apply IH. lia.
  - destruct Ho as (-> & Ho).
    change (NJT_ERROR =? NJT_OK) with false; cbn [negb fst snd].
    split; [reflexivity | exact Ho].
  - destruct Ho as (-> & Ho).
    change (NJT_ERROR =? NJT_OK) with false; cbn [negb fst snd].
    split; [reflexivity | exact Ho].
  - destruct Ho as (-> & Ho).
    change (NJT_ERROR =? NJT_OK) with false; cbn [negb fst snd].
    split; [reflexivity | exact Ho].
  - destruct Ho as (-> & Ho).
    change (NJT_ERROR =? NJT_OK) with false; cbn [negb fst snd].
    split; [reflexivity | exact Ho].
Qed.

(** The frame ends as the specification says. *)
Lemma handle_ack_verdict now qc lvl (ack : njt_quic_ack_frame_t Buf) :
  parse_bounded parse ->
  u64 (ack_largest ack) -> 0 <= ack_first_range ack ->
  let i := njt_quic_get_send_ctx lvl in
  let r := njt_quic_handle_ack_frame mtu sack find parse now qc lvl ack in
  verdict_outcome
    (frame_verdict mtu parse (is_application (ctx_level (ctx_of qc i)))
                   (ctx_pnum (ctx_of qc i)) ack (sent (ctx_of qc i))
                   (path qc))
    (fst r) (qerr qc) (qerr (snd r)).
Proof.
  unfold u64. intros Hpb Hl Hf. cbv zeta.
  unfold njt_quic_handle_ack_frame, frame_verdict.
  destruct (Z.ltb_spec (ack_largest ack) (ack_first_range ack)) as [Hlt | Hge].
  { cbn [fst snd verdict_outcome]. split; reflexivity. }
  set (i := njt_quic_get_send_ctx lvl).
  rewrite (wrap_small (ack_largest ack - ack_first_range ack)) by lia.
  cbv zeta.
  set (min0 := ack_largest ack - ack_first_range ack).
  set (st0 := mkStat NJT_TIMER_INFINITE NJT_TIMER_INFINITE
                     NJT_TIMER_INFINITE).
  pose proof (range_ack_verdict now qc i min0 (ack_largest ack) st0) as Hst.
  cbv zeta in Hst.
  destruct (range_verdict mtu (is_application (ctx_level (ctx_of qc i)))
              (ctx_pnum (ctx_of qc i)) min0 (ack_largest ack)
              (sent (ctx_of qc i)) (path qc)) as [[v q'] p'] eqn:Hv.
  destruct (njt_quic_handle_ack_frame_range mtu sack now qc i min0
              (ack_largest ack) st0) as [[rc1 qc1] st1].
  cbn [fst snd] in Hst. destruct Hst as (Ho & Hacc).
  destruct v; cbn [verdict_outcome] in Ho;
    try (destruct Ho as (-> & Ho);
         change (NJT_ERROR =? NJT_OK) with false; cbn [negb fst snd];
         split; [reflexivity | exact Ho]).
  subst rc1. change (NJT_OK =? NJT_OK) with true; cbn [negb].
  destruct (Hacc eq_refl) as (He & Hs & Hp & Hn & Hlv).
  set (qc2 := if (_ <? _) || (_ =? _) then _ else qc1).
  assert (Hq2 : qerr qc2 = qerr qc1 /\ sent (ctx_of qc2 i) = sent (ctx_of qc1 i)
                /\ path qc2 = path qc1
                /\ ctx_pnum (ctx_of qc2 i) = ctx_pnum (ctx_of qc1 i)
                /\ ctx_level (ctx_of qc2 i) = ctx_level (ctx_of qc1 i)).
  { subst qc2. destruct ((_ <? _) || (_ =? _)); [| repeat split].
    destruct (negb _); [rewrite rtt_sample_shape |];
      cbn [qerr path set_rtt]; change (ctx_of (set_rtt _ ?q) i) with (ctx_of q i);
      rewrite ?ctx_of_set_ctx_same; repeat split; destruct i; reflexivity. }
  destruct Hq2 as (E1 & E2 & E3 & E4 & E5).
  pose proof (ranges_loop_verdict (Z.to_nat (ack_range_count ack)) now i
                (ack_data ack) min0 qc2 st1 Hpb) as Hloop.
  cbv zeta in Hloop.
  rewrite E1, E2, E3, E4, E5, He, Hs, Hp, Hn, Hlv in Hloop.
  specialize (Hloop ltac:(unfold u64; subst min0; lia)).
  destruct (ack_ranges_loop mtu sack parse _ now i (ack_data ack) min0 qc2 st1)
    as [[rc3 qc3] st3].
  cbn [fst snd] in Hloop.
  destruct (ranges_verdict mtu parse _ _ _ _ _ _ _) as [| | | |];
    cbn [verdict_outcome] in Hloop |- *.
  - subst rc3. change (NJT_OK =? NJT_OK) with true; cbv iota.
    apply detect_lost_ok.
  - destruct Hloop as (-> & Hloop).
    change (NJT_ERROR =? NJT_OK) with false; cbn [fst snd].
    split; [reflexivity | exact Hloop].
  - destruct Hloop as (-> & Hloop).
    change (NJT_ERROR =? NJT_OK) with false; cbn [fst snd].
    split; [reflexivity | exact Hloop].
  - destruct Hloop as (-> & Hloop).
    change (NJT_ERROR =? NJT_OK) with false; cbn [fst snd].
    split; [reflexivity | exact Hloop].
  - destruct Hloop as (-> & Hloop).
    change (NJT_ERROR =? NJT_OK) with false; cbn [fst snd].
    split; [reflexivity | exact Hloop].
Qed.

Lemma range_verdict_cases app next min max q (p : Path) :
  let v := fst (fst (range_verdict mtu app next min max q p)) in
  v = AckAccepted \/ v = AckUnknown \/ v = AckMtuFailed.
Proof.
  cbv zeta. unfold range_verdict.
  destruct (negb _); [cbn; tauto |].
  destruct (range_unknown _ _ _ _); cbn; tauto.
Qed.

(** A frame found malformed is malformed, and a malformed frame is not
    accepted. *)
Lemma ranges_verdict_bad app next n : forall pos min q p,
  (ranges_verdict mtu parse app next n pos min q p = AckMalformed ->
   bad_pair parse n pos min = true)
  /\ (bad_pair parse n pos min = true ->
      ranges_verdict mtu parse app next n pos min q p <> AckAccepted).
Proof.
  induction n as [| n IH]; intros pos min q p;
    cbn [ranges_verdict bad_pair]; [split; discriminate |].
  destruct (parse pos) as [[[g r] pos'] |]; [| split; discriminate].
  destruct ((min <? g + 2) || (min - g - 2 <? r));
    [split; [reflexivity | discriminate] |].
  pose proof (range_verdict_cases app next (min - g - 2 - r) (min - g - 2)
                q p) as Hc. cbv zeta in Hc.
  destruct (range_verdict mtu app next (min - g - 2 - r) (min - g - 2) q p)
    as [[v q'] p']. cbn [fst] in Hc.
  destruct Hc as [-> | [-> | ->]]; [apply IH | |]; split; discriminate.
Qed.

Lemma frame_verdict_bad app next (ack : njt_quic_ack_frame_t Buf) q p :
  (frame_verdict mtu parse app next ack q p = AckMalformed ->
   ack_malformed parse ack)
  /\ (ack_malformed parse ack ->
      frame_verdict mtu parse app next ack q p <> AckAccepted).
Proof.
  unfold frame_verdict, ack_malformed.
  destruct (Z.ltb_spec (ack_largest ack) (ack_first_range ack));
    [split; [intros _; now left | discriminate] |].
  cbv zeta.
  pose proof (range_verdict_cases app next
                (ack_largest ack - ack_first_range ack) (ack_largest ack)
                q p) as Hc. cbv zeta in Hc.
  destruct (range_verdict mtu app next _ (ack_largest ack) q p)
    as [[v q'] p']. cbn [fst] in Hc.
  destruct Hc as [-> | [-> | ->]]; try (split; discriminate).
  destruct (ranges_verdict_bad app next (Z.to_nat (ack_range_count ack))
              (ack_data ack) (ack_largest ack - ack_first_range ack) q' p')
    as (H1 & H2).
  split; [intros E; right; now apply H1 |].
  intros [E | E]; [lia | now apply H2].
Qed.

(** With every range below the next packet number and a hook that does
    not fail, no range fails: the frame is malformed or accepted, unless
    a pair cannot be decoded. *)
Lemma ranges_verdict_sent app next n : forall pos min q p,
  parse_bounded parse -> (forall p a b, fst (mtu p a b) = NJT_OK) ->
  min <= next ->
  ranges_verdict mtu parse app next n pos min q p = AckMalformed
  <-> bad_pair parse n pos min = true.
Proof.
  induction n as [| n IH]; intros pos min q p Hpb Hook Hmin;
    cbn [ranges_verdict bad_pair]; [split; discriminate |].
  destruct (parse pos) as [[[g r] pos'] |] eqn:Hparse; [| split; discriminate].
  destruct (Hpb _ _ _ _ Hparse) as [Hg Hr].
  destruct ((min <? g + 2) || (min - g - 2 <? r)); [tauto |].
  unfold range_verdict.
  assert (Hh : fst (if app then mtu p (min - g - 2 - r) (min - g - 2)
                    else (NJT_OK, p)) = NJT_OK)
    by (destruct app; [apply Hook | reflexivity]).
  rewrite Hh. change (NJT_OK =? NJT_OK) with true. cbn [negb].
  assert (Hu : range_unknown next q (min - g - 2 - r) (min - g - 2) = false).
  { unfold range_unknown. destruct (ack_taken _ _ q); [| reflexivity].
    apply Z.leb_gt. lia. }
  rewrite Hu. apply IH; try assumption. lia.
Qed.

Lemma frame_verdict_sent app next (ack : njt_quic_ack_frame_t Buf) q p :
  parse_bounded parse -> (forall p a b, fst (mtu p a b) = NJT_OK) ->
  0 <= ack_first_range ack -> ack_largest ack < next ->
  frame_verdict mtu parse app next ack q p = AckMalformed
  <-> ack_malformed parse ack.
Proof.
  intros Hpb Hook Hf Hl. unfold frame_verdict, ack_malformed.
  destruct (Z.ltb_spec (ack_largest ack) (ack_first_range ack));
    [split; [now left | reflexivity] |].
  cbv zeta. unfold range_verdict.
  assert (Hh : fst (if app
                    then mtu p (ack_largest ack - ack_first_range ack)
                             (ack_largest ack)
                    else (NJT_OK, p)) = NJT_OK)
    by (destruct app; [apply Hook | reflexivity]).
  rewrite Hh. change (NJT_OK =? NJT_OK) with true. cbn [negb].
  assert (Hu : range_unknown next q (ack_largest ack - ack_first_range ack)
                 (ack_largest ack) = false).
  { unfold range_unknown. destruct (ack_taken _ _ q); [| reflexivity].
    apply Z.leb_gt. lia. }
  rewrite Hu.
  rewrite ranges_verdict_sent by (try assumption; lia).
  split; [now right | intros [H' | H']; [lia | exact H']].
Qed.

(** C5 (amended).  [njt_quic_handle_ack_frame] fails with
    FRAME_ENCODING_ERROR (it returns [NJT_ERROR] and records the error)
    exactly when the frame is malformed ([first_range > largest], or a
    later pair that violates [gap + 2 <= min] or [range <= min - gap - 2]
    for the running minimum) and no range before the malformed pair has
    failed.  The ranges are validated one at a time as they are taken:
    when an earlier range fails (it acknowledges no frame in flight and
    reaches a packet number not sent yet: PROTOCOL_VIOLATION; or the path
    MTU hook fails at the application level), the frame ends there with
    that error, and the malformed pair is not reported.  Every malformed
    frame ends the processing of the ACK with an error; a frame that
    acknowledges only packet numbers below the next one, with a hook that
    does not fail, fails with FRAME_ENCODING_ERROR exactly when it is
    malformed. *)
Theorem handle_ack_encoding_error now qc lvl (ack : njt_quic_ack_frame_t Buf) :
  parse_bounded parse ->
  u64 (ack_largest ack) -> 0 <= ack_first_range ack ->
  error (qerr qc) <> NJT_QUIC_ERR_FRAME_ENCODING_ERROR ->
  let i := njt_quic_get_send_ctx lvl in
  let r := njt_quic_handle_ack_frame mtu sack find parse now qc lvl ack in
  let v := frame_verdict mtu parse (is_application (ctx_level (ctx_of qc i)))
             (ctx_pnum (ctx_of qc i)) ack (sent (ctx_of qc i)) (path qc) in
  ((fst r = NJT_ERROR
    /\ error (qerr (snd r)) = NJT_QUIC_ERR_FRAME_ENCODING_ERROR)
   <-> v = AckMalformed)
  /\ verdict_outcome v (fst r) (qerr qc) (qerr (snd r))
  /\ (v = AckMalformed -> ack_malformed parse ack)
  /\ (ack_malformed parse ack -> fst r = NJT_ERROR)
  /\ (ack_largest ack < ack_first_range ack -> v = AckMalformed)
  /\ (ack_largest ack < ctx_pnum (ctx_of qc i) ->
      (forall p a b, fst (mtu p a b) = NJT_OK) ->
      (ack_malformed parse ack <-> v = AckMalformed)).
Proof.
  intros Hpb Hl Hf Herr. cbv zeta.
  pose proof (handle_ack_verdict now qc lvl ack Hpb Hl Hf)
    as Hv. cbv zeta in Hv.
  set (i := njt_quic_get_send_ctx lvl) in *.
  set (r := njt_quic_handle_ack_frame mtu sack find parse now qc lvl ack) in *.
  set (v := frame_verdict mtu parse _ _ ack _ _) in *.
  assert (H5 : (fst r = NJT_ERROR
                /\ error (qerr (snd r)) = NJT_QUIC_ERR_FRAME_ENCODING_ERROR)
               <-> v = AckMalformed).
  { split.
    - intros (Hrc & He). destruct v; cbn [verdict_outcome] in Hv;
        try reflexivity.
      + rewrite Hv in Hrc. discriminate.
      + destruct Hv as (_ & Hv). rewrite Hv in He. discriminate.
      + destruct Hv as (_ & Hv). rewrite Hv in He. contradiction.
      + destruct Hv as (_ & Hv). rewrite Hv in He. contradiction.
    - intros E. rewrite E in Hv. exact Hv. }
  destruct (frame_verdict_bad
              (is_application (ctx_level (ctx_of qc i)))
              (ctx_pnum (ctx_of qc i)) ack (sent (ctx_of qc i)) (path qc))
    as (H3 & H4). fold v in H3, H4.
  split; [exact H5 |]. split; [exact Hv |]. split; [exact H3 |].
  split; [| split].
  - intros Hm. specialize (H4 Hm).
    destruct v; cbn [verdict_outcome] in Hv; try apply Hv. congruence.
  - intros Hlt. subst v. unfold frame_verdict.
    destruct (Z.ltb_spec (ack_largest ack) (ack_first_range ack));
      [reflexivity | lia].
  - intros Hsent Hook. split; [| exact H3].
    intros Hm. subst v.
    apply (frame_verdict_sent); try assumption.
Qed.

End AckFrame.

Lemma parse_list_bounded : parse_bounded parse_list.
Proof.
  intros pos g r pos' H. destruct pos as [| [g0 r0] b]; [discriminate |].
  cbn [parse_list] in H.
  destruct (Z.leb_spec 0 g0); [| discriminate].
  destruct (Z.ltb_spec g0 (2 ^ 62)); [| discriminate].
  destruct (Z.leb_spec 0 r0); [| discriminate].
  destruct (Z.ltb_spec r0 (2 ^ 62)); [| discriminate].
  cbn [andb] in H. injection H as <- <- _. lia.
Qed.

(** The hypotheses of [handle_ack_encoding_error] hold of a frame whose
    first range acknowledges the packet in flight and whose second pair
    reaches below packet number 0: the frame is refused with
    FRAME_ENCODING_ERROR after its first range has been taken. *)
Lemma handle_ack_encoding_error_witness :
  let r := njt_quic_handle_ack_frame mtu_ok sack_id find_none parse_list
             1100 one_sent_conn ssl_encryption_initial late_gap_ack in
  fst r = NJT_ERROR
  /\ error (qerr (snd r)) = NJT_QUIC_ERR_FRAME_ENCODING_ERROR.
Proof.
  pose proof (handle_ack_encoding_error mtu_ok sack_id find_none parse_list
                1100 one_sent_conn ssl_encryption_initial late_gap_ack) as H.
  cbv zeta in H. destruct H as (H1 & _ & _ & _ & _ & H6).
  - exact parse_list_bounded.
  - unfold u64. cbn. lia.
  - cbn. lia.
  - cbn. discriminate.
  - apply H1. apply H6.
    + cbn. lia.
    + intros p a b. reflexivity.
    + right. reflexivity.
Defined.

(** C5, as stated, fails: the frame is malformed (its second range has
    [gap + 2 > min]), but its first range acknowledges packet 10, which was
    never sent; the frame is refused with PROTOCOL_VIOLATION before the
    malformed pair is looked at. *)
Lemma handle_ack_unknown_before_malformed :
  let r := njt_quic_handle_ack_frame mtu_ok sack_id find_none parse_list
             1100 acked_conn ssl_encryption_initial overlong_gap_ack in
  ack_malformed parse_list overlong_gap_ack
  /\ fst r = NJT_ERROR
  /\ error (qerr (snd r)) = NJT_QUIC_ERR_PROTOCOL_VIOLATION
  /\ error (qerr (snd r)) <> NJT_QUIC_ERR_FRAME_ENCODING_ERROR.
Proof.
  cbv zeta. split; [right; reflexivity |].
  repeat split. discriminate.
Qed.

(** ** Resending and the loss scan *)

Section Resend.
Context {Tree Path : Type}.
Variable find : Tree -> Z -> option njt_quic_stream_t.
Implicit Types (qc : njt_quic_connection_t Tree Path) (f : njt_quic_frame_t)
               (a : lost_scan_t Tree Path).

Lemma conn_frame_ctx qc qc' j :
  conn_frame qc' = conn_frame qc ->
  ctx_frame (ctx_of qc' j) = ctx_frame (ctx_of qc j).
Proof. unfold conn_frame. intros H. destruct j; congruence. Qed.

Lemma conn_frame_sent qc qc' j :
  conn_frame qc' = conn_frame qc ->
  sent (ctx_of qc' j) = sent (ctx_of qc j)
  /\ largest_ack (ctx_of qc' j) = largest_ack (ctx_of qc j)
  /\ ctx_pnum (ctx_of qc' j) = ctx_pnum (ctx_of qc j)
  /\ ctx_level (ctx_of qc' j) = ctx_level (ctx_of qc j).
Proof.
  intros H. apply (conn_frame_ctx _ _ j) in H. unfold ctx_frame in H.
  repeat split; congruence.
Qed.

Lemma conn_frame_rtt qc qc' :
  conn_frame qc' = conn_frame qc ->
  rtt qc' = rtt qc /\ params qc' = params qc /\ pto qc' = pto qc.
Proof. unfold conn_frame. intros H. repeat split; congruence. Qed.

Lemma conn_frame_with_sent i l qc qc' :
  conn_frame qc' = conn_frame qc ->
  conn_frame (with_sent i l qc') = conn_frame (with_sent i l qc).
Proof.
  intros H. pose proof (conn_frame_rtt _ _ H) as (Hr & Hp & Ht).
  pose proof (conn_frame_qerr _ _ H) as He.
  pose proof (conn_frame_sent _ _ Ix0 H) as (S0 & L0 & P0 & V0).
  pose proof (conn_frame_sent _ _ Ix1 H) as (S1 & L1 & P1 & V1).
  pose proof (conn_frame_sent _ _ Ix2 H) as (S2 & L2 & P2 & V2).
  unfold conn_frame, with_sent, ctx_frame. rewrite !ctx_of_set_ctx.
  destruct i; cbn [ctx_ix_eqb rtt params pto qerr set_ctx
                   set_send_ctx sent set_sent ctx_level ctx_pnum largest_ack];
    congruence.
Qed.

Lemma with_sent_twice i l l' qc :
  with_sent i l (with_sent i l' qc) = with_sent i l qc.
Proof. destruct i; reflexivity. Qed.

Lemma sent_with_sent i l qc : sent (ctx_of (with_sent i l qc) i) = l.
Proof. destruct i; reflexivity. Qed.

Lemma conn_frame_congestion_lost now qc f :
  conn_frame (fst (njt_quic_congestion_lost now qc f)) = conn_frame qc.
Proof.
  unfold njt_quic_congestion_lost.
  destruct (plen f =? 0); [reflexivity |].
  destruct (pnum f <? _); [reflexivity |].
  cbv zeta. destruct (msec_int _ <=? 0); cbn [fst];
    rewrite conn_frame_done; reflexivity.
Qed.

Lemma congestion_lost_pnum now qc f :
  pnum (snd (njt_quic_congestion_lost now qc f)) = pnum f.
Proof.
  unfold njt_quic_congestion_lost.
  destruct (plen f =? 0); [reflexivity |].
  destruct (pnum f <? _); [reflexivity |].
  cbv zeta. destruct (msec_int _ <=? 0); reflexivity.
Qed.

Lemma conn_frame_insert_tail j f qc :
  conn_frame (queue_insert_tail j f qc) = conn_frame qc.
Proof. apply conn_frame_set_ctx. reflexivity. Qed.

Lemma conn_frame_resend_one i f qc :
  conn_frame (resend_one find i f qc) = conn_frame qc.
Proof.
  unfold resend_one, njt_quic_queue_frame.
  destruct (kind f); try apply conn_frame_insert_tail; try reflexivity.
  - destruct (is_application _); [| reflexivity].
    apply conn_frame_set_ctx. reflexivity.
  - destruct (is_application _); [| reflexivity].
    apply conn_frame_set_ctx. reflexivity.
  - destruct (find _ _) as [qs |]; [| apply conn_frame_insert_tail].
    destruct (send_state qs); try apply conn_frame_insert_tail; reflexivity.
  - destruct (find _ _) as [qs |];
      [apply conn_frame_insert_tail | reflexivity].
Qed.

Lemma resend_walk_kept i pn q qc :
  fst (resend_walk find i pn q qc) = skip_packet pn q.
Proof.
  revert qc. induction q as [| f q IH]; intros qc;
    cbn [resend_walk skip_packet]; [reflexivity |].
  destruct (pnum f =? pn); [apply IH | reflexivity].
Qed.

(** Whatever the dispatch of one frame preserves, the resend loop
    preserves. *)
Lemma resend_walk_inv (P : njt_quic_connection_t Tree Path -> Prop) i pn :
  (forall f qc, P qc -> P (resend_one find i f qc)) ->
  forall q qc, P qc -> P (snd (resend_walk find i pn q qc)).
Proof.
  intros Hstep. induction q as [| f q IH]; intros qc H; cbn [resend_walk];
    [exact H |].
  destruct (pnum f =? pn); [apply IH, Hstep, H | exact H].
Qed.

Lemma resend_walk_conn_frame i pn q qc :
  conn_frame (snd (resend_walk find i pn q qc)) = conn_frame qc.
Proof.
  apply (resend_walk_inv (fun q' => conn_frame q' = conn_frame qc));
    [| reflexivity].
  intros f q' H. now rewrite conn_frame_resend_one.
Qed.

(** A resend unlinks the packet at the head of [sent] of its context and
    leaves the other queues, the estimators and the timer alone. *)
Lemma resend_frames_frame now qc i start rest :
  sent (ctx_of qc i) = start :: rest ->
  conn_frame (njt_quic_resend_frames find now qc i)
  = conn_frame (with_sent i (skip_packet (pnum start) rest) qc).
Proof.
  intros Hs. unfold njt_quic_resend_frames. rewrite Hs.
  pose proof (conn_frame_congestion_lost now qc start) as H1.
  pose proof (congestion_lost_pnum now qc start) as Hp.
  destruct (njt_quic_congestion_lost now qc start) as [q1 start'].
  cbn [fst snd] in H1, Hp.
  pose proof (resend_walk_kept i (pnum start) (start' :: rest) q1) as Hk.
  pose proof (resend_walk_conn_frame i (pnum start) (start' :: rest) q1) as H2.
  destruct (resend_walk find i (pnum start) (start' :: rest) q1) as [kept q2].
  cbn [fst snd] in Hk, H2. cbn [skip_packet] in Hk. rewrite Hp in Hk.
  rewrite Z.eqb_refl in Hk. subst kept.
  assert (H3 : conn_frame q2 = conn_frame qc) by congruence.
  fold (with_sent i (skip_packet (pnum start) rest) q2).
  destruct (closing _); [| rewrite conn_frame_post_push];
    now apply conn_frame_with_sent.
Qed.

End Resend.

Section Scan.
Context {Tree Path : Type}.
Variable find : Tree -> Z -> option njt_quic_stream_t.
Implicit Types (qc : njt_quic_connection_t Tree Path) (f : njt_quic_frame_t)
               (a : lost_scan_t Tree Path).

Lemma count_lost_qc start a : s_qc (count_lost start a) = s_qc a.
Proof. unfold count_lost. destruct (_ <? _); reflexivity. Qed.

(** The scan of one context leaves in [sent] what [lost_keep] says. *)
Lemma detect_lost_ctx_frame now thr i fuel : forall a,
  conn_frame (s_qc (detect_lost_ctx find fuel now thr i a))
  = conn_frame
      (with_sent i
         (lost_keep fuel now thr (largest_ack (ctx_of (s_qc a) i))
                    (sent (ctx_of (s_qc a) i)))
         (s_qc a)).
Proof.
  induction fuel as [| fuel IH]; intros a; cbn [detect_lost_ctx lost_keep].
  { now rewrite with_sent_self. }
  destruct (sent (ctx_of (s_qc a) i)) as [| start rest] eqn:Hs.
  { rewrite <- Hs. now rewrite with_sent_self. }
  destruct (head_lost now thr _ start).
  2:{ rewrite <- Hs. now rewrite with_sent_self. }
  rewrite IH. cbn [s_qc]. rewrite count_lost_qc.
  pose proof (resend_frames_frame find now (s_qc a) i start rest Hs) as Hr.
  destruct (conn_frame_sent _ _ i Hr) as (Hsent & Hla & _).
  rewrite Hsent, Hla, sent_with_sent.
  assert (Hl : largest_ack (ctx_of (with_sent i (skip_packet (pnum start) rest)
                                      (s_qc a)) i)
               = largest_ack (ctx_of (s_qc a) i)).
  { destruct i; reflexivity. }
  rewrite Hl.
  rewrite (conn_frame_with_sent i _ _ _ Hr).
  now rewrite with_sent_twice.
Qed.

Lemma detect_lost_turn_frame now thr a i :
  conn_frame (s_qc (detect_lost_turn find now thr a i))
  = conn_frame
      (with_sent i
         (scan_keep now thr (largest_ack (ctx_of (s_qc a) i))
                    (sent (ctx_of (s_qc a) i)))
         (s_qc a)).
Proof.
  unfold detect_lost_turn, scan_keep.
  destruct (_ =? _); [now rewrite with_sent_self |].
  apply detect_lost_ctx_frame.
Qed.

Lemma with_sent_other i j l qc :
  i <> j -> ctx_of (with_sent i l qc) j = ctx_of qc j.
Proof. destruct i, j; intros H; try reflexivity; congruence. Qed.

(** The scan leaves in every [sent] what [scan_keep] says, and leaves the
    estimators, the parameters and the timer alone. *)
Lemma lost_scan_frame now qc :
  conn_frame (s_qc (lost_scan find now qc)) = conn_frame (scanned now qc).
Proof.
  unfold lost_scan, scanned, scan_keep_ctx. cbn [fold_left].
  set (thr := njt_quic_lost_threshold qc).
  set (a0 := mkScan qc _ _ _).
  pose proof (detect_lost_turn_frame now thr a0 Ix0) as H0.
  set (a1 := detect_lost_turn find now thr a0 Ix0) in *.
  pose proof (detect_lost_turn_frame now thr a1 Ix1) as H1.
  set (a2 := detect_lost_turn find now thr a1 Ix1) in *.
  pose proof (detect_lost_turn_frame now thr a2 Ix2) as H2.
  set (a3 := detect_lost_turn find now thr a2 Ix2) in *.
  cbn [s_qc a0] in H0.
  destruct (conn_frame_sent _ _ Ix1 H0) as (S1 & L1 & _).
  rewrite S1, L1 in H1.
  rewrite !with_sent_other in H1 by discriminate.
  rewrite (conn_frame_with_sent Ix1 _ _ _ H0) in H1.
  destruct (conn_frame_sent _ _ Ix2 H1) as (S2 & L2 & _).
  rewrite S2, L2 in H2.
  rewrite !with_sent_other in H2 by discriminate.
  rewrite (conn_frame_with_sent Ix2 _ _ _ H1) in H2.
  exact H2.
Qed.

Lemma detect_lost_conn_frame now qc st :
  exists ev cg,
    snd (njt_quic_detect_lost find now qc st)
    = set_pto ev (set_congestion cg (s_qc (lost_scan find now qc))).
Proof.
  unfold njt_quic_detect_lost. cbn [snd].
  set (a := lost_scan find now qc).
  destruct (pcg_established st a).
  - destruct (set_lost_timer_shape now
                (njt_quic_persistent_congestion now (s_qc a))) as [ev ->].
    eexists. eexists. reflexivity.
  - destruct (set_lost_timer_shape now (s_qc a)) as [ev ->].
    exists ev, (congestion (s_qc a)). destruct (s_qc a); reflexivity.
Qed.

Lemma detect_lost_sent now qc st i :
  sent (ctx_of (snd (njt_quic_detect_lost find now qc st)) i)
  = scan_keep_ctx now qc i.
Proof.
  destruct (detect_lost_conn_frame now qc st) as (ev & cg & ->).
  change (sent (ctx_of (s_qc (lost_scan find now qc)) i)
          = scan_keep_ctx now qc i).
  destruct (conn_frame_sent _ _ i (lost_scan_frame now qc)) as (-> & _).
  unfold scanned. destruct i; reflexivity.
Qed.

End Scan.

(** ** The loss condition *)

Section LossCondition.
Context {Tree Path : Type}.
Variable find : Tree -> Z -> option njt_quic_stream_t.
Implicit Types (qc : njt_quic_connection_t Tree Path) (f : njt_quic_frame_t).

Lemma skip_packet_split pn q :
  exists t, q = t ++ skip_packet pn q /\ Forall (fun f => pnum f = pn) t.
Proof.
  induction q as [| f q (t & Hq & Ht)]; cbn [skip_packet].
  - exists []. split; [reflexivity | constructor].
  - destruct (Z.eqb_spec (pnum f) pn) as [He | He].
    + exists (f :: t). split; [cbn; now rewrite <- Hq |].
      constructor; assumption.
    + exists []. split; [reflexivity | constructor].
Qed.

Lemma skip_packet_length pn q :
  (List.length (skip_packet pn q) <= List.length q)%nat.
Proof.
  induction q as [| f q IH]; cbn [skip_packet]; [apply Nat.le_refl |].
  destruct (pnum f =? pn); cbn [List.length]; lia.
Qed.

Lemma skip_packet_incl pn q f : In f (skip_packet pn q) -> In f q.
Proof.
  destruct (skip_packet_split pn q) as (t & Hq & _). intros H.
  rewrite Hq. apply in_or_app. right. exact H.
Qed.

Lemma head_lost_ext now thr la f g :
  pnum f = pnum g -> send_time f = send_time g ->
  head_lost now thr la f = head_lost now thr la g.
Proof. unfold head_lost. intros -> ->. reflexivity. Qed.

(** The scan removes a prefix of [sent] made of lost frames. *)
Lemma lost_keep_split now thr la fuel : forall q,
  packet_times q ->
  exists gone,
    q = gone ++ lost_keep fuel now thr la q
    /\ Forall (fun f => head_lost now thr la f = true) gone.
Proof.
  induction fuel as [| fuel IH]; intros q Hpt; cbn [lost_keep].
  { exists []. split; [reflexivity | constructor]. }
  destruct q as [| start rest].
  { exists []. split; [reflexivity | constructor]. }
  destruct (head_lost now thr la start) eqn:Hh.
  2:{ exists []. split; [reflexivity | constructor]. }
  destruct (skip_packet_split (pnum start) rest) as (t & Hr & Ht).
  destruct (IH (skip_packet (pnum start) rest)) as (gone & Hg & Hl).
  { intros f g Hf Hg. apply Hpt; right; now apply skip_packet_incl in Hf, Hg. }
  exists (start :: t ++ gone). split.
  - cbn [app]. f_equal. rewrite <- app_assoc, <- Hg. exact Hr.
  - constructor; [exact Hh |]. apply Forall_app. split; [| exact Hl].
    rewrite Forall_forall in Ht |- *. intros f Hf.
    rewrite <- Hh. apply head_lost_ext; [now apply Ht |].
    apply Hpt; [right; rewrite Hr; apply in_or_app; now left
               | left; reflexivity | now apply Ht].
Qed.

(** With [length sent] turns the scan stops at a head that is not lost,
    or at the end of the queue. *)
Lemma lost_keep_settles now thr la fuel : forall q,
  (List.length q <= fuel)%nat ->
  match lost_keep fuel now thr la q with
  | [] => True
  | f :: _ => head_lost now thr la f = false
  end.
Proof.
  induction fuel as [| fuel IH]; intros q Hlen; cbn [lost_keep].
  { destruct q; [exact I | cbn in Hlen; lia]. }
  destruct q as [| start rest]; [exact I |].
  destruct (head_lost now thr la start) eqn:Hh; [| exact Hh].
  apply IH. pose proof (skip_packet_length (pnum start) rest).
  cbn [List.length] in Hlen. lia.
Qed.

Lemma lost_threshold_spec qc :
  0 <= latest_rtt (rtt qc) < 2 ^ 61 -> 0 <= avg_rtt (rtt qc) < 2 ^ 61 ->
  njt_quic_lost_threshold qc = spec_threshold qc
  /\ 1 <= spec_threshold qc < 2 ^ 62.
Proof.
  unfold njt_quic_lost_threshold, spec_threshold,
    NJT_QUIC_TIME_GRANULARITY. intros Hl Ha.
  set (m := Z.max (latest_rtt (rtt qc)) (avg_rtt (rtt qc))).
  assert (Hm : 0 <= m < 2 ^ 61) by (subst m; lia).
  rewrite shiftr_div by lia. change (2 ^ 3) with 8.
  assert (Hd : m * 9 / 8 = m + m / 8).
  { replace (m * 9) with (m * 8 + m) by lia.
    rewrite Z.div_add_l by lia. reflexivity. }
  assert (0 <= m / 8 <= m).
  { split; [apply Z.div_pos; lia | apply Z.div_le_upper_bound; lia]. }
  rewrite wrap_small by lia. rewrite Hd. lia.
Qed.

(** The test at the head of [sent] is the loss condition of the
    specification. *)
Lemma head_lost_spec now thr la f :
  small now -> small thr -> u64 la ->
  0 <= pnum f -> small (send_time f) ->
  (head_lost now thr la f = true <-> spec_lost now thr la f).
Proof.
  unfold small, u64, head_lost, spec_lost, NJT_QUIC_PKT_THR.
  intros Hn Ht Hla Hp Hs.
  destruct (Z.ltb_spec la (pnum f)); [split; [discriminate | lia] |].
  rewrite (wrap_small (send_time f + thr)) by lia.
  rewrite msec_int_wrap, msec_int_small by lia.
  rewrite (wrap_small (la - pnum f)) by lia.
  destruct (Z.ltb_spec 0 (send_time f + thr - now));
    destruct (Z.ltb_spec (la - pnum f) 3); cbn [andb];
    split; intros; try discriminate; try reflexivity; lia.
Qed.

Lemma pn_sorted_app q1 q2 : pn_sorted (q1 ++ q2) -> pn_sorted q2.
Proof.
  induction q1 as [| f q1 IH]; cbn [app pn_sorted]; [tauto |].
  intros [_ H]. now apply IH.
Qed.

(** C1.  For a send context whose [largest_ack] is set, a call of
    [njt_quic_detect_lost] removes from the head of [sent] exactly the
    packets that satisfy the loss condition: [pnum <= largest_ack] and
    either [largest_ack - pnum >= 3] or [send_time + thr <= now], where
    [thr = max (max (latest_rtt, avg_rtt) * 9/8, 1)]; the first frame
    left, if any, does not satisfy it.  In particular, [sent] being
    ordered, no frame with [pnum <= largest_ack - 3] is left, whatever its
    send time. *)
Theorem detect_lost_threshold now qc st i :
  let ctx := ctx_of qc i in
  let la := largest_ack ctx in
  let thr := spec_threshold qc in
  let sent' := sent (ctx_of (snd (njt_quic_detect_lost find now qc st)) i) in
  la <> NJT_QUIC_UNSET_PN -> u64 la -> small now ->
  0 <= latest_rtt (rtt qc) < 2 ^ 61 -> 0 <= avg_rtt (rtt qc) < 2 ^ 61 ->
  Forall (fun f => 0 <= pnum f /\ small (send_time f)) (sent ctx) ->
  packet_times (sent ctx) ->
  (exists gone,
     sent ctx = gone ++ sent'
     /\ Forall (spec_lost now thr la) gone
     /\ match sent' with
        | [] => True
        | f :: _ => ~ spec_lost now thr la f
        end)
  /\ (pn_sorted (sent ctx) ->
      forall f, In f (sent ctx) -> pnum f <= la - 3 -> ~ In f sent').
Proof.
  cbv zeta. intros Hset Hla Hn Hl Ha Hfr Hpt.
  rewrite detect_lost_sent. unfold scan_keep_ctx, scan_keep.
  destruct (Z.eqb_spec (largest_ack (ctx_of qc i)) NJT_QUIC_UNSET_PN);
    [contradiction |].
  destruct (lost_threshold_spec qc Hl Ha) as [-> Hthr].
  set (la := largest_ack (ctx_of qc i)) in *.
  set (thr := spec_threshold qc) in *.
  set (q := sent (ctx_of qc i)) in *.
  destruct (lost_keep_split now thr la (List.length q) q Hpt)
    as (gone & Hq & Hgone).
  pose proof (lost_keep_settles now thr la (List.length q) q (Nat.le_refl _))
    as Hstop.
  set (q' := lost_keep (List.length q) now thr la q) in *.
  assert (Hin : forall f, In f q ->
                  (head_lost now thr la f = true <-> spec_lost now thr la f)).
  { intros f Hf. rewrite Forall_forall in Hfr.
    destruct (Hfr f Hf). apply head_lost_spec; try assumption.
    unfold small. lia. }
  assert (Hhead : match q' with
                  | [] => True
                  | f :: _ => ~ spec_lost now thr la f
                  end).
  { destruct q' as [| f q'']; [exact I |].
    intros Hs. apply Hin in Hs; [congruence |].
    rewrite Hq. apply in_or_app. right. left. reflexivity. }
  split.
  - exists gone. split; [exact Hq |]. split; [| exact Hhead].
    rewrite Forall_forall in Hgone |- *. intros f Hf.
    apply Hin; [rewrite Hq; apply in_or_app; now left | now apply Hgone].
  - intros Hsorted f Hf Hpn Hf'.
    rewrite Hq in Hsorted. apply pn_sorted_app in Hsorted.
    destruct q' as [| h q'']; [destruct Hf' |].
    apply Hhead. cbn [pn_sorted] in Hsorted. destruct Hsorted as [Hle _].
    assert (Hh : 0 <= pnum h).
    { rewrite Forall_forall in Hfr. apply Hfr. rewrite Hq.
      apply in_or_app. right. left. reflexivity. }
    assert (pnum h <= pnum f).
    { destruct Hf' as [<- | Hf']; [lia |].
      rewrite Forall_forall in Hle. now apply Hle. }
    unfold spec_lost. lia.
Qed.

End LossCondition.

(** The hypotheses of [detect_lost_threshold] hold on the sample
    connection: packets 5 and 6 are at least three below the largest
    acknowledged packet 9 and are removed; packet 8 is left. *)
Lemma detect_lost_threshold_witness :
  exists gone,
    sent (ctx_of gap_conn Ix0)
    = gone ++ sent (ctx_of (snd (njt_quic_detect_lost find_none 1010 gap_conn
                                   None)) Ix0)
    /\ Forall (spec_lost 1010 (spec_threshold gap_conn) 9) gone
    /\ match sent (ctx_of (snd (njt_quic_detect_lost find_none 1010 gap_conn
                                  None)) Ix0) with
       | [] => True
       | f :: _ => ~ spec_lost 1010 (spec_threshold gap_conn) 9 f
       end.
Proof.
  apply (detect_lost_threshold find_none 1010 gap_conn None Ix0).
  - cbn. discriminate.
  - unfold u64. cbn. lia.
  - unfold small. lia.
  - cbn. lia.
  - cbn. lia.
  - unfold small. cbn.
    repeat (apply Forall_cons; [cbn; lia |]). apply Forall_nil.
  - intros f g Hf Hg Hp. cbn in Hf, Hg.
    repeat match goal with
           | H : _ \/ _ |- _ => destruct H as [H | H]
           | H : False |- _ => destruct H
           end; subst; cbn in Hp; try reflexivity; discriminate.
Defined.

(** ** Persistent congestion *)

Section Persistent.
Context {Tree Path : Type}.
Variable find : Tree -> Z -> option njt_quic_stream_t.
Implicit Types (qc : njt_quic_connection_t Tree Path) (f : njt_quic_frame_t)
               (a : lost_scan_t Tree Path).

(** Whatever one turn of the scan of a context preserves, the scan
    preserves. *)
Lemma detect_lost_ctx_inv (P : lost_scan_t Tree Path -> Prop) now thr i :
  (forall a start rest,
     P a -> sent (ctx_of (s_qc a) i) = start :: rest ->
     P (mkScan (njt_quic_resend_frames find now (s_qc (count_lost start a)) i)
               (s_oldest (count_lost start a)) (s_newest (count_lost start a))
               (s_nlost (count_lost start a)))) ->
  forall fuel a, P a -> P (detect_lost_ctx find fuel now thr i a).
Proof.
  intros Hstep. induction fuel as [| fuel IH]; intros a Ha;
    cbn [detect_lost_ctx]; [exact Ha |].
  destruct (sent (ctx_of (s_qc a) i)) as [| start rest] eqn:Hs; [exact Ha |].
  destruct (head_lost now thr _ start); [| exact Ha].
  apply IH. now apply (Hstep a start rest).
Qed.

End Persistent.

(** ** The packets that the scan counts *)

Section LostCount.
Context {Tree Path : Type}.
Variable find : Tree -> Z -> option njt_quic_stream_t.
Implicit Types (qc : njt_quic_connection_t Tree Path) (f : njt_quic_frame_t)
               (a : lost_scan_t Tree Path).

Lemma head_lost_lostb now thr la f :
  small now -> small thr -> u64 la ->
  0 <= pnum f -> small (send_time f) ->
  head_lost now thr la f = spec_lostb now thr la f.
Proof.
  intros Hn Ht Hla Hp Hs.
  pose proof (head_lost_spec now thr la f Hn Ht Hla Hp Hs) as H.
  unfold spec_lost in H. unfold spec_lostb.
  destruct (head_lost now thr la f).
  - destruct (proj1 H eq_refl) as (H1 & H2). symmetry.
    apply andb_true_iff. split; [apply Z.leb_le; exact H1 |].
    apply orb_true_iff.
    destruct H2 as [H2 | H2]; [left | right]; apply Z.leb_le; lia.
  - symmetry. apply not_true_is_false. intros E.
    apply andb_true_iff in E. destruct E as (E1 & E2).
    apply Z.leb_le in E1. apply orb_true_iff in E2.
    assert (true = false); [| discriminate].
    symmetry. apply H. split; [exact E1 |].
    destruct E2 as [E2 | E2]; apply Z.leb_le in E2; [left | right]; lia.
Qed.

Lemma lost_heads_skip now thr la pn q :
  lost_heads now thr la (Some pn) q
  = lost_heads now thr la None (skip_packet pn q).
Proof.
  induction q as [| f q IH]; cbn [lost_heads skip_packet]; [reflexivity |].
  destruct (pnum f =? pn); [exact IH | reflexivity].
Qed.

Lemma oldest_time_app l f :
  oldest_time (l ++ [f]) = Z.min (oldest_time l) (send_time f).
Proof.
  unfold oldest_time, NJT_TIMER_INFINITE.
  induction l as [| g l IH]; cbn [app fold_right]; [lia |].
  rewrite IH. lia.
Qed.

Lemma newest_time_app l f :
  0 <= send_time f ->
  newest_time (l ++ [f]) = Z.max (newest_time l) (send_time f).
Proof.
  intros Hf. unfold newest_time.
  induction l as [| g l IH]; cbn [app fold_right]; [lia |].
  rewrite IH. lia.
Qed.

Lemma times_bounds l :
  Forall (fun f => small (send_time f)) l -> l <> [] ->
  0 <= oldest_time l <= newest_time l /\ newest_time l < 2 ^ 62.
Proof.
  unfold small, oldest_time, newest_time, NJT_TIMER_INFINITE.
  induction l as [| g l IH]; intros Hall Hne; [congruence |].
  inversion Hall as [| g' l' Hg Hl]; subst g' l'.
  cbn [fold_right]. destruct l as [| h l].
  - cbn [fold_right]. lia.
  - assert (Hne' : h :: l <> []) by discriminate.
    specialize (IH Hl Hne'). lia.
Qed.

(** One packet counted. *)
Lemma count_lost_counts start a l :
  scan_counts a l -> small (send_time start) ->
  Z.of_nat (List.length l) + 1 < 2 ^ 64 ->
  scan_counts (count_lost start a)
    (l ++ if first_rtt (rtt (s_qc a)) <? send_time start then [start]
          else []).
Proof.
  intros (Hn & Ho & Hw & Hall) Hs Hlen. unfold count_lost.
  destruct (_ <? send_time start); [| now rewrite app_nil_r].
  assert (Hall' : Forall (fun f => small (send_time f)) (l ++ [start])).
  { apply Forall_app. split; [exact Hall |]. constructor; [exact Hs |].
    constructor. }
  unfold scan_counts. cbn [s_nlost s_oldest s_newest].
  rewrite length_app. cbn [List.length].
  split; [rewrite Hn, wrap_small; lia |].
  rewrite oldest_time_app, newest_time_app by (unfold small in Hs; lia).
  rewrite Ho, Hw. unfold small in Hs.
  destruct l as [| g l].
  - cbn [app]. unfold oldest_time, newest_time, NJT_TIMER_INFINITE.
    cbn [fold_right].
    change (2 ^ 64 - 1 =? 2 ^ 64 - 1) with true. cbn [orb].
    repeat split; [lia | lia | exact Hall'].
  - cbn [app].
    assert (Hne : g :: l <> []) by discriminate.
    destruct (times_bounds (g :: l) Hall Hne) as (B1 & B2).
    unfold NJT_TIMER_INFINITE.
    destruct (Z.eqb_spec (oldest_time (g :: l)) (2 ^ 64 - 1)); [lia |].
    destruct (Z.eqb_spec (newest_time (g :: l)) (2 ^ 64 - 1)); [lia |].
    destruct (Z.ltb_spec (send_time start) (oldest_time (g :: l)));
      destruct (Z.ltb_spec (newest_time (g :: l)) (send_time start));
      cbn [orb]; repeat split; try lia; exact Hall'.
Qed.

(** The scan of one context counts the packets of the head run that were
    sent after [first_rtt]. *)
Lemma detect_lost_ctx_counts now thr i r la : forall fuel a l,
  small now -> small thr -> u64 la ->
  rtt (s_qc a) = r -> largest_ack (ctx_of (s_qc a) i) = la ->
  Forall (fun f => 0 <= pnum f /\ small (send_time f))
         (sent (ctx_of (s_qc a) i)) ->
  Z.of_nat (List.length l)
  + Z.of_nat (List.length (sent (ctx_of (s_qc a) i))) < 2 ^ 64 ->
  scan_counts a l ->
  scan_counts (detect_lost_ctx find fuel now thr i a)
    (l ++ filter (fun f => first_rtt r <? send_time f)
            (firstn fuel
               (lost_heads now thr la None (sent (ctx_of (s_qc a) i))))).
Proof.
  induction fuel as [| fuel IH]; intros a l Hn Ht Hla Hr Hl Hq Hlen Hc;
    cbn [detect_lost_ctx firstn].
  { cbn [filter]. now rewrite app_nil_r. }
  destruct (sent (ctx_of (s_qc a) i)) as [| start rest] eqn:Hs.
  { cbn [lost_heads firstn filter]. now rewrite app_nil_r. }
  inversion Hq as [| f' q' (Hp & Hst) Hrest]; subst f' q'.
  rewrite Hl. rewrite (head_lost_lostb now thr la start) by assumption.
  cbn [lost_heads]. destruct (spec_lostb now thr la start).
  2:{ cbn [firstn filter]. now rewrite app_nil_r. }
  cbn [firstn filter].
  pose proof (resend_frames_frame find now (s_qc (count_lost start a)) i
                start rest) as Hfr.
  rewrite count_lost_qc in Hfr. specialize (Hfr Hs).
  destruct (conn_frame_sent _ _ i Hfr) as (Hsent & Hla' & _).
  destruct (conn_frame_rtt _ _ Hfr) as (Hrtt & _).
  rewrite sent_with_sent in Hsent.
  assert (Hla2 : largest_ack (ctx_of (with_sent i (skip_packet (pnum start)
                                                    rest) (s_qc a)) i)
                 = largest_ack (ctx_of (s_qc a) i)) by (destruct i; reflexivity).
  assert (Hrtt2 : rtt (with_sent i (skip_packet (pnum start) rest) (s_qc a))
                  = rtt (s_qc a)) by (destruct i; reflexivity).
  set (a1 := mkScan (njt_quic_resend_frames find now
                       (s_qc (count_lost start a)) i)
                    (s_oldest (count_lost start a))
                    (s_newest (count_lost start a))
                    (s_nlost (count_lost start a))).
  pose proof (skip_packet_length (pnum start) rest) as Hsl.
  cbn [List.length] in Hlen.
  assert (Hc1 : scan_counts a1
                  (l ++ if first_rtt r <? send_time start then [start]
                        else [])).
  { pose proof (count_lost_counts start a l Hc Hst) as H.
    rewrite Hr in H.
    destruct H as (H1 & H2 & H3 & H4); [lia |].
    unfold scan_counts. subst a1. cbn [s_nlost s_oldest s_newest].
    repeat split; assumption. }
  rewrite lost_heads_skip.
  replace (l ++ (if first_rtt r <? send_time start
                 then start :: filter (fun f => first_rtt r <? send_time f)
                        (firstn fuel (lost_heads now thr la None
                                        (skip_packet (pnum start) rest)))
                 else filter (fun f => first_rtt r <? send_time f)
                        (firstn fuel (lost_heads now thr la None
                                        (skip_packet (pnum start) rest)))))
    with ((l ++ if first_rtt r <? send_time start then [start] else [])
          ++ filter (fun f => first_rtt r <? send_time f)
               (firstn fuel (lost_heads now thr la None
                               (skip_packet (pnum start) rest)))).
  2:{ rewrite <- app_assoc. destruct (_ <? _); reflexivity. }
  assert (Eq1 : s_qc a1 = njt_quic_resend_frames find now (s_qc a) i).
  { subst a1. cbn [s_qc]. now rewrite count_lost_qc. }
  assert (E : sent (ctx_of (s_qc a1) i) = skip_packet (pnum start) rest)
    by (rewrite Eq1; exact Hsent).
  rewrite <- E. apply (IH a1); try assumption.
  - rewrite Eq1, Hrtt, Hrtt2. exact Hr.
  - rewrite Eq1, Hla', Hla2. exact Hl.
  - rewrite E. rewrite Forall_forall in Hrest |- *.
    intros f Hf. apply Hrest. now apply skip_packet_incl in Hf.
  - rewrite E, length_app.
    destruct (_ <? _); cbn [List.length]; lia.
Qed.

Lemma lost_heads_length now thr la : forall q prev,
  (List.length (lost_heads now thr la prev q) <= List.length q)%nat.
Proof.
  induction q as [| f q IH]; intros prev; cbn [lost_heads List.length];
    [apply Nat.le_refl |].
  destruct (match prev with Some pn => pnum f =? pn | None => false end).
  - specialize (IH prev). lia.
  - destruct (spec_lostb now thr la f); cbn [List.length].
    + specialize (IH (Some (pnum f))). lia.
    + lia.
Qed.

Lemma detect_lost_turn_counts now qc i a l :
  scan_in_range now qc ->
  rtt (s_qc a) = rtt qc ->
  largest_ack (ctx_of (s_qc a) i) = largest_ack (ctx_of qc i) ->
  sent (ctx_of (s_qc a) i) = sent (ctx_of qc i) ->
  Z.of_nat (List.length l) < 2 ^ 63 ->
  scan_counts a l ->
  scan_counts (detect_lost_turn find now (njt_quic_lost_threshold qc) a i)
    (l ++ filter (fun f => first_rtt (rtt qc) <? send_time f)
            (lost_packets now qc i)).
Proof.
  intros (Hn & Hlr & Har & Hctx) Hr Hla Hs Hlen Hc.
  destruct (Hctx i) as (Hu & Hql & Hq).
  destruct (lost_threshold_spec qc Hlr Har) as (Hthr & Hthr2).
  unfold detect_lost_turn, lost_packets. cbv zeta. rewrite Hla.
  destruct (_ =? _); [cbn [filter]; now rewrite app_nil_r |].
  rewrite Hthr.
  pose proof (detect_lost_ctx_counts now (spec_threshold qc) i (rtt qc)
                (largest_ack (ctx_of qc i))
                (List.length (sent (ctx_of (s_qc a) i))) a l) as H.
  rewrite Hs in H.
  rewrite firstn_all2 in H by apply lost_heads_length.
  rewrite Hs. apply H; try assumption.
  - unfold small. lia.
  - lia.
Qed.

Lemma filter_length_le (p : njt_quic_frame_t -> bool) l :
  (List.length (filter p l) <= List.length l)%nat.
Proof.
  induction l as [| f l IH]; cbn [filter List.length]; [apply Nat.le_refl |].
  destruct (p f); cbn [List.length]; lia.
Qed.

Lemma late_length now qc i :
  scan_in_range now qc ->
  Z.of_nat (List.length (filter (fun f => first_rtt (rtt qc) <? send_time f)
                           (lost_packets now qc i))) < 2 ^ 62.
Proof.
  intros (_ & _ & _ & Hctx). destruct (Hctx i) as (_ & Hql & _).
  pose proof (filter_length_le (fun f => first_rtt (rtt qc) <? send_time f)
                (lost_packets now qc i)) as H1.
  assert (H2 : (List.length (lost_packets now qc i)
                <= List.length (sent (ctx_of qc i)))%nat).
  { unfold lost_packets. cbv zeta.
    destruct (_ =? _); [cbn [List.length]; lia | apply lost_heads_length]. }
  lia.
Qed.

(** The counters of the scan are those of the packets declared lost that
    were sent after [first_rtt]. *)
Lemma lost_scan_counts now qc :
  scan_in_range now qc ->
  scan_counts (lost_scan find now qc) (late_lost now qc).
Proof.
  intros Hin. unfold lost_scan, late_lost. cbn [fold_left].
  rewrite !filter_app.
  set (thr := njt_quic_lost_threshold qc).
  set (gate := fun f => first_rtt (rtt qc) <? send_time f).
  set (a0 := mkScan qc NJT_TIMER_INFINITE NJT_TIMER_INFINITE 0).
  assert (C0 : scan_counts a0 []).
  { unfold scan_counts. cbn. repeat split. constructor. }
  pose proof (late_length now qc Ix0 Hin) as B0.
  pose proof (late_length now qc Ix1 Hin) as B1.
  pose proof (late_length now qc Ix2 Hin) as B2.
  fold gate in B0, B1, B2.
  pose proof (detect_lost_turn_frame find now thr a0 Ix0) as H0.
  pose proof (detect_lost_turn_counts now qc Ix0 a0 [] Hin eq_refl eq_refl
                eq_refl) as K0.
  fold thr gate in K0. cbn [app List.length] in K0.
  specialize (K0 ltac:(lia) C0).
  set (a1 := detect_lost_turn find now thr a0 Ix0) in *.
  cbn [s_qc a0] in H0.
  destruct (conn_frame_rtt _ _ H0) as (R1 & _).
  destruct (conn_frame_sent _ _ Ix1 H0) as (S1 & L1 & _).
  rewrite !with_sent_other in S1, L1 by discriminate.
  assert (R1' : rtt (s_qc a1) = rtt qc) by (rewrite R1; reflexivity).
  pose proof (detect_lost_turn_frame find now thr a1 Ix1) as H1.
  pose proof (detect_lost_turn_counts now qc Ix1 a1
                (filter gate (lost_packets now qc Ix0)) Hin R1' L1 S1) as K1.
  fold thr gate in K1. specialize (K1 ltac:(lia) K0).
  set (a2 := detect_lost_turn find now thr a1 Ix1) in *.
  destruct (conn_frame_rtt _ _ H1) as (R2 & _).
  destruct (conn_frame_sent _ _ Ix2 H1) as (S2 & L2 & _).
  rewrite !with_sent_other in S2, L2 by discriminate.
  destruct (conn_frame_sent _ _ Ix2 H0) as (S2' & L2' & _).
  rewrite !with_sent_other in S2', L2' by discriminate.
  assert (R2' : rtt (s_qc a2) = rtt qc).
  { rewrite R2. rewrite <- R1'. destruct (s_qc a1) as [[? ? ?] ? ? ? ? ? ? ? ? ?].
    reflexivity. }
  pose proof (detect_lost_turn_counts now qc Ix2 a2
                (filter gate (lost_packets now qc Ix0)
                 ++ filter gate (lost_packets now qc Ix1)) Hin R2'
                (eq_trans L2 L2') (eq_trans S2 S2')) as K2.
  fold thr gate in K2.
  rewrite <- app_assoc in K2. apply K2; [| exact K1].
  rewrite length_app. lia.
Qed.

End LostCount.

Section PersistentCongestion.
Context {Tree Path : Type}.
Variable find : Tree -> Z -> option njt_quic_stream_t.
Implicit Types (qc : njt_quic_connection_t Tree Path) (f : njt_quic_frame_t)
               (a : lost_scan_t Tree Path).

Lemma set_lost_timer_congestion now qc :
  congestion (njt_quic_set_lost_timer now qc) = congestion qc.
Proof. destruct (set_lost_timer_shape now qc) as [ev ->]. reflexivity. Qed.

Lemma pcg_duration_spec qc :
  0 <= avg_rtt (rtt qc) -> 0 <= rttvar (rtt qc) ->
  0 <= ctp_max_ack_delay (params qc) -> spec_pcg_duration qc < 2 ^ 64 ->
  njt_quic_pcg_duration qc = spec_pcg_duration qc.
Proof.
  unfold njt_quic_pcg_duration, spec_pcg_duration,
    NJT_QUIC_TIME_GRANULARITY, NJT_QUIC_PERSISTENT_CONGESTION_THR.
  intros Ha Hv Hm Hb.
  rewrite (wrap_small (4 * _)) by lia.
  rewrite (wrap_small (avg_rtt _ + _)) by lia.
  rewrite (wrap_small (avg_rtt _ + _ + _)) by lia.
  apply wrap_small. lia.
Qed.

Lemma lost_scan_estimators now qc :
  rtt (s_qc (lost_scan find now qc)) = rtt qc
  /\ params (s_qc (lost_scan find now qc)) = params qc.
Proof.
  destruct (conn_frame_rtt _ _ (lost_scan_frame find now qc))
    as (Hr & Hp & _).
  split; [exact Hr | exact Hp].
Qed.

(** C3.  In [njt_quic_detect_lost], when the acknowledgment statistics
    [st] are supplied, at least two of the packets declared lost (the
    packets at the head of [sent] of each context that satisfy the loss
    condition) were sent after [first_rtt], the span of the send times of
    these packets is disjoint from the span of the acknowledged frames
    ([st.newest < oldest] or [st.oldest > newest]) and [newest - oldest]
    exceeds [(avg_rtt + max (4 * rttvar, 1) + max_ack_delay) * 3],
    persistent congestion is declared: the window becomes exactly two
    datagrams, [recovery_start] becomes [now], and [ssthresh] (as
    [in_flight]) is left as the scan left it.  Otherwise the congestion
    state is the one the scan left. *)
Theorem detect_lost_persistent_congestion now qc st :
  scan_in_range now qc ->
  0 <= rttvar (rtt qc) ->
  0 <= ctp_max_ack_delay (params qc) -> spec_pcg_duration qc < 2 ^ 64 ->
  0 <= tp_max_udp_payload_size (params qc) < 2 ^ 63 ->
  let late := late_lost now qc in
  let cg1 := congestion (s_qc (lost_scan find now qc)) in
  let cg' := congestion (snd (njt_quic_detect_lost find now qc st)) in
  let declared :=
    match st with
    | None => False
    | Some s =>
        2 <= Z.of_nat (List.length late)
        /\ (newest s < oldest_time late \/ oldest s > newest_time late)
        /\ newest_time late - oldest_time late > spec_pcg_duration qc
    end in
  (declared ->
   window cg' = 2 * tp_max_udp_payload_size (params qc)
   /\ recovery_start cg' = now
   /\ ssthresh cg' = ssthresh cg1
   /\ in_flight cg' = in_flight cg1)
  /\ (~ declared -> cg' = cg1).
Proof.
  intros Hin Hv Hm Hb Hmups. cbv zeta.
  pose proof (lost_scan_counts find now qc Hin) as (Cn & Co & Cw & Call).
  destruct Hin as (Hn & Hlr & Har & Hctx).
  unfold njt_quic_detect_lost. cbn [snd].
  rewrite set_lost_timer_congestion.
  destruct (lost_scan_estimators now qc) as [Hr Hp].
  set (a := lost_scan find now qc) in *.
  set (late := late_lost now qc) in *.
  assert (Hd : njt_quic_pcg_duration (s_qc a) = spec_pcg_duration qc).
  { rewrite pcg_duration_spec; unfold spec_pcg_duration;
      rewrite ?Hr, ?Hp; try assumption; try reflexivity; lia. }
  unfold pcg_established.
  destruct st as [s |]; [| split; [intros [] | reflexivity]].
  rewrite Hd, Cn, Co.
  destruct (Z.leb_spec 2 (Z.of_nat (List.length late))) as [H2 | H2].
  2:{ cbn [andb]. split; [intros (G & _); lia | reflexivity]. }
  assert (Hne : late <> []) by (intros E; rewrite E in H2; cbn in H2; lia).
  destruct (times_bounds late Call Hne) as (B1 & B2).
  assert (Cw' : s_newest a = newest_time late).
  { rewrite Cw. destruct late; [congruence | reflexivity]. }
  rewrite Cw'.
  rewrite (wrap_small (newest_time late - oldest_time late)) by lia.
  destruct (Z.ltb_spec (newest s) (oldest_time late));
    destruct (Z.ltb_spec (newest_time late) (oldest s));
    destruct (Z.ltb_spec (spec_pcg_duration qc)
                (newest_time late - oldest_time late));
    cbn [andb orb];
    (split; [intros (G2 & G3 & G4) | intros Hn']); try lia;
    try reflexivity; try (exfalso; apply Hn'; lia).
  all: unfold njt_quic_persistent_congestion;
    cbn [congestion set_congestion window recovery_start ssthresh in_flight
         set_window set_recovery_start]; rewrite Hp;
    rewrite wrap_small by lia; repeat split; lia.
Qed.

End PersistentCongestion.

(** The hypotheses of [detect_lost_persistent_congestion] hold on the
    sample connection: two packets sent 800 ms apart, both after
    [first_rtt], are lost, the duration is 675 ms, and the window
    collapses to two datagrams. *)
Lemma detect_lost_persistent_congestion_witness :
  late_lost 3000 congested_conn
  = [mkFrame ssl_encryption_initial (FT_OTHER 6) 1 1000 1200 false;
     mkFrame ssl_encryption_initial (FT_OTHER 6) 2 1800 1200 false]
  /\ window (congestion (snd (njt_quic_detect_lost find_none 3000
                                congested_conn (Some late_stat)))) = 2400.
Proof.
  split; [reflexivity |].
  pose proof (detect_lost_persistent_congestion find_none 3000 congested_conn (Some late_stat)) as H.
  cbv zeta in H.
  destruct H as [H _].
  - split; [unfold small; lia |]. split; [cbn; lia |]. split; [cbn; lia |].
    intros j. split; [destruct j; unfold u64; cbn; unfold NJT_QUIC_UNSET_PN; lia |].
    split; [destruct j; cbn; lia |].
    destruct j; cbn;
      repeat (apply Forall_cons; [unfold small; cbn; lia |]);
      apply Forall_nil.
  - cbn. lia.
  - cbn. lia.
  - unfold spec_pcg_duration. cbn. lia.
  - cbn. lia.
  - destruct H as (H & _); [| exact H].
    split; [| split; [right |]]; vm_compute; reflexivity || discriminate.
Defined.

(** ** Bytes in flight *)

Section InFlight.
Context {Tree Path : Type}.
Variable mtu : Path -> Z -> Z -> Z * Path.
Variable sack : njt_quic_streams_t Tree -> njt_quic_frame_t
                -> njt_quic_streams_t Tree.
Variable find : Tree -> Z -> option njt_quic_stream_t.
Implicit Types (qc : njt_quic_connection_t Tree Path) (f : njt_quic_frame_t)
               (w : ack_walk_t Tree Path).

Lemma counted_bounds rst f : 0 <= plen f -> 0 <= counted rst f <= plen f.
Proof. unfold counted. destruct (_ <? _); lia. Qed.

Lemma queue_bytes_nonneg rst q :
  Forall (fun f => 0 <= plen f) q -> 0 <= queue_bytes rst q.
Proof.
  induction 1 as [| f q Hf _ IH]; cbn [queue_bytes]; [lia |].
  pose proof (counted_bounds rst f Hf). lia.
Qed.

Lemma queue_bytes_ack rst min max q :
  queue_bytes rst q
  = queue_bytes rst (ack_taken min max q) + queue_bytes rst (ack_keep min max q).
Proof.
  induction q as [| f q IH]; cbn [ack_taken ack_keep queue_bytes];
    [reflexivity |].
  destruct (max <? pnum f); [cbn [queue_bytes]; lia |].
  destruct (min <=? pnum f); cbn [queue_bytes]; lia.
Qed.

Lemma congestion_done_parts b qc :
  congestion (congestion_done b qc) = congestion qc
  /\ params (congestion_done b qc) = params qc.
Proof. unfold congestion_done. destruct (_ && _); split; reflexivity. Qed.

(** An acknowledged frame leaves [in_flight] by what it counts for. *)
Lemma congestion_ack_in_flight now qc f :
  0 <= plen f ->
  counted (rst_pnum (params qc)) f <= in_flight (congestion qc) < 2 ^ 64 ->
  in_flight (congestion (njt_quic_congestion_ack now qc f))
  = in_flight (congestion qc) - counted (rst_pnum (params qc)) f
  /\ params (njt_quic_congestion_ack now qc f) = params qc.
Proof.
  unfold njt_quic_congestion_ack, counted. intros Hp Hb.
  destruct (Z.eqb_spec (plen f) 0) as [H0 | H0].
  { destruct (_ <? _); split; try reflexivity; lia. }
  destruct (pnum f <? rst_pnum (params qc)); [split; [lia | reflexivity] |].
  cbv zeta.
  destruct (msec_int _ <=? 0);
    destruct (congestion_done_parts
                (window (congestion qc) <=? in_flight (congestion qc))
                (set_congestion
                   (set_in_flight
                      (wrap (in_flight (congestion qc) - plen f))
                      (congestion qc)) qc)) as [_ _].
  - match goal with
    | |- context [congestion_done ?b ?q] =>
        destruct (congestion_done_parts b q) as [-> ->]
    end.
    cbn. rewrite wrap_small by lia. split; reflexivity.
  - match goal with
    | |- context [congestion_done ?b ?q] =>
        destruct (congestion_done_parts b q) as [-> ->]
    end.
    cbn [congestion set_congestion params].
    destruct (msec_int _ <? 0); destruct (_ <? _);
      cbn [in_flight set_recovery_start set_window set_in_flight];
      rewrite wrap_small by lia; split; reflexivity.
Qed.

Lemma ack_one_in_flight now i max f w :
  0 <= plen f ->
  counted (rst_pnum (params (w_qc w))) f
    <= in_flight (congestion (w_qc w)) < 2 ^ 64 ->
  in_flight (congestion (w_qc (ack_one sack now i max f w)))
  = in_flight (congestion (w_qc w)) - counted (rst_pnum (params (w_qc w))) f
  /\ params (w_qc (ack_one sack now i max f w)) = params (w_qc w).
Proof.
  intros Hp Hb.
  destruct (congestion_ack_in_flight now (w_qc w) f Hp Hb) as [Hi Hq].
  unfold ack_one. cbn [w_qc]. rewrite <- Hi, <- Hq.
  destruct (kind f); split; reflexivity.
Qed.

Lemma ack_walk_in_flight now i min max : forall q w,
  Forall (fun f => 0 <= plen f) q ->
  queue_bytes (rst_pnum (params (w_qc w))) q
    <= in_flight (congestion (w_qc w)) < 2 ^ 64 ->
  in_flight (congestion (w_qc (snd (ack_walk sack now i min max q w))))
  = in_flight (congestion (w_qc w))
    - queue_bytes (rst_pnum (params (w_qc w))) (ack_taken min max q)
  /\ params (w_qc (snd (ack_walk sack now i min max q w))) = params (w_qc w).
Proof.
  induction q as [| f q IH]; intros w Hq Hb;
    cbn [ack_walk ack_taken queue_bytes] in *.
  { cbn [snd]. split; [lia | reflexivity]. }
  inversion Hq as [| ? ? Hf Hq']; subst.
  pose proof (counted_bounds (rst_pnum (params (w_qc w))) f Hf) as Hc.
  pose proof (queue_bytes_nonneg (rst_pnum (params (w_qc w))) q Hq') as Hn.
  destruct (max <? pnum f); [cbn [snd queue_bytes]; split; [lia | reflexivity] |].
  destruct (min <=? pnum f).
  - destruct (ack_one_in_flight now i max f w Hf) as [Hi Hp]; [lia |].
    destruct (IH (ack_one sack now i max f w) Hq') as [Hi' Hp'].
    { rewrite Hp, Hi. lia. }
    rewrite Hi', Hp', Hp, Hi. cbn [queue_bytes]. split; [lia | reflexivity].
  - destruct (IH w Hq') as [Hi' Hp']; [lia |].
    destruct (ack_walk sack now i min max q w). cbn [snd] in *.
    split; assumption.
Qed.

(** The invariant moves along with one queue when [in_flight] moves by
    the bytes that left the queue. *)
Lemma in_flight_inv_transfer qc qc' i :
  params qc' = params qc ->
  (forall j, i <> j -> sent (ctx_of qc' j) = sent (ctx_of qc j)) ->
  in_flight (congestion qc')
  = in_flight (congestion qc)
    - (queue_bytes (rst_pnum (params qc)) (sent (ctx_of qc i))
       - queue_bytes (rst_pnum (params qc)) (sent (ctx_of qc' i))) ->
  in_flight_inv qc -> in_flight_inv qc'.
Proof.
  unfold in_flight_inv, bytes_in_flight. intros Hp Ho Hi Hinv.
  rewrite Hp, Hi, Hinv.
  destruct i.
  - rewrite (Ho Ix1), (Ho Ix2) by discriminate. lia.
  - rewrite (Ho Ix0), (Ho Ix2) by discriminate. lia.
  - rewrite (Ho Ix0), (Ho Ix1) by discriminate. lia.
Qed.

Lemma bytes_le_in_flight qc i :
  in_flight_inv qc -> plens_ok qc ->
  queue_bytes (rst_pnum (params qc)) (sent (ctx_of qc i))
    <= in_flight (congestion qc).
Proof.
  unfold in_flight_inv, bytes_in_flight. intros -> Hok.
  pose proof (queue_bytes_nonneg (rst_pnum (params qc)) _ (Hok Ix0)).
  pose proof (queue_bytes_nonneg (rst_pnum (params qc)) _ (Hok Ix1)).
  pose proof (queue_bytes_nonneg (rst_pnum (params qc)) _ (Hok Ix2)).
  destruct i; lia.
Qed.

Lemma range_ack_in_flight now qc i min max st :
  in_flight_inv qc -> plens_ok qc -> in_flight (congestion qc) < 2 ^ 64 ->
  in_flight_inv
    (snd (fst (njt_quic_handle_ack_frame_range mtu sack now qc i min max st))).
Proof.
  intros Hinv Hok Hlt. unfold njt_quic_handle_ack_frame_range.
  destruct (if is_application _ then _ else _) as [rc0 p].
  destruct (negb (rc0 =? NJT_OK)); [exact Hinv |].
  change (ctx_of (set_path p qc) i) with (ctx_of qc i).
  set (w0 := mkWalk (set_path p qc) _ false).
  pose proof (ack_walk_kept sack now i min max (sent (ctx_of qc i)) w0) as Hk.
  pose proof (ack_walk_conn_frame sack now i min max (sent (ctx_of qc i)) w0)
    as Hfr.
  destruct (ack_walk_in_flight now i min max (sent (ctx_of qc i)) w0 (Hok i))
    as [Hi Hp].
  { split; [apply (bytes_le_in_flight qc i Hinv Hok) | exact Hlt]. }
  destruct (ack_walk sack now i min max (sent (ctx_of qc i)) w0) as [kept w].
  cbn [fst snd w_qc w0] in Hk, Hfr, Hi, Hp. subst kept.
  change (params (set_path p qc)) with (params qc) in Hi, Hp.
  change (congestion (set_path p qc)) with (congestion qc) in Hi.
  assert (Hgoal : in_flight_inv
            (with_sent i (ack_keep min max (sent (ctx_of qc i))) (w_qc w))).
  { apply (in_flight_inv_transfer qc _ i).
    - exact Hp.
    - intros j Hj. rewrite with_sent_other by exact Hj.
      now destruct (conn_frame_sent _ _ j Hfr) as (-> & _).
    - rewrite sent_with_sent.
      change (congestion (with_sent i (ack_keep min max (sent (ctx_of qc i)))
                            (w_qc w)))
        with (congestion (w_qc w)).
      rewrite Hi.
      pose proof (queue_bytes_ack (rst_pnum (params qc)) min max
                    (sent (ctx_of qc i))).
      lia.
    - exact Hinv. }
  fold (with_sent i (ack_keep min max (sent (ctx_of qc i))) (w_qc w)).
  destruct (negb (w_found w)).
  - destruct (_ <? _); exact Hgoal.
  - destruct (negb _); exact Hgoal.
Qed.

End InFlight.

Section InFlightLoss.
Context {Tree Path : Type}.
Variable mtu : Path -> Z -> Z -> Z * Path.
Variable sack : njt_quic_streams_t Tree -> njt_quic_frame_t
                -> njt_quic_streams_t Tree.
Variable find : Tree -> Z -> option njt_quic_stream_t.
Implicit Types (qc : njt_quic_connection_t Tree Path) (f : njt_quic_frame_t).

(** A lost frame leaves [in_flight] by what it counts for. *)
Lemma congestion_lost_in_flight now qc f :
  0 <= plen f ->
  counted (rst_pnum (params qc)) f <= in_flight (congestion qc) < 2 ^ 64 ->
  in_flight (congestion (fst (njt_quic_congestion_lost now qc f)))
  = in_flight (congestion qc) - counted (rst_pnum (params qc)) f.
Proof.
  unfold njt_quic_congestion_lost, counted. intros Hp Hb.
  destruct (Z.eqb_spec (plen f) 0) as [H0 | H0].
  { destruct (_ <? _); cbn [fst]; lia. }
  destruct (pnum f <? rst_pnum (params qc)); [cbn [fst]; lia |].
  cbv zeta.
  destruct (msec_int _ <=? 0); cbn [fst];
    match goal with
    | |- context [congestion_done ?b ?q] =>
        destruct (congestion_done_parts b q) as [-> _]
    end.
  - cbn. rewrite wrap_small by lia. reflexivity.
  - cbn [congestion set_congestion].
    destruct (_ <? _); cbn; rewrite wrap_small by lia; reflexivity.
Qed.

Lemma resend_one_congestion i f qc :
  congestion (resend_one find i f qc) = congestion qc.
Proof.
  unfold resend_one, njt_quic_queue_frame.
  destruct (kind f); try reflexivity.
  - destruct (is_application _); reflexivity.
  - destruct (is_application _); reflexivity.
  - destruct (find _ _) as [qs |]; [| reflexivity].
    destruct (send_state qs); reflexivity.
  - destruct (find _ _) as [qs |]; reflexivity.
Qed.

Lemma resend_walk_congestion i pn q qc :
  congestion (snd (resend_walk find i pn q qc)) = congestion qc.
Proof.
  apply (resend_walk_inv find (fun q' => congestion q' = congestion qc));
    [| reflexivity].
  intros f q' H. now rewrite resend_one_congestion.
Qed.

Lemma queue_bytes_app rst q1 q2 :
  queue_bytes rst (q1 ++ q2) = queue_bytes rst q1 + queue_bytes rst q2.
Proof.
  induction q1 as [| f q1 IH]; cbn [app queue_bytes]; [reflexivity | lia].
Qed.

Lemma queue_bytes_zero rst q :
  Forall (fun f => plen f = 0) q -> queue_bytes rst q = 0.
Proof.
  induction 1 as [| f q Hf _ IH]; cbn [queue_bytes]; [reflexivity |].
  unfold counted. rewrite Hf, IH. destruct (_ <? _); reflexivity.
Qed.

Lemma resend_frames_congestion now qc i start rest :
  sent (ctx_of qc i) = start :: rest ->
  congestion (njt_quic_resend_frames find now qc i)
  = congestion (fst (njt_quic_congestion_lost now qc start)).
Proof.
  intros Hs. unfold njt_quic_resend_frames. rewrite Hs.
  destruct (njt_quic_congestion_lost now qc start) as [q1 start'].
  pose proof (resend_walk_congestion i (pnum start) (start' :: rest) q1) as Hc.
  destruct (resend_walk find i (pnum start) (start' :: rest) q1) as [kept q2].
  cbn [fst snd] in *. destruct (closing _); exact Hc.
Qed.

Lemma resend_frames_in_flight now qc i :
  in_flight_inv qc -> plens_ok qc -> in_flight (congestion qc) < 2 ^ 64 ->
  plen_on_first (sent (ctx_of qc i)) ->
  in_flight_inv (njt_quic_resend_frames find now qc i).
Proof.
  intros Hinv Hok Hlt Hfirst.
  destruct (sent (ctx_of qc i)) as [| start rest] eqn:Hs.
  { unfold njt_quic_resend_frames. rewrite Hs. exact Hinv. }
  pose proof (resend_frames_frame find now qc i start rest Hs) as Hfr.
  pose proof (bytes_le_in_flight qc i Hinv Hok) as Hle.
  pose proof (Hok i) as Hpl. rewrite Hs in Hle, Hpl.
  inversion Hpl as [| ? ? Hp0 Hprest]; subst.
  cbn [queue_bytes] in Hle.
  pose proof (queue_bytes_nonneg (rst_pnum (params qc)) rest Hprest) as Hn.
  pose proof (counted_bounds (rst_pnum (params qc)) start Hp0) as Hc.
  apply (in_flight_inv_transfer qc _ i).
  - now destruct (conn_frame_rtt _ _ Hfr) as (_ & Hp & _).
  - intros j Hj. destruct (conn_frame_sent _ _ j Hfr) as (-> & _).
    now rewrite with_sent_other.
  - destruct (conn_frame_sent _ _ i Hfr) as (-> & _).
    rewrite sent_with_sent, Hs.
    rewrite (resend_frames_congestion now qc i start rest Hs).
    rewrite congestion_lost_in_flight by (assumption || lia).
    destruct (skip_packet_split (pnum start) rest) as (t & Hr & Ht).
    cbn [queue_bytes]. rewrite Hr at 1. rewrite queue_bytes_app.
    rewrite (queue_bytes_zero _ t); [lia |].
    destruct Hfirst as [Hz _].
    rewrite Forall_forall in Ht, Hz |- *. intros g Hg.
    apply Hz; [rewrite Hr; apply in_or_app; now left | now apply Ht].
  - exact Hinv.
Qed.

(** C8 (amended).  [in_flight] is one counter for the connection; the
    invariant is [in_flight = sum of plen over the frames of the three
    sent queues with pnum >= rst_pnum].  From a state that satisfies it
    (with lengths that are not negative), the acknowledgment of a range
    and the collapse of persistent congestion preserve it, and the resend
    of a lost packet preserves it when the length of a packet is carried
    by its first frame only, which is the frame handed to
    [njt_quic_congestion_lost]. *)
Theorem in_flight_preserved now qc :
  in_flight_inv qc -> plens_ok qc -> in_flight (congestion qc) < 2 ^ 64 ->
  (forall i min max st,
     in_flight_inv
       (snd (fst (njt_quic_handle_ack_frame_range mtu sack now qc i
                    min max st))))
  /\ (forall i, plen_on_first (sent (ctx_of qc i)) ->
        in_flight_inv (njt_quic_resend_frames find now qc i))
  /\ in_flight_inv (njt_quic_persistent_congestion now qc).
Proof.
  intros Hinv Hok Hlt. split; [| split].
  - intros i min max st. now apply range_ack_in_flight.
  - intros i. now apply resend_frames_in_flight.
  - exact Hinv.
Qed.

End InFlightLoss.

(** The hypotheses of [in_flight_preserved] hold on the sample connection
    with one packet of one frame in flight; its loss keeps the
    invariant. *)
Lemma in_flight_preserved_witness :
  in_flight_inv (njt_quic_resend_frames find_none 1500 push_armed_conn Ix0).
Proof.
  pose proof (in_flight_preserved mtu_ok sack_id find_none 1500
                push_armed_conn) as H.
  destruct H as (_ & H & _).
  - reflexivity.
  - intros j. destruct j; cbn;
      repeat (apply Forall_cons; [cbn; lia |]); apply Forall_nil.
  - cbn. lia.
  - apply H. cbn. split; [apply Forall_nil | exact I].
Defined.

(** C8, as stated, fails: the invariant holds of a packet of two frames
    that both carry a length (700 + 500 bytes in flight); its loss takes
    the length of the first frame only off [in_flight] and unlinks both
    frames, which leaves 500 bytes in flight with nothing in [sent]. *)
Lemma resend_counts_first_frame_only :
  let qc' := njt_quic_resend_frames find_none 1500 split_len_conn Ix0 in
  in_flight_inv split_len_conn
  /\ sent (ctx_of qc' Ix0) = []
  /\ in_flight (congestion qc') = 500
  /\ bytes_in_flight qc' = 0
  /\ ~ in_flight_inv qc'.
Proof. cbv zeta. repeat split. discriminate. Qed.

(** ** The same ACK frame twice *)

Section AckTwice.
Context {Tree Path Buf : Type}.
Variable mtu : Path -> Z -> Z -> Z * Path.
Variable sack : njt_quic_streams_t Tree -> njt_quic_frame_t
                -> njt_quic_streams_t Tree.
Variable find : Tree -> Z -> option njt_quic_stream_t.
Variable parse : Buf -> option (Z * Z * Buf).
Implicit Types (qc : njt_quic_connection_t Tree Path) (f : njt_quic_frame_t).

Lemma ack_keep_incl min max q f : In f (ack_keep min max q) -> In f q.
Proof.
  induction q as [| g q IH]; cbn [ack_keep]; [tauto |].
  destruct (max <? pnum g); [tauto |].
  destruct (min <=? pnum g).
  - intros H. right. now apply IH.
  - intros [H | H]; [now left | right; now apply IH].
Qed.

Lemma ack_keep_sorted min max q : pn_sorted q -> pn_sorted (ack_keep min max q).
Proof.
  induction q as [| g q IH]; cbn [ack_keep pn_sorted]; [tauto |].
  intros [Hle Hs].
  destruct (max <? pnum g); [split; assumption |].
  destruct (min <=? pnum g); [now apply IH |].
  cbn [pn_sorted]. split; [| now apply IH].
  rewrite Forall_forall in Hle |- *. intros f Hf.
  apply Hle. now apply ack_keep_incl in Hf.
Qed.

(** In an ordered queue the walk removes every frame of the range. *)
Lemma ack_keep_clear min max q :
  pn_sorted q -> clear_of (ack_keep min max q) (min, max).
Proof.
  unfold clear_of, in_range. cbn [fst snd].
  induction q as [| g q IH]; cbn [ack_keep pn_sorted]; [tauto |].
  intros [Hle Hs] f.
  destruct (Z.ltb_spec max (pnum g)).
  - intros [<- | Hf]; [lia |].
    rewrite Forall_forall in Hle. specialize (Hle f Hf). lia.
  - destruct (Z.leb_spec min (pnum g)); [now apply IH |].
    intros [<- | Hf]; [lia | now apply IH].
Qed.

Lemma clear_of_incl q q' r :
  (forall f, In f q' -> In f q) -> clear_of q r -> clear_of q' r.
Proof. unfold clear_of. intros Hi Hc f Hf. apply Hc, Hi, Hf. Qed.

(** A range that succeeds leaves in [sent] what [ack_keep] says, and
    leaves the other queues, the estimators and the timer alone. *)
Lemma range_ack_ok_frame now qc i min max st qa sta :
  njt_quic_handle_ack_frame_range mtu sack now qc i min max st
  = (NJT_OK, qa, sta) ->
  conn_frame qa
  = conn_frame (with_sent i (ack_keep min max (sent (ctx_of qc i))) qc).
Proof.
  unfold njt_quic_handle_ack_frame_range.
  destruct (if is_application _ then _ else _) as [rc0 p].
  destruct (negb (rc0 =? NJT_OK)); [discriminate |].
  change (ctx_of (set_path p qc) i) with (ctx_of qc i).
  set (w0 := mkWalk (set_path p qc) _ false).
  pose proof (ack_walk_kept sack now i min max (sent (ctx_of qc i)) w0) as Hk.
  pose proof (ack_walk_conn_frame sack now i min max (sent (ctx_of qc i)) w0)
    as Hfr.
  destruct (ack_walk sack now i min max (sent (ctx_of qc i)) w0) as [kept w].
  cbn [fst snd w_qc w0] in Hk, Hfr. subst kept.
  change (conn_frame (set_path p qc)) with (conn_frame qc) in Hfr.
  fold (with_sent i (ack_keep min max (sent (ctx_of qc i))) (w_qc w)).
  pose proof (conn_frame_with_sent i
                (ack_keep min max (sent (ctx_of qc i))) _ _ Hfr) as Hgoal.
  destruct (negb (w_found w)).
  - destruct (_ <? _); [| discriminate].
    intros H. injection H as <- _. exact Hgoal.
  - intros H. injection H as <- _.
    destruct (negb _); exact Hgoal.
Qed.

Lemma range_ack_ok_sent now qc i min max st qa sta :
  njt_quic_handle_ack_frame_range mtu sack now qc i min max st
  = (NJT_OK, qa, sta) ->
  sent (ctx_of qa i) = ack_keep min max (sent (ctx_of qc i))
  /\ ctx_pnum (ctx_of qa i) = ctx_pnum (ctx_of qc i)
  /\ largest_ack (ctx_of qa i) = largest_ack (ctx_of qc i).
Proof.
  intros H. apply range_ack_ok_frame in H.
  destruct (conn_frame_sent _ _ i H) as (Hs & Hl & Hp & _).
  rewrite Hs, Hl, Hp, sent_with_sent. destruct i; repeat split.
Qed.

(** What a successful run of the loop over the additional ranges says of
    the frame and of the queue it leaves. *)
Lemma ranges_loop_ok n : forall now i pos min qb st qd std,
  parse_bounded parse -> u64 min ->
  ack_ranges_loop mtu sack parse n now i pos min qb st = (NJT_OK, qd, std) ->
  pn_sorted (sent (ctx_of qb i)) ->
  exists rs,
    ack_range_list parse n pos min = Some rs
    /\ Forall (fun r => clear_of (sent (ctx_of qd i)) r /\ snd r <= min) rs
    /\ (forall f, In f (sent (ctx_of qd i)) -> In f (sent (ctx_of qb i)))
    /\ ctx_pnum (ctx_of qd i) = ctx_pnum (ctx_of qb i)
    /\ largest_ack (ctx_of qd i) = largest_ack (ctx_of qb i).
Proof.
  unfold u64.
  induction n as [| n IH]; intros now i pos min qb st qd std Hpb Hmin Hrun Hs;
    cbn [ack_ranges_loop ack_range_list] in *.
  { injection Hrun as <- _. exists []. repeat split; auto. }
  destruct (parse pos) as [[[g r] pos'] |] eqn:Hparse; [| discriminate].
  destruct (Hpb _ _ _ _ Hparse) as [Hg Hr].
  rewrite (wrap_small (g + 2)) in Hrun by lia.
  destruct (Z.ltb_spec min (g + 2)); [discriminate |].
  rewrite (wrap_small (min - g)) in Hrun by lia.
  rewrite (wrap_small (min - g - 2)) in Hrun by lia.
  destruct (Z.ltb_spec (min - g - 2) r); [discriminate |].
  rewrite (wrap_small (min - g - 2 - r)) in Hrun by lia.
  cbn [orb].
  destruct (njt_quic_handle_ack_frame_range mtu sack now qb i
              (min - g - 2 - r) (min - g - 2) st) as [[rc1 qa] sta] eqn:Hra.
  destruct (Z.eqb_spec rc1 NJT_OK) as [-> | Hne]; [| discriminate].
  cbn [negb] in Hrun.
  destruct (range_ack_ok_sent _ _ _ _ _ _ _ _ Hra) as (Hsa & Hpa & Hla).
  destruct (IH now i pos' (min - g - 2 - r) qa sta qd std Hpb) as
    (rs & Hrs & Hall & Hin & Hp & Hl); try assumption; [lia | |].
  { rewrite Hsa. now apply ack_keep_sorted. }
  rewrite Hrs. eexists. split; [reflexivity |].
  assert (Hin' : forall f, In f (sent (ctx_of qd i)) ->
                   In f (ack_keep (min - g - 2 - r) (min - g - 2)
                           (sent (ctx_of qb i)))).
  { intros f Hf. rewrite <- Hsa. now apply Hin. }
  repeat split.
  - constructor.
    + split; [| cbn; lia].
      apply (clear_of_incl _ _ _ Hin'). now apply ack_keep_clear.
    + rewrite Forall_forall in Hall |- *. intros x Hx.
      destruct (Hall x Hx). split; [assumption | lia].
  - intros f Hf. apply ack_keep_incl with (1 := Hin' f Hf).
  - congruence.
  - congruence.
Qed.

End AckTwice.

Section AckAgain.
Context {Tree Path Buf : Type}.
Variable mtu : Path -> Z -> Z -> Z * Path.
Variable sack : njt_quic_streams_t Tree -> njt_quic_frame_t
                -> njt_quic_streams_t Tree.
Variable find : Tree -> Z -> option njt_quic_stream_t.
Variable parse : Buf -> option (Z * Z * Buf).
Implicit Types (qc q : njt_quic_connection_t Tree Path) (f : njt_quic_frame_t).

Hypothesis mtu_succeeds : forall p a b, fst (mtu p a b) = NJT_OK.

(** A range none of whose packets is in [sent] any more, and all of whose
    packets were sent, is a duplicate: nothing changes but the path. *)
Lemma range_ack_dup now q i mn mx :
  clear_of (sent (ctx_of q i)) (mn, mx) -> mx < ctx_pnum (ctx_of q i) ->
  exists p,
    njt_quic_handle_ack_frame_range mtu sack now q i mn mx no_stat
    = (NJT_OK, set_path p q, no_stat).
Proof.
  intros Hclear Hmx. unfold njt_quic_handle_ack_frame_range.
  set (hook := if is_application (ctx_level (ctx_of q i))
               then mtu (path q) mn mx else (NJT_OK, path q)).
  assert (Hrc : fst hook = NJT_OK).
  { subst hook. destruct (is_application _); [apply mtu_succeeds | reflexivity]. }
  destruct hook as [rc0 p]. cbn [fst] in Hrc. subst rc0.
  change (NJT_OK =? NJT_OK) with true. cbn [negb].
  change (ctx_of (set_path p q) i) with (ctx_of q i).
  rewrite ack_walk_none by (apply ack_taken_none; exact Hclear).
  cbn [w_qc w_found w_st negb].
  change (set_ctx i (set_sent (sent (ctx_of q i))
                       (ctx_of (set_path p q) i)) (set_path p q))
    with (with_sent i (sent (ctx_of (set_path p q) i)) (set_path p q)).
  rewrite with_sent_self.
  change (ctx_of (set_path p q) i) with (ctx_of q i).
  destruct (Z.ltb_spec mx (ctx_pnum (ctx_of q i))); [| lia].
  exists p. reflexivity.
Qed.

Lemma ranges_loop_dup now i n : forall pos min q rs,
  parse_bounded parse -> u64 min ->
  ack_range_list parse n pos min = Some rs ->
  Forall (fun r => clear_of (sent (ctx_of q i)) r
                   /\ snd r < ctx_pnum (ctx_of q i)) rs ->
  exists p,
    ack_ranges_loop mtu sack parse n now i pos min q no_stat
    = (NJT_OK, set_path p q, no_stat).
Proof.
  unfold u64.
  induction n as [| n IH]; intros pos min q rs Hpb Hmin Hrs Hall;
    cbn [ack_ranges_loop ack_range_list] in *.
  { exists (path q). now rewrite set_path_self. }
  destruct (parse pos) as [[[g r] pos'] |] eqn:Hparse; [| discriminate].
  destruct (Hpb _ _ _ _ Hparse) as [Hg Hr].
  rewrite (wrap_small (g + 2)) by lia.
  destruct (Z.ltb_spec min (g + 2)); [discriminate |].
  rewrite (wrap_small (min - g)) by lia.
  rewrite (wrap_small (min - g - 2)) by lia.
  destruct (Z.ltb_spec (min - g - 2) r); [discriminate |].
  rewrite (wrap_small (min - g - 2 - r)) by lia.
  cbn [orb] in Hrs.
  destruct (ack_range_list parse n pos' (min - g - 2 - r)) as [rs' |] eqn:Hrs';
    [| discriminate].
  injection Hrs as <-. inversion Hall as [| ? ? [Hc Hm] Hall']; subst.
  cbn [fst snd] in *.
  destruct (range_ack_dup now q i _ _ Hc Hm) as [p ->].
  change (NJT_OK =? NJT_OK) with true. cbn [negb].
  destruct (IH pos' (min - g - 2 - r) (set_path p q) rs' Hpb) as [p' ->];
    try assumption; [lia |].
  exists p'. reflexivity.
Qed.

(** The scan does nothing to a context whose head is settled. *)
Lemma detect_lost_turn_settled now thr (a : lost_scan_t Tree Path) i :
  settled now thr (ctx_of (s_qc a) i) ->
  detect_lost_turn find now thr a i = a.
Proof.
  unfold settled, detect_lost_turn.
  destruct (Z.eqb_spec (largest_ack (ctx_of (s_qc a) i)) NJT_QUIC_UNSET_PN)
    as [He | He]; [reflexivity |].
  intros [H | H]; [contradiction |].
  destruct (sent (ctx_of (s_qc a) i)) as [| start rest] eqn:Hs;
    [reflexivity |].
  cbn [List.length detect_lost_ctx]. rewrite Hs, H. reflexivity.
Qed.

Lemma lost_scan_settled now q :
  (forall j, settled now (njt_quic_lost_threshold q) (ctx_of q j)) ->
  lost_scan find now q
  = mkScan q NJT_TIMER_INFINITE NJT_TIMER_INFINITE 0.
Proof.
  intros H. unfold lost_scan. cbn [fold_left].
  rewrite (detect_lost_turn_settled now _ _ Ix0) by apply H.
  rewrite (detect_lost_turn_settled now _ _ Ix1) by apply H.
  rewrite (detect_lost_turn_settled now _ _ Ix2) by apply H.
  reflexivity.
Qed.

Lemma lost_keep_incl now thr la fuel : forall (l : list njt_quic_frame_t) f,
  In f (lost_keep fuel now thr la l) -> In f l.
Proof.
  induction fuel as [| fuel IH]; intros l f; cbn [lost_keep]; [tauto |].
  destruct l as [| start rest]; [tauto |].
  destruct (head_lost now thr la start); [| tauto].
  intros H. right. apply IH in H. now apply skip_packet_incl in H.
Qed.

Lemma scan_keep_incl now thr la (l : list njt_quic_frame_t) f :
  In f (scan_keep now thr la l) -> In f l.
Proof.
  unfold scan_keep. destruct (_ =? _); [tauto | apply lost_keep_incl].
Qed.

Lemma scan_keep_settled now thr la (l : list njt_quic_frame_t) c :
  largest_ack c = la -> sent c = scan_keep now thr la l ->
  settled now thr c.
Proof.
  unfold settled, scan_keep. intros Hl Hs. rewrite Hl, Hs.
  destruct (Z.eqb_spec la NJT_QUIC_UNSET_PN); [now left | right].
  apply lost_keep_settles. apply Nat.le_refl.
Qed.

End AckAgain.

Section AckIdempotent.
Context {Tree Path Buf : Type}.
Variable mtu : Path -> Z -> Z -> Z * Path.
Variable sack : njt_quic_streams_t Tree -> njt_quic_frame_t
                -> njt_quic_streams_t Tree.
Variable find : Tree -> Z -> option njt_quic_stream_t.
Variable parse : Buf -> option (Z * Z * Buf).
Implicit Types (qc q qd : njt_quic_connection_t Tree Path)
               (f : njt_quic_frame_t).

Lemma set_lost_timer_event now q :
  njt_quic_set_lost_timer now q = set_pto (lost_timer_event now q) q.
Proof.
  unfold njt_quic_set_lost_timer, lost_timer_event.
  destruct (fold_left _ _ _) as [lost pto_w].
  destruct (timer_set (pto q)); destruct (lost =? -1);
    destruct (pto_w =? -1); cbn [negb]; try reflexivity.
  symmetry. apply set_pto_self.
Qed.

Lemma lost_timer_event_idem now q :
  lost_timer_event now (set_pto (lost_timer_event now q) q)
  = lost_timer_event now q.
Proof.
  unfold lost_timer_event.
  change (fold_left (lost_timer_ctx now (set_pto ?e q)) ?l ?a)
    with (fold_left (lost_timer_ctx now q) l a).
  destruct (fold_left _ _ _) as [lost pto_w].
  destruct (timer_set (pto q)) eqn:Hts; destruct (lost =? -1);
    destruct (pto_w =? -1); cbn [negb pto set_pto]; cbn; try reflexivity.
  rewrite Hts. reflexivity.
Qed.

(** Setting the timer twice in the same millisecond is setting it once. *)
Lemma set_lost_timer_idem now q :
  njt_quic_set_lost_timer now (njt_quic_set_lost_timer now q)
  = njt_quic_set_lost_timer now q.
Proof.
  rewrite (set_lost_timer_event now q).
  rewrite (set_lost_timer_event now (set_pto _ q)).
  rewrite lost_timer_event_idem. reflexivity.
Qed.

Lemma set_lost_timer_set_path now p q :
  njt_quic_set_lost_timer now (set_path p q)
  = set_path p (njt_quic_set_lost_timer now q).
Proof.
  rewrite !set_lost_timer_event.
  change (lost_timer_event now (set_path p q)) with (lost_timer_event now q).
  reflexivity.
Qed.

(** What [njt_quic_detect_lost] leaves behind: every head is settled, the
    timer is the one of the state, and the queues have only lost frames. *)
Lemma detect_lost_settles now qd st :
  let q1 := snd (njt_quic_detect_lost find now qd st) in
  (forall j, settled now (njt_quic_lost_threshold q1) (ctx_of q1 j))
  /\ njt_quic_set_lost_timer now q1 = q1
  /\ (forall j f, In f (sent (ctx_of q1 j)) -> In f (sent (ctx_of qd j)))
  /\ (forall j, ctx_pnum (ctx_of q1 j) = ctx_pnum (ctx_of qd j)
                /\ largest_ack (ctx_of q1 j) = largest_ack (ctx_of qd j)).
Proof.
  cbv zeta.
  assert (Hsent : forall j,
            sent (ctx_of (snd (njt_quic_detect_lost find now qd st)) j)
            = scan_keep_ctx now qd j) by (intros j; apply detect_lost_sent).
  assert (Htimer : njt_quic_set_lost_timer now
                     (snd (njt_quic_detect_lost find now qd st))
                   = snd (njt_quic_detect_lost find now qd st)).
  { unfold njt_quic_detect_lost. cbn [snd]. apply set_lost_timer_idem. }
  destruct (detect_lost_conn_frame find now qd st) as (ev & cg & Hq1).
  pose proof (lost_scan_frame find now qd) as Hfr.
  set (q1 := snd (njt_quic_detect_lost find now qd st)) in *.
  assert (Hctx : forall j, ctx_pnum (ctx_of q1 j) = ctx_pnum (ctx_of qd j)
                           /\ largest_ack (ctx_of q1 j)
                              = largest_ack (ctx_of qd j)).
  { intros j. rewrite Hq1.
    change (ctx_of (set_pto ev (set_congestion cg
                                  (s_qc (lost_scan find now qd)))) j)
      with (ctx_of (s_qc (lost_scan find now qd)) j).
    destruct (conn_frame_sent _ _ j Hfr) as (_ & -> & -> & _).
    unfold scanned. destruct j; split; reflexivity. }
  assert (Hthr : njt_quic_lost_threshold q1 = njt_quic_lost_threshold qd).
  { unfold njt_quic_lost_threshold. rewrite Hq1.
    change (rtt (set_pto ev (set_congestion cg
                               (s_qc (lost_scan find now qd)))))
      with (rtt (s_qc (lost_scan find now qd))).
    destruct (conn_frame_rtt _ _ Hfr) as (-> & _). reflexivity. }
  repeat split.
  - intros j. rewrite Hthr.
    apply (scan_keep_settled now _ (largest_ack (ctx_of qd j))
             (sent (ctx_of qd j))).
    + apply Hctx.
    + apply Hsent.
  - exact Htimer.
  - intros j f. rewrite Hsent. apply scan_keep_incl.
  - apply Hctx.
  - apply Hctx.
Qed.

(** C9 (amended).  Processing the same well-formed ACK frame twice in
    succession, in the same millisecond, is idempotent when the frame
    acknowledges only packet numbers that were sent
    ([largest < ctx->pnum]), [sent] is ordered by packet number and the
    path MTU hook succeeds: if the first call succeeds, the second call
    succeeds as a duplicate and leaves the connection as the first call
    left it (the send contexts with [largest_ack], the congestion state,
    the RTT estimators, the timer), the path apart, which the hook owns. *)
Theorem handle_ack_twice now qc lvl (ack : njt_quic_ack_frame_t Buf) qc1 :
  parse_bounded parse ->
  small (ack_largest ack) -> 0 <= ack_first_range ack ->
  pn_sorted (sent (ctx_of qc (njt_quic_get_send_ctx lvl))) ->
  ack_largest ack < ctx_pnum (ctx_of qc (njt_quic_get_send_ctx lvl)) ->
  (forall p a b, fst (mtu p a b) = NJT_OK) ->
  njt_quic_handle_ack_frame mtu sack find parse now qc lvl ack
  = (NJT_OK, qc1) ->
  exists qc2,
    njt_quic_handle_ack_frame mtu sack find parse now qc1 lvl ack
    = (NJT_OK, qc2)
    /\ qc2 = set_path (path qc2) qc1
    /\ send_ctx qc2 = send_ctx qc1
    /\ congestion qc2 = congestion qc1
    /\ rtt qc2 = rtt qc1.
Proof.
  unfold small. intros Hpb Hl Hf Hsorted Hsent Hmtu Hcall.
  unfold njt_quic_handle_ack_frame in Hcall |- *.
  set (i := njt_quic_get_send_ctx lvl) in *.
  destruct (Z.ltb_spec (ack_largest ack) (ack_first_range ack));
    [discriminate |].
  rewrite (wrap_small (ack_largest ack - ack_first_range ack)) in Hcall |- *
    by lia.
  set (min0 := ack_largest ack - ack_first_range ack) in *.
  set (max0 := ack_largest ack) in *.
  fold no_stat in Hcall |- *.
  assert (Hmin0 : u64 min0) by (unfold u64; subst min0 max0; lia).
  assert (Hmm : min0 <= max0) by (subst min0 max0; lia).
  (* the first call *)
  destruct (njt_quic_handle_ack_frame_range mtu sack now qc i min0 max0
              no_stat) as [[rc1 qa] sta] eqn:Hra.
  destruct (Z.eqb_spec rc1 NJT_OK) as [-> | Hne]; [| discriminate].
  cbn [negb] in Hcall.
  destruct (range_ack_ok_sent _ _ _ _ _ _ _ _ _ _ Hra) as (Hsa & Hpa & Hla).
  set (qb := if (largest_ack (ctx_of qa i) <? max0)
                || (largest_ack (ctx_of qa i) =? NJT_QUIC_UNSET_PN)
             then _ else qa) in Hcall.
  assert (Hqb : sent (ctx_of qb i) = sent (ctx_of qa i)
                /\ ctx_pnum (ctx_of qb i) = ctx_pnum (ctx_of qa i)
                /\ (largest_ack (ctx_of qb i) <? max0)
                   || (largest_ack (ctx_of qb i) =? NJT_QUIC_UNSET_PN)
                   = false).
  { subst qb.
    destruct ((largest_ack (ctx_of qa i) <? max0)
              || (largest_ack (ctx_of qa i) =? NJT_QUIC_UNSET_PN)) eqn:Hc;
      [| repeat split; exact Hc].
    assert (Hset : forall q',
              ctx_of q' i = set_largest_ack max0 (ctx_of qa i) ->
              sent (ctx_of q' i) = sent (ctx_of qa i)
              /\ ctx_pnum (ctx_of q' i) = ctx_pnum (ctx_of qa i)
              /\ (largest_ack (ctx_of q' i) <? max0)
                 || (largest_ack (ctx_of q' i) =? NJT_QUIC_UNSET_PN) = false).
    { intros q' ->.
      cbn [sent ctx_pnum largest_ack set_largest_ack].
      repeat split. unfold NJT_QUIC_UNSET_PN.
      destruct (Z.ltb_spec max0 max0); [lia |].
      destruct (Z.eqb_spec max0 (2 ^ 64 - 1)); [subst max0; lia | reflexivity]. }
    destruct (negb _); apply Hset.
    - rewrite rtt_sample_shape.
      change (ctx_of (set_rtt ?r ?q') i) with (ctx_of q' i).
      apply ctx_of_set_ctx_same.
    - apply ctx_of_set_ctx_same. }
  destruct Hqb as (Hsb & Hpb' & Hlb).
  destruct (ack_ranges_loop mtu sack parse _ now i (ack_data ack) min0 qb sta)
    as [[rc3 qd] std] eqn:Hloop.
  destruct (Z.eqb_spec rc3 NJT_OK) as [-> | Hne]; [| discriminate].
  destruct (ranges_loop_ok mtu sack parse _ _ _ _ _ _ _ _ _ Hpb Hmin0 Hloop)
    as (rs & Hrs & Hall & Hin & Hpd & Hld).
  { rewrite Hsb, Hsa. now apply ack_keep_sorted. }
  pose proof (detect_lost_settles now qd (Some std)) as Hdl.
  cbv zeta in Hdl.
  assert (Hq1 : snd (njt_quic_detect_lost find now qd (Some std)) = qc1).
  { rewrite Hcall. reflexivity. }
  rewrite Hq1 in Hdl. destruct Hdl as (Hsettled & Htimer & Hin1 & Hctx1).
  destruct (Hctx1 i) as [Hp1 Hl1].
  assert (Hsub : forall f, In f (sent (ctx_of qc1 i)) ->
                   In f (ack_keep min0 max0 (sent (ctx_of qc i)))).
  { intros f H1. rewrite <- Hsa, <- Hsb. apply Hin. now apply Hin1. }
  assert (Hpn : ctx_pnum (ctx_of qc1 i) = ctx_pnum (ctx_of qc i)) by congruence.
  (* the second call *)
  destruct (range_ack_dup mtu sack Hmtu now qc1 i min0 max0) as [p ->].
  { apply (clear_of_incl _ _ _ Hsub). now apply ack_keep_clear. }
  { rewrite Hpn. exact Hsent. }
  change (NJT_OK =? NJT_OK) with true. cbn [negb].
  change (ctx_of (set_path p qc1) i) with (ctx_of qc1 i).
  rewrite Hl1, Hld, Hlb.
  destruct (ranges_loop_dup mtu sack parse Hmtu now i _ (ack_data ack) min0
              (set_path p qc1) rs Hpb Hmin0 Hrs) as [p' ->].
  { change (ctx_of (set_path p qc1) i) with (ctx_of qc1 i).
    rewrite Forall_forall in Hall |- *. intros r Hr.
    destruct (Hall r Hr) as [Hc Hm]. split.
    - apply (clear_of_incl _ _ _ (Hin1 i)). exact Hc.
    - rewrite Hpn. lia. }
  change (NJT_OK =? NJT_OK) with true. cbv iota.
  change (set_path p' (set_path p qc1)) with (set_path p' qc1).
  unfold njt_quic_detect_lost.
  rewrite (lost_scan_settled find now (set_path p' qc1)) by exact Hsettled.
  cbn [pcg_established s_nlost s_qc].
  change (2 <=? 0) with false. cbn [andb].
  rewrite set_lost_timer_set_path, Htimer.
  exists (set_path p' qc1). repeat split.
Qed.

End AckIdempotent.

(** The hypotheses of [handle_ack_twice] hold of an ACK of packet 3 on the
    sample connection. *)
Lemma handle_ack_twice_witness :
  exists qc2,
    njt_quic_handle_ack_frame mtu_ok sack_id find_none parse_list 1100
      (snd (njt_quic_handle_ack_frame mtu_ok sack_id find_none parse_list
              1100 one_sent_conn ssl_encryption_initial exact_ack))
      ssl_encryption_initial exact_ack
    = (NJT_OK, qc2)
    /\ qc2 = set_path (path qc2)
               (snd (njt_quic_handle_ack_frame mtu_ok sack_id find_none
                       parse_list 1100 one_sent_conn ssl_encryption_initial
                       exact_ack))
    /\ send_ctx qc2
       = send_ctx (snd (njt_quic_handle_ack_frame mtu_ok sack_id find_none
                          parse_list 1100 one_sent_conn
                          ssl_encryption_initial exact_ack))
    /\ congestion qc2
       = congestion (snd (njt_quic_handle_ack_frame mtu_ok sack_id find_none
                            parse_list 1100 one_sent_conn
                            ssl_encryption_initial exact_ack))
    /\ rtt qc2
       = rtt (snd (njt_quic_handle_ack_frame mtu_ok sack_id find_none
                     parse_list 1100 one_sent_conn ssl_encryption_initial
                     exact_ack)).
Proof.
  apply (handle_ack_twice mtu_ok sack_id find_none parse_list 1100
           one_sent_conn ssl_encryption_initial exact_ack).
  - exact parse_list_bounded.
  - unfold small. cbn. lia.
  - cbn. lia.
  - cbn. split; [apply Forall_nil | exact I].
  - cbn. lia.
  - intros p a b. reflexivity.
  - reflexivity.
Defined.

(** C9, as stated, fails: an ACK of packets 3 to 10, of which only packet
    3 was sent, is accepted because packet 3 is in [sent]; fed again, none
    of its packets is in [sent] and its largest, 10, is not below the next
    packet number, 4: the second call fails with PROTOCOL_VIOLATION. *)
Lemma handle_ack_twice_beyond_sent :
  let r1 := njt_quic_handle_ack_frame mtu_ok sack_id find_none parse_list
              1100 one_sent_conn ssl_encryption_initial beyond_ack in
  let r2 := njt_quic_handle_ack_frame mtu_ok sack_id find_none parse_list
              1100 (snd r1) ssl_encryption_initial beyond_ack in
  fst r1 = NJT_OK
  /\ fst r2 = NJT_ERROR
  /\ error (qerr (snd r2)) = NJT_QUIC_ERR_PROTOCOL_VIOLATION.
Proof. cbv zeta. repeat split. Qed.

(** ** The scenarios of the specification *)

(** Scenario 1: packets 0 to 4 are acknowledged 50 ms after they were
    sent; [sent] is empty, the first sample is 50 ms, nothing is in flight
    and the window has grown by five packets in slow start. *)
Example scenario_all_acked :
  let r := njt_quic_handle_ack_frame mtu_ok sack_id find_none parse_list 60
             (scenario_conn [pkt 0; pkt 1; pkt 2; pkt 3; pkt 4])
             ssl_encryption_initial (mkAck 4 0 0 4 []) in
  fst r = NJT_OK
  /\ sent (ctx_of (snd r) Ix0) = []
  /\ latest_rtt (rtt (snd r)) = 50
  /\ avg_rtt (rtt (snd r)) = 50
  /\ rttvar (rtt (snd r)) = 25
  /\ in_flight (congestion (snd r)) = 0
  /\ window (congestion (snd r)) = 12000 + 5 * 1200.
Proof. cbv zeta. repeat split. Qed.

(** Scenario 3: of packets 0 to 9 only 7 to 9 are acknowledged; packets 0
    to 6 are at least three below the largest acknowledged and are lost at
    once, the window is halved once and the threshold follows it. *)
Example scenario_packet_threshold :
  let r := njt_quic_handle_ack_frame mtu_ok sack_id find_none parse_list 60
             (scenario_conn [pkt 0; pkt 1; pkt 2; pkt 3; pkt 4;
                             pkt 5; pkt 6; pkt 7; pkt 8; pkt 9])
             ssl_encryption_initial (mkAck 9 0 0 2 []) in
  fst r = NJT_OK
  /\ sent (ctx_of (snd r) Ix0) = []
  /\ List.length (frames (ctx_of (snd r) Ix0)) = 7%nat
  /\ in_flight (congestion (snd r)) = 0
  /\ window (congestion (snd r)) = (12000 + 3 * 1200) / 2
  /\ ssthresh (congestion (snd r)) = window (congestion (snd r)).
Proof. cbv zeta. repeat split. Qed.

(** * Further properties of the code *)

(** ** The timer *)

Section TimerArmed.
Context {Tree Path : Type}.
Variable find : Tree -> Z -> option njt_quic_stream_t.
Implicit Types (qc q : njt_quic_connection_t Tree Path).

Lemma msec_int_range x : - 2 ^ 63 <= msec_int x < 2 ^ 63.
Proof.
  unfold msec_int. pose proof (wrap_range x).
  destruct (Z.ltb_spec (wrap x) (2 ^ 63)); lia.
Qed.

(** One context of the loop: either value stays unset exactly when the
    context gives no reason to set it, and a value that is set is a
    delay that is not negative. *)
Lemma lost_timer_ctx_step now qc l p i :
  (l = -1 \/ 0 <= l < 2 ^ 63) -> (p = -1 \/ 0 <= p < 2 ^ 63) ->
  let r := lost_timer_ctx now qc (l, p) i in
  (fst r = -1 \/ 0 <= fst r < 2 ^ 63)
  /\ (snd r = -1 \/ 0 <= snd r < 2 ^ 63)
  /\ (fst r = -1 <-> l = -1 /\ ~ loss_pending qc i)
  /\ (snd r = -1 <-> p = -1 /\ sent (ctx_of qc i) = []).
Proof.
  intros Hl Hp. cbv zeta. unfold lost_timer_ctx, loss_pending.
  destruct (sent (ctx_of qc i)) as [| f rest] eqn:Hs; cbn [fst snd].
  { repeat split; auto; tauto. }
  set (w0 := msec_int (wrap (send_time f + njt_quic_lost_threshold qc) - now)).
  set (w1 := pto_wait now qc i (last (f :: rest) f)).
  pose proof (msec_int_range
                (wrap (send_time f + njt_quic_lost_threshold qc) - now)) as H0.
  assert (H1 : - 2 ^ 63 <= w1 < 2 ^ 63) by apply msec_int_range.
  fold w0 in H0.
  split; [| split; [| split]].
  - destruct (Z.eqb_spec (largest_ack (ctx_of qc i)) NJT_QUIC_UNSET_PN);
      cbn [negb]; [exact Hl |].
    destruct (Z.leb_spec (pnum f) (largest_ack (ctx_of qc i))); [| exact Hl].
    destruct (Z.ltb_spec w0 0); destruct (_ <=? _); cbn [orb];
      destruct (Z.eqb_spec l (-1)); cbn [orb];
      try destruct (Z.ltb_spec 0 l); try destruct (Z.ltb_spec w0 l); lia.
  - destruct (Z.ltb_spec w1 0); destruct (Z.eqb_spec p (-1)); cbn [orb];
      try destruct (Z.ltb_spec 0 p); try destruct (Z.ltb_spec w1 p); lia.
  - destruct (Z.eqb_spec (largest_ack (ctx_of qc i)) NJT_QUIC_UNSET_PN);
      cbn [negb]; [tauto |].
    destruct (Z.leb_spec (pnum f) (largest_ack (ctx_of qc i))); [| split; [intros; split; [assumption | lia] | tauto]].
    destruct (Z.ltb_spec w0 0); destruct (_ <=? _); cbn [orb];
      destruct (Z.eqb_spec l (-1)); cbn [orb];
      try destruct (Z.ltb_spec 0 l); try destruct (Z.ltb_spec w0 l);
      split; intros; try lia; tauto.
  - destruct (Z.ltb_spec w1 0); destruct (Z.eqb_spec p (-1)); cbn [orb];
      try destruct (Z.ltb_spec 0 p); try destruct (Z.ltb_spec w1 p);
      split; intros [? ?] || intros ?; try lia; try discriminate.
Qed.

Lemma lost_timer_fold now qc :
  let r := fold_left (lost_timer_ctx now qc) [Ix0; Ix1; Ix2] (-1, -1) in
  (fst r = -1 \/ 0 <= fst r < 2 ^ 63)
  /\ (snd r = -1 \/ 0 <= snd r < 2 ^ 63)
  /\ (fst r = -1 <-> forall i, ~ loss_pending qc i)
  /\ (snd r = -1 <-> forall i, sent (ctx_of qc i) = []).
Proof.
  cbv zeta. cbn [fold_left].
  pose proof (lost_timer_ctx_step now qc (-1) (-1) Ix0) as H0.
  cbv zeta in H0.
  destruct (lost_timer_ctx now qc (-1, -1) Ix0) as [l0 p0].
  destruct H0 as (A0 & B0 & C0 & D0); [now left | now left |].
  pose proof (lost_timer_ctx_step now qc l0 p0 Ix1 A0 B0) as H1.
  cbv zeta in H1.
  destruct (lost_timer_ctx now qc (l0, p0) Ix1) as [l1 p1].
  destruct H1 as (A1 & B1 & C1 & D1).
  pose proof (lost_timer_ctx_step now qc l1 p1 Ix2 A1 B1) as H2.
  cbv zeta in H2.
  destruct (lost_timer_ctx now qc (l1, p1) Ix2) as [l2 p2].
  destruct H2 as (A2 & B2 & C2 & D2). cbn [fst snd] in *.
  split; [exact A2 |]. split; [exact B2 |]. split.
  - rewrite C2, C1, C0. split.
    + intros H i. destruct i; tauto.
    + intros H. repeat split; auto.
  - rewrite D2, D1, D0. split.
    + intros H i. destruct i; tauto.
    + intros H. repeat split; auto.
Qed.

(** X1. [njt_quic_set_lost_timer] leaves the timer armed exactly when a
    packet is in flight in some context; the handler is the loss handler
    when a packet in flight is numbered up to the largest acknowledged
    number of its context and the PTO handler otherwise; an armed timer
    is set less than 2^63 ms ahead of [now]; with nothing in flight the
    handler and the key of the timer are left as they were. *)
Theorem set_lost_timer_armed now qc :
  let ev := pto (njt_quic_set_lost_timer now qc) in
  (timer_set ev = true <-> exists i, sent (ctx_of qc i) <> [])
  /\ ((exists i, loss_pending qc i) -> handler ev = h_lost)
  /\ ((exists i, sent (ctx_of qc i) <> []) ->
      (forall i, ~ loss_pending qc i) -> handler ev = h_pto)
  /\ (timer_set ev = true ->
      exists w, 0 <= w < 2 ^ 63 /\ timer_key ev = wrap (now + w))
  /\ ((forall i, sent (ctx_of qc i) = []) ->
      handler ev = handler (pto qc) /\ timer_key ev = timer_key (pto qc)).
Proof.
  cbv zeta. rewrite set_lost_timer_event. cbn [pto set_pto].
  unfold lost_timer_event.
  pose proof (lost_timer_fold now qc) as H. cbv zeta in H.
  destruct (fold_left (lost_timer_ctx now qc) [Ix0; Ix1; Ix2] (-1, -1))
    as [lost pto_w].
  cbn [fst snd] in H. destruct H as (A & B & C & D).
  assert (Hin : (exists i, sent (ctx_of qc i) <> []) <-> pto_w <> -1).
  { rewrite D. split.
    - intros [i Hi] H. apply Hi, H.
    - intros H.
      destruct (sent (ctx_of qc Ix0)) eqn:E0; [| exists Ix0; congruence].
      destruct (sent (ctx_of qc Ix1)) eqn:E1; [| exists Ix1; congruence].
      destruct (sent (ctx_of qc Ix2)) eqn:E2; [| exists Ix2; congruence].
      exfalso. apply H. intros i. destruct i; assumption. }
  assert (Hlp : lost <> -1 -> pto_w <> -1).
  { intros Hl Hp. apply Hl, C. intros i Hi. rewrite D in Hp.
    unfold loss_pending in Hi. now rewrite (Hp i) in Hi. }
  assert (Hpend : (exists i, loss_pending qc i) -> lost <> -1).
  { intros [i Hi] Hl. rewrite C in Hl. apply (Hl i Hi). }
  set (ev0 := if timer_set (pto qc) then njt_del_timer (pto qc) else pto qc).
  assert (Hev0 : timer_set ev0 = false /\ handler ev0 = handler (pto qc)
                 /\ timer_key ev0 = timer_key (pto qc)).
  { subst ev0. destruct (timer_set (pto qc)) eqn:E; repeat split; exact E. }
  destruct Hev0 as (T0 & H0 & K0).
  destruct (Z.eqb_spec lost (-1)) as [El | El]; cbn [negb];
    [destruct (Z.eqb_spec pto_w (-1)) as [Ep | Ep]; cbn [negb] |].
  - (* nothing in flight *)
    split; [split |]; [| | split; [| split; [| split]]].
    + intros H. rewrite T0 in H. discriminate.
    + intros H. apply Hin in H. contradiction.
    + intros H. apply Hpend in H. contradiction.
    + intros H. apply Hin in H. contradiction.
    + intros H. rewrite T0 in H. discriminate.
    + intros _. split; assumption.
  - (* probe timeout *)
    cbn [timer_set handler timer_key njt_add_timer set_handler].
    split; [split |]; [| | split; [| split; [| split]]].
    + intros _. now apply Hin.
    + reflexivity.
    + intros H. apply Hpend in H. contradiction.
    + reflexivity.
    + intros _. exists pto_w. split; [lia | reflexivity].
    + intros H. exfalso. apply Ep, D, H.
  - (* loss detection *)
    cbn [timer_set handler timer_key njt_add_timer set_handler].
    split; [split |]; [| | split; [| split; [| split]]].
    + intros _. apply Hin. now apply Hlp.
    + reflexivity.
    + reflexivity.
    + intros _ H. exfalso. apply El, C, H.
    + intros _. exists lost. split; [lia | reflexivity].
    + intros H. exfalso. apply (Hlp El), D, H.
Qed.

End TimerArmed.

(** ** Loss detection run again *)

Section LossAgain.
Context {Tree Path : Type}.
Variable find : Tree -> Z -> option njt_quic_stream_t.
Implicit Types (qc q : njt_quic_connection_t Tree Path).

(** X2. A second run of [njt_quic_detect_lost] in the same millisecond
    finds nothing to do, whatever statistics it is given: it returns
    [NJT_OK] and the connection as the first run left it. *)
Theorem detect_lost_again now qc st st' :
  njt_quic_detect_lost find now (snd (njt_quic_detect_lost find now qc st)) st'
  = (NJT_OK, snd (njt_quic_detect_lost find now qc st)).
Proof.
  destruct (detect_lost_settles find now qc st) as (Hset & Htimer & _).
  set (q1 := snd (njt_quic_detect_lost find now qc st)) in *.
  unfold njt_quic_detect_lost at 1.
  rewrite (lost_scan_settled find now q1 Hset).
  assert (Hp : pcg_established st'
                 (mkScan q1 NJT_TIMER_INFINITE NJT_TIMER_INFINITE 0) = false).
  { destruct st' as [s |]; [| reflexivity].
    unfold pcg_established. cbn [s_nlost].
    change (2 <=? 0) with false. reflexivity. }
  rewrite Hp. cbn [s_qc]. rewrite Htimer. reflexivity.
Qed.

(** At a settled head the loss timer of the context, if any, lies in the
    future. *)
Lemma lost_timer_ctx_settled now qc l p i :
  settled now (njt_quic_lost_threshold qc) (ctx_of qc i) ->
  (l = -1 \/ 0 < l < 2 ^ 63) ->
  let r := lost_timer_ctx now qc (l, p) i in
  fst r = -1 \/ 0 < fst r < 2 ^ 63.
Proof.
  intros Hs Hl. cbv zeta. unfold lost_timer_ctx.
  destruct (sent (ctx_of qc i)) as [| f rest] eqn:Hq; [exact Hl |].
  cbn [fst].
  destruct (Z.eqb_spec (largest_ack (ctx_of qc i)) NJT_QUIC_UNSET_PN)
    as [He | He]; cbn [negb]; [exact Hl |].
  destruct Hs as [Hs | Hs]; [contradiction |]. rewrite Hq in Hs.
  unfold head_lost in Hs.
  destruct (Z.leb_spec (pnum f) (largest_ack (ctx_of qc i))) as [Hle | Hgt];
    [| exact Hl].
  destruct (Z.ltb_spec (largest_ack (ctx_of qc i)) (pnum f)); [lia |].
  rewrite msec_int_wrap in Hs.
  set (w := msec_int (wrap (send_time f + njt_quic_lost_threshold qc) - now))
    in *.
  pose proof (msec_int_range
                (wrap (send_time f + njt_quic_lost_threshold qc) - now)) as Hr.
  fold w in Hr.
  destruct (Z.ltb_spec 0 w); cbn [andb] in Hs; [| discriminate].
  unfold NJT_QUIC_PKT_THR in *.
  destruct (Z.ltb_spec (wrap (largest_ack (ctx_of qc i) - pnum f)) 3);
    [| discriminate].
  destruct (Z.ltb_spec w 0); [lia |].
  destruct (Z.leb_spec 3 (wrap (largest_ack (ctx_of qc i) - pnum f)));
    [lia |].
  cbn [orb].
  destruct (Z.eqb_spec l (-1)); cbn [orb]; [right; lia |].
  destruct (Z.ltb_spec w l); right; lia.
Qed.

(** X3. After a run of [njt_quic_detect_lost] the timer, when it is armed
    for loss detection, expires in the future: the detector does not
    re-arm itself for the current millisecond. *)
Theorem detect_lost_timer_ahead now qc st :
  let ev := pto (snd (njt_quic_detect_lost find now qc st)) in
  timer_set ev = true -> handler ev = h_lost ->
  exists w, 0 < w < 2 ^ 63 /\ timer_key ev = wrap (now + w).
Proof.
  cbv zeta.
  destruct (detect_lost_settles find now qc st) as (Hset & Htimer & _).
  set (q1 := snd (njt_quic_detect_lost find now qc st)) in *.
  assert (Hev : pto q1 = lost_timer_event now q1).
  { rewrite <- Htimer at 1. rewrite set_lost_timer_event. reflexivity. }
  assert (Hfold : let r := fold_left (lost_timer_ctx now q1) [Ix0; Ix1; Ix2]
                             (-1, -1) in
                  fst r = -1 \/ 0 < fst r < 2 ^ 63).
  { cbv zeta. cbn [fold_left].
    pose proof (lost_timer_ctx_settled now q1 (-1) (-1) Ix0 (Hset Ix0)) as H0.
    cbv zeta in H0.
    destruct (lost_timer_ctx now q1 (-1, -1) Ix0) as [l0 p0].
    cbn [fst] in H0. specialize (H0 (or_introl eq_refl)).
    pose proof (lost_timer_ctx_settled now q1 l0 p0 Ix1 (Hset Ix1) H0) as H1.
    cbv zeta in H1.
    destruct (lost_timer_ctx now q1 (l0, p0) Ix1) as [l1 p1].
    cbn [fst] in H1.
    apply (lost_timer_ctx_settled now q1 l1 p1 Ix2 (Hset Ix2) H1). }
  cbv zeta in Hfold. revert Hev. unfold lost_timer_event.
  destruct (fold_left (lost_timer_ctx now q1) [Ix0; Ix1; Ix2] (-1, -1))
    as [lost pto_w].
  cbn [fst] in Hfold.
  destruct (Z.eqb_spec lost (-1)) as [El | El]; cbn [negb].
  - destruct (pto_w =? -1); cbn [negb].
    + intros Hev Hts _. exfalso.
      destruct (timer_set (pto q1)) eqn:E.
      * rewrite Hev in E. discriminate.
      * congruence.
    + intros -> _ H. discriminate.
  - intros -> _ _. exists lost. split; [lia | reflexivity].
Qed.

End LossAgain.

(** ** The window under acknowledgments and losses *)

Section Window.
Context {Tree Path : Type}.
Variable find : Tree -> Z -> option njt_quic_stream_t.
Implicit Types (qc q : njt_quic_connection_t Tree Path) (f : njt_quic_frame_t)
               (a : lost_scan_t Tree Path).

(** X4. [njt_quic_congestion_ack] never lowers the congestion window and
    never raises it by more than the bytes acknowledged; it leaves
    [ssthresh] alone; it writes [in_flight] only, for a frame that does
    not count or was sent before the start of recovery; in slow start
    the window grows by the length of the frame. *)
Theorem congestion_ack_grows now qc f :
  let cg := congestion qc in
  let cg' := congestion (njt_quic_congestion_ack now qc f) in
  let mups := tp_max_udp_payload_size (params qc) in
  small (send_time f) -> small (recovery_start cg) ->
  0 <= plen f -> 0 < mups -> 2 * mups <= window cg ->
  window cg + plen f < 2 ^ 64 -> mups * plen f < 2 ^ 64 ->
  window cg <= window cg' <= window cg + plen f
  /\ ssthresh cg' = ssthresh cg
  /\ (plen f = 0 \/ pnum f < rst_pnum (params qc)
      \/ send_time f <= recovery_start cg -> cg' = set_in_flight (in_flight cg') cg)
  /\ (plen f <> 0 -> rst_pnum (params qc) <= pnum f ->
      recovery_start cg < send_time f -> window cg < ssthresh cg ->
      window cg' = window cg + plen f).
Proof.
  cbv zeta. unfold small. intros Ht Hr Hp Hm Hw Hwp Hmp.
  unfold njt_quic_congestion_ack.
  assert (Hself : congestion qc
                  = set_in_flight (in_flight (congestion qc)) (congestion qc)).
  { destruct (congestion qc); reflexivity. }
  destruct (Z.eqb_spec (plen f) 0) as [H0 | H0].
  { repeat split; intros; try lia; try exact Hself. }
  destruct (Z.ltb_spec (pnum f) (rst_pnum (params qc))) as [Hn | Hn].
  { repeat split; intros; try lia; try exact Hself. }
  cbv zeta. cbn [recovery_start set_in_flight].
  rewrite recovery_test by (unfold small; assumption).
  destruct (Z.leb_spec (send_time f) (recovery_start (congestion qc)))
    as [Hs | Hs]; rewrite congestion_done_congestion;
    cbn [congestion set_congestion].
  { cbn [window ssthresh in_flight set_in_flight].
    repeat split; intros; try lia. }
  cbn [window ssthresh recovery_start in_flight set_in_flight].
  set (w := window (congestion qc)) in *.
  assert (Hdiv : 0 <= tp_max_udp_payload_size (params qc) * plen f / w
                 <= plen f).
  { split; [apply Z.div_pos; nia |].
    apply Z.div_le_upper_bound; nia. }
  rewrite (wrap_small (tp_max_udp_payload_size (params qc) * plen f)) by nia.
  rewrite !(wrap_small (w + _)) by lia.
  destruct (Z.ltb_spec w (ssthresh (congestion qc)));
    destruct (msec_int _ <? 0);
    cbn [window ssthresh set_window set_recovery_start set_in_flight];
    repeat split; intros; try lia.
Qed.

(** A lost frame sent by [now] moves the congestion state from the first
    shape to one of the two, and leaves the second shape alone. *)
Lemma congestion_lost_window now cg0 qc f :
  small now -> small (recovery_start cg0) ->
  0 <= tp_max_udp_payload_size (params qc) < 2 ^ 63 ->
  sent_by now f ->
  scan_window now cg0 (2 * tp_max_udp_payload_size (params qc)) (congestion qc) ->
  scan_window now cg0 (2 * tp_max_udp_payload_size (params qc))
              (congestion (fst (njt_quic_congestion_lost now qc f))).
Proof.
  intros Hnow Hr0 Hm [Hf Hle] Hsw. unfold njt_quic_congestion_lost.
  destruct (plen f =? 0); [exact Hsw |].
  destruct (pnum f <? rst_pnum (params qc)); [exact Hsw |].
  cbv zeta. cbn [recovery_start set_in_flight].
  assert (Hr : small (recovery_start (congestion qc))).
  { destruct Hsw as [(_ & _ & ->) | (_ & _ & ->)]; assumption. }
  rewrite recovery_test by assumption.
  destruct (Z.leb_spec (send_time f) (recovery_start (congestion qc)))
    as [Hs | Hs]; cbn [fst]; rewrite congestion_done_congestion;
    cbn [congestion set_congestion].
  { unfold scan_window in *.
    cbn [window ssthresh recovery_start set_in_flight]. exact Hsw. }
  destruct Hsw as [(Hw & Ht & Hrs) | (Hw & Ht & Hrs)]; [| lia].
  right. rewrite (Z.mul_comm (tp_max_udp_payload_size (params qc)) 2).
  rewrite (wrap_small (2 * tp_max_udp_payload_size (params qc))) by lia.
  cbn [window ssthresh recovery_start set_in_flight set_window
       set_recovery_start].
  rewrite Hw.
  destruct (Z.ltb_spec (window cg0 / 2)
              (2 * tp_max_udp_payload_size (params qc)));
    cbn [window ssthresh recovery_start set_window]; repeat split; lia.
Qed.

(** What a turn of the loss scan keeps: the send times of what is left
    in [sent], the parameters, and the shape of the congestion state. *)
Lemma scan_window_step now cg0 (p : params_t) i a start rest :
  small now -> small (recovery_start cg0) ->
  0 <= tp_max_udp_payload_size p < 2 ^ 63 ->
  (all_sent (sent_by now) (s_qc a) /\ params (s_qc a) = p
   /\ scan_window now cg0 (2 * tp_max_udp_payload_size p)
                  (congestion (s_qc a))) ->
  sent (ctx_of (s_qc a) i) = start :: rest ->
  let a' := mkScan (njt_quic_resend_frames find now (s_qc (count_lost start a)) i)
                   (s_oldest (count_lost start a))
                   (s_newest (count_lost start a))
                   (s_nlost (count_lost start a)) in
  all_sent (sent_by now) (s_qc a') /\ params (s_qc a') = p
  /\ scan_window now cg0 (2 * tp_max_udp_payload_size p) (congestion (s_qc a')).
Proof.
  intros Hnow Hr0 Hm (Hall & Hp & Hsw) Hs. cbv zeta. cbn [s_qc].
  rewrite count_lost_qc.
  pose proof (resend_frames_frame find now (s_qc a) i start rest Hs) as Hr.
  split; [| split].
  - intros j. destruct (conn_frame_sent _ _ j Hr) as (-> & _).
    specialize (Hall j). destruct (ctx_ix_eqb i j) eqn:Hij.
    + apply ctx_ix_eqb_eq in Hij. subst j. rewrite sent_with_sent.
      rewrite Hs in Hall. rewrite Forall_forall in Hall |- *.
      intros f Hf. apply Hall. right. now apply skip_packet_incl in Hf.
    + rewrite with_sent_other; [exact Hall |].
      intros E. rewrite E in Hij. destruct j; discriminate.
  - destruct (conn_frame_rtt _ _ Hr) as (_ & -> & _).
    rewrite <- Hp. destruct i; reflexivity.
  - rewrite (resend_frames_congestion find now (s_qc a) i start rest Hs).
    subst p. apply congestion_lost_window; try assumption.
    specialize (Hall i). rewrite Hs in Hall. now inversion Hall.
Qed.

(** X5. One run of [njt_quic_detect_lost] lowers the window at most as
    one congestion event, however many packets it declares lost: the
    congestion state is as it was, or reduced once with recovery started
    at [now], or collapsed to the minimum window by persistent
    congestion. *)
Theorem detect_lost_one_reduction now qc st :
  let cg := congestion qc in
  let cg' := congestion (snd (njt_quic_detect_lost find now qc st)) in
  let m := 2 * tp_max_udp_payload_size (params qc) in
  small now -> small (recovery_start cg) ->
  0 <= tp_max_udp_payload_size (params qc) < 2 ^ 63 ->
  all_sent (sent_by now) qc ->
  scan_window now cg m cg'
  \/ (window cg' = m /\ recovery_start cg' = now
      /\ (ssthresh cg' = ssthresh cg
          \/ ssthresh cg' = Z.max (window cg / 2) m)).
Proof.
  cbv zeta. intros Hnow Hr0 Hm Hall.
  set (p := params qc). set (cg0 := congestion qc).
  set (P := fun a : lost_scan_t Tree Path =>
              all_sent (sent_by now) (s_qc a) /\ params (s_qc a) = p
              /\ scan_window now cg0 (2 * tp_max_udp_payload_size p)
                             (congestion (s_qc a))).
  assert (Hturn : forall a i thr, P a -> P (detect_lost_turn find now thr a i)).
  { intros a i thr Ha. unfold detect_lost_turn.
    destruct (_ =? _); [exact Ha |].
    apply (detect_lost_ctx_inv find P); [| exact Ha].
    intros a' start rest Ha' Hs.
    apply (scan_window_step now cg0 p i a' start rest); assumption. }
  assert (Hscan : P (lost_scan find now qc)).
  { unfold lost_scan. cbn [fold_left]. repeat apply Hturn.
    split; [exact Hall |]. split; [reflexivity |]. left. repeat split. }
  destruct Hscan as (_ & Hp & Hsw).
  unfold njt_quic_detect_lost. cbn [snd].
  rewrite set_lost_timer_congestion.
  destruct (pcg_established st (lost_scan find now qc)); [| left; exact Hsw].
  right. unfold njt_quic_persistent_congestion.
  cbn [congestion set_congestion window ssthresh recovery_start set_window
       set_recovery_start].
  rewrite Hp. subst p.
  rewrite (Z.mul_comm (tp_max_udp_payload_size (params qc)) 2).
  rewrite wrap_small by lia.
  split; [reflexivity |]. split; [reflexivity |].
  destruct Hsw as [(_ & -> & _) | (Hw & -> & _)]; [now left | right].
  exact Hw.
Qed.

End Window.

(** Sample run: packets 5 and 6 are lost by the packet threshold, packet
    8 stays in flight and the loss timer is armed for it. *)
Lemma detect_lost_timer_ahead_witness :
  exists w,
    0 < w < 2 ^ 63
    /\ timer_key (pto (snd (njt_quic_detect_lost find_none 1050 gap_conn None)))
       = wrap (1050 + w).
Proof.
  apply (detect_lost_timer_ahead find_none 1050 gap_conn None);
    vm_compute; reflexivity.
Defined.

Lemma congestion_ack_grows_witness :
  12000 <= window (congestion (njt_quic_congestion_ack 1100 gap_conn
                                 (mkFrame ssl_encryption_initial (FT_OTHER 6)
                                          5 1000 1200 false)))
        <= 13200.
Proof.
  pose proof (congestion_ack_grows 1100 gap_conn
                (mkFrame ssl_encryption_initial (FT_OTHER 6) 5 1000 1200 false))
    as H.
  cbv zeta in H.
  destruct H as [H _]; [unfold small; cbn; lia ..|].
  exact H.
Defined.

Lemma gap_conn_sent_by : all_sent (sent_by 1050) gap_conn.
Proof.
  intros j. destruct j; cbn;
    repeat (apply Forall_cons; [unfold sent_by, small; cbn; lia |]);
    apply Forall_nil.
Qed.

Lemma detect_lost_one_reduction_witness :
  scan_window 1050 (congestion gap_conn) 2400
    (congestion (snd (njt_quic_detect_lost find_none 1050 gap_conn None)))
  \/ (window (congestion (snd (njt_quic_detect_lost find_none 1050 gap_conn
                                 None))) = 2400
      /\ recovery_start (congestion (snd (njt_quic_detect_lost find_none 1050
                                            gap_conn None))) = 1050
      /\ (ssthresh (congestion (snd (njt_quic_detect_lost find_none 1050
                                       gap_conn None)))
          = ssthresh (congestion gap_conn)
          \/ ssthresh (congestion (snd (njt_quic_detect_lost find_none 1050
                                          gap_conn None)))
             = Z.max (window (congestion gap_conn) / 2) 2400)).
Proof.
  apply (detect_lost_one_reduction find_none 1050 gap_conn None).
  - unfold small. lia.
  - unfold small. cbn. lia.
  - cbn. lia.
  - exact gap_conn_sent_by.
Defined.

(** ** The estimators *)

Section RttWithin.
Context {Tree Path : Type}.
Implicit Types (qc : njt_quic_connection_t Tree Path).

(** X6. [njt_quic_rtt_sample] keeps the estimators within the range of
    the samples: with samples between 0 and [bound] the latest, the
    minimum and the smoothed round-trip time and the variance stay
    between 0 and [bound], the latest is the sample, the minimum never
    grows, and the smoothed value moves between its old value and the
    bounds of the sample. *)
Theorem rtt_sample_within now qc delay t0 bound :
  0 <= now - t0 <= bound -> bound < 2 ^ 62 ->
  0 <= ctp_max_ack_delay (params qc) ->
  min_rtt (rtt qc) = NJT_TIMER_INFINITE \/ rtt_within bound (rtt qc) ->
  let r' := rtt (njt_quic_rtt_sample now qc delay t0) in
  rtt_within bound r'
  /\ latest_rtt r' = now - t0
  /\ (min_rtt (rtt qc) <> NJT_TIMER_INFINITE ->
      min_rtt r' <= min_rtt (rtt qc)
      /\ Z.min (avg_rtt (rtt qc)) (min_rtt r') <= avg_rtt r'
         <= Z.max (avg_rtt (rtt qc)) (latest_rtt r')).
Proof.
  intros Hl Hb Hd Hr. cbv zeta. unfold njt_quic_rtt_sample. cbv zeta.
  rewrite (wrap_small (now - t0)) by lia.
  set (L := now - t0) in *.
  destruct (Z.eqb_spec (min_rtt (rtt qc)) NJT_TIMER_INFINITE) as [Hi | Hi].
  { cbn [rtt set_rtt]. unfold rtt_within.
    cbn [latest_rtt min_rtt avg_rtt rttvar].
    assert (0 <= L / 2 <= L) by (split; [apply Z.div_pos | apply Z.div_le_upper_bound]; lia).
    repeat split; try lia. }
  destruct Hr as [Hr | Hr]; [contradiction |].
  destruct Hr as (H0 & H1 & H2 & H3 & H4 & H5 & H6).
  cbn [rtt set_rtt]. unfold rtt_within.
  cbn [latest_rtt min_rtt avg_rtt rttvar].
  set (m := Z.min (min_rtt (rtt qc)) L).
  set (ad0 := wrap (Z.shiftl delay (ctp_ack_delay_exponent (params qc)))
              / 1000).
  assert (Had0 : 0 <= ad0 < 2 ^ 60).
  { subst ad0.
    pose proof (wrap_range (Z.shiftl delay
                              (ctp_ack_delay_exponent (params qc)))) as Hw.
    split; [apply Z.div_pos; lia |].
    apply Z.div_lt_upper_bound; lia. }
  set (ad := if handshaked (params qc)
             then Z.min ad0 (ctp_max_ack_delay (params qc)) else ad0).
  assert (Had : 0 <= ad < 2 ^ 60).
  { subst ad. destruct (handshaked (params qc)); lia. }
  rewrite (wrap_small (m + ad)) by lia.
  set (adj := if m + ad <? L then wrap (L - ad) else L).
  assert (Hadj : m <= adj <= L).
  { subst adj. destruct (Z.ltb_spec (m + ad) L).
    - rewrite wrap_small by lia. lia.
    - lia. }
  rewrite msec_int_small by lia.
  rewrite !wrap_add_r.
  rewrite !shiftr_div by lia.
  change (2 ^ 2) with 4. change (2 ^ 3) with 8.
  set (s := Z.abs (avg_rtt (rtt qc) - adj)).
  assert (Hs : 0 <= s <= bound) by lia.
  assert (Hm : m <= min_rtt (rtt qc) /\ m <= L /\ 0 <= m) by lia.
  clearbody s adj ad m.
  rewrite (wrap_small (rttvar (rtt qc) + (s / 4 - rttvar (rtt qc) / 4)))
    by (Z.div_mod_to_equations; lia).
  rewrite (wrap_small (avg_rtt (rtt qc) + (adj / 8 - avg_rtt (rtt qc) / 8)))
    by (Z.div_mod_to_equations; lia).
  repeat split; try (Z.div_mod_to_equations; lia).
Qed.

End RttWithin.

(** Sample run: a sample of 100 ms on estimators that have seen samples
    between 10 and 104 ms. *)
Lemma rtt_sample_within_witness :
  rtt_within 200 (rtt (njt_quic_rtt_sample 1100 warm_conn 0 1000))
  /\ latest_rtt (rtt (njt_quic_rtt_sample 1100 warm_conn 0 1000)) = 1100 - 1000.
Proof.
  pose proof (rtt_sample_within 1100 warm_conn 0 1000 200) as H.
  cbv zeta in H.
  destruct H as (H1 & H2 & _).
  - lia.
  - lia.
  - cbn. lia.
  - right. unfold rtt_within. cbn. lia.
  - split; [exact H1 | exact H2].
Defined.

(** ** What an ACK frame leaves in the queues *)

Section Unacked.
Context {Tree Path Buf : Type}.
Variable mtu : Path -> Z -> Z -> Z * Path.
Variable sack : njt_quic_streams_t Tree -> njt_quic_frame_t
                -> njt_quic_streams_t Tree.
Variable find : Tree -> Z -> option njt_quic_stream_t.
Variable parse : Buf -> option (Z * Z * Buf).
Implicit Types (qc q : njt_quic_connection_t Tree Path) (f : njt_quic_frame_t).

Lemma ack_keep_above min max (l : list njt_quic_frame_t) f :
  In f l -> max < pnum f -> In f (ack_keep min max l).
Proof.
  intros Hin Hf. induction l as [| g l IH]; cbn [ack_keep]; [exact Hin |].
  destruct (Z.ltb_spec max (pnum g)); [exact Hin |].
  destruct Hin as [-> | Hin]; [lia |].
  destruct (min <=? pnum g); [now apply IH | right; now apply IH].
Qed.

Lemma skip_packet_other pn (l : list njt_quic_frame_t) f :
  In f l -> pnum f <> pn -> In f (skip_packet pn l).
Proof.
  intros Hin Hf. induction l as [| g l IH]; cbn [skip_packet]; [exact Hin |].
  destruct (Z.eqb_spec (pnum g) pn) as [He | He]; [| exact Hin].
  destruct Hin as [-> | Hin]; [contradiction | now apply IH].
Qed.

(** The loss scan leaves every frame numbered above [largest_ack]. *)
Lemma lost_keep_above now thr la fuel : forall (l : list njt_quic_frame_t) f,
  In f l -> la < pnum f -> In f (lost_keep fuel now thr la l).
Proof.
  induction fuel as [| fuel IH]; intros l f Hin Hf; cbn [lost_keep];
    [exact Hin |].
  destruct l as [| start rest]; [exact Hin |].
  destruct (head_lost now thr la start) eqn:Hh; [| exact Hin].
  assert (Hs : pnum start <= la).
  { unfold head_lost in Hh.
    destruct (Z.ltb_spec la (pnum start)); [discriminate | assumption]. }
  destruct Hin as [-> | Hin]; [lia |].
  apply IH; [| exact Hf]. apply skip_packet_other; [exact Hin | lia].
Qed.

Lemma scan_keep_above now thr la (l : list njt_quic_frame_t) f :
  In f l -> la = NJT_QUIC_UNSET_PN \/ la < pnum f ->
  In f (scan_keep now thr la l).
Proof.
  intros Hin Hf. unfold scan_keep.
  destruct (Z.eqb_spec la NJT_QUIC_UNSET_PN) as [He | He]; [exact Hin |].
  apply lost_keep_above; [exact Hin |]. destruct Hf; [contradiction | assumption].
Qed.

Lemma ack_trace_refl qc i top : ack_trace qc qc i top.
Proof. repeat split; auto. Qed.

Lemma ack_trace_trans qc1 qc2 qc3 i top :
  ack_trace qc1 qc2 i top -> ack_trace qc2 qc3 i top ->
  ack_trace qc1 qc3 i top.
Proof.
  intros (A1 & B1 & C1) (A2 & B2 & C2). repeat split.
  - intros j f H. apply A1, A2, H.
  - intros j f H Hc. apply B2; [| exact Hc]. now apply B1.
  - intros j. now rewrite C2, C1.
Qed.

(** Two connections with the same contexts up to the queue [sent] of
    context [i]. *)
Lemma ack_trace_frame qc qc' i min max top :
  max <= top ->
  conn_frame qc'
  = conn_frame (with_sent i (ack_keep min max (sent (ctx_of qc i))) qc) ->
  ack_trace qc qc' i top.
Proof.
  intros Hmax Hfr. repeat split.
  - intros j f. destruct (conn_frame_sent _ _ j Hfr) as (-> & _).
    destruct (ctx_ix_eqb i j) eqn:Hij.
    + apply ctx_ix_eqb_eq in Hij. subst j. rewrite sent_with_sent.
      apply ack_keep_incl.
    + rewrite with_sent_other; [tauto |].
      intros E. rewrite E in Hij. destruct j; discriminate.
  - intros j f Hin Hc. destruct (conn_frame_sent _ _ j Hfr) as (-> & _).
    destruct (ctx_ix_eqb i j) eqn:Hij.
    + apply ctx_ix_eqb_eq in Hij. subst j. rewrite sent_with_sent.
      apply ack_keep_above; [exact Hin |].
      destruct Hc as [Hc | Hc]; [contradiction | lia].
    + rewrite with_sent_other; [exact Hin |].
      intros E. rewrite E in Hij. destruct j; discriminate.
  - intros j. destruct (conn_frame_sent _ _ j Hfr) as (_ & -> & _).
    destruct i, j; reflexivity.
Qed.

(** One range, whatever its outcome. *)
Lemma range_ack_trace now qc i min max st top :
  max <= top ->
  ack_trace qc
    (snd (fst (njt_quic_handle_ack_frame_range mtu sack now qc i min max st)))
    i top.
Proof.
  intros Hmax. unfold njt_quic_handle_ack_frame_range.
  destruct (if is_application _ then _ else _) as [rc0 p].
  destruct (negb (rc0 =? NJT_OK)).
  { cbn [fst snd]. repeat split; intros; assumption || reflexivity. }
  change (ctx_of (set_path p qc) i) with (ctx_of qc i).
  set (w0 := mkWalk (set_path p qc) _ false).
  pose proof (ack_walk_kept sack now i min max (sent (ctx_of qc i)) w0) as Hk.
  pose proof (ack_walk_conn_frame sack now i min max (sent (ctx_of qc i)) w0)
    as Hfr.
  destruct (ack_walk sack now i min max (sent (ctx_of qc i)) w0) as [kept w].
  cbn [fst snd w_qc w0] in Hk, Hfr. subst kept.
  change (conn_frame (set_path p qc)) with (conn_frame qc) in Hfr.
  fold (with_sent i (ack_keep min max (sent (ctx_of qc i))) (w_qc w)).
  pose proof (conn_frame_with_sent i
                (ack_keep min max (sent (ctx_of qc i))) _ _ Hfr) as Hgoal.
  pose proof (ack_trace_frame qc _ i min max top Hmax Hgoal) as Ht.
  unfold ack_trace in *.
  destruct (negb (w_found w)).
  - destruct (_ <? _); cbn [fst snd]; exact Ht.
  - cbn [fst snd]. destruct (negb _); exact Ht.
Qed.

(** The additional ranges, whatever the outcome: each of them lies
    below the running minimum. *)
Lemma ranges_loop_trace n : forall now i pos min qc st top,
  parse_bounded parse -> u64 min -> min <= top ->
  ack_trace qc
    (snd (fst (ack_ranges_loop mtu sack parse n now i pos min qc st))) i top.
Proof.
  unfold u64.
  induction n as [| n IH]; intros now i pos min qc st top Hpb Hmin Htop;
    cbn [ack_ranges_loop]; cbv zeta.
  { apply ack_trace_refl. }
  assert (Herr : forall e, ack_trace qc (set_error e qc) i top).
  { intros e. repeat split; intros; assumption || reflexivity. }
  destruct (parse pos) as [[[g r] pos'] |] eqn:Hparse;
    [| apply ack_trace_refl].
  destruct (Hpb _ _ _ _ Hparse) as [Hg Hr].
  rewrite (wrap_small (g + 2)) by lia.
  destruct (Z.ltb_spec min (g + 2)); [apply Herr |].
  rewrite (wrap_small (min - g)) by lia.
  rewrite (wrap_small (min - g - 2)) by lia.
  destruct (Z.ltb_spec (min - g - 2) r); [apply Herr |].
  rewrite (wrap_small (min - g - 2 - r)) by lia.
  pose proof (range_ack_trace now qc i (min - g - 2 - r) (min - g - 2) st top)
    as Hra.
  destruct (njt_quic_handle_ack_frame_range mtu sack now qc i
              (min - g - 2 - r) (min - g - 2) st) as [[rc1 qa] sta].
  cbn [fst snd] in Hra. specialize (Hra ltac:(lia)).
  destruct (negb (rc1 =? NJT_OK)); [exact Hra |].
  apply (ack_trace_trans _ qa); [exact Hra |].
  apply IH; [exact Hpb | lia | lia].
Qed.

(** A range that fails has unlinked nothing. *)
Lemma range_ack_error now qc i min max st :
  let r := njt_quic_handle_ack_frame_range mtu sack now qc i min max st in
  fst (fst r) <> NJT_OK ->
  forall j, sent (ctx_of (snd (fst r)) j) = sent (ctx_of qc j)
            /\ largest_ack (ctx_of (snd (fst r)) j) = largest_ack (ctx_of qc j).
Proof.
  cbv zeta. unfold njt_quic_handle_ack_frame_range.
  destruct (if is_application _ then _ else _) as [rc0 p].
  destruct (negb (rc0 =? NJT_OK)).
  { cbn [fst snd]. intros _ j. split; reflexivity. }
  change (ctx_of (set_path p qc) i) with (ctx_of qc i).
  set (w0 := mkWalk (set_path p qc) _ false).
  destruct (list_eq_dec_nil (ack_taken min max (sent (ctx_of qc i))))
    as [Hn | Hn].
  - rewrite (ack_walk_none sack now i min max _ w0 Hn).
    cbn [w_found w_qc w0 negb].
    change (set_ctx i (set_sent (sent (ctx_of qc i))
                         (ctx_of (set_path p qc) i)) (set_path p qc))
      with (with_sent i (sent (ctx_of (set_path p qc) i)) (set_path p qc)).
    rewrite with_sent_self.
    destruct (_ <? _); cbn [fst snd]; intros _ j; split; reflexivity.
  - pose proof (ack_walk_some sack now i min max _ w0 Hn) as Hf.
    destruct (ack_walk sack now i min max (sent (ctx_of qc i)) w0)
      as [kept w].
    cbn [snd] in Hf. rewrite Hf. cbn [negb fst snd]. intros H.
    exfalso. apply H. reflexivity.
Qed.

(** X7. Whatever its outcome, [njt_quic_handle_ack_frame] adds no frame
    to a queue [sent], keeps every frame numbered above the largest
    acknowledged number of its context, leaves [largest_ack] of the other
    contexts alone, and writes [largest_ack] of its own context only to
    raise it to the largest number of the ACK frame. *)
Theorem handle_ack_keeps_unacked now qc lvl (ack : njt_quic_ack_frame_t Buf) :
  parse_bounded parse ->
  ack_largest ack < NJT_QUIC_UNSET_PN -> 0 <= ack_first_range ack ->
  let i := njt_quic_get_send_ctx lvl in
  let qc' := snd (njt_quic_handle_ack_frame mtu sack find parse now qc lvl ack) in
  (forall j f, In f (sent (ctx_of qc' j)) -> In f (sent (ctx_of qc j)))
  /\ (forall j f, In f (sent (ctx_of qc j)) ->
        largest_ack (ctx_of qc' j) = NJT_QUIC_UNSET_PN
        \/ largest_ack (ctx_of qc' j) < pnum f ->
        In f (sent (ctx_of qc' j)))
  /\ (forall j, j <> i ->
        largest_ack (ctx_of qc' j) = largest_ack (ctx_of qc j))
  /\ (largest_ack (ctx_of qc' i) = largest_ack (ctx_of qc i)
      \/ (largest_ack (ctx_of qc' i) = ack_largest ack
          /\ (largest_ack (ctx_of qc i) < ack_largest ack
              \/ largest_ack (ctx_of qc i) = NJT_QUIC_UNSET_PN))).
Proof.
  intros Hpb Hl Hfr. cbv zeta. unfold njt_quic_handle_ack_frame. cbv zeta.
  set (i := njt_quic_get_send_ctx lvl).
  destruct (Z.ltb_spec (ack_largest ack) (ack_first_range ack)) as [Hbad | Hok].
  { cbn [snd].
    split; [| split; [| split]]; intros; try assumption; try reflexivity.
    left. reflexivity. }
  assert (Hl' : ack_largest ack < 2 ^ 64 - 1) by exact Hl.
  rewrite (wrap_small (ack_largest ack - ack_first_range ack)) by lia.
  set (L := ack_largest ack) in *.
  set (mn := L - ack_first_range ack).
  set (st0 := mkStat _ _ _).
  pose proof (range_ack_trace now qc i mn L st0 L (Z.le_refl _)) as Ha.
  pose proof (range_ack_error now qc i mn L st0) as Hea. cbv zeta in Hea.
  destruct (njt_quic_handle_ack_frame_range mtu sack now qc i mn L st0)
    as [[rc qa] sta].
  cbn [fst snd] in Ha, Hea.
  destruct (Z.eqb_spec rc NJT_OK) as [-> | Hne]; cbn [negb].
  2:{ cbn [snd]. specialize (Hea Hne).
      split; [| split; [| split]].
      - intros j f. now rewrite (proj1 (Hea j)).
      - intros j f Hin _. now rewrite (proj1 (Hea j)).
      - intros j _. apply Hea.
      - left. apply Hea. }
  clear Hea. destruct Ha as (A1 & A2 & A3).
  match goal with
  | |- context [ack_ranges_loop _ _ _ _ _ _ _ _ ?q _] => set (qb := q)
  end.
  set (la := largest_ack (ctx_of qc i)) in *.
  assert (Hb : (forall j, sent (ctx_of qb j) = sent (ctx_of qa j))
               /\ (forall j, j <> i -> largest_ack (ctx_of qb j)
                                       = largest_ack (ctx_of qc j))
               /\ (L <= largest_ack (ctx_of qb i)
                   /\ largest_ack (ctx_of qb i) <> NJT_QUIC_UNSET_PN)
               /\ (largest_ack (ctx_of qb i) = la
                   \/ (largest_ack (ctx_of qb i) = L
                       /\ (la < L \/ la = NJT_QUIC_UNSET_PN)))).
  { subst qb. rewrite (A3 i). fold la.
    destruct (Z.ltb_spec la L) as [H1 | H1];
      destruct (Z.eqb_spec la NJT_QUIC_UNSET_PN) as [H2 | H2]; cbn [orb].
    4:{ split; [reflexivity |]. split; [intros j _; apply A3 |].
        rewrite (A3 i). fold la. unfold NJT_QUIC_UNSET_PN in *.
        split; [lia | left; reflexivity]. }
    all: assert (Hq : forall q', (forall j, ctx_of q' j
                                     = ctx_of (set_ctx i (set_largest_ack L
                                                 (ctx_of qa i)) qa) j) ->
            (forall j, sent (ctx_of q' j) = sent (ctx_of qa j))
            /\ (forall j, j <> i -> largest_ack (ctx_of q' j)
                                    = largest_ack (ctx_of qc j))
            /\ (L <= largest_ack (ctx_of q' i)
                /\ largest_ack (ctx_of q' i) <> NJT_QUIC_UNSET_PN)
            /\ (largest_ack (ctx_of q' i) = la
                \/ (largest_ack (ctx_of q' i) = L
                    /\ (la < L \/ la = NJT_QUIC_UNSET_PN))));
      [ intros q' Hq'; split; [| split; [| split]];
        [ intros j; rewrite Hq'; destruct i, j; reflexivity
        | intros j Hj; rewrite Hq', <- (A3 j);
          destruct i, j; try reflexivity; contradiction
        | rewrite Hq', ctx_of_set_ctx_same; cbn [largest_ack set_largest_ack];
          unfold NJT_QUIC_UNSET_PN in *; lia
        | rewrite Hq', ctx_of_set_ctx_same; cbn [largest_ack set_largest_ack];
          right; split; [reflexivity | tauto || lia] ]
      | apply Hq; destruct (negb _); [rewrite rtt_sample_shape |];
        intros j; reflexivity ]. }
  destruct Hb as (B1 & B2 & B3 & B4).
  pose proof (ranges_loop_trace (Z.to_nat (ack_range_count ack)) now i
                (ack_data ack) mn qb sta L Hpb) as Hd.
  destruct (ack_ranges_loop mtu sack parse (Z.to_nat (ack_range_count ack))
              now i (ack_data ack) mn qb sta) as [[rc2 qd] std].
  cbn [fst snd] in Hd.
  destruct Hd as (D1 & D2 & D3); [unfold u64, mn; lia | unfold mn; lia |].
  assert (Hfin : forall q1,
            (forall j f, In f (sent (ctx_of q1 j)) -> In f (sent (ctx_of qd j))) ->
            (forall j f, In f (sent (ctx_of qd j)) ->
               largest_ack (ctx_of qd j) = NJT_QUIC_UNSET_PN
               \/ largest_ack (ctx_of qd j) < pnum f ->
               In f (sent (ctx_of q1 j))) ->
            (forall j, largest_ack (ctx_of q1 j) = largest_ack (ctx_of qd j)) ->
            (forall j f, In f (sent (ctx_of q1 j)) -> In f (sent (ctx_of qc j)))
            /\ (forall j f, In f (sent (ctx_of qc j)) ->
                  largest_ack (ctx_of q1 j) = NJT_QUIC_UNSET_PN
                  \/ largest_ack (ctx_of q1 j) < pnum f ->
                  In f (sent (ctx_of q1 j)))
            /\ (forall j, j <> i ->
                  largest_ack (ctx_of q1 j) = largest_ack (ctx_of qc j))
            /\ (largest_ack (ctx_of q1 i) = la
                \/ (largest_ack (ctx_of q1 i) = L
                    /\ (la < L \/ la = NJT_QUIC_UNSET_PN)))).
  { intros q1 F1 F2 F3. split; [| split; [| split]].
    - intros j f H. apply A1. rewrite <- B1. apply D1, F1, H.
    - intros j f Hin Hc. rewrite F3 in Hc. apply F2; [| exact Hc].
      rewrite D3 in Hc. apply D2; [rewrite B1; apply A2; [exact Hin |] |].
      + destruct (ctx_ix_eqb j i) eqn:Hji.
        * apply ctx_ix_eqb_eq in Hji. subst j. right.
          destruct Hc as [Hc | Hc]; lia.
        * left. intros E. subst j. destruct i; discriminate.
      + destruct (ctx_ix_eqb j i) eqn:Hji.
        * apply ctx_ix_eqb_eq in Hji. subst j. right.
          destruct Hc as [Hc | Hc]; lia.
        * left. intros E. subst j. destruct i; discriminate.
    - intros j Hj. rewrite F3, D3. now apply B2.
    - rewrite F3, D3. exact B4. }
  destruct (rc2 =? NJT_OK).
  - destruct (detect_lost_settles find now qd (Some std))
      as (_ & _ & S1 & S2). cbv zeta in S1, S2.
    apply Hfin.
    + exact S1.
    + intros j f Hin Hc. rewrite detect_lost_sent.
      apply scan_keep_above; assumption.
    + intros j. apply S2.
  - cbn [snd]. apply Hfin; auto.
Qed.

End Unacked.

(** Sample run: packet 3 is acknowledged; nothing is added to the queue
    and [largest_ack] moves from 2 to 3. *)
Lemma handle_ack_keeps_unacked_witness :
  (forall j f,
     In f (sent (ctx_of (snd (njt_quic_handle_ack_frame mtu_ok sack_id
                                find_none parse_list 1100 one_sent_conn
                                ssl_encryption_initial exact_ack)) j)) ->
     In f (sent (ctx_of one_sent_conn j)))
  /\ largest_ack (ctx_of (snd (njt_quic_handle_ack_frame mtu_ok sack_id
                                find_none parse_list 1100 one_sent_conn
                                ssl_encryption_initial exact_ack)) Ix0)
     = 3.
Proof.
  pose proof (handle_ack_keeps_unacked mtu_ok sack_id find_none parse_list
                1100 one_sent_conn ssl_encryption_initial exact_ack) as H.
  cbv zeta in H.
  destruct H as (H1 & _).
  - exact parse_list_bounded.
  - vm_compute. reflexivity.
  - cbn. lia.
  - split; [exact H1 | vm_compute; reflexivity].
Defined.

(** * The receiving side *)

(** ** Entries and the numbers they stand for *)

Lemma in_ranges_app s l1 l2 x :
  in_ranges s (l1 ++ l2) x <-> in_ranges s l1 x \/ in_ranges (low s l1) l2 x.
Proof.
  revert s. induction l1 as [| r l1 IH]; intros s; cbn [app in_ranges low].
  - tauto.
  - rewrite IH. tauto.
Qed.

Lemma ranges_wf_app s l1 l2 :
  ranges_wf s (l1 ++ l2) <-> ranges_wf s l1 /\ ranges_wf (low s l1) l2.
Proof.
  revert s. induction l1 as [| r l1 IH]; intros s; cbn [app ranges_wf low].
  - tauto.
  - rewrite IH. tauto.
Qed.

Lemma low_app s l1 l2 : low s (l1 ++ l2) = low (low s l1) l2.
Proof.
  revert s. induction l1 as [| r l1 IH]; intros s; cbn [app low];
    [reflexivity | apply IH].
Qed.

(** Under [ranges_wf] the entries go down. *)
Lemma low_le s l : ranges_wf s l -> 0 <= s -> 0 <= low s l <= s.
Proof.
  revert s. induction l as [| r l IH]; intros s; cbn [ranges_wf low];
    [lia |].
  intros (Hg & Hr & Hs & Hwf) H0. specialize (IH _ Hwf Hs). lia.
Qed.

Lemma in_ranges_bounds s l x :
  ranges_wf s l -> in_ranges s l x -> low s l <= x <= s - 2.
Proof.
  revert s. induction l as [| r l IH]; intros s; cbn [ranges_wf in_ranges low];
    [tauto |].
  intros (Hg & Hr & Hs & Hwf) [H | H].
  - pose proof (low_le _ _ Hwf Hs). lia.
  - specialize (IH _ Hwf H). lia.
Qed.

(** ** Dropping what was acknowledged *)

Lemma drop_ranges_loop_spec pn : forall todo rs s i,
  ranges_wf s (firstn todo rs) -> s < 2 ^ 64 -> pn < s ->
  match drop_ranges_loop pn s i todo rs with
  | Some (n, rs') =>
      exists k, n = i + Z.of_nat k /\ (k <= todo)%nat
        /\ List.length rs' = List.length rs
        /\ ranges_wf s (firstn k rs')
        /\ forall x, in_ranges s (firstn k rs') x
                     <-> in_ranges s (firstn todo rs) x /\ pn < x
  | None => forall x, in_ranges s (firstn todo rs) x -> pn < x
  end.
Proof.
  induction todo as [| todo IH]; intros rs s i Hwf Hs Hpn;
    cbn [drop_ranges_loop].
  { cbn [firstn in_ranges]. tauto. }
  destruct rs as [| r rs]; [cbn [firstn in_ranges]; tauto |].
  cbn [firstn ranges_wf in_ranges] in *.
  destruct Hwf as (Hg & Hr & H0 & Hwf).
  rewrite (wrap_small (s - gap r)) by lia.
  rewrite (wrap_small (s - gap r - 2)) by lia.
  rewrite (wrap_small (s - gap r - 2 - range r)) by lia.
  destruct (Z.leb_spec (s - gap r - 2) pn) as [H1 | H1].
  { exists 0%nat. cbn [firstn ranges_wf in_ranges List.length].
    split; [lia |]. split; [lia |]. split; [reflexivity |].
    split; [exact I |]. intros x. split; [tauto |].
    intros [[H | H] Hx]; [lia |].
    apply in_ranges_bounds in H; [lia | exact Hwf]. }
  destruct (Z.leb_spec (s - gap r - 2 - range r) pn) as [H2 | H2].
  { exists 1%nat. cbn [firstn ranges_wf in_ranges List.length gap range].
    rewrite (wrap_small (s - gap r - 2 - pn)) by lia.
    rewrite (wrap_small (s - gap r - 2 - pn - 1)) by lia.
    split; [lia |]. split; [lia |]. split; [reflexivity |].
    split; [repeat split; lia |]. intros x. split.
    - intros [H | []]. split; [left |]; lia.
    - intros [[H | H] Hx]; [left; lia |].
      apply in_ranges_bounds in H; [lia | exact Hwf]. }
  specialize (IH rs (s - gap r - 2 - range r) (i + 1) Hwf ltac:(lia) H2).
  destruct (drop_ranges_loop pn (s - gap r - 2 - range r) (i + 1) todo rs)
    as [[n t] |].
  - destruct IH as (k & Hn & Hk & Hlen & Hwf' & Hmem).
    exists (S k). cbn [firstn ranges_wf in_ranges List.length].
    split; [lia |]. split; [lia |]. split; [now rewrite Hlen |].
    split; [repeat split; assumption |]. intros x. split.
    + intros [H | H]; [split; [left; assumption | lia] |].
      apply Hmem in H. tauto.
    + intros [[H | H] Hx]; [now left | right; apply Hmem; tauto].
  - intros x [H | H]; [lia | now apply IH].
Qed.

(** X8. [njt_quic_drop_ack_ranges] drops exactly the packet numbers up
    to [pn]: the database stays sound and holds the numbers above [pn]
    that it held, in an array of the same length with no more entries in
    use. *)
Theorem drop_ack_ranges_mem c pn :
  db_sound c ->
  let c' := njt_quic_drop_ack_ranges c pn in
  db_sound c'
  /\ (forall x, db_mem c' x <-> db_mem c x /\ pn < x)
  /\ List.length (ranges c') = List.length (ranges c)
  /\ nranges c' <= nranges c.
Proof.
  intros (Hn & Hdb). cbv zeta. unfold njt_quic_drop_ack_ranges. cbv zeta.
  unfold db_sound, db_mem, db_ranges.
  destruct (Z.eqb_spec (largest_range c) NJT_QUIC_UNSET_PN) as [He | He].
  { split; [split; assumption |]. split; [| split; [reflexivity | lia]].
    intros x. split; [| tauto]. intros (H & _). contradiction. }
  destruct Hdb as [(H & _) | (Hl & Hf & Hwf)]; [contradiction |].
  unfold db_ranges in Hwf.
  set (pa := if negb (pending_ack c =? NJT_QUIC_UNSET_PN) && _
             then NJT_QUIC_UNSET_PN else pending_ack c).
  rewrite (wrap_small (largest_range c - first_range c)) by lia.
  destruct (Z.leb_spec (largest_range c) pn) as [H1 | H1].
  { cbn [largest_range first_range nranges ranges set_range_db].
    split; [split; [lia | left; repeat split] |].
    split; [| split; [reflexivity | lia]].
    intros x. split; [intros (H & _); now contradiction H |].
    intros ((_ & [H | H]) & Hx); [lia |].
    apply in_ranges_bounds in H; [lia | exact Hwf]. }
  destruct (Z.leb_spec (largest_range c - first_range c) pn) as [H2 | H2].
  { cbn [largest_range first_range nranges ranges set_range_db].
    rewrite (wrap_small (largest_range c - pn)) by lia.
    rewrite (wrap_small (largest_range c - pn - 1)) by lia.
    change (Z.to_nat 0) with 0%nat. cbn [firstn in_ranges ranges_wf].
    split; [split; [lia | right; repeat split; lia] |].
    split; [| split; [reflexivity | lia]].
    intros x. split.
    - intros (_ & [H | []]). split; [split; [assumption | left; lia] | lia].
    - intros ((_ & [H | H]) & Hx); [split; [assumption | left; lia] |].
      apply in_ranges_bounds in H; [lia | exact Hwf]. }
  pose proof (drop_ranges_loop_spec pn (Z.to_nat (nranges c)) (ranges c)
                (largest_range c - first_range c) 0 Hwf ltac:(lia) H2) as Hloop.
  destruct (drop_ranges_loop pn (largest_range c - first_range c) 0
              (Z.to_nat (nranges c)) (ranges c)) as [[n rs] |].
  - destruct Hloop as (k & -> & Hk & Hlen & Hwf' & Hmem).
    cbn [largest_range first_range nranges ranges set_range_db].
    rewrite Z.add_0_l, Nat2Z.id.
    split; [split; [lia | right; repeat split; try lia; exact Hwf'] |].
    split; [| split; [exact Hlen | lia]].
    intros x. split.
    + intros (_ & [H | H]); [split; [split; [assumption | now left] | lia] |].
      apply Hmem in H. split; [split; [assumption | right; tauto] | tauto].
    + intros ((_ & [H | H]) & Hx); split; try assumption;
        [now left | right; apply Hmem; tauto].
  - cbn [largest_range first_range nranges ranges set_range_db].
    split; [split; [lia | right; repeat split; try lia; exact Hwf] |].
    split; [| split; [reflexivity | lia]].
    intros x. split; [| tauto].
    intros (Hu & [H | H]); (split; [split; [assumption |] |]);
      [now left | lia | now right | now apply Hloop].
Qed.

Lemma db_ctx_sound : db_sound db_ctx.
Proof.
  unfold db_sound, db_ranges, db_ctx.
  cbn [largest_range first_range nranges ranges].
  change (Z.to_nat 2) with 2%nat. cbn [firstn ranges_wf gap range].
  split; [lia |]. right. repeat split; lia.
Qed.

(** Sample run: the ACK that reported packets up to 5 is acknowledged;
    packets 6 and 9 stay in the database. *)
Lemma drop_ack_ranges_mem_witness :
  db_sound (njt_quic_drop_ack_ranges db_ctx 5)
  /\ (db_mem (njt_quic_drop_ack_ranges db_ctx 5) 6 <-> db_mem db_ctx 6 /\ 5 < 6)
  /\ (db_mem (njt_quic_drop_ack_ranges db_ctx 5) 5 <-> db_mem db_ctx 5 /\ 5 < 5).
Proof.
  pose proof (drop_ack_ranges_mem db_ctx 5 db_ctx_sound) as H.
  cbv zeta in H. destruct H as (H1 & H2 & _).
  split; [exact H1 |]. split; apply H2.
Defined.

(** ** The array [ranges] *)

Section RangeArray.
Implicit Types (rs A B : list njt_quic_ack_range_t) (r v : njt_quic_ack_range_t).

Lemma list_upd_length {T} (n : nat) (v : T) (l : list T) :
  List.length (list_upd n v l) = List.length l.
Proof.
  revert n. induction l as [| h t IH]; intros [| n]; cbn [list_upd List.length];
    try reflexivity. now rewrite IH.
Qed.

Lemma list_upd_app {T} (l1 l2 : list T) (x v : T) :
  list_upd (List.length l1) v (l1 ++ x :: l2) = l1 ++ v :: l2.
Proof.
  induction l1 as [| h t IH]; cbn [list_upd List.length app];
    [reflexivity | now rewrite IH].
Qed.

Lemma range_at_app A r B :
  range_at (A ++ r :: B) (Z.of_nat (List.length A)) = r.
Proof.
  unfold range_at. rewrite Nat2Z.id. now rewrite nth_middle.
Qed.

Lemma range_upd_app A r B v :
  range_upd (A ++ r :: B) (Z.of_nat (List.length A)) v = A ++ v :: B.
Proof. unfold range_upd. rewrite Nat2Z.id. apply list_upd_app. Qed.

Lemma range_upd_length rs i v :
  List.length (range_upd rs i v) = List.length rs.
Proof. apply list_upd_length. Qed.

(** The array split at an index in range. *)
Lemma array_split rs (k : nat) :
  (k < List.length rs)%nat ->
  exists A r B, rs = A ++ r :: B /\ List.length A = k.
Proof.
  intros H. destruct (nth_split rs (mkRange 0 0) H) as (A & B & E & L).
  exists A, (nth k rs (mkRange 0 0)), B. split; assumption.
Qed.

Lemma firstn_middle A r B (n : nat) :
  (List.length A < n)%nat ->
  firstn n (A ++ r :: B) = A ++ r :: firstn (n - List.length A - 1) B.
Proof.
  intros H.
  replace n with (List.length A + S (n - List.length A - 1))%nat at 1 by lia.
  rewrite firstn_app_2. reflexivity.
Qed.

Lemma firstn_left A B (n : nat) :
  (n <= List.length A)%nat -> firstn n (A ++ B) = firstn n A.
Proof.
  intros H. rewrite firstn_app.
  replace (n - List.length A)%nat with 0%nat by lia.
  cbn [firstn]. apply app_nil_r.
Qed.

(** The entry at [i] is removed: the entries behind it move down. *)
Lemma memmove_down A r B (nr : Z) :
  0 <= nr ->
  njt_memmove (A ++ r :: B) (Z.of_nat (List.length A))
              (Z.of_nat (List.length A) + 1) nr
  = A ++ firstn (Z.to_nat nr) B
      ++ skipn (List.length A + Z.to_nat nr) (A ++ r :: B).
Proof.
  intros Hn. unfold njt_memmove.
  rewrite Nat2Z.id.
  replace (Z.to_nat (Z.of_nat (List.length A) + 1)) with (S (List.length A))
    by lia.
  replace (Z.to_nat (Z.of_nat (List.length A) + nr))
    with (List.length A + Z.to_nat nr)%nat by lia.
  rewrite firstn_app, firstn_all, Nat.sub_diag. cbn [firstn].
  rewrite app_nil_r.
  replace (S (List.length A)) with (List.length A + 1)%nat by lia.
  rewrite skipn_app, skipn_all2 by lia.
  replace (List.length A + 1 - List.length A)%nat with 1%nat by lia.
  cbn [skipn app]. reflexivity.
Qed.

(** Room is made at [i]: the entries from [i] on move up. *)
Lemma memmove_up A r B (cnt : Z) :
  0 <= cnt ->
  njt_memmove (A ++ r :: B) (Z.of_nat (List.length A) + 1)
              (Z.of_nat (List.length A)) cnt
  = A ++ r :: firstn (Z.to_nat cnt) (r :: B)
      ++ skipn (List.length A + 1 + Z.to_nat cnt) (A ++ r :: B).
Proof.
  intros Hn. unfold njt_memmove.
  rewrite Nat2Z.id.
  replace (Z.to_nat (Z.of_nat (List.length A) + 1)) with (List.length A + 1)%nat
    by lia.
  replace (Z.to_nat (Z.of_nat (List.length A) + 1 + cnt))
    with (List.length A + 1 + Z.to_nat cnt)%nat by lia.
  rewrite firstn_app_2. cbn [firstn].
  rewrite skipn_app, skipn_all, Nat.sub_diag. cbn [skipn app].
  rewrite <- app_assoc. reflexivity.
Qed.

End RangeArray.

Lemma in_ranges_firstn s (k : nat) : forall l x,
  in_ranges s (firstn k l) x -> in_ranges s l x.
Proof.
  revert s. induction k as [| k IH]; intros s l x; [cbn; tauto |].
  destruct l as [| r l]; [cbn; tauto |]. cbn [firstn in_ranges].
  intros [H | H]; [now left | right; now apply IH].
Qed.

Lemma ranges_wf_firstn s (k : nat) : forall l,
  ranges_wf s l -> ranges_wf s (firstn k l).
Proof.
  revert s. induction k as [| k IH]; intros s l; [cbn; tauto |].
  destruct l as [| r l]; [cbn; tauto |]. cbn [firstn ranges_wf].
  intros (? & ? & ? & H). repeat split; try assumption. now apply IH.
Qed.

Lemma list_rev_case {T} (l : list T) :
  l = [] \/ exists l0 x, l = l0 ++ [x].
Proof.
  induction l as [| x l _] using rev_ind; [now left | right].
  now exists l, x.
Qed.

(** ** The range above a gap grows downwards *)

Lemma grow_above_spec (c : njt_quic_send_ctx_t) A B v :
  ranges c = A ++ B ->
  largest_range c < 2 ^ 62 -> 0 <= first_range c <= largest_range c ->
  ranges_wf (largest_range c - first_range c) A ->
  0 <= v -> 0 <= low (largest_range c - first_range c) A - v ->
  exists fr' A',
    grow_above (Z.of_nat (List.length A)) v c
    = set_range_db (largest_range c) fr' (nranges c) (A' ++ B)
                   (pending_ack c) c
    /\ List.length A' = List.length A
    /\ 0 <= fr' <= largest_range c
    /\ ranges_wf (largest_range c - fr') A'
    /\ low (largest_range c - fr') A'
       = low (largest_range c - first_range c) A - v
    /\ forall x,
         (largest_range c - fr' <= x <= largest_range c
          \/ in_ranges (largest_range c - fr') A' x)
         <-> (largest_range c - first_range c <= x <= largest_range c
              \/ in_ranges (largest_range c - first_range c) A x)
             \/ low (largest_range c - first_range c) A - v <= x
                < low (largest_range c - first_range c) A.
Proof.
  intros Hrs HL Hfr Hwf Hv Hlow. unfold grow_above.
  set (L := largest_range c) in *. set (fr := first_range c) in *.
  destruct (list_rev_case A) as [-> | (A0 & p & ->)].
  - (* the first range grows *)
    cbn [List.length low in_ranges ranges_wf] in *.
    change (Z.of_nat 0 =? 0) with true. cbv iota.
    exists (fr + v), []. fold fr.
    rewrite (wrap_small (fr + v)) by lia.
    unfold set_first_range. rewrite Hrs. fold L.
    cbn [app List.length low in_ranges ranges_wf].
    split; [reflexivity |]. split; [reflexivity |].
    split; [lia |]. split; [exact I |]. split; [lia |].
    intros x. split; intros H; [| left]; lia.
  - (* the entry before grows *)
    rewrite length_app in *. cbn [List.length] in *.
    destruct (Z.eqb_spec (Z.of_nat (List.length A0 + 1)) 0) as [E | _]; [lia |].
    replace (Z.of_nat (List.length A0 + 1) - 1)
      with (Z.of_nat (List.length A0)) by lia.
    rewrite Hrs, <- app_assoc. cbn [app].
    rewrite range_at_app, range_upd_app.
    apply ranges_wf_app in Hwf. destruct Hwf as (Hwf0 & Hwfp).
    cbn [ranges_wf] in Hwfp. destruct Hwfp as (Hg & Hr & H0 & _).
    rewrite low_app in Hlow. cbn [low] in Hlow.
    pose proof (low_le _ _ Hwf0 ltac:(lia)) as Hl0.
    rewrite (wrap_small (range p + v)) by lia.
    exists fr, (A0 ++ [mkRange (gap p) (range p + v)]).
    rewrite <- app_assoc. cbn [app]. fold fr L.
    split; [reflexivity |].
    split; [rewrite !length_app; reflexivity |].
    split; [lia |].
    split.
    { apply ranges_wf_app. split; [exact Hwf0 |].
      cbn [ranges_wf gap range]. repeat split; lia. }
    split.
    { rewrite !low_app. cbn [low gap range]. lia. }
    intros x. rewrite !in_ranges_app, !low_app.
    cbn [in_ranges low gap range]. split; intros H; lia || tauto || idtac.
    + destruct H as [H | [H | [H | []]]]; try tauto.
      destruct (Z.le_gt_cases (low (L - fr) A0 - gap p - 2 - range p) x);
        [left; right; right; left; lia | right; lia].
    + destruct H as [[H | [H | [H | []]]] | H]; try tauto.
      * right. right. left. lia.
      * right. right. left. lia.
Qed.

(** ** A packet number enters the database *)

Section AckPacket.
Context {Tree Path Keys : Type}.
Variable maxr : Z.
Variable keys_available : Keys -> ssl_encryption_level_t -> Z -> bool.
Variable ack_sender :
  Z -> njt_quic_recv_t Tree Path Keys -> ctx_ix
  -> Z * njt_quic_recv_t Tree Path Keys.
Variable range_sender :
  Z -> njt_quic_recv_t Tree Path Keys -> ctx_ix -> Z -> Z
  -> Z * njt_quic_recv_t Tree Path Keys.
Implicit Types (s : njt_quic_recv_t Tree Path Keys) (c : njt_quic_send_ctx_t)
               (res : Z * njt_quic_recv_t Tree Path Keys).

Lemma rctx_set_rctx ci c s : rctx (set_rctx ci c s) ci = c.
Proof. unfold rctx, set_rctx. cbn [r_qc set_r_qc]. apply ctx_of_set_ctx_same. Qed.

Lemma set_rctx_twice ci c c' s :
  set_rctx ci c (set_rctx ci c' s) = set_rctx ci c s.
Proof. destruct ci; reflexivity. Qed.

(** The database of [c'] read off its four fields. *)
Lemma db_intro c c' fr' n' rs' V' :
  largest_range c < 2 ^ 62 ->
  c' = set_range_db (largest_range c) fr' n' rs' (pending_ack c) c ->
  Z.of_nat (List.length rs') = maxr -> 0 <= n' <= maxr ->
  firstn (Z.to_nat n') rs' = V' ->
  0 <= fr' <= largest_range c ->
  ranges_wf (largest_range c - fr') V' ->
  db_fields_only c c' /\ db_wf maxr c'
  /\ forall x, db_mem c' x
               <-> largest_range c - fr' <= x <= largest_range c
                   \/ in_ranges (largest_range c - fr') V' x.
Proof.
  intros HL -> Hlen Hn HV Hfr Hwf.
  assert (Hu : largest_range c <> NJT_QUIC_UNSET_PN)
    by (unfold NJT_QUIC_UNSET_PN; lia).
  unfold db_fields_only, db_wf, db_sound, db_mem, db_ranges.
  cbn [largest_range first_range nranges ranges set_range_db].
  rewrite HV. split; [reflexivity |]. split.
  - split; [exact Hlen |]. split; [lia |]. split; [lia |].
    right. repeat split; try lia. exact Hwf.
  - intros x. tauto.
Qed.

Lemma db_mem_raw c x :
  largest_range c < 2 ^ 62 ->
  db_mem c x
  <-> largest_range c - first_range c <= x <= largest_range c
      \/ in_ranges (largest_range c - first_range c) (db_ranges c) x.
Proof.
  intros HL. unfold db_mem, NJT_QUIC_UNSET_PN. split; [tauto |].
  intros H. split; [lia | exact H].
Qed.

Lemma set_rctx_self ci s : set_rctx ci (rctx s ci) s = s.
Proof.
  destruct s as [q ? ? ? ? ?]. destruct q as [a ? ? ? ? ? ? ? ? ?].
  destruct a. destruct ci; reflexivity.
Qed.

Lemma db_fields_only_refl c : db_fields_only c c.
Proof. destruct c. reflexivity. Qed.

Lemma recorded_intro s ci pn c' :
  db_fields_only (rctx s ci) c' -> db_wf maxr c' ->
  (forall x, db_mem c' x <-> db_mem (rctx s ci) x \/ x = pn) ->
  recorded maxr s ci pn (set_rctx ci c' s).
Proof.
  intros H1 H2 H3. unfold recorded. rewrite rctx_set_rctx.
  split; [reflexivity |]. split; [exact H1 |]. split; [exact H2 | exact H3].
Qed.

(** *** A packet number at an end of a gap *)

Section Gap.
Variables (c : njt_quic_send_ctx_t) (A B : list njt_quic_ack_range_t)
          (r : njt_quic_ack_range_t) (pn : Z).
Hypothesis Hrs : ranges c = A ++ r :: B.
Hypothesis Hlen : Z.of_nat (List.length (ranges c)) = maxr.
Hypothesis Hn : Z.of_nat (List.length A) < nranges c <= maxr.
Hypothesis Hmax : maxr < 2 ^ 64.
Hypothesis HL : largest_range c < 2 ^ 62.
Hypothesis Hfr : 0 <= first_range c <= largest_range c.
Hypothesis Hwf :
  ranges_wf (largest_range c - first_range c) (db_ranges c).

Lemma gap_entries :
  db_ranges c
  = A ++ r :: firstn (Z.to_nat (nranges c) - List.length A - 1) B.
Proof. unfold db_ranges. rewrite Hrs. apply firstn_middle. lia. Qed.

Lemma gap_wf :
  let si := low (largest_range c - first_range c) A in
  ranges_wf (largest_range c - first_range c) A
  /\ 0 <= gap r /\ 0 <= range r /\ 0 <= si - gap r - 2 - range r
  /\ si <= largest_range c - first_range c
  /\ ranges_wf (si - gap r - 2 - range r)
               (firstn (Z.to_nat (nranges c) - List.length A - 1) B).
Proof.
  cbv zeta. pose proof Hwf as H. rewrite gap_entries in H.
  apply ranges_wf_app in H. destruct H as (HA & Hr). cbn [ranges_wf] in Hr.
  pose proof (low_le _ _ HA ltac:(lia)). tauto.
Qed.

(** The numbers of the database, entry by entry. *)
Lemma gap_mem x :
  let S0 := largest_range c - first_range c in
  db_mem c x
  <-> (S0 <= x <= largest_range c \/ in_ranges S0 A x)
      \/ low S0 A - gap r - 2 - range r <= x <= low S0 A - gap r - 2
      \/ in_ranges (low S0 A - gap r - 2 - range r)
                   (firstn (Z.to_nat (nranges c) - List.length A - 1) B) x.
Proof.
  cbv zeta. rewrite db_mem_raw by exact HL. rewrite gap_entries.
  rewrite in_ranges_app. cbn [in_ranges]. tauto.
Qed.

Lemma gap_tail_spec :
  let si := low (largest_range c - first_range c) A in
  pn = si - 1 - gap r -> 0 < gap r ->
  let c' := gap_tail (Z.of_nat (List.length A)) r c in
  db_fields_only c c' /\ db_wf maxr c'
  /\ nranges c' = nranges c
  /\ forall x, db_mem c' x <-> db_mem c x \/ x = pn.
Proof.
  cbv zeta. intros Hpn Hg.
  destruct gap_wf as (HwfA & _ & Hr & H0 & Hsi & HwfT). cbv zeta in *.
  set (S0 := largest_range c - first_range c) in *.
  set (si := low S0 A) in *.
  set (T := firstn (Z.to_nat (nranges c) - List.length A - 1) B) in *.
  unfold gap_tail. rewrite Hrs, range_upd_app.
  rewrite (wrap_small (gap r - 1)) by lia.
  rewrite (wrap_small (range r + 1)) by lia.
  destruct (db_intro c
              (set_ranges (A ++ mkRange (gap r - 1) (range r + 1) :: B) c)
              (first_range c) (nranges c)
              (A ++ mkRange (gap r - 1) (range r + 1) :: B)
              (A ++ mkRange (gap r - 1) (range r + 1) :: T) HL eq_refl)
    as (H1 & H2 & H3).
  - rewrite <- Hlen, Hrs, !length_app. reflexivity.
  - lia.
  - apply firstn_middle. lia.
  - exact Hfr.
  - apply ranges_wf_app. split; [exact HwfA |].
    cbn [ranges_wf gap range]. fold S0 si.
    replace (si - (gap r - 1) - 2 - (range r + 1))
      with (si - gap r - 2 - range r) by lia.
    repeat split; try lia. exact HwfT.
  - split; [exact H1 |]. split; [exact H2 |]. split; [reflexivity |].
    intros x. rewrite H3, gap_mem. fold S0 si T.
    rewrite in_ranges_app. cbn [in_ranges gap range]. fold si.
    replace (si - (gap r - 1) - 2 - (range r + 1))
      with (si - gap r - 2 - range r) by lia.
    intuition lia.
Qed.

Lemma gap_head_spec :
  let si := low (largest_range c - first_range c) A in
  pn = si - 1 -> 0 < gap r ->
  let c' := gap_head (Z.of_nat (List.length A)) r c in
  db_fields_only c c' /\ db_wf maxr c'
  /\ nranges c' = nranges c
  /\ forall x, db_mem c' x <-> db_mem c x \/ x = pn.
Proof.
  cbv zeta. intros Hpn Hg.
  destruct gap_wf as (HwfA & _ & Hr & H0 & Hsi & HwfT). cbv zeta in *.
  set (S0 := largest_range c - first_range c) in *.
  set (si := low S0 A) in *.
  set (T := firstn (Z.to_nat (nranges c) - List.length A - 1) B) in *.
  unfold gap_head. rewrite Hrs, range_upd_app.
  rewrite (wrap_small (gap r - 1)) by lia.
  set (r1 := mkRange (gap r - 1) (range r)).
  set (c1 := set_ranges (A ++ r1 :: B) c).
  destruct (grow_above_spec c1 A (r1 :: B) 1 eq_refl HL Hfr HwfA ltac:(lia))
    as (fr' & A' & Hgrow & HlenA & Hfr' & HwfA' & Hlow & Hmem).
  { change (0 <= si - 1). lia. }
  rewrite Hgrow.
  change (largest_range c1) with (largest_range c) in *.
  change (first_range c1) with (first_range c) in *.
  change (nranges c1) with (nranges c) in *.
  change (pending_ack c1) with (pending_ack c) in *.
  fold S0 in Hlow, Hmem. fold si in Hlow, Hmem.
  destruct (db_intro c
              (set_range_db (largest_range c) fr' (nranges c) (A' ++ r1 :: B)
                            (pending_ack c) c1)
              fr' (nranges c) (A' ++ r1 :: B) (A' ++ r1 :: T) HL eq_refl)
    as (H1 & H2 & H3).
  - rewrite <- Hlen, Hrs, !length_app. cbn [List.length]. lia.
  - lia.
  - subst T. rewrite <- HlenA. apply firstn_middle. lia.
  - exact Hfr'.
  - apply ranges_wf_app. split; [exact HwfA' |].
    cbn [ranges_wf]. rewrite Hlow. subst r1. cbn [gap range].
    replace (si - 1 - (gap r - 1) - 2 - range r)
      with (si - gap r - 2 - range r) by lia.
    repeat split; try lia. exact HwfT.
  - split; [exact H1 |]. split; [exact H2 |]. split; [reflexivity |].
    intros x. rewrite H3, gap_mem. fold S0 si T.
    rewrite in_ranges_app. cbn [in_ranges]. rewrite Hlow.
    subst r1. cbn [gap range].
    replace (si - 1 - (gap r - 1) - 2 - range r)
      with (si - gap r - 2 - range r) by lia.
    rewrite <- or_assoc, Hmem. intuition lia.
Qed.

Lemma gap_filled_spec :
  let si := low (largest_range c - first_range c) A in
  pn = si - 1 -> gap r = 0 ->
  let c' := gap_filled (Z.of_nat (List.length A)) r c in
  db_fields_only c c' /\ db_wf maxr c'
  /\ nranges c' = nranges c - 1
  /\ forall x, db_mem c' x <-> db_mem c x \/ x = pn.
Proof.
  cbv zeta. intros Hpn Hg.
  destruct gap_wf as (HwfA & _ & Hr & H0 & Hsi & HwfT). cbv zeta in *.
  set (S0 := largest_range c - first_range c) in *.
  set (si := low S0 A) in *.
  set (T := firstn (Z.to_nat (nranges c) - List.length A - 1) B) in *.
  unfold gap_filled.
  rewrite (wrap_small (range r + 2)) by lia.
  destruct (grow_above_spec c A (r :: B) (range r + 2) Hrs HL Hfr HwfA ltac:(lia))
    as (fr' & A' & Hgrow & HlenA & Hfr' & HwfA' & Hlow & Hmem).
  { fold S0 si. lia. }
  rewrite Hgrow. cbn [nranges ranges set_range_db].
  fold S0 in Hlow, Hmem. fold si in Hlow, Hmem.
  rewrite (wrap_small (nranges c - Z.of_nat (List.length A))) by lia.
  rewrite (wrap_small (nranges c - Z.of_nat (List.length A) - 1)) by lia.
  set (nr := nranges c - Z.of_nat (List.length A) - 1).
  assert (HlenB : (Z.to_nat nr <= List.length B)%nat).
  { pose proof Hlen as Hl. rewrite Hrs, length_app in Hl.
    cbn [List.length] in Hl. lia. }
  assert (HT : T = firstn (Z.to_nat nr) B).
  { subst T nr. f_equal. lia. }
  set (rs2 := if negb (nr =? 0)
              then njt_memmove (A' ++ r :: B) (Z.of_nat (List.length A))
                     (Z.of_nat (List.length A) + 1) nr
              else A' ++ r :: B).
  assert (Hrs2 : Z.of_nat (List.length rs2) = maxr
                 /\ firstn (Z.to_nat (nranges c - 1)) rs2 = A' ++ T).
  { subst rs2. destruct (Z.eqb_spec nr 0) as [E | E]; cbn [negb].
    - split.
      + rewrite <- Hlen, Hrs, !length_app. cbn [List.length]. lia.
      + rewrite HT, E. cbn [firstn]. rewrite app_nil_r.
        replace (Z.to_nat (nranges c - 1)) with (List.length A') by lia.
        rewrite firstn_left by lia. apply firstn_all.
    - rewrite <- HlenA, memmove_down by lia. split.
      + rewrite !length_app, length_skipn, length_firstn, !length_app.
        cbn [List.length]. rewrite <- Hlen, Hrs, !length_app.
        cbn [List.length]. lia.
      + replace (Z.to_nat (nranges c - 1))
          with (List.length A' + Z.to_nat nr)%nat by lia.
        rewrite firstn_app_2, firstn_left
          by (rewrite length_firstn; lia).
        rewrite HT. f_equal. apply firstn_all2. rewrite length_firstn. lia. }
  destruct Hrs2 as (Hlen2 & HV2).
  destruct (db_intro c
              (set_range_db (largest_range c) fr' (nranges c - 1) rs2
                            (pending_ack c) c)
              fr' (nranges c - 1) rs2 (A' ++ T) HL eq_refl Hlen2)
    as (H1 & H2 & H3).
  - lia.
  - exact HV2.
  - exact Hfr'.
  - apply ranges_wf_app. split; [exact HwfA' |]. rewrite Hlow.
    replace (si - (range r + 2)) with (si - gap r - 2 - range r) by lia.
    exact HwfT.
  - assert (Hc' : (let ctx :=
                     if negb (nr =? 0)
                     then set_ranges
                            (njt_memmove (A' ++ r :: B)
                               (Z.of_nat (List.length A))
                               (Z.of_nat (List.length A) + 1) nr)
                            (set_range_db (largest_range c) fr' (nranges c)
                               (A' ++ r :: B) (pending_ack c) c)
                     else set_range_db (largest_range c) fr' (nranges c)
                            (A' ++ r :: B) (pending_ack c) c in
                   set_nranges (wrap (nranges ctx - 1)) ctx)
                  = set_range_db (largest_range c) fr' (nranges c - 1) rs2
                                 (pending_ack c) c).
    { cbv zeta. subst rs2. destruct (negb (nr =? 0));
        unfold set_nranges, set_ranges;
        cbn [nranges ranges largest_range first_range pending_ack
             set_range_db];
        rewrite (wrap_small (nranges c - 1)) by lia; reflexivity. }
    cbv zeta in Hc'.
    match goal with
    | |- db_fields_only c ?x /\ _ =>
        replace x with (set_range_db (largest_range c) fr' (nranges c - 1) rs2
                          (pending_ack c) c)
    end.
    split; [exact H1 |]. split; [exact H2 |]. split; [reflexivity |].
    intros x. rewrite H3, gap_mem. fold S0 si T.
    rewrite in_ranges_app. rewrite Hlow.
    replace (si - (range r + 2)) with (si - gap r - 2 - range r) by lia.
    rewrite <- or_assoc, Hmem. intuition lia.
Qed.

End Gap.

(** The loop over the entries, started at entry [k] with the smallest
    number of the range above it. *)
Lemma ack_lookup_spec ci pn s :
  let c := rctx s ci in
  let S0 := largest_range c - first_range c in
  let n := Z.to_nat (nranges c) in
  Z.of_nat (List.length (ranges c)) = maxr -> 0 <= nranges c <= maxr ->
  maxr < 2 ^ 64 ->
  largest_range c < 2 ^ 62 -> 0 <= first_range c <= largest_range c ->
  ranges_wf S0 (db_ranges c) -> 0 <= pn ->
  forall todo k, (k + todo = n)%nat ->
    pn < low S0 (firstn k (ranges c)) ->
    match ack_lookup todo ci pn (Z.of_nat k)
                     (low S0 (firstn k (ranges c))) s with
    | Found s' => recorded maxr s ci pn s' /\ nranges (rctx s' ci) <= nranges c
    | Split i gs ge =>
        exists A r B, ranges c = A ++ r :: B
          /\ i = Z.of_nat (List.length A) /\ (List.length A < n)%nat
          /\ ge = low S0 A - 1 /\ gs = ge - gap r /\ gs < pn < ge
    | Below i sm =>
        i = nranges c /\ sm = low S0 (db_ranges c) /\ pn < sm
    end.
Proof.
  intros c S0 n Hlen Hn Hmax HL Hfr Hwf Hpn.
  induction todo as [| todo IH]; intros k Hk Hlt; cbn [ack_lookup].
  { replace k with n in * by lia. unfold db_ranges. fold n.
    split; [lia |]. split; [reflexivity | exact Hlt]. }
  fold c.
  destruct (array_split (ranges c) k ltac:(lia)) as (A & r & B & Hrs & HA).
  subst k.
  assert (HfA : firstn (List.length A) (ranges c) = A).
  { rewrite Hrs, firstn_left by lia. apply firstn_all. }
  rewrite HfA in *. set (si := low S0 A) in *.
  assert (Hat : range_at (ranges c) (Z.of_nat (List.length A)) = r).
  { rewrite Hrs. apply range_at_app. }
  rewrite Hat.
  assert (HnA : Z.of_nat (List.length A) < nranges c <= maxr) by lia.
  destruct (gap_wf c A B r) as (HwfA & Hg & Hr & H0 & HsiS & HwfT);
    try assumption.
  cbv zeta in HsiS. fold S0 in HsiS, H0, HwfT. fold si in HsiS, H0, HwfT.
  unfold S0 in HsiS.
  rewrite (wrap_small (si - 1)) by lia.
  rewrite (wrap_small (si - 1 - gap r)) by lia.
  rewrite (wrap_small (si - gap r)) by lia.
  rewrite (wrap_small (si - gap r - 2)) by lia.
  rewrite (wrap_small (si - gap r - 2 - range r)) by lia.
  destruct (Z.leb_spec (si - 1 - gap r) pn) as [Hgs | Hgs];
    destruct (Z.leb_spec pn (si - 1)) as [Hge | Hge]; cbn [andb]; try lia.
  2:{ (* below the gap *)
      destruct (Z.leb_spec (si - gap r - 2 - range r) pn) as [H1 | H1];
        destruct (Z.leb_spec pn (si - gap r - 2)) as [H2 | H2];
        cbn [andb]; try lia.
      - (* known *)
        split; [| apply Z.le_refl]. rewrite <- (set_rctx_self ci s) at 2.
        apply recorded_intro.
        + apply db_fields_only_refl.
        + fold c. repeat split; try lia. right. repeat split; try lia.
          exact Hwf.
        + fold c. intros x. split; [tauto |]. intros [H | ->]; [exact H |].
          apply (gap_mem c A B r); try assumption. fold S0 si. lia.
      - replace (Z.of_nat (List.length A) + 1)
          with (Z.of_nat (S (List.length A))) by lia.
        assert (HfS : firstn (S (List.length A)) (ranges c) = A ++ [r]).
        { rewrite Hrs, firstn_middle by lia.
          replace (S (List.length A) - List.length A - 1)%nat with 0%nat by lia.
          reflexivity. }
        specialize (IH (S (List.length A)) ltac:(lia)).
        rewrite HfS, low_app in IH.
        cbn [low] in IH. fold si in IH. apply IH. lia. }
  (* in the gap *)
  destruct (Z.eqb_spec (si - 1 - gap r) (si - 1)) as [E | E].
  { destruct (gap_filled_spec c A B r pn) as (G1 & G2 & G3 & G4);
      try assumption; [fold S0 si; lia | lia |].
    split; [| rewrite rctx_set_rctx; lia].
    apply recorded_intro; assumption. }
  destruct (Z.eqb_spec pn (si - 1 - gap r)) as [E1 | E1].
  { destruct (gap_tail_spec c A B r pn) as (G1 & G2 & G3 & G4);
      try assumption; [lia |].
    split; [| rewrite rctx_set_rctx; lia].
    apply recorded_intro; assumption. }
  destruct (Z.eqb_spec pn (si - 1)) as [E2 | E2].
  { destruct (gap_head_spec c A B r pn) as (G1 & G2 & G3 & G4);
      try assumption; [lia |].
    split; [| rewrite rctx_set_rctx; lia].
    apply recorded_intro; assumption. }
  exists A, r, B. repeat split; try assumption; try lia.
Qed.

(** *** A new entry *)

(** The label [insert] at index [i <= nranges], in an array with room or
    at an entry in use: the entries from [i] on move up by one, and the
    last of them is dropped when the array was full. *)
Lemma ack_insert_spec ci s A r B g rg :
  let c := rctx s ci in
  ranges c = A ++ r :: B ->
  Z.of_nat (List.length (ranges c)) = maxr -> maxr < 2 ^ 64 ->
  Z.of_nat (List.length A) <= nranges c <= maxr ->
  nranges c < maxr \/ Z.of_nat (List.length A) < nranges c ->
  let n' := if nranges c <? maxr then nranges c + 1 else nranges c in
  let rs' := A ++ mkRange g rg
               :: firstn (Z.to_nat n' - List.length A - 1) (r :: B)
               ++ skipn (Z.to_nat n') (ranges c) in
  ack_insert maxr ci (Z.of_nat (List.length A)) g rg s
  = set_rctx ci (set_range_db (largest_range c) (first_range c) n' rs'
                              (pending_ack c) c) s
  /\ Z.of_nat (List.length rs') = maxr
  /\ firstn (Z.to_nat n') rs'
     = A ++ mkRange g rg :: firstn (Z.to_nat n' - List.length A - 1) (r :: B).
Proof.
  intros c Hrs Hlen Hmax Hn Hroom n' rs'.
  assert (Hn' : Z.of_nat (List.length A) < n' <= maxr
                /\ nranges c <= n').
  { subst n'. destruct (Z.ltb_spec (nranges c) maxr); lia. }
  assert (HlenB : Z.of_nat (List.length (r :: B))
                  = maxr - Z.of_nat (List.length A)).
  { rewrite <- Hlen, Hrs, length_app. lia. }
  split; [| split].
  - unfold ack_insert. fold c.
    assert (Hc1 : (if nranges c <? maxr
                   then set_nranges (wrap (nranges c + 1)) c else c)
                  = set_nranges n' c).
    { subst n'. destruct (Z.ltb_spec (nranges c) maxr).
      - rewrite wrap_small by lia. reflexivity.
      - destruct c. reflexivity. }
    rewrite Hc1. cbn [nranges ranges set_nranges set_range_db].
    rewrite (wrap_small (n' - Z.of_nat (List.length A))) by lia.
    rewrite (wrap_small (n' - Z.of_nat (List.length A) - 1)) by lia.
    rewrite Hrs at 1. rewrite memmove_up by lia.
    rewrite range_upd_app.
    replace (Z.to_nat (n' - Z.of_nat (List.length A) - 1))
      with (Z.to_nat n' - List.length A - 1)%nat by lia.
    replace (List.length A + 1 + (Z.to_nat n' - List.length A - 1))%nat
      with (Z.to_nat n') by lia.
    rewrite <- Hrs. reflexivity.
  - subst rs'. rewrite length_app. cbn [List.length]. rewrite length_app.
    rewrite length_firstn, length_skipn.
    cbn [List.length] in HlenB. cbn [List.length]. lia.
  - subst rs'.
    replace (Z.to_nat n')
      with (List.length A + S (Z.to_nat n' - List.length A - 1))%nat at 1
      by lia.
    rewrite firstn_app_2. cbn [firstn]. f_equal. f_equal.
    rewrite firstn_left by (rewrite length_firstn; cbn [List.length] in *; lia).
    apply firstn_all2. rewrite length_firstn. lia.
Qed.

(** The database after an insertion. *)
Lemma insert_sem ci s A r B g rg :
  let c := rctx s ci in
  ranges c = A ++ r :: B ->
  Z.of_nat (List.length (ranges c)) = maxr -> maxr < 2 ^ 64 ->
  Z.of_nat (List.length A) <= nranges c <= maxr ->
  nranges c < maxr \/ Z.of_nat (List.length A) < nranges c ->
  largest_range c < 2 ^ 62 -> 0 <= first_range c <= largest_range c ->
  let m := if nranges c <? maxr
           then (Z.to_nat (nranges c) - List.length A)%nat
           else (Z.to_nat (nranges c) - List.length A - 1)%nat in
  let V' := A ++ mkRange g rg :: firstn m (r :: B) in
  ranges_wf (largest_range c - first_range c) V' ->
  let c' := rctx (ack_insert maxr ci (Z.of_nat (List.length A)) g rg s) ci in
  db_wf maxr c'
  /\ nranges c' <= nranges c + 1
  /\ forall x, db_mem c' x
               <-> largest_range c - first_range c <= x <= largest_range c
                   \/ in_ranges (largest_range c - first_range c) V' x.
Proof.
  intros c Hrs Hlen Hmax Hn Hroom HL Hfr m V' Hwf c'.
  destruct (ack_insert_spec ci s A r B g rg Hrs Hlen Hmax Hn Hroom)
    as (Hins & Hlen' & HV).
  subst c'. rewrite Hins, rctx_set_rctx. fold c in HV, Hlen' |- *.
  set (n' := if nranges c <? maxr then nranges c + 1 else nranges c) in *.
  assert (Hm : (Z.to_nat n' - List.length A - 1)%nat = m).
  { subst m n'. destruct (Z.ltb_spec (nranges c) maxr); lia. }
  rewrite Hm in HV, Hlen' |- *.
  match goal with
  | |- db_wf _ (set_range_db _ _ _ ?rs _ _) /\ _ => set (rs' := rs) in *
  end.
  destruct (db_intro c (set_range_db (largest_range c) (first_range c) n' rs'
                          (pending_ack c) c)
              (first_range c) n' rs' V' HL eq_refl Hlen')
    as (_ & H2 & H3); try assumption.
  - subst n'. destruct (Z.ltb_spec (nranges c) maxr); lia.
  - split; [exact H2 |]. split; [| exact H3].
    cbn [nranges set_range_db]. subst n'.
    destruct (Z.ltb_spec (nranges c) maxr); lia.
Qed.

(** *** The whole of [njt_quic_ack_packet] *)

Lemma rctx_set_ack i x s j : rctx (set_ack i x s) j = rctx s j.
Proof. destruct i; reflexivity. Qed.

Lemma db_eq_refl c : db_eq c c.
Proof. repeat split. Qed.

Lemma db_eq_trans c1 c2 c3 : db_eq c1 c2 -> db_eq c2 c3 -> db_eq c1 c3.
Proof. unfold db_eq. intros (?&?&?&?) (?&?&?&?). repeat split; congruence. Qed.

Lemma db_eq_wf c c' :
  db_eq c c' ->
  (db_wf maxr c -> db_wf maxr c') /\ forall x, db_mem c' x <-> db_mem c x.
Proof.
  intros (H1 & H2 & H3 & H4).
  unfold db_wf, db_sound, db_mem, db_ranges. rewrite H1, H2, H3, H4.
  split; [tauto | intros x; tauto].
Qed.

Lemma ack_needed_db now ci pn s :
  db_eq (rctx s ci) (rctx (ack_needed now ci pn s) ci).
Proof.
  unfold ack_needed. cbv zeta. rewrite rctx_set_rctx.
  set (s1 := set_r_qc (post_push (r_qc s)) s).
  assert (H1 : rctx s1 ci = rctx s ci) by (destruct ci; reflexivity).
  assert (H2 : rctx (if send_ack (rctx s1 ci) =? 0
                     then set_ack ci (set_ack_delay_start now (ack_of s1 ci)) s1
                     else s1) ci = rctx s ci).
  { destruct (_ =? 0); [rewrite rctx_set_ack |]; exact H1. }
  rewrite H2. destruct (_ || _); repeat split.
Qed.

Lemma ack_full_db now ci pp need s :
  nranges (rctx s ci) < maxr \/ keeps_db (ack_sender now) ->
  let r := ack_full maxr ack_sender now ci pp need s in
  db_eq (rctx s ci) (rctx (snd r) ci)
  /\ (nranges (rctx s ci) < maxr -> r = (NJT_OK, s)).
Proof.
  intros Hext. cbv zeta. unfold ack_full.
  destruct (Z.eqb_spec (nranges (rctx s ci)) maxr) as [E | E].
  2:{ split; [apply db_eq_refl | reflexivity]. }
  destruct Hext as [Hext | Hext]; [lia |].
  split; [| lia].
  assert (H1 : db_eq (rctx s ci)
                 (rctx (snd (if negb (pp =? NJT_QUIC_UNSET_PN)
                             then ack_sender now s ci else (NJT_OK, s))) ci)).
  { destruct (negb _); [apply Hext | apply db_eq_refl]. }
  destruct (if negb (pp =? NJT_QUIC_UNSET_PN) then ack_sender now s ci
            else (NJT_OK, s)) as [rc s1].
  cbn [snd] in H1.
  destruct (negb (rc =? NJT_OK)); [exact H1 |].
  destruct (_ || _); cbn [snd]; [| exact H1].
  rewrite rctx_set_rctx. apply (db_eq_trans _ _ _ H1). repeat split.
Qed.

Lemma packet_taken_eq ci pn c1 c2 res :
  db_eq c1 c2 -> packet_taken maxr ci pn c2 res ->
  packet_taken maxr ci pn c1 res.
Proof.
  intros E (Q1 & Qn & Q2 & Q3). destruct (db_eq_wf _ _ E) as (_ & M).
  assert (Hn : nranges c2 = nranges c1) by apply E.
  split; [exact Q1 |]. split; [lia |]. split.
  - intros x Hx. rewrite <- M. now apply Q2.
  - intros Hroom. rewrite <- Hn in Hroom.
    destruct (Q3 Hroom) as (Q4 & Q5). split; [exact Q4 |].
    intros x Hx. apply Q5. now rewrite M.
Qed.

(** A result that leaves the database as it was, for a packet number
    that the database holds or in an array that is full. *)
Lemma packet_taken_same ci pn c rc s2 :
  db_wf maxr c -> db_eq c (rctx s2 ci) ->
  (nranges c < maxr -> rc = NJT_OK /\ db_mem c pn) ->
  packet_taken maxr ci pn c (rc, s2).
Proof.
  intros Hwf E Hin. destruct (db_eq_wf _ _ E) as (W & M).
  unfold packet_taken. cbn [fst snd]. split; [now apply W |].
  split; [destruct E as (_ & _ & -> & _); lia |].
  split; [intros x Hx; left; now apply M |].
  intros Hroom. destruct (Hin Hroom) as (-> & Hpn).
  split; [reflexivity |].
  intros x [Hx | ->]; apply M; assumption.
Qed.

Lemma ack_behind_spec now ci pkt pp s :
  let c := rctx s ci in
  let pn := pkt_pn pkt in
  0 < maxr < 2 ^ 64 -> db_wf maxr c -> largest_range c < 2 ^ 62 ->
  0 <= pn < largest_range c - first_range c ->
  nranges c < maxr
  \/ ((forall t, keeps_db (ack_sender t))
      /\ forall t a b, keeps_db (fun s i => range_sender t s i a b)) ->
  packet_taken maxr ci pn c
    (ack_behind maxr ack_sender range_sender now ci pkt pp
                (largest_range c - first_range c) s).
Proof.
  intros c pn Hmax Hwf HL Hpn Hext.
  pose proof Hwf as (Hlen & Hn & Hn0 & Hdb).
  destruct Hdb as [(Hu & _) | (_ & Hfr & Hwfr)];
    [unfold NJT_QUIC_UNSET_PN in Hu; lia |].
  set (S0 := largest_range c - first_range c) in *.
  unfold ack_behind. cbv zeta. fold c pn.
  pose proof (ack_lookup_spec ci pn s Hlen (conj Hn0 Hn) (proj2 Hmax) HL Hfr
                Hwfr (proj1 Hpn) (Z.to_nat (nranges c)) 0%nat eq_refl) as Hlook.
  cbv zeta in Hlook. cbn [firstn low] in Hlook. fold c S0 in Hlook.
  specialize (Hlook (proj2 Hpn)). change (Z.of_nat 0) with 0 in Hlook.
  destruct (ack_lookup (Z.to_nat (nranges c)) ci pn 0 S0 s)
    as [s' | i gs ge | i sm].
  - (* taken in by the loop *)
    destruct Hlook as ((_ & _ & R3 & R4) & Rn). fold c in R4.
    split; [exact R3 |]. cbn [fst snd]. split; [lia |].
    split; [intros x; apply R4 |].
    intros _. split; [reflexivity | intros x; apply R4].
  - (* a gap is split *)
    destruct Hlook as (A & r & B & Hrs & -> & HA & -> & -> & Hgap).
    set (si := low S0 A) in *.
    assert (HnA : Z.of_nat (List.length A) < nranges c <= maxr) by lia.
    destruct (gap_wf c A B r) as (HwfA & Hg & Hr & H0 & HsiS & HwfT);
      try assumption.
    cbv zeta in HsiS. fold S0 in HsiS, H0, HwfT. fold si in HsiS, H0, HwfT.
    set (T := firstn (Z.to_nat (nranges c) - List.length A - 1) B) in *.
    assert (Hext' : nranges (rctx s ci) < maxr \/ keeps_db (ack_sender now)).
    { destruct Hext as [H | (H & _)]; [now left | right; apply H]. }
    destruct (ack_full_db now ci pp (need_ack pkt) s Hext') as (E3 & Hok).
    fold c in E3, Hok.
    destruct (ack_full maxr ack_sender now ci pp (need_ack pkt) s)
      as [rc s3].
    cbn [snd] in E3.
    destruct (Z.eqb_spec rc NJT_OK) as [-> | Hrc]; cbn [negb].
    2:{ apply packet_taken_same; [exact Hwf | exact E3 |].
        intros Hroom. specialize (Hok Hroom). injection Hok as Hok _.
        contradiction. }
    destruct E3 as (e1 & e2 & e3 & e4).
    rewrite e4, Hrs, range_at_app, range_upd_app.
    rewrite (wrap_small (si - 1 - pn)) by lia.
    rewrite (wrap_small (si - 1 - pn - 1)) by lia.
    rewrite (wrap_small (pn - (si - 1 - gap r))) by lia.
    rewrite (wrap_small (pn - (si - 1 - gap r) - 1)) by lia.
    set (r' := mkRange (pn - (si - 1 - gap r) - 1) (range r)).
    set (c4 := set_ranges (A ++ r' :: B) (rctx s3 ci)).
    pose proof (insert_sem ci (set_rctx ci c4 s3) A r' B (si - 1 - pn - 1) 0)
      as Hins.
    cbv zeta in Hins. rewrite rctx_set_rctx in Hins.
    change (ranges c4) with (A ++ r' :: B) in Hins.
    change (nranges c4) with (nranges (rctx s3 ci)) in Hins.
    change (largest_range c4) with (largest_range (rctx s3 ci)) in Hins.
    change (first_range c4) with (first_range (rctx s3 ci)) in Hins.
    rewrite e1, e2, e3 in Hins. fold S0 in Hins.
    set (m := if nranges c <? maxr
              then (Z.to_nat (nranges c) - List.length A)%nat
              else (Z.to_nat (nranges c) - List.length A - 1)%nat) in *.
    assert (HX : firstn m (r' :: B) = firstn m (r' :: T)
                 /\ (nranges c < maxr -> firstn m (r' :: B) = r' :: T)).
    { assert (HT : r' :: T
                   = firstn (Z.to_nat (nranges c) - List.length A) (r' :: B)).
      { subst T.
        remember (Z.to_nat (nranges c) - List.length A - 1)%nat as k eqn:Ek.
        replace (Z.to_nat (nranges c) - List.length A)%nat with (S k) by lia.
        reflexivity. }
      split.
      - rewrite HT, firstn_firstn. f_equal. subst m.
        destruct (nranges c <? maxr); lia.
      - intros Hroom. rewrite HT. f_equal. subst m.
        destruct (Z.ltb_spec (nranges c) maxr); lia. }
    destruct HX as (HX & HXroom).
    assert (Hwf' : ranges_wf pn (r' :: T)).
    { cbn [ranges_wf]. subst r'. cbn [gap range].
      replace (pn - (pn - (si - 1 - gap r) - 1) - 2 - range r)
        with (si - gap r - 2 - range r) by lia.
      repeat split; try lia. exact HwfT. }
    assert (Hl4 : Z.of_nat (List.length (A ++ r' :: B)) = maxr).
    { rewrite <- Hlen, Hrs, !length_app. reflexivity. }
    assert (Hn4 : Z.of_nat (List.length A) <= nranges c <= maxr) by lia.
    specialize (Hins eq_refl Hl4 (proj2 Hmax) Hn4
                     (or_intror (proj1 HnA)) HL Hfr).
    destruct Hins as (F2 & Fn & F3).
    { apply ranges_wf_app. split; [exact HwfA |].
      cbn [ranges_wf gap range]. fold si.
      replace (si - (si - 1 - pn - 1) - 2 - 0) with pn by lia.
      repeat split; try lia. rewrite HX. now apply ranges_wf_firstn. }
    unfold packet_taken. cbn [fst snd]. split; [exact F2 |].
    split; [exact Fn |].
    assert (Hnew : forall x X,
              in_ranges S0 (A ++ mkRange (si - 1 - pn - 1) 0 :: X) x
              <-> in_ranges S0 A x \/ x = pn \/ in_ranges pn X x).
    { intros x X. rewrite in_ranges_app. cbn [in_ranges gap range]. fold si.
      replace (si - (si - 1 - pn - 1) - 2 - 0) with pn by lia.
      intuition lia. }
    assert (Hold : forall x,
              in_ranges pn (r' :: T) x
              <-> si - gap r - 2 - range r <= x <= si - gap r - 2
                  \/ in_ranges (si - gap r - 2 - range r) T x).
    { intros x. cbn [in_ranges]. subst r'. cbn [gap range].
      replace (pn - (pn - (si - 1 - gap r) - 1) - 2 - range r)
        with (si - gap r - 2 - range r) by lia.
      intuition lia. }
    assert (Hgm : forall x,
              db_mem c x
              <-> (S0 <= x <= largest_range c \/ in_ranges S0 A x)
                  \/ si - gap r - 2 - range r <= x <= si - gap r - 2
                  \/ in_ranges (si - gap r - 2 - range r) T x).
    { intros x. apply (gap_mem c A B r); assumption. }
    split.
    + intros x Hx. apply F3 in Hx. rewrite Hnew, HX in Hx. rewrite Hgm.
      destruct Hx as [Hx | [Hx | [Hx | Hx]]]; try tauto.
      apply in_ranges_firstn, Hold in Hx. tauto.
    + intros Hroom. split; [reflexivity |].
      intros x Hx. apply F3. rewrite Hnew, (HXroom Hroom), Hold.
      rewrite Hgm in Hx. tauto.
  - (* below every range *)
    destruct Hlook as (-> & -> & Hsm). fold c.
    set (V := db_ranges c) in *. set (sm := low S0 V) in *.
    pose proof (low_le _ _ Hwfr ltac:(lia)) as Hsm0. fold sm in Hsm0.
    assert (HVlen : List.length V = Z.to_nat (nranges c)).
    { subst V. unfold db_ranges. rewrite length_firstn. lia. }
    assert (Hi : nranges c = Z.of_nat (List.length V)) by lia.
    rewrite (wrap_small (sm - 1)) by lia.
    destruct (Z.eqb_spec pn (sm - 1)) as [Hadj | Hadj].
    { (* the last range grows downwards *)
      assert (Hsplit : ranges c = V ++ skipn (Z.to_nat (nranges c)) (ranges c))
        by (symmetry; apply firstn_skipn).
      destruct (grow_above_spec c V _ 1 Hsplit HL Hfr Hwfr ltac:(lia))
        as (fr' & A' & Hgrow & HlenA & Hfr' & HwfA' & Hlow & Hmem).
      { fold S0 sm. lia. }
      rewrite <- Hi in Hgrow. rewrite Hgrow.
      fold S0 in Hlow, Hmem. fold sm in Hlow, Hmem.
      destruct (db_intro c
                  (set_range_db (largest_range c) fr' (nranges c)
                     (A' ++ skipn (Z.to_nat (nranges c)) (ranges c))
                     (pending_ack c) c)
                  fr' (nranges c) _ A' HL eq_refl) as (_ & F2 & F3);
        try assumption.
      - rewrite length_app, length_skipn. lia.
      - lia.
      - rewrite firstn_left by lia. apply firstn_all2. lia.
      - unfold packet_taken. cbn [fst snd]. rewrite rctx_set_rctx.
        split; [exact F2 |].
        split; [cbn [nranges set_range_db]; lia |].
        assert (M : forall x,
                  db_mem (set_range_db (largest_range c) fr' (nranges c)
                            (A' ++ skipn (Z.to_nat (nranges c)) (ranges c))
                            (pending_ack c) c) x
                  <-> db_mem c x \/ x = pn).
        { intros x. rewrite F3, Hmem, (db_mem_raw c x HL). fold S0 V.
          intuition lia. }
        split; [intros x; apply M |].
        intros _. split; [reflexivity | intros x; apply M]. }
    destruct (Z.eqb_spec (nranges c) maxr) as [Hfull | Hroom].
    { (* too old to keep *)
      destruct Hext as [Hext | (_ & Hsar)]; [lia |].
      destruct (need_ack pkt).
      - pose proof (Hsar now pn pn s ci) as E. cbv beta in E. fold c in E.
        destruct (range_sender now s ci pn pn) as [rc s2]. cbn [snd] in E.
        apply packet_taken_same; [exact Hwf | exact E | lia].
      - apply packet_taken_same; [exact Hwf | apply db_eq_refl | lia]. }
    (* a new entry at the tail *)
    destruct (array_split (ranges c) (Z.to_nat (nranges c)) ltac:(lia))
      as (A & r & B & Hrs & HA).
    assert (HAV : A = V).
    { subst V. unfold db_ranges. rewrite Hrs, firstn_left by lia.
      rewrite <- HA. symmetry. apply firstn_all. }
    subst A.
    rewrite (wrap_small (sm - 2)) by lia.
    rewrite (wrap_small (sm - 2 - pn)) by lia.
    rewrite Hi at 1.
    pose proof (insert_sem ci s V r B (sm - 2 - pn) 0 Hrs Hlen (proj2 Hmax))
      as Hins. cbv zeta in Hins. fold c in Hins.
    assert (Hm : (if nranges c <? maxr
                  then (Z.to_nat (nranges c) - List.length V)%nat
                  else (Z.to_nat (nranges c) - List.length V - 1)%nat)
                 = 0%nat).
    { destruct (nranges c <? maxr); lia. }
    rewrite Hm in Hins. cbn [firstn] in Hins.
    destruct Hins as (F2 & Fn & F3); try assumption; try lia.
    { apply ranges_wf_app. split; [exact Hwfr |].
      cbn [ranges_wf gap range]. fold S0 sm. repeat split; lia. }
    unfold packet_taken. cbn [fst snd]. split; [exact F2 |].
    split; [exact Fn |].
    assert (M : forall x,
              db_mem (rctx (ack_insert maxr ci (Z.of_nat (List.length V))
                              (sm - 2 - pn) 0 s) ci) x
              <-> db_mem c x \/ x = pn).
    { intros x. rewrite F3, (db_mem_raw c x HL). fold S0 V.
      rewrite in_ranges_app. cbn [in_ranges gap range]. fold sm.
      intuition lia. }
    split; [intros x; apply M |].
    intros _. split; [reflexivity | intros x; apply M].
Qed.

Lemma ack_front_spec now ci pkt pp s :
  let c := rctx s ci in
  let pn := pkt_pn pkt in
  0 < maxr < 2 ^ 64 -> db_wf maxr c -> largest_range c < 2 ^ 62 ->
  largest_range c + 1 < pn < 2 ^ 62 ->
  nranges c < maxr \/ keeps_db (ack_sender now) ->
  packet_taken maxr ci pn c
    (ack_front maxr ack_sender now ci pkt pp (largest_range c) s).
Proof.
  intros c pn Hmax Hwf HL Hpn Hext.
  pose proof Hwf as (Hlen & Hn & Hn0 & Hdb).
  destruct Hdb as [(Hu & _) | (_ & Hfr & Hwfr)];
    [unfold NJT_QUIC_UNSET_PN in Hu; lia |].
  set (S0 := largest_range c - first_range c) in *.
  unfold ack_front. cbv zeta. fold c pn.
  destruct (ack_full_db now ci pp (need_ack pkt) s Hext) as (E3 & Hok).
  fold c in E3, Hok.
  destruct (ack_full maxr ack_sender now ci pp (need_ack pkt) s) as [rc s3].
  cbn [snd] in E3.
  destruct (Z.eqb_spec rc NJT_OK) as [-> | Hrc]; cbn [negb].
  2:{ apply packet_taken_same; [exact Hwf | exact E3 |].
      intros Hroom. specialize (Hok Hroom). injection Hok as Hok _.
      contradiction. }
  destruct E3 as (e1 & e2 & e3 & e4).
  rewrite e2.
  rewrite (wrap_small (pn - largest_range c)) by lia.
  rewrite (wrap_small (pn - largest_range c - 2)) by lia.
  set (c5 := if need_ack pkt
             then set_send_ack NJT_QUIC_MAX_ACK_GAP
                    (set_largest_range pn (set_first_range 0 (rctx s3 ci)))
             else set_largest_range pn (set_first_range 0 (rctx s3 ci))).
  assert (Hc5 : largest_range c5 = pn /\ first_range c5 = 0
                /\ nranges c5 = nranges c /\ ranges c5 = ranges c).
  { subst c5. destruct (need_ack pkt);
      cbn [largest_range first_range nranges ranges set_send_ack
           set_largest_range set_first_range set_range_db];
      repeat split; assumption. }
  destruct Hc5 as (g1 & g2 & g3 & g4).
  destruct (ranges c) as [| r0 B0] eqn:Hrs.
  { cbn [List.length] in Hlen. lia. }
  match goal with
  | |- packet_taken _ _ _ _ (_, ack_insert _ _ _ _ _ ?st) => set (s5 := st)
  end.
  pose proof (insert_sem ci s5 [] r0 B0 (pn - largest_range c - 2)
                (first_range c)) as Hins.
  cbv zeta in Hins. subst s5. rewrite rctx_set_rctx in Hins.
  rewrite g1, g2, g3, g4 in Hins. cbn [List.length app] in Hins.
  rewrite Z.sub_0_r in Hins. rewrite Nat.sub_0_r in Hins.
  set (m := if nranges c <? maxr
            then Z.to_nat (nranges c)
            else (Z.to_nat (nranges c) - 1)%nat) in *.
  assert (HX : firstn m (r0 :: B0) = firstn m (db_ranges c)
               /\ (nranges c < maxr -> firstn m (r0 :: B0) = db_ranges c)).
  { unfold db_ranges. rewrite Hrs. split.
    - rewrite firstn_firstn. f_equal. subst m.
      destruct (nranges c <? maxr); lia.
    - intros Hroom. subst m.
      destruct (Z.ltb_spec (nranges c) maxr); [reflexivity | lia]. }
  destruct HX as (HX & HXroom).
  assert (Hl5 : Z.of_nat (S (List.length B0)) = maxr) by exact Hlen.
  specialize (Hins eq_refl Hl5 (proj2 Hmax) ltac:(change (Z.of_nat 0) with 0; lia)).
  destruct Hins as (F2 & Fn & F3).
  { destruct (Z.ltb_spec (nranges c) maxr); [now left | right].
    change (Z.of_nat 0) with 0. lia. }
  { lia. }
  { lia. }
  { cbn [ranges_wf gap range].
    replace (pn - (pn - largest_range c - 2) - 2 - first_range c)
      with S0 by (subst S0; lia).
    repeat split; try lia. rewrite HX. now apply ranges_wf_firstn. }
  change (Z.of_nat 0) with 0 in F2, Fn, F3.
  unfold packet_taken. cbn [fst snd]. split; [exact F2 |].
  split; [exact Fn |].
  assert (Hnew : forall x X,
            in_ranges pn (mkRange (pn - largest_range c - 2) (first_range c)
                            :: X) x
            <-> S0 <= x <= largest_range c \/ in_ranges S0 X x).
  { intros x X. cbn [in_ranges gap range].
    replace (pn - (pn - largest_range c - 2) - 2 - first_range c)
      with S0 by (subst S0; lia).
    intuition lia. }
  split.
  - intros x Hx. apply F3 in Hx. rewrite Hnew, HX in Hx.
    rewrite (db_mem_raw c x HL). fold S0.
    destruct Hx as [Hx | [Hx | Hx]]; [right; lia | tauto |].
    apply in_ranges_firstn in Hx. tauto.
  - intros Hroom. split; [reflexivity |].
    intros x Hx. apply F3. rewrite Hnew, (HXroom Hroom).
    rewrite (db_mem_raw c x HL) in Hx. fold S0 in Hx.
    destruct Hx as [Hx | ->]; [tauto | left; lia].
Qed.

Lemma ack_packet_core now s pkt :
  let ci := njt_quic_get_send_ctx (pkt_level pkt) in
  let c := rctx s ci in
  let pn := pkt_pn pkt in
  0 < maxr < 2 ^ 64 -> db_wf maxr c -> 0 <= pn < 2 ^ 62 ->
  nranges c < maxr
  \/ ((forall t, keeps_db (ack_sender t))
      /\ forall t a b, keeps_db (fun s i => range_sender t s i a b)) ->
  keys_available (r_keys s) (ctx_level c) 1 = true ->
  packet_taken maxr ci pn c
    (njt_quic_ack_packet maxr keys_available ack_sender range_sender
                         now s pkt).
Proof.
  intros ci c pn Hmax Hwf Hpn Hext Hk.
  unfold njt_quic_ack_packet. cbv zeta. fold ci. fold c. fold pn.
  rewrite Hk. cbn [negb].
  set (pp := pending_ack c). clearbody pp.
  set (s1 := if need_ack pkt then ack_needed now ci pn s else s).
  assert (E1 : db_eq c (rctx s1 ci)).
  { subst s1. destruct (need_ack pkt);
      [apply ack_needed_db | apply db_eq_refl]. }
  apply (packet_taken_eq _ _ _ _ _ E1).
  assert (Hwf1 : db_wf maxr (rctx s1 ci))
    by (apply (db_eq_wf _ _ E1); exact Hwf).
  assert (Hext1 : nranges (rctx s1 ci) < maxr
                  \/ ((forall t, keeps_db (ack_sender t))
                      /\ forall t a b,
                           keeps_db (fun s i => range_sender t s i a b))).
  { destruct E1 as (_ & _ & -> & _). exact Hext. }
  clearbody s1. clear E1 Hwf Hext Hk c.
  set (c1 := rctx s1 ci) in *.
  pose proof Hwf1 as (Hlen & Hn & Hn0 & Hdb).
  destruct (Z.eqb_spec (largest_range c1) NJT_QUIC_UNSET_PN) as [Hu | Hu].
  { (* the first packet *)
    destruct Hdb as [(_ & Hf0 & Hn00) | (HL & _)];
      [| unfold NJT_QUIC_UNSET_PN in Hu; lia].
    unfold packet_taken. cbn [fst snd]. rewrite rctx_set_ack, rctx_set_rctx.
    assert (Hm : forall x, db_mem (set_largest_range pn c1) x <-> x = pn).
    { intros x. unfold db_mem, db_ranges, set_largest_range.
      cbn [largest_range first_range nranges ranges set_range_db].
      rewrite Hf0, Hn00. change (Z.to_nat 0) with 0%nat.
      cbn [firstn in_ranges]. unfold NJT_QUIC_UNSET_PN.
      split; [intros (_ & [H | []]); lia |].
      intros ->. split; [lia | left; lia]. }
    split; [| split; [| split]].
    - unfold db_wf, db_sound, db_ranges, set_largest_range.
      cbn [largest_range first_range nranges ranges set_range_db].
      rewrite Hf0, Hn00. change (Z.to_nat 0) with 0%nat.
      cbn [firstn ranges_wf].
      split; [exact Hlen |]. split; [lia |]. split; [lia |].
      right. repeat split; lia.
    - unfold set_largest_range. cbn [nranges set_range_db]. lia.
    - intros x Hx. right. now apply Hm.
    - intros _. split; [reflexivity |].
      intros x [Hx | Hx]; [| now apply Hm].
      exfalso. destruct Hx as (Hx & _). contradiction. }
  destruct Hdb as [(Hu' & _) | (HL & Hfr & Hwfr)]; [contradiction |].
  destruct (Z.eqb_spec (largest_range c1) pn) as [Hb | Hb].
  { apply packet_taken_same; [exact Hwf1 | apply db_eq_refl |].
    intros _. split; [reflexivity |].
    apply db_mem_raw; [exact HL | left; lia]. }
  rewrite (wrap_small (largest_range c1 - first_range c1)) by lia.
  destruct (Z.ltb_spec (largest_range c1) pn) as [Hup | Hdown].
  - (* above the largest *)
    rewrite (wrap_small (pn - largest_range c1)) by lia.
    destruct (Z.eqb_spec (pn - largest_range c1) 1) as [Hnext | Hnext].
    + (* the next packet: the first range grows upwards *)
      rewrite (wrap_small (first_range c1 + 1)) by lia.
      unfold packet_taken. cbn [fst snd]. rewrite rctx_set_ack, rctx_set_rctx.
      set (c2 := set_largest_range pn (set_first_range (first_range c1 + 1) c1)).
      assert (Hm : forall x, db_mem c2 x <-> db_mem c1 x \/ x = pn).
      { intros x. rewrite (db_mem_raw c1 x HL).
        unfold db_mem, db_ranges. subst c2.
        unfold set_largest_range, set_first_range.
        cbn [largest_range first_range nranges ranges set_range_db].
        fold (db_ranges c1).
        replace (pn - (first_range c1 + 1))
          with (largest_range c1 - first_range c1) by lia.
        unfold NJT_QUIC_UNSET_PN. intuition lia. }
      split; [| split; [| split]].
      * unfold db_wf, db_sound, db_ranges. subst c2.
        unfold set_largest_range, set_first_range.
        cbn [largest_range first_range nranges ranges set_range_db].
        fold (db_ranges c1).
        replace (pn - (first_range c1 + 1))
          with (largest_range c1 - first_range c1) by lia.
        split; [exact Hlen |]. split; [lia |]. split; [lia |].
        right. repeat split; try lia. exact Hwfr.
      * subst c2. unfold set_largest_range, set_first_range.
        cbn [nranges set_range_db]. lia.
      * intros x. apply Hm.
      * intros _. split; [reflexivity | intros x; apply Hm].
    + (* a new gap in front *)
      apply ack_front_spec; try assumption; fold c1; [lia |].
      destruct Hext1 as [H | (H & _)]; [now left | right; apply H].
  - (* below the largest *)
    set (s2 := if need_ack pkt
               then set_rctx ci (set_send_ack NJT_QUIC_MAX_ACK_GAP c1) s1
               else s1).
    assert (E2 : db_eq c1 (rctx s2 ci)).
    { subst s2. destruct (need_ack pkt); [| apply db_eq_refl].
      rewrite rctx_set_rctx. repeat split. }
    destruct (Z.leb_spec (largest_range c1 - first_range c1) pn) as [Hin | Hlow];
      destruct (Z.leb_spec pn (largest_range c1)) as [Hle | Hgt];
      cbn [andb]; try lia.
    + (* already in the first range *)
      apply packet_taken_same; [exact Hwf1 | exact E2 |].
      intros _. split; [reflexivity |].
      apply db_mem_raw; [exact HL | left; lia].
    + apply (packet_taken_eq _ _ _ _ _ E2).
      pose proof E2 as (e1 & e2 & e3 & e4).
      rewrite <- e1, <- e2.
      apply ack_behind_spec; try assumption.
      * apply (db_eq_wf _ _ E2). exact Hwf1.
      * rewrite e1. exact HL.
      * rewrite e1, e2. lia.
      * rewrite e3. exact Hext1.
Qed.

End AckPacket.

(** ** The database after a packet *)

Section AckPacketDb.
Context {Tree Path Keys : Type}.
Variable maxr : Z.
Variable keys_available : Keys -> ssl_encryption_level_t -> Z -> bool.
Variable ack_sender :
  Z -> njt_quic_recv_t Tree Path Keys -> ctx_ix
  -> Z * njt_quic_recv_t Tree Path Keys.
Variable range_sender :
  Z -> njt_quic_recv_t Tree Path Keys -> ctx_ix -> Z -> Z
  -> Z * njt_quic_recv_t Tree Path Keys.
Implicit Types (s : njt_quic_recv_t Tree Path Keys).

(** X9. With room in the array, [njt_quic_ack_packet] returns [NJT_OK]
    and adds exactly the packet number of the packet to the database of
    its context, which stays well formed. *)
Theorem ack_packet_records now s pkt :
  let ci := njt_quic_get_send_ctx (pkt_level pkt) in
  let c := rctx s ci in
  let res := njt_quic_ack_packet maxr keys_available ack_sender range_sender
                                 now s pkt in
  0 < maxr < 2 ^ 64 -> db_wf maxr c -> nranges c < maxr ->
  0 <= pkt_pn pkt < 2 ^ 62 ->
  keys_available (r_keys s) (ctx_level c) 1 = true ->
  fst res = NJT_OK
  /\ db_wf maxr (rctx (snd res) ci)
  /\ forall x, db_mem (rctx (snd res) ci) x <-> db_mem c x \/ x = pkt_pn pkt.
Proof.
  intros ci c res Hmax Hwf Hroom Hpn Hk.
  destruct (ack_packet_core maxr keys_available ack_sender range_sender
              now s pkt Hmax Hwf Hpn (or_introl Hroom) Hk)
    as (Q1 & _ & Q2 & Q3).
  destruct (Q3 Hroom) as (Q4 & Q5).
  split; [exact Q4 |]. split; [exact Q1 |].
  intros x. split; [apply Q2 | apply Q5].
Qed.

(** X10. Whatever the state of the array, the database stays well formed
    and gains no packet number but that of the packet, provided the
    sender leaves the database alone when it emits an ACK. *)
Theorem ack_packet_sound now s pkt :
  let ci := njt_quic_get_send_ctx (pkt_level pkt) in
  let c := rctx s ci in
  let res := njt_quic_ack_packet maxr keys_available ack_sender range_sender
                                 now s pkt in
  0 < maxr < 2 ^ 64 -> db_wf maxr c -> 0 <= pkt_pn pkt < 2 ^ 62 ->
  (forall t, keeps_db (ack_sender t)) ->
  (forall t a b, keeps_db (fun s i => range_sender t s i a b)) ->
  db_wf maxr (rctx (snd res) ci)
  /\ forall x, db_mem (rctx (snd res) ci) x -> db_mem c x \/ x = pkt_pn pkt.
Proof.
  intros ci c res Hmax Hwf Hpn Hsa Hsar.
  destruct (keys_available (r_keys s) (ctx_level c) 1) eqn:Hk.
  - destruct (ack_packet_core maxr keys_available ack_sender range_sender
                now s pkt Hmax Hwf Hpn (or_intror (conj Hsa Hsar)) Hk)
      as (Q1 & _ & Q2 & _).
    split; [exact Q1 | exact Q2].
  - subst res. unfold njt_quic_ack_packet. fold ci. fold c. rewrite Hk.
    cbn [negb snd]. fold c. split; [exact Hwf | tauto].
Qed.

End AckPacketDb.

Lemma db_ctx_wf : db_wf 4 (rctx recv_conn Ix2).
Proof.
  change (rctx recv_conn Ix2) with db_ctx.
  split; [reflexivity |]. split; [cbn; lia | exact db_ctx_sound].
Qed.

(** Sample run: packet 4 arrives behind packets 5 and 6. *)
Lemma ack_packet_records_witness :
  fst (njt_quic_ack_packet 4 keys_ok ack_sent range_sent 100 recv_conn
                           late_pkt) = NJT_OK
  /\ (db_mem (rctx (snd (njt_quic_ack_packet 4 keys_ok ack_sent range_sent
                           100 recv_conn late_pkt)) Ix2) 4
      <-> db_mem (rctx recv_conn Ix2) 4 \/ 4 = pkt_pn late_pkt).
Proof.
  pose proof (ack_packet_records 4 keys_ok ack_sent range_sent 100 recv_conn
                late_pkt) as H.
  cbv zeta in H. destruct H as (H1 & _ & H3).
  - lia.
  - exact db_ctx_wf.
  - cbn. lia.
  - cbn. lia.
  - reflexivity.
  - split; [exact H1 | apply H3].
Defined.

Lemma ack_packet_sound_witness :
  db_wf 4 (rctx (snd (njt_quic_ack_packet 4 keys_ok ack_sent range_sent 100
                        recv_conn late_pkt)) Ix2)
  /\ (db_mem (rctx (snd (njt_quic_ack_packet 4 keys_ok ack_sent range_sent
                           100 recv_conn late_pkt)) Ix2) 7
      -> db_mem (rctx recv_conn Ix2) 7 \/ 7 = pkt_pn late_pkt).
Proof.
  pose proof (ack_packet_sound 4 keys_ok ack_sent range_sent 100 recv_conn
                late_pkt) as H.
  cbv zeta in H. destruct H as (H1 & H2).
  - lia.
  - exact db_ctx_wf.
  - cbn. lia.
  - intros t s i. repeat split.
  - intros t a b s i. repeat split.
  - split; [exact H1 | apply H2].
Defined.

(** ** Owed acknowledgments *)

Section GenerateAck.
Context {Tree Path Keys : Type}.
Variable maxr : Z.
Variable keys_available : Keys -> ssl_encryption_level_t -> Z -> bool.
Variable ack_sender :
  Z -> njt_quic_recv_t Tree Path Keys -> ctx_ix
  -> Z * njt_quic_recv_t Tree Path Keys.
Variable range_sender :
  Z -> njt_quic_recv_t Tree Path Keys -> ctx_ix -> Z -> Z
  -> Z * njt_quic_recv_t Tree Path Keys.
Implicit Types (s : njt_quic_recv_t Tree Path Keys) (c : njt_quic_send_ctx_t).

(** X11. An owed ACK is not forgotten: when [njt_quic_generate_ack]
    returns [NJT_OK], no ACK is owed any more, or the push timer is set,
    or the connection is closing. *)
Theorem generate_ack_owed now s ci :
  let res := njt_quic_generate_ack ack_sender now s ci in
  fst res = NJT_OK ->
  send_ack (rctx (snd res) ci) = 0
  \/ timer_set (push (r_qc (snd res))) = true
  \/ closing (params (r_qc (snd res))) = true.
Proof.
  cbv zeta. unfold njt_quic_generate_ack. cbv zeta.
  destruct (Z.eqb_spec (send_ack (rctx s ci)) 0) as [H0 | H0].
  { intros _. left. exact H0. }
  match goal with
  | |- fst (match ?d with Some _ => _ | None => _ end) = _ -> _ =>
      destruct d as [delay |]
  end.
  - destruct (timer_set (push (r_qc s))) eqn:Ht; cbn [negb andb].
    + intros _. right. left. exact Ht.
    + destruct (closing (params (r_qc s))) eqn:Hc; cbn [negb].
      * intros _. right. right. exact Hc.
      * intros _. right. left. reflexivity.
  - destruct (ack_sender now s ci) as [rc s1].
    destruct (negb (rc =? NJT_OK)); cbn [fst snd].
    + intros H. discriminate.
    + intros _. left. rewrite rctx_set_rctx. reflexivity.
Qed.

(** X12. A delayed ACK is due [max_ack_delay] after the first packet
    that asked for it, not after the call: the push timer is set to
    [ack_delay_start + max_ack_delay]. *)
Theorem generate_ack_deadline now s ci :
  let c := rctx s ci in
  let start := ack_delay_start (ack_of s ci) in
  let qc := r_qc s in
  is_application (ctx_level c) = true -> frames c = [] ->
  0 < send_ack c < NJT_QUIC_MAX_ACK_GAP ->
  0 <= start <= now -> now - start < tp_max_ack_delay s ->
  start + tp_max_ack_delay s < 2 ^ 64 ->
  timer_set (push qc) = false -> closing (params qc) = false ->
  njt_quic_generate_ack ack_sender now s ci
  = (NJT_OK,
     set_r_qc (set_push (mkEvent true (posted (push qc)) (handler (push qc))
                                 (start + tp_max_ack_delay s)) qc) s).
Proof.
  cbv zeta. intros Happ Hfr Hsa Hst Hel Hmad Hts Hcl.
  unfold njt_quic_generate_ack. cbv zeta.
  destruct (Z.eqb_spec (send_ack (rctx s ci)) 0) as [H0 | H0]; [lia |].
  rewrite Happ, Hfr. cbn [andb].
  destruct (Z.ltb_spec (send_ack (rctx s ci)) NJT_QUIC_MAX_ACK_GAP);
    [| lia]. cbn [andb].
  rewrite (wrap_small (now - ack_delay_start (ack_of s ci))) by lia.
  destruct (Z.ltb_spec (now - ack_delay_start (ack_of s ci))
              (tp_max_ack_delay s)); [| lia].
  rewrite Hts, Hcl. cbn [negb andb]. unfold njt_add_timer.
  rewrite (wrap_small (tp_max_ack_delay s
                       - (now - ack_delay_start (ack_of s ci)))) by lia.
  replace (now + (tp_max_ack_delay s
                  - (now - ack_delay_start (ack_of s ci))))
    with (ack_delay_start (ack_of s ci) + tp_max_ack_delay s) by lia.
  rewrite wrap_small by lia. reflexivity.
Qed.

(** The counter [send_ack] is written at the head of
    [njt_quic_ack_packet] and where a packet is found out of order, and
    nowhere else. *)
Lemma grow_above_send_ack i v c : send_ack (grow_above i v c) = send_ack c.
Proof. unfold grow_above. destruct (i =? 0); reflexivity. Qed.

Lemma ack_insert_send_ack ci i g rg s :
  send_ack (rctx (ack_insert maxr ci i g rg s) ci) = send_ack (rctx s ci).
Proof.
  unfold ack_insert. rewrite rctx_set_rctx.
  destruct (_ <? _); reflexivity.
Qed.

Lemma ack_lookup_send_ack ci pn : forall todo i sm s,
  match ack_lookup todo ci pn i sm s with
  | Found s' => send_ack (rctx s' ci) = send_ack (rctx s ci)
  | _ => True
  end.
Proof.
  induction todo as [| todo IH]; intros i sm s; cbn [ack_lookup]; [exact I |].
  destruct (_ && _).
  - destruct (_ =? _).
    { rewrite rctx_set_rctx. unfold gap_filled.
      destruct (negb _); cbn [send_ack set_nranges set_ranges set_range_db];
        apply grow_above_send_ack. }
    destruct (_ =? _); [rewrite rctx_set_rctx; reflexivity |].
    destruct (_ =? _); [| exact I].
    rewrite rctx_set_rctx. unfold gap_head.
    rewrite grow_above_send_ack. reflexivity.
  - destruct (_ && _); [reflexivity | apply IH].
Qed.

Lemma ack_full_room now ci pp need s :
  nranges (rctx s ci) < maxr ->
  ack_full maxr ack_sender now ci pp need s = (NJT_OK, s).
Proof.
  intros H. unfold ack_full.
  destruct (Z.eqb_spec (nranges (rctx s ci)) maxr); [lia | reflexivity].
Qed.

Lemma ack_behind_send_ack now ci pkt pp sm s :
  nranges (rctx s ci) < maxr ->
  send_ack (rctx (snd (ack_behind maxr ack_sender range_sender now ci pkt pp
                                   sm s)) ci)
  = send_ack (rctx s ci).
Proof.
  intros Hroom. unfold ack_behind. cbv zeta.
  pose proof (ack_lookup_send_ack ci (pkt_pn pkt)
                (Z.to_nat (nranges (rctx s ci))) 0 sm s) as Hl.
  destruct (ack_lookup (Z.to_nat (nranges (rctx s ci))) ci (pkt_pn pkt) 0 sm s)
    as [s' | i gs ge | i sm'].
  - exact Hl.
  - rewrite ack_full_room by exact Hroom.
    change (NJT_OK =? NJT_OK) with true. cbn [negb snd].
    rewrite ack_insert_send_ack, rctx_set_rctx. reflexivity.
  - destruct (_ =? _); cbn [snd].
    + rewrite rctx_set_rctx. apply grow_above_send_ack.
    + destruct (Z.eqb_spec (nranges (rctx s ci)) maxr); [lia |].
      cbn [snd]. apply ack_insert_send_ack.
Qed.

Lemma ack_front_send_ack now ci pkt pp base s :
  nranges (rctx s ci) < maxr ->
  send_ack (rctx (snd (ack_front maxr ack_sender now ci pkt pp base s)) ci)
  = if need_ack pkt then NJT_QUIC_MAX_ACK_GAP else send_ack (rctx s ci).
Proof.
  intros Hroom. unfold ack_front. cbv zeta.
  rewrite ack_full_room by exact Hroom.
  change (NJT_OK =? NJT_OK) with true. cbn [negb snd].
  rewrite ack_insert_send_ack, rctx_set_rctx.
  destruct (need_ack pkt); reflexivity.
Qed.

(** X13. The second packet in a row that asks for an ACK, and any such
    packet out of order, is acknowledged by the next call of
    [njt_quic_generate_ack]: [send_ack] is at least [NJT_QUIC_MAX_ACK_GAP],
    and the call goes to the sender without delay. *)
Theorem ack_packet_then_generate now s pkt :
  let ci := njt_quic_get_send_ctx (pkt_level pkt) in
  let c := rctx s ci in
  let pn := pkt_pn pkt in
  let s' := snd (njt_quic_ack_packet maxr keys_available ack_sender
                                     range_sender now s pkt) in
  keys_available (r_keys s) (ctx_level c) 1 = true ->
  need_ack pkt = true -> nranges c < maxr ->
  0 <= pn < 2 ^ 62 ->
  (0 < send_ack c < 2 ^ 64 - 1
   \/ (0 <= largest_range c < 2 ^ 62
       /\ pn <> largest_range c /\ pn <> largest_range c + 1)) ->
  NJT_QUIC_MAX_ACK_GAP <= send_ack (rctx s' ci)
  /\ forall t,
       njt_quic_generate_ack ack_sender t s' ci
       = (let '(rc, s2) := ack_sender t s' ci in
          if negb (rc =? NJT_OK) then (NJT_ERROR, s2)
          else (NJT_OK, set_rctx ci (set_send_ack 0 (rctx s2 ci)) s2)).
Proof.
  intros ci c pn s' Hk Hneed Hroom Hpn Hcase.
  assert (Hsa : NJT_QUIC_MAX_ACK_GAP <= send_ack (rctx s' ci)).
  { subst s'. unfold njt_quic_ack_packet. cbv zeta. fold ci. fold c. fold pn.
    rewrite Hk, Hneed. cbn [negb].
    set (s1 := ack_needed now ci pn s).
    assert (E1 : db_eq c (rctx s1 ci)) by apply ack_needed_db.
    destruct E1 as (e1 & e2 & e3 & e4).
    assert (Hs1 : send_ack (rctx s1 ci) = wrap (send_ack c + 1)).
    { subst s1. unfold ack_needed. cbv zeta. rewrite rctx_set_rctx.
      set (s0 := set_r_qc (post_push (r_qc s)) s).
      assert (H1 : rctx s0 ci = rctx s ci) by (destruct ci; reflexivity).
      assert (H2 : rctx (if send_ack (rctx s0 ci) =? 0
                         then set_ack ci (set_ack_delay_start now
                                            (ack_of s0 ci)) s0
                         else s0) ci = rctx s ci).
      { destruct (_ =? 0); [rewrite rctx_set_ack |]; exact H1. }
      rewrite H2. destruct (_ || _); reflexivity. }
    clearbody s1. rewrite e1.
    assert (Hroom1 : nranges (rctx s1 ci) < maxr) by (rewrite e3; exact Hroom).
    unfold NJT_QUIC_MAX_ACK_GAP.
    destruct (Z.eqb_spec (largest_range c) NJT_QUIC_UNSET_PN) as [Hu | Hu].
    { cbn [snd]. rewrite rctx_set_ack, rctx_set_rctx.
      change (send_ack (set_largest_range pn (rctx s1 ci)))
        with (send_ack (rctx s1 ci)).
      rewrite Hs1. destruct Hcase as [H | (H & _)];
        [rewrite wrap_small; lia | unfold NJT_QUIC_UNSET_PN in Hu; lia]. }
    destruct (Z.eqb_spec (largest_range c) pn) as [Hb | Hb].
    { cbn [snd]. rewrite Hs1. destruct Hcase as [H | (_ & H & _)];
        [rewrite wrap_small; lia | congruence]. }
    destruct (Z.ltb_spec (largest_range c) pn) as [Hup | Hdown].
    - destruct (Z.eqb_spec (wrap (pn - largest_range c)) 1) as [Hn | Hn].
      + cbn [snd]. rewrite rctx_set_ack, rctx_set_rctx.
        change (send_ack (set_largest_range pn
                            (set_first_range
                               (wrap (first_range (rctx s1 ci) + 1))
                               (rctx s1 ci))))
          with (send_ack (rctx s1 ci)).
        rewrite Hs1. destruct Hcase as [H | (HL & _ & H)];
          [rewrite wrap_small; lia |].
        exfalso. apply H. rewrite wrap_small in Hn by lia. lia.
      + rewrite ack_front_send_ack by exact Hroom1. rewrite Hneed.
        unfold NJT_QUIC_MAX_ACK_GAP. lia.
    - match goal with
      | |- context [if (?a <=? pn) && (pn <=? ?b) then _ else _] =>
          destruct ((a <=? pn) && (pn <=? b))
      end.
      + cbn [snd]. rewrite rctx_set_rctx. cbn. lia.
      + rewrite ack_behind_send_ack; rewrite rctx_set_rctx;
          [cbn; lia | exact Hroom1]. }
  split; [exact Hsa |].
  intros t. unfold njt_quic_generate_ack. cbv zeta.
  unfold NJT_QUIC_MAX_ACK_GAP in *.
  destruct (Z.eqb_spec (send_ack (rctx s' ci)) 0) as [H0 | H0]; [lia |].
  destruct (Z.ltb_spec (send_ack (rctx s' ci)) 2) as [H2 | H2]; [lia |].
  rewrite andb_false_r. cbn [andb].
  destruct (is_application _); reflexivity.
Qed.

End GenerateAck.

(** Sample run: one packet waits for an ACK since millisecond 90; at
    millisecond 100 the ACK is put off until millisecond 115. *)
Lemma generate_ack_owed_witness :
  send_ack (rctx (snd (njt_quic_generate_ack ack_sent 100 recv_conn Ix2)) Ix2)
  = 0
  \/ timer_set (push (r_qc (snd (njt_quic_generate_ack ack_sent 100 recv_conn
                                  Ix2)))) = true
  \/ closing (params (r_qc (snd (njt_quic_generate_ack ack_sent 100 recv_conn
                                   Ix2)))) = true.
Proof.
  apply (generate_ack_owed ack_sent 100 recv_conn Ix2). reflexivity.
Defined.

Lemma generate_ack_deadline_witness :
  njt_quic_generate_ack ack_sent 100 recv_conn Ix2
  = (NJT_OK,
     set_r_qc (set_push (mkEvent true false h_none (90 + 25))
                        (r_qc recv_conn)) recv_conn).
Proof.
  apply (generate_ack_deadline ack_sent 100 recv_conn Ix2).
  - reflexivity.
  - reflexivity.
  - unfold NJT_QUIC_MAX_ACK_GAP. cbn. lia.
  - cbn. lia.
  - cbn. lia.
  - cbn. lia.
  - reflexivity.
  - reflexivity.
Defined.

(** Sample run: packet 4 arrives out of order; the next call emits the
    ACK. *)
Lemma ack_packet_then_generate_witness :
  NJT_QUIC_MAX_ACK_GAP
  <= send_ack (rctx (snd (njt_quic_ack_packet 4 keys_ok ack_sent range_sent
                            100 recv_conn late_pkt)) Ix2)
  /\ fst (njt_quic_generate_ack ack_sent 100
            (snd (njt_quic_ack_packet 4 keys_ok ack_sent range_sent 100
                    recv_conn late_pkt)) Ix2) = NJT_OK.
Proof.
  pose proof (ack_packet_then_generate 4 keys_ok ack_sent range_sent 100
                recv_conn late_pkt) as H.
  cbv zeta in H. destruct H as (H1 & H2).
  - reflexivity.
  - reflexivity.
  - cbn. lia.
  - cbn. lia.
  - right. cbn. lia.
  - split; [exact H1 |]. rewrite H2. reflexivity.
Defined.

(** ** When the round-trip time is sampled *)

Section RttRule.
Context {Tree Path Buf : Type}.
Variable mtu : Path -> Z -> Z -> Z * Path.
Variable sack : njt_quic_streams_t Tree -> njt_quic_frame_t
                -> njt_quic_streams_t Tree.
Variable find : Tree -> Z -> option njt_quic_stream_t.
Variable parse : Buf -> option (Z * Z * Buf).
Implicit Types (qc q : njt_quic_connection_t Tree Path) (f : njt_quic_frame_t)
               (w : ack_walk_t Tree Path).

Lemma ack_one_max_pn now i max f w :
  max_pn (w_st (ack_one sack now i max f w))
  = if pnum f =? max then send_time f else max_pn (w_st w).
Proof.
  unfold ack_one. cbv zeta. cbn [w_st].
  destruct (pnum f =? max); cbn [oldest newest max_pn];
    repeat match goal with
           | |- context [if ?b then _ else _] => destruct b
           end; reflexivity.
Qed.

(** The walk leaves in [max_pn] the send time of the last frame taken
    that has the largest number of the range. *)
Lemma ack_walk_max_pn now i min max : forall (l : list njt_quic_frame_t) w,
  max_pn (w_st (snd (ack_walk sack now i min max l w)))
  = sent_at max (ack_taken min max l) (max_pn (w_st w)).
Proof.
  unfold sent_at.
  induction l as [| f l IH]; intros w; cbn [ack_walk ack_taken fold_left];
    [reflexivity |].
  destruct (max <? pnum f); [reflexivity |].
  destruct (min <=? pnum f).
  - rewrite IH, ack_one_max_pn. reflexivity.
  - specialize (IH w). destruct (ack_walk sack now i min max l w).
    exact IH.
Qed.

Lemma sent_at_none max (l : list njt_quic_frame_t) d :
  (forall f, In f l -> pnum f <> max) -> sent_at max l d = d.
Proof.
  unfold sent_at. revert d.
  induction l as [| f l IH]; intros d H; cbn [fold_left]; [reflexivity |].
  destruct (Z.eqb_spec (pnum f) max) as [E | E].
  - exfalso. apply (H f); [now left | exact E].
  - apply IH. intros g Hg. apply H. now right.
Qed.

Lemma sent_at_some max (l : list njt_quic_frame_t) d t :
  (forall f, In f l -> pnum f = max -> send_time f = t) ->
  (exists f, In f l /\ pnum f = max) -> sent_at max l d = t.
Proof.
  unfold sent_at. revert d.
  induction l as [| f l IH]; intros d Ht [g [Hg Hp]]; [destruct Hg |].
  cbn [fold_left].
  destruct (list_eq_dec_nil (filter (fun h => pnum h =? max) l)) as [Hn | Hn].
  - (* no such frame behind [f] *)
    assert (Hl : forall h, In h l -> pnum h <> max).
    { intros h Hh E.
      assert (Hin : In h (filter (fun h => pnum h =? max) l)).
      { apply filter_In. split; [exact Hh | now apply Z.eqb_eq]. }
      rewrite Hn in Hin. destruct Hin. }
    fold (sent_at max l (if pnum f =? max then send_time f else d)).
    rewrite sent_at_none by exact Hl.
    destruct Hg as [<- | Hg]; [| exfalso; now apply (Hl g)].
    rewrite Hp, Z.eqb_refl. apply Ht; [now left | exact Hp].
  - apply IH.
    + intros h Hh. apply Ht. now right.
    + destruct (filter (fun h => pnum h =? max) l) as [| h t'] eqn:Hf;
        [contradiction |].
      assert (Hin : In h (filter (fun h => pnum h =? max) l))
        by (rewrite Hf; now left).
      apply filter_In in Hin. destruct Hin as (Hh & Hpn).
      exists h. split; [exact Hh | now apply Z.eqb_eq].
Qed.

(** One range leaves the estimators alone, whatever its outcome. *)
Lemma range_ack_estimators now qc i min max st :
  let r := njt_quic_handle_ack_frame_range mtu sack now qc i min max st in
  rtt (snd (fst r)) = rtt qc /\ params (snd (fst r)) = params qc.
Proof.
  cbv zeta. unfold njt_quic_handle_ack_frame_range.
  destruct (if is_application _ then _ else _) as [rc0 p].
  destruct (negb (rc0 =? NJT_OK)); [split; reflexivity |].
  set (w0 := mkWalk (set_path p qc) _ false).
  pose proof (ack_walk_conn_frame sack now i min max
                (sent (ctx_of (set_path p qc) i)) w0) as Hfr.
  destruct (ack_walk sack now i min max (sent (ctx_of (set_path p qc) i)) w0)
    as [kept w].
  cbn [snd w_qc w0] in Hfr.
  destruct (conn_frame_rtt _ _ Hfr) as (Hr & Hp & _).
  change (rtt (set_path p qc)) with (rtt qc) in Hr.
  change (params (set_path p qc)) with (params qc) in Hp.
  destruct (negb (w_found w)).
  - destruct (_ <? _); cbn [fst snd]; split; assumption.
  - cbn [fst snd]. destruct (negb _); split; assumption.
Qed.

(** The send time that a range which succeeds reports. *)
Lemma range_ack_max_pn now qc i min max st qa sta :
  njt_quic_handle_ack_frame_range mtu sack now qc i min max st
  = (NJT_OK, qa, sta) ->
  max_pn sta
  = sent_at max (ack_taken min max (sent (ctx_of qc i))) NJT_TIMER_INFINITE.
Proof.
  unfold njt_quic_handle_ack_frame_range.
  destruct (if is_application _ then _ else _) as [rc0 p].
  destruct (negb (rc0 =? NJT_OK)); [discriminate |].
  change (ctx_of (set_path p qc) i) with (ctx_of qc i).
  set (w0 := mkWalk (set_path p qc) _ false).
  pose proof (ack_walk_max_pn now i min max (sent (ctx_of qc i)) w0) as Hm.
  destruct (ack_walk sack now i min max (sent (ctx_of qc i)) w0) as [kept w].
  cbn [snd w_st w0 max_pn] in Hm.
  destruct (negb (w_found w)).
  - destruct (_ <? _); [| discriminate].
    intros H. injection H as _ <-. exact Hm.
  - intros H. injection H as _ <-. exact Hm.
Qed.

(** A range that takes a frame succeeds when the path MTU hook does. *)
Lemma range_ack_found now qc i min max st :
  (forall p a b, fst (mtu p a b) = NJT_OK) ->
  ack_taken min max (sent (ctx_of qc i)) <> [] ->
  fst (fst (njt_quic_handle_ack_frame_range mtu sack now qc i min max st))
  = NJT_OK.
Proof.
  intros Hmtu Hne. unfold njt_quic_handle_ack_frame_range.
  set (hook := if is_application (ctx_level (ctx_of qc i))
               then mtu (path qc) min max else (NJT_OK, path qc)).
  assert (Hrc : fst hook = NJT_OK).
  { subst hook. destruct (is_application _); [apply Hmtu | reflexivity]. }
  destruct hook as [rc0 p]. cbn [fst] in Hrc. subst rc0.
  change (NJT_OK =? NJT_OK) with true. cbn [negb].
  change (ctx_of (set_path p qc) i) with (ctx_of qc i).
  set (w0 := mkWalk (set_path p qc) _ false).
  pose proof (ack_walk_some sack now i min max (sent (ctx_of qc i)) w0 Hne)
    as Hf.
  destruct (ack_walk sack now i min max (sent (ctx_of qc i)) w0) as [kept w].
  cbn [snd] in Hf. rewrite Hf. reflexivity.
Qed.

Lemma ranges_loop_estimators n : forall now i pos min qc st,
  let r := ack_ranges_loop mtu sack parse n now i pos min qc st in
  rtt (snd (fst r)) = rtt qc /\ params (snd (fst r)) = params qc.
Proof.
  induction n as [| n IH]; intros now i pos min qc st; cbn [ack_ranges_loop];
    cbv zeta; [split; reflexivity |].
  destruct (parse pos) as [[[g r] pos'] |]; [| split; reflexivity].
  destruct (_ <? _); [split; reflexivity |].
  destruct (_ <? _); [split; reflexivity |].
  match goal with
  | |- context [njt_quic_handle_ack_frame_range mtu sack now qc i ?a ?b st] =>
      pose proof (range_ack_estimators now qc i a b st) as Hra;
      destruct (njt_quic_handle_ack_frame_range mtu sack now qc i a b st)
        as [[rc1 qa] sta]
  end.
  cbv zeta in Hra. cbn [fst snd] in Hra.
  destruct (negb (rc1 =? NJT_OK)); [exact Hra |].
  destruct Hra as (<- & <-). apply IH.
Qed.

Lemma detect_lost_estimators now qc st :
  rtt (snd (njt_quic_detect_lost find now qc st)) = rtt qc.
Proof.
  destruct (detect_lost_conn_frame find now qc st) as (ev & cg & ->).
  change (rtt (s_qc (lost_scan find now qc)) = rtt qc).
  apply lost_scan_estimators.
Qed.

Lemma rtt_sample_ext now q1 q2 d t :
  rtt q1 = rtt q2 -> params q1 = params q2 ->
  rtt (njt_quic_rtt_sample now q1 d t) = rtt (njt_quic_rtt_sample now q2 d t).
Proof.
  intros Hr Hp. unfold njt_quic_rtt_sample. cbv zeta. rewrite Hr, Hp.
  destruct (_ =? _); reflexivity.
Qed.

(** X14. The round-trip time is sampled only by an ACK frame that raises
    [largest_ack] and newly acknowledges its largest packet, and then
    from the send time of that packet. *)
Theorem handle_ack_rtt_rule now qc lvl (ack : njt_quic_ack_frame_t Buf) :
  let i := njt_quic_get_send_ctx lvl in
  let la := largest_ack (ctx_of qc i) in
  let L := ack_largest ack in
  let taken := ack_taken (L - ack_first_range ack) L (sent (ctx_of qc i)) in
  let qc' := snd (njt_quic_handle_ack_frame mtu sack find parse now qc lvl ack) in
  0 <= ack_first_range ack -> L < 2 ^ 64 ->
  ((la <> NJT_QUIC_UNSET_PN /\ L <= la)
   \/ (forall f, In f taken -> pnum f <> L) ->
   rtt qc' = rtt qc)
  /\ (forall f,
        ack_first_range ack <= L ->
        la = NJT_QUIC_UNSET_PN \/ la < L ->
        In f taken -> pnum f = L ->
        (forall g, In g taken -> pnum g = L -> send_time g = send_time f) ->
        send_time f <> NJT_TIMER_INFINITE ->
        (forall p a b, fst (mtu p a b) = NJT_OK) ->
        rtt qc'
        = rtt (njt_quic_rtt_sample now qc (ack_delay ack) (send_time f))).
Proof.
  intros i la L taken qc' Hfr HL. subst qc'.
  unfold njt_quic_handle_ack_frame. cbv zeta. fold i. fold L.
  destruct (Z.ltb_spec L (ack_first_range ack)) as [Hbad | Hok].
  { cbn [snd]. split; [reflexivity |]. intros f Hwell. lia. }
  rewrite (wrap_small (L - ack_first_range ack)) by lia.
  set (mn := L - ack_first_range ack) in *.
  set (st0 := mkStat _ _ _).
  pose proof (range_ack_estimators now qc i mn L st0) as He.
  pose proof (range_ack_max_pn now qc i mn L st0) as Hm.
  pose proof (range_ack_error mtu sack now qc i mn L st0) as Herr.
  pose proof (range_ack_trace mtu sack now qc i mn L st0 L (Z.le_refl _))
    as (_ & _ & Hla).
  cbv zeta in He, Herr.
  destruct (njt_quic_handle_ack_frame_range mtu sack now qc i mn L st0)
    as [[rc qa] sta] eqn:Hrange.
  cbn [fst snd] in He, Herr, Hla. destruct He as (Hr & Hp).
  fold taken in Hm.
  assert (Hrest : forall qb,
            rtt (snd (let '(rc2, qd, std) :=
                        ack_ranges_loop mtu sack parse
                          (Z.to_nat (ack_range_count ack)) now i
                          (ack_data ack) mn qb sta in
                      if rc2 =? NJT_OK
                      then njt_quic_detect_lost find now qd (Some std)
                      else (NJT_ERROR, qd)))
            = rtt qb).
  { intros qb.
    pose proof (ranges_loop_estimators (Z.to_nat (ack_range_count ack)) now i
                  (ack_data ack) mn qb sta) as Hl.
    cbv zeta in Hl.
    destruct (ack_ranges_loop mtu sack parse (Z.to_nat (ack_range_count ack))
                now i (ack_data ack) mn qb sta) as [[rc2 qd] std].
    cbn [fst snd] in Hl. destruct Hl as (Hl & _).
    destruct (rc2 =? NJT_OK); [| exact Hl].
    rewrite detect_lost_estimators. exact Hl. }
  destruct (Z.eqb_spec rc NJT_OK) as [-> | Hne]; cbn [negb].
  2:{ cbn [snd]. split; [intros _; exact Hr |].
      intros f _ _ Hin _ _ _ Hmtu. exfalso.
      (* a range that takes a frame succeeds *)
      assert (Htaken : taken <> []) by (intros E; rewrite E in Hin; exact Hin).
      pose proof (range_ack_found now qc i mn L st0 Hmtu Htaken) as Hgood.
      rewrite Hrange in Hgood. cbn [fst] in Hgood. contradiction. }
  specialize (Hm _ _ eq_refl). rewrite (Hla i). fold la.
  rewrite Hrest.
  split.
  - intros [[Hu Hle] | Hnone].
    + destruct (Z.ltb_spec la L); [lia |].
      destruct (Z.eqb_spec la NJT_QUIC_UNSET_PN); [contradiction |].
      cbn [orb]. exact Hr.
    + rewrite (sent_at_none L taken _ Hnone) in Hm.
      destruct (_ || _); [| exact Hr].
      rewrite Hm. rewrite Z.eqb_refl. cbn [negb]. exact Hr.
  - intros f _ Hcase Hin Hpn Htimes Hinf _.
    rewrite (sent_at_some L taken _ (send_time f)) in Hm.
    2:{ intros g Hg Hgp. now apply Htimes. }
    2:{ exists f. split; assumption. }
    assert (Hc : (la <? L) || (la =? NJT_QUIC_UNSET_PN) = true).
    { destruct Hcase as [-> | Hlt].
      - rewrite Z.eqb_refl. apply orb_true_r.
      - apply orb_true_iff. left. now apply Z.ltb_lt. }
    rewrite Hc, Hm.
    destruct (Z.eqb_spec (send_time f) NJT_TIMER_INFINITE); [contradiction |].
    cbn [negb]. apply rtt_sample_ext; [exact Hr | exact Hp].
Qed.

End RttRule.

(** Sample run: the ACK of packet 3, sent at millisecond 1000, samples
    the round-trip time at millisecond 1100. *)
Lemma handle_ack_rtt_rule_witness :
  rtt (snd (njt_quic_handle_ack_frame mtu_ok sack_id find_none parse_list
              1100 one_sent_conn ssl_encryption_initial exact_ack))
  = rtt (njt_quic_rtt_sample 1100 one_sent_conn (ack_delay exact_ack) 1000).
Proof.
  pose proof (handle_ack_rtt_rule mtu_ok sack_id find_none parse_list 1100
                one_sent_conn ssl_encryption_initial exact_ack) as H.
  cbv zeta in H. destruct H as (_ & H).
  - cbn. lia.
  - cbn. lia.
  - apply (H (mkFrame ssl_encryption_initial (FT_OTHER 6) 3 1000 1200 false)).
    + cbn. lia.
    + right. cbn. lia.
    + cbn. left. reflexivity.
    + reflexivity.
    + cbn. intros g [<- | []] _. reflexivity.
    + cbn. unfold NJT_TIMER_INFINITE. lia.
    + intros p a b. reflexivity.
Defined.

(** ** The loss timer handler *)

Section LostHandler.
Context {Tree Path : Type}.
Variable find : Tree -> Z -> option njt_quic_stream_t.
Implicit Types (qc q : njt_quic_connection_t Tree Path) (f : njt_quic_frame_t).

(** X15. [njt_quic_lost_handler] never closes the connection and never
    declares persistent congestion: it lowers the window at most as one
    congestion event, and leaves nothing for a second run of the loss
    detector in the same millisecond. *)
Theorem lost_handler_reduces_once now qc :
  small now -> small (recovery_start (congestion qc)) ->
  0 <= tp_max_udp_payload_size (params qc) < 2 ^ 63 ->
  all_sent (sent_by now) qc ->
  exists qc',
    njt_quic_lost_handler find now qc = Returned qc'
    /\ scan_window now (congestion qc)
                   (2 * tp_max_udp_payload_size (params qc)) (congestion qc')
    /\ njt_quic_detect_lost find now qc' None = (NJT_OK, qc').
Proof.
  intros Hnow Hr Hm Hall.
  exists (snd (njt_quic_detect_lost find now qc None)).
  split; [reflexivity |]. split.
  - (* the scan *)
    unfold njt_quic_detect_lost. cbn [snd pcg_established].
    rewrite set_lost_timer_congestion.
    set (p := params qc). set (cg0 := congestion qc).
    set (P := fun a : lost_scan_t Tree Path =>
                all_sent (sent_by now) (s_qc a) /\ params (s_qc a) = p
                /\ scan_window now cg0 (2 * tp_max_udp_payload_size p)
                               (congestion (s_qc a))).
    assert (Hturn : forall a i thr,
              P a -> P (detect_lost_turn find now thr a i)).
    { intros a i thr Ha. unfold detect_lost_turn.
      destruct (_ =? _); [exact Ha |].
      apply (detect_lost_ctx_inv find P); [| exact Ha].
      intros a' start rest Ha' Hs.
      apply (scan_window_step find now cg0 p i a' start rest); assumption. }
    assert (Hscan : P (lost_scan find now qc)).
    { unfold lost_scan. cbn [fold_left]. repeat apply Hturn.
      split; [exact Hall |]. split; [reflexivity |]. left. repeat split. }
    apply Hscan.
  - destruct (detect_lost_settles find now qc None) as (Hset & Htimer & _).
    set (q1 := snd (njt_quic_detect_lost find now qc None)) in *.
    unfold njt_quic_detect_lost at 1.
    rewrite (lost_scan_settled find now q1 Hset).
    cbn [pcg_established s_qc]. rewrite Htimer. reflexivity.
Qed.

End LostHandler.

(** ** What a resend puts back in the queue *)

Section Requeue.
Context {Tree Path : Type}.
Variable find : Tree -> Z -> option njt_quic_stream_t.
Implicit Types (qc q : njt_quic_connection_t Tree Path) (f : njt_quic_frame_t).

Lemma frames_insert_tail j f qc k :
  frames (ctx_of (queue_insert_tail j f qc) k)
  = if ctx_ix_eqb j k then frames (ctx_of qc k) ++ [f]
    else frames (ctx_of qc k).
Proof. destruct j, k; reflexivity. Qed.

(** One frame of the lost packet: at most one frame is appended to one
    of the queues [frames], of a type that is handed back. *)
Lemma resend_one_frames i f qc k :
  exists l,
    frames (ctx_of (resend_one find i f qc) k) = frames (ctx_of qc k) ++ l
    /\ Forall (fun g => requeued (kind g) /\ pnum g = pnum f) l.
Proof.
  assert (Hnone : exists l,
            frames (ctx_of qc k) = frames (ctx_of qc k) ++ l
            /\ Forall (fun g => requeued (kind g) /\ pnum g = pnum f) l).
  { exists []. split; [now rewrite app_nil_r | constructor]. }
  assert (Hone : forall j g, requeued (kind g) -> pnum g = pnum f ->
            exists l,
              frames (ctx_of (queue_insert_tail j g qc) k)
              = frames (ctx_of qc k) ++ l
              /\ Forall (fun g => requeued (kind g) /\ pnum g = pnum f) l).
  { intros j g Hk Hp. rewrite frames_insert_tail.
    destruct (ctx_ix_eqb j k); [| exact Hnone].
    exists [g]. split; [reflexivity |]. constructor; [now split | constructor]. }
  unfold resend_one, njt_quic_queue_frame.
  destruct (kind f) eqn:Hkind; try exact Hnone;
    try (apply Hone; [exact I | reflexivity]);
    try (apply Hone; [rewrite Hkind; exact I | reflexivity]).
  - destruct (is_application _); [| exact Hnone].
    exists []. split; [| constructor]. rewrite app_nil_r.
    destruct i, k; reflexivity.
  - destruct (is_application _); [| exact Hnone].
    exists []. split; [| constructor]. rewrite app_nil_r.
    destruct i, k; reflexivity.
  - destruct (find _ _) as [qs |].
    + destruct (send_state qs); try exact Hnone;
        apply Hone; try (rewrite Hkind; exact I); reflexivity.
    + apply Hone; [rewrite Hkind; exact I | reflexivity].
  - destruct (find _ _) as [qs |]; [| exact Hnone].
    apply Hone; [exact I | reflexivity].
Qed.

Lemma resend_walk_frames i pn k : forall (l0 : list njt_quic_frame_t) qc,
  exists l,
    frames (ctx_of (snd (resend_walk find i pn l0 qc)) k)
    = frames (ctx_of qc k) ++ l
    /\ Forall (fun g => requeued (kind g) /\ pnum g = pn) l.
Proof.
  induction l0 as [| f l0 IH]; intros qc; cbn [resend_walk].
  { exists []. split; [now rewrite app_nil_r | constructor]. }
  destruct (Z.eqb_spec (pnum f) pn) as [E | E].
  - destruct (IH (resend_one find i f qc)) as (l2 & H2 & F2).
    destruct (resend_one_frames i f qc k) as (l1 & H1 & F1).
    exists (l1 ++ l2). split.
    + rewrite H2, H1, app_assoc. reflexivity.
    + apply Forall_app. split; [| exact F2].
      rewrite Forall_forall in F1 |- *. intros g Hg.
      destruct (F1 g Hg) as (Hk & Hp). split; [exact Hk | congruence].
  - exists []. split; [now rewrite app_nil_r | constructor].
Qed.

Lemma congestion_lost_ctx now qc f k :
  ctx_of (fst (njt_quic_congestion_lost now qc f)) k = ctx_of qc k.
Proof.
  unfold njt_quic_congestion_lost.
  destruct (plen f =? 0); [reflexivity |].
  destruct (pnum f <? rst_pnum (params qc)); [reflexivity |].
  cbv zeta. unfold congestion_done.
  destruct (msec_int _ <=? 0); cbn [fst];
    destruct (_ && _); reflexivity.
Qed.

(** X16. What [njt_quic_resend_frames] hands back to the sender: it
    appends to the queue [frames], and what it appends are frames of the
    lost packet, none of them an ACK, a PING, a PATH_CHALLENGE, a
    PATH_RESPONSE or a CONNECTION_CLOSE. *)
Theorem resend_frames_requeues now qc i start rest k :
  sent (ctx_of qc i) = start :: rest ->
  exists l,
    frames (ctx_of (njt_quic_resend_frames find now qc i) k)
    = frames (ctx_of qc k) ++ l
    /\ Forall (fun g => requeued (kind g) /\ pnum g = pnum start) l.
Proof.
  intros Hs. unfold njt_quic_resend_frames. rewrite Hs.
  pose proof (congestion_lost_ctx now qc start k) as Hc.
  destruct (njt_quic_congestion_lost now qc start) as [q1 start'].
  cbn [fst] in Hc.
  destruct (resend_walk_frames i (pnum start) k (start' :: rest) q1)
    as (l & Hl & Fl).
  destruct (resend_walk find i (pnum start) (start' :: rest) q1)
    as [kept q2].
  cbn [snd] in Hl. exists l. split; [| exact Fl].
  rewrite <- Hc, <- Hl.
  destruct (closing _); destruct i, k; reflexivity.
Qed.

End Requeue.

(** Sample run: the loss timer fires at millisecond 1050; packets 5 and 6
    are lost and count as one congestion event. *)
Lemma lost_handler_reduces_once_witness :
  exists qc',
    njt_quic_lost_handler find_none 1050 gap_conn = Returned qc'
    /\ scan_window 1050 (congestion gap_conn)
                   (2 * tp_max_udp_payload_size (params gap_conn))
                   (congestion qc')
    /\ njt_quic_detect_lost find_none 1050 qc' None = (NJT_OK, qc').
Proof.
  apply (lost_handler_reduces_once find_none 1050 gap_conn).
  - unfold small. lia.
  - unfold small. cbn. lia.
  - cbn. lia.
  - exact gap_conn_sent_by.
Defined.

Lemma resend_frames_requeues_witness :
  exists l,
    frames (ctx_of (njt_quic_resend_frames find_none 1050 gap_conn Ix0) Ix0)
    = frames (ctx_of gap_conn Ix0) ++ l
    /\ Forall (fun g => requeued (kind g)
                        /\ pnum g
                           = pnum (mkFrame ssl_encryption_initial (FT_OTHER 6)
                                           5 1000 1200 false)) l.
Proof.
  apply (resend_frames_requeues find_none 1050 gap_conn Ix0
           (mkFrame ssl_encryption_initial (FT_OTHER 6) 5 1000 1200 false)
           [mkFrame ssl_encryption_initial (FT_OTHER 6) 6 1000 1200 false;
            mkFrame ssl_encryption_initial (FT_OTHER 6) 8 1005 1200 false]).
  reflexivity.
Defined.

(** ** Calls in a row *)

Section AckPackets.
Context {Tree Path Keys : Type}.
Variable maxr : Z.
Variable keys_available : Keys -> ssl_encryption_level_t -> Z -> bool.
Variable ack_sender :
  Z -> njt_quic_recv_t Tree Path Keys -> ctx_ix
  -> Z * njt_quic_recv_t Tree Path Keys.
Variable range_sender :
  Z -> njt_quic_recv_t Tree Path Keys -> ctx_ix -> Z -> Z
  -> Z * njt_quic_recv_t Tree Path Keys.
Implicit Types s : njt_quic_recv_t Tree Path Keys.

Lemma same_keys_refl ci s : same_keys ci s s.
Proof. split; reflexivity. Qed.

Lemma same_keys_trans ci s1 s2 s3 :
  same_keys ci s1 s2 -> same_keys ci s2 s3 -> same_keys ci s1 s3.
Proof. intros (a & b) (c & d). split; congruence. Qed.

Lemma same_keys_set_rctx ci c s :
  ctx_level c = ctx_level (rctx s ci) -> same_keys ci s (set_rctx ci c s).
Proof.
  intros H. split; [reflexivity | rewrite rctx_set_rctx; exact H].
Qed.

Lemma same_keys_set_ack ci x s : same_keys ci s (set_ack ci x s).
Proof.
  split; [destruct ci; reflexivity | rewrite rctx_set_ack; reflexivity].
Qed.

Lemma grow_above_level i v c : ctx_level (grow_above i v c) = ctx_level c.
Proof. unfold grow_above. destruct (i =? 0); reflexivity. Qed.

Lemma ack_insert_keys ci i g rg s :
  same_keys ci s (ack_insert maxr ci i g rg s).
Proof.
  unfold ack_insert. apply same_keys_set_rctx.
  destruct (_ <? _); reflexivity.
Qed.

Lemma ack_lookup_keys ci pn : forall todo i sm s,
  match ack_lookup todo ci pn i sm s with
  | Found s' => same_keys ci s s'
  | _ => True
  end.
Proof.
  induction todo as [| todo IH]; intros i sm s; cbn [ack_lookup]; [exact I |].
  destruct (_ && _).
  - destruct (_ =? _).
    { apply same_keys_set_rctx. unfold gap_filled.
      destruct (negb _); cbn [ctx_level set_nranges set_ranges set_range_db];
        apply grow_above_level. }
    destruct (_ =? _); [apply same_keys_set_rctx; reflexivity |].
    destruct (_ =? _); [| exact I].
    apply same_keys_set_rctx. unfold gap_head.
    rewrite grow_above_level. reflexivity.
  - destruct (_ && _); [apply same_keys_refl | apply IH].
Qed.

Lemma ack_needed_keys now ci pn s : same_keys ci s (ack_needed now ci pn s).
Proof.
  unfold ack_needed. cbv zeta.
  set (s0 := set_r_qc (post_push (r_qc s)) s).
  assert (H0 : same_keys ci s s0) by (split; destruct ci; reflexivity).
  set (s1 := if send_ack (rctx s0 ci) =? 0
             then set_ack ci (set_ack_delay_start now (ack_of s0 ci)) s0
             else s0).
  assert (H1 : same_keys ci s0 s1).
  { subst s1. destruct (_ =? 0);
      [apply same_keys_set_ack | apply same_keys_refl]. }
  apply (same_keys_trans ci s s0 _ H0).
  apply (same_keys_trans ci s0 s1 _ H1).
  apply same_keys_set_rctx. destruct (_ || _); reflexivity.
Qed.

Lemma ack_behind_keys now ci pkt pp sm s :
  nranges (rctx s ci) < maxr ->
  same_keys ci s
    (snd (ack_behind maxr ack_sender range_sender now ci pkt pp sm s)).
Proof.
  intros Hroom. unfold ack_behind. cbv zeta.
  pose proof (ack_lookup_keys ci (pkt_pn pkt)
                (Z.to_nat (nranges (rctx s ci))) 0 sm s) as Hl.
  destruct (ack_lookup (Z.to_nat (nranges (rctx s ci))) ci (pkt_pn pkt) 0 sm s)
    as [s' | i gs ge | i sm'].
  - exact Hl.
  - rewrite (ack_full_room maxr ack_sender) by exact Hroom.
    change (NJT_OK =? NJT_OK) with true. cbn [negb snd].
    eapply same_keys_trans; [| apply ack_insert_keys].
    apply same_keys_set_rctx. reflexivity.
  - destruct (_ =? _); cbn [snd].
    + apply same_keys_set_rctx. apply grow_above_level.
    + destruct (Z.eqb_spec (nranges (rctx s ci)) maxr); [lia |].
      cbn [snd]. apply ack_insert_keys.
Qed.

Lemma ack_front_keys now ci pkt pp base s :
  nranges (rctx s ci) < maxr ->
  same_keys ci s (snd (ack_front maxr ack_sender now ci pkt pp base s)).
Proof.
  intros Hroom. unfold ack_front. cbv zeta.
  rewrite (ack_full_room maxr ack_sender) by exact Hroom.
  change (NJT_OK =? NJT_OK) with true. cbn [negb snd].
  eapply same_keys_trans; [| apply ack_insert_keys].
  eapply same_keys_trans; [apply same_keys_set_ack |].
  apply same_keys_set_rctx. rewrite rctx_set_ack.
  destruct (need_ack pkt); reflexivity.
Qed.

Lemma ack_packet_keys now s pkt :
  let ci := njt_quic_get_send_ctx (pkt_level pkt) in
  nranges (rctx s ci) < maxr ->
  same_keys ci s
    (snd (njt_quic_ack_packet maxr keys_available ack_sender range_sender
                              now s pkt)).
Proof.
  intros ci Hroom. unfold njt_quic_ack_packet. cbv zeta. fold ci.
  destruct (negb _); [apply same_keys_refl |].
  set (s1 := if need_ack pkt then ack_needed now ci (pkt_pn pkt) s else s).
  assert (H1 : same_keys ci s s1).
  { subst s1. destruct (need_ack pkt);
      [apply ack_needed_keys | apply same_keys_refl]. }
  assert (Hroom1 : nranges (rctx s1 ci) < maxr).
  { subst s1. destruct (need_ack pkt); [| exact Hroom].
    destruct (ack_needed_db now ci (pkt_pn pkt) s) as (_ & _ & -> & _).
    exact Hroom. }
  clearbody s1. apply (same_keys_trans ci s s1 _ H1).
  destruct (_ =? NJT_QUIC_UNSET_PN).
  { cbn [snd]. eapply same_keys_trans; [| apply same_keys_set_ack].
    apply same_keys_set_rctx. reflexivity. }
  destruct (_ =? _); [apply same_keys_refl |].
  destruct (_ <? _).
  - destruct (_ =? 1).
    + cbn [snd]. eapply same_keys_trans; [| apply same_keys_set_ack].
      apply same_keys_set_rctx. reflexivity.
    + apply ack_front_keys. exact Hroom1.
  - set (s2 := if need_ack pkt
               then set_rctx ci (set_send_ack NJT_QUIC_MAX_ACK_GAP
                                              (rctx s1 ci)) s1
               else s1).
    assert (H2 : same_keys ci s1 s2).
    { subst s2. destruct (need_ack pkt);
        [apply same_keys_set_rctx; reflexivity | apply same_keys_refl]. }
    assert (Hroom2 : nranges (rctx s2 ci) < maxr).
    { subst s2. destruct (need_ack pkt); [| exact Hroom1].
      rewrite rctx_set_rctx. exact Hroom1. }
    clearbody s2. apply (same_keys_trans ci s1 s2 _ H2).
    destruct (_ && _); [apply same_keys_refl |].
    apply ack_behind_keys. exact Hroom2.
Qed.

(** X17. Packets of one level handed to [njt_quic_ack_packet] one after
    the other, as long as the array has room for one entry more for each
    of them: every call succeeds, and the database ends up holding the
    packet numbers it held and those of the packets, and no other. *)
Theorem ack_packets_recorded ci : forall pkts s,
  let call r tp :=
    if fst r =? NJT_OK
    then njt_quic_ack_packet maxr keys_available ack_sender range_sender
                             (fst tp) (snd r) (snd tp)
    else r in
  let res := fold_left call pkts (NJT_OK, s) in
  0 < maxr < 2 ^ 64 -> db_wf maxr (rctx s ci) ->
  nranges (rctx s ci) + Z.of_nat (List.length pkts) <= maxr ->
  Forall (fun tp => njt_quic_get_send_ctx (pkt_level (snd tp)) = ci
                    /\ 0 <= pkt_pn (snd tp) < 2 ^ 62) pkts ->
  keys_available (r_keys s) (ctx_level (rctx s ci)) 1 = true ->
  fst res = NJT_OK
  /\ db_wf maxr (rctx (snd res) ci)
  /\ forall x, db_mem (rctx (snd res) ci) x
               <-> db_mem (rctx s ci) x
                   \/ In x (map (fun tp => pkt_pn (snd tp)) pkts).
Proof.
  induction pkts as [| tp pkts IH]; intros s; cbv zeta;
    intros Hmax Hwf Hroom Hall Hk.
  - cbn [fold_left fst snd map In].
    split; [reflexivity |]. split; [exact Hwf |]. intros x. tauto.
  - cbn [fold_left fst snd].
    change (NJT_OK =? NJT_OK) with true. cbv iota.
    inversion Hall as [| tp' l' (Hci & Hpn) Hrest]; subst tp' l'.
    cbn [List.length] in Hroom.
    assert (Hr : nranges (rctx s ci) < maxr) by lia.
    pose proof (ack_packet_keys (fst tp) s (snd tp)) as Hkeys.
    pose proof (ack_packet_core maxr keys_available ack_sender range_sender
                  (fst tp) s (snd tp) Hmax) as Hcore.
    cbv zeta in Hkeys, Hcore. rewrite Hci in Hkeys, Hcore.
    destruct (Hkeys Hr) as (K1 & K2).
    destruct (Hcore Hwf Hpn (or_introl Hr) Hk) as (Q1 & Qn & Q2 & Q3).
    destruct (Q3 Hr) as (Q4 & Q5).
    destruct (njt_quic_ack_packet maxr keys_available ack_sender range_sender
                (fst tp) s (snd tp)) as [rc s1].
    cbn [fst snd] in *. subst rc.
    destruct (IH s1) as (R1 & R2 & R3); try assumption.
    + lia.
    + rewrite K1, K2. exact Hk.
    + split; [exact R1 |]. split; [exact R2 |].
      intros x. cbn [map In]. rewrite R3. split.
      * intros [H | H]; [| tauto].
        destruct (Q2 x H) as [H' | H']; [tauto |]. right. left. now symmetry.
      * intros [H | [H | H]]; [| | tauto].
        -- left. apply Q5. now left.
        -- left. apply Q5. right. now symmetry.
Qed.

End AckPackets.

(** Sample run: packets 4 and 7 arrive behind packets 2, 5, 6 and 9. *)
Lemma ack_packets_recorded_witness :
  db_mem (rctx (snd (njt_quic_ack_packet 4 keys_ok ack_sent range_sent 101
                       (snd (njt_quic_ack_packet 4 keys_ok ack_sent range_sent
                               100 recv_conn late_pkt))
                       (mkHeader ssl_encryption_application 7 false 101)))
               Ix2) 7.
Proof.
  pose proof (ack_packets_recorded 4 keys_ok ack_sent range_sent Ix2
                [(100, late_pkt);
                 (101, mkHeader ssl_encryption_application 7 false 101)]
                recv_conn) as H.
  cbv zeta in H. destruct H as (_ & _ & H).
  - lia.
  - exact db_ctx_wf.
  - cbn. lia.
  - repeat constructor; cbn; lia.
  - reflexivity.
  - apply (proj2 (H 7)). right. right. left. reflexivity.
Defined.
